(* ===== verification/_CoqProject ===== *)
-Q . S2P
Prelude.v
Pmm.v
Mem.v
Strings.v
Vmm.v
UserSpace.v
ElfLoad.v
Heap.v
Cpu.v
Sched.v
Input.v
Fonts.v
Console.v
Shm.v
Vfs.v
Devfs.v
Printf.v
Arith.v
VfsData.v
VfsTree.v
UnixSocket.v
System.v
Epoll.v
Syscall.v
SyscallMem.v
KernelInv.v
Machine.v
Boot.v
ShellVars.v
ShellWords.v
ShellRun.v
ShellScript.v
ShellProgram.v
ShellOutput.v
ShellCommands.v
ShellTools.v
ShellReadline.v
Process.v
Libc.v
LibcHeap.v
LibcHeapSpec.v
LibcString.v
LibcPrintf.v
LibcStdio.v
GuiSession.v
