(* ===== verification/Prelude.v ===== *)
(** * VNL: a verified model of the kernel

    VNL is a small x86-64 operating system in C. This library models its kernel,
    the C files under src/src/, function by function, and proves what makes each
    component correct. The model is executable: every function of the source is a
    Rocq function under the source's name, and the samples at the end of each file
    run it.

    ** How the parts fit together

    The boot loader's memory map gives the frames of the physical memory manager.
    Frames hold the page tables of virtual memory and the pages of programs. The
    kernel heap grows over frames mapped behind its end; file contents and kernel
    stacks are heap blocks. The scheduler switches between tasks, each with a kernel
    stack and an address space. The file system keeps a table of nodes and a table of
    descriptors, and reaches the devices (framebuffer, keyboard, mouse, serial line,
    shared memory) through the device files. Local sockets and epoll build on the file
    system. The system call dispatcher is where programs enter all of them, and the
    loader makes programs out of files.

    ** The files

    Prelude: integers of the machine, outcomes and the state monad, lenses, program
      logic, tactics (include/types.h, errno.h).
    Pmm: mm/pmm.c, the frame bitmap.
    Mem: memory as bytes. Strings: lib/string.c.
    Vmm: mm/vmm.c, mm/uspace.c, kernel/uaccess.c, the page tables.
    UserSpace: what pages added to an address space do; shared by the loader, the
      break, mappings and stacks. ElfLoad: kernel/elf_load.c.
    Heap: mm/heap.c, and the Allocator interface its clients use.
    Cpu: cpu/gdt.c, idt.c, irq.c, drivers/timer.c, serial.c.
    Sched: kernel/sched.c. Input: drivers/keyboard.c, mouse.c.
    Fonts, Console: lib/fonts.c, drivers/vga.c, fb.c, the cursor of kernel/gui.c.
    Shm: kernel/shm.c. Vfs: fs/vfs.c, and the Devices interface it uses.
    Devfs: fs/devfs.c, which implements Devices. Printf: lib/printf.c.
    Arith: the arithmetic of shell/sh.c.
    VfsData, VfsTree: what vfs.c does to contents and to the tree of names.
    UnixSocket: net/un_socket.c.
    System: the state of the whole kernel as one record, and starting programs
      (kernel/elf_load.c, user_task.c). Epoll, Syscall: kernel/syscall.c.
    SyscallMem: the break and anonymous mappings. KernelInv: the invariant of all.
    Machine: the kernel's state with its output, and drivers/pci.c, acpi.c,
      rtl8139.c, net/vnet.c. Boot: kernel/main.c, gui_env.c. GuiSession: the session of
      kernel/gui.c and the screen of panic.c.
    ShellVars, ShellWords, ShellRun, ShellScript: shell/sh.c from its tables up to
      the interactive loop, and how shell.c finds commands. ShellProgram: programs,
      their text and their meaning. ShellOutput: what commands print.
    ShellCommands: the commands and the loop of shell/shell.c, apps.c, vpkg.c,
      vinstall.c, vsnake.c. ShellTools: sort, grep and the game. ShellReadline: the
      line editor.
    Process: what a user program asks of the kernel (its memory and system calls) as
      an interface with laws, which the kernel's model keeps. Libc, LibcHeap,
      LibcString, LibcPrintf, LibcStdio: ports/libc/libc.c over any such process;
      LibcHeapSpec: its allocator.

    ** How code is modelled

    A computation is a function from the state to an outcome: Done with a result and a
    new state, Panicked for kpanic(), Undefined where C gives no meaning (an index out
    of range, a null pointer), Blocked where the code waits for another task or a
    device, OutOfFuel when a bound of the model was too small. Static variables are the
    fields of a component's record; a static array is a function of the index. A
    component inside a larger state is reached through a lens ([zoom]), so a caller is
    composed of its callees' models as in C. Integers are Z with the wrap of their
    width written out (u8 to u64, s8 to s64). Memory is bytes; the boot identity map
    makes a physical address below 4 GiB a pointer to it. Port reads answer with an
    arbitrary oracle, and writes are recorded. Dereferences of user pointers by the
    processor are parameters of Syscall.

    Loops with a bound in the code run over it. Others take fuel: the walks of the free
    list and of the pages (the theorems give the fuel from the invariant), string loops
    (the length of the string), polls of the serial line (the device may never answer),
    the control messages of sendmsg (the loop of the code need not end), the format of
    printf (its length), the blocks of scripts (their length), calls in the shell (the
    depth of calls). Every theorem that uses fuel says how much is enough, or speaks
    of all runs that return.

    ** What is proved

    Frames are never handed out twice and the allocator is the set of free frames.
    Mapping, unmapping and new address spaces do exactly what they say and keep the
    tables of different walks apart; copies across the user boundary are inverse. The
    heap hands out disjoint blocks and merges them again; its invariant gives the
    Allocator laws the scheduler and the file system are proved from. The scheduler
    picks tasks in turn, starves none and keeps its table. The node table is a tree,
    for calls that create well-formed names; paths resolve as walks of names; a write
    is read back. Sockets keep their peers symmetric and a connection is a bounded
    byte stream; epoll is a finite map. A loaded program sees the image its file
    describes; the break and mappings grow the address space by zeroed pages. printf
    writes what its directives say and returns wherever its numbers have room. The
    boot establishes the invariants of all tables, and interrupts, stores of programs
    and system calls keep them, where a call that creates a name gets a well-formed
    path; a call disturbs only its result register. Words expand to the values of
    their pieces, arguments are split as they were quoted, and scripts of plain
    commands and conditionals, none of them last in the body of another, mean what
    they say. Reading a line is a plain line editor over the keys; sort prints its
    lines in order.
    For user programs, from the laws the kernel keeps: malloc, realloc, free and strdup
    give blocks of their own and keep the others; numbers and formats are read and
    written as texts of their meaning; what needs a pipe always fails.
    Where the code does something it does not mean to, the theorem says what it does
    (an unmap that never ends, sizes that wrap, reads past the end of a file).

    ** Not modelled

    The assembler (boot, interrupt stubs, context switch): its effect is the saved
    registers and stack pointers. Caches, translation buffers, faults and interrupts
    inside a kernel function. Drawing of the desktop, its generated resources, floating
    point (in the kernel and in the C library), the image and font libraries. What a
    network card writes into memory. The bodies of the C library that never run (the
    thread of a timer descriptor, the handler of a signal descriptor) and its constant
    texts (getenv, strerror). The display server and the vendored libraries of the user
    programs. *)

From Stdlib Require Export ZArith Lia.
From stdpp Require Export base tactics numbers list gmap strings functions.

#[export] Set Default Goal Selector "!".
#[global] Open Scope Z_scope.

Create HintDb vnl.
Create Rewrite HintDb vnl.

(** [lia] with division and modulo by constants. *)
Ltac zlia := Z.div_mod_to_equations; lia.

(** ** Machine integers (include/types.h) *)

Definition u8 (z : Z) : Z := z mod 2^8.
Definition u16 (z : Z) : Z := z mod 2^16.
Definition u32 (z : Z) : Z := z mod 2^32.
Definition u64 (z : Z) : Z := z mod 2^64.
Definition s8 (z : Z) : Z := (z + 2^7) mod 2^8 - 2^7.
Definition s32 (z : Z) : Z := (z + 2^31) mod 2^32 - 2^31.
Definition s64 (z : Z) : Z := (z + 2^63) mod 2^64 - 2^63.

(** [bool] and [int] conversions of C. *)
Definition b2z (b : bool) : Z := if b then 1 else 0.
Definition nonzero (z : Z) : bool := negb (z =? 0).

Definition PAGE_SIZE : Z := 4096.
Definition ALIGN_UP (val align : Z) : Z := Z.land (u64 (val + (align - 1))) (Z.lnot (align - 1)).
Definition ALIGN_DOWN (val align : Z) : Z := Z.land val (Z.lnot (align - 1)).

(** ** Error numbers (include/errno.h) *)

Definition EPERM : Z := 1.
Definition ENOENT : Z := 2.
Definition EINTR : Z := 4.
Definition EIO : Z := 5.
Definition E2BIG : Z := 7.
Definition ENOEXEC : Z := 8.
Definition EBADF : Z := 9.
Definition EAGAIN : Z := 11.
Definition ENOMEM : Z := 12.
Definition EFAULT : Z := 14.
Definition EEXIST : Z := 17.
Definition ENODEV : Z := 19.
Definition ENOTDIR : Z := 20.
Definition EINVAL : Z := 22.
Definition EMFILE : Z := 24.
Definition ENOTTY : Z := 25.
Definition EFBIG : Z := 27.
Definition ERANGE : Z := 34.
Definition ENOSYS : Z := 38.
Definition ENOTSOCK : Z := 88.
Definition EADDRINUSE : Z := 98.
Definition ENOTCONN : Z := 107.
Definition ECONNREFUSED : Z := 111.

(** ** Outcomes of kernel code *)

(** [Panicked] is kpanic()/ASSERT, [Undefined] is undefined behaviour of C
    (null dereference, array index out of range), [Blocked] is a wait for
    another task or an interrupt that cannot end in the current state, and
    [OutOfFuel] is a loop that used up the fuel the caller gave it. *)
Inductive outcome (A : Type) : Type :=
| Done (a : A)
| Panicked (msg : string)
| Undefined
| Blocked
| OutOfFuel.
Arguments Done {A} a.
Arguments Panicked {A} msg.
Arguments Undefined {A}.
Arguments Blocked {A}.
Arguments OutOfFuel {A}.

(** Code that reads and writes a state [S] and returns an [A]. *)
Definition M (S A : Type) : Type := S -> outcome (A * S).

#[global] Instance M_ret S : MRet (M S) := fun A a s => Done (a, s).
#[global] Instance M_bind S : MBind (M S) := fun A B f m s =>
  match m s with
  | Done (a, s') => f a s'
  | Panicked msg => Panicked msg
  | Undefined => Undefined
  | Blocked => Blocked
  | OutOfFuel => OutOfFuel
  end.

Definition get {S} : M S S := fun s => Done (s, s).
Definition gets {S A} (f : S -> A) : M S A := fun s => Done (f s, s).
Definition put {S} (s : S) : M S unit := fun _ => Done (tt, s).
Definition modify {S} (f : S -> S) : M S unit := fun s => Done (tt, f s).
Definition panic {S A} (msg : string) : M S A := fun _ => Panicked msg.
Definition ub {S A} : M S A := fun _ => Undefined.
Definition block {S A} : M S A := fun _ => Blocked.
Definition no_fuel {S A} : M S A := fun _ => OutOfFuel.
(** A computation that leaves the state alone. *)
Definition lift {S A} (o : outcome A) : M S A := fun s =>
  match o with
  | Done a => Done (a, s)
  | Panicked msg => Panicked msg
  | Undefined => Undefined
  | Blocked => Blocked
  | OutOfFuel => OutOfFuel
  end.

(** [for (i = start; n times; i += step) body]: [Some r] leaves the loop with [r]. *)
Fixpoint for_n {S R} (n : nat) (i step : Z) (body : Z -> M S (option R)) : M S (option R) :=
  match n with
  | O => mret None
  | Datatypes.S n' => r ← body i;
      match r with
      | Some x => mret (Some x)
      | None => for_n n' (i + step) step body
      end
  end.

(** [while (1) body] with the loop's locals [X]: [inl] goes round, [inr] leaves. *)
Fixpoint iter {S X R} (fuel : nat) (body : X -> M S (X + R)) (x : X) : M S R :=
  match fuel with
  | O => no_fuel
  | Datatypes.S n => r ← body x;
      match r with
      | inl x' => iter n body x'
      | inr v => mret v
      end
  end.

(** ** Component states inside a larger state *)

Class Lens (S T : Type) := { view : S -> T; over : T -> S -> S }.
Class LensLaws (S T : Type) `{Lens S T} := {
  view_over : forall t s, view (over t s) = t;
  over_view : forall s : S, over (view s : T) s = s;
  over_over : forall (t t' : T) s, over t (over t' s) = over t s
}.

Definition zoom {S T A} `{Lens S T} (m : M T A) : M S A := fun s =>
  match m (view s) with
  | Done (a, t) => Done (a, over t s)
  | Panicked msg => Panicked msg
  | Undefined => Undefined
  | Blocked => Blocked
  | OutOfFuel => OutOfFuel
  end.

(** ** Weakest preconditions *)

(** [E] says which panics are accepted; undefined behaviour, blocking and
    running out of fuel never are. *)
Definition wp {S A} (E : string -> Prop) (m : M S A) (s : S) (Q : A -> S -> Prop) : Prop :=
  match m s with
  | Done (a, s') => Q a s'
  | Panicked msg => E msg
  | _ => False
  end.

Abbreviation returns := (wp (fun _ => False)).
Abbreviation safe := (wp (fun _ => True)).

Section wp.
  Context {S : Type} (E : string -> Prop).

Lemma wp_ret {A} (a : A) (s : S) (Q : A -> S -> Prop) : Q a s -> wp E (mret a) s Q.
Proof. done. Qed.

Lemma wp_bind {A B} (m : M S A) (f : A -> M S B) s Q :
    wp E m s (fun a s' => wp E (f a) s' Q) -> wp E (m ≫= f) s Q.
Proof. unfold wp, mbind, M_bind. by destruct (m s) as [[]| | | |]. Qed.

Lemma wp_mono {A} (m : M S A) s (Q Q' : A -> S -> Prop) :
    wp E m s Q -> (forall a s', Q a s' -> Q' a s') -> wp E m s Q'.
Proof. unfold wp. destruct (m s) as [[]| | | |]; eauto. Qed.

Lemma wp_get s (Q : S -> S -> Prop) : Q s s -> wp E get s Q.
Proof. done. Qed.
Lemma wp_gets {A} (f : S -> A) s (Q : A -> S -> Prop) : Q (f s) s -> wp E (gets f) s Q.
Proof. done. Qed.
Lemma wp_put s s' (Q : unit -> S -> Prop) : Q tt s' -> wp E (put s') s Q.
Proof. done. Qed.
Lemma wp_modify f s (Q : unit -> S -> Prop) : Q tt (f s) -> wp E (modify f) s Q.
Proof. done. Qed.
Lemma wp_panic {A} msg s (Q : A -> S -> Prop) : E msg -> wp E (panic msg) s Q.
Proof. done. Qed.

Lemma wp_zoom {T A} `{Lens S T} (m : M T A) s Q :
    wp E m (view s) (fun a t => Q a (over t s)) -> wp E (zoom m) s Q.
Proof. unfold wp, zoom. by destruct (m (view s)) as [[]| | | |]. Qed.

  (** A counted loop with an invariant [I] indexed by the iterations done. *)
Lemma wp_for_n {R} (I : nat -> S -> Prop) (Q : option R -> S -> Prop) n i step body s :
    I O s ->
    (forall k s, (k < n)%nat -> I k s ->
       wp E (body (i + Z.of_nat k * step)) s (fun r s' =>
         match r with Some _ => Q r s' | None => I (Datatypes.S k) s' end)) ->
    (forall s, I n s -> Q None s) ->
    wp E (for_n n i step body) s Q.
Proof.
    intros HI Hbody HQ.
    assert (forall m k j s, (k + m = n)%nat -> j = i + Z.of_nat k * step -> I k s ->
      wp E (for_n m j step body) s Q) as Hgen.
    { induction m as [|m IH]; intros k j s' Hk -> Hs'; simpl.
      - apply wp_ret, HQ. by replace n with k by lia.
      - apply wp_bind. eapply wp_mono; [apply Hbody; [lia|done]|].
        intros [r|] s'' Hr; [by apply wp_ret|].
        eapply IH; [| |exact Hr]; lia. }
    apply (Hgen n O); [lia|lia|done].
Qed.

  (** A [while] loop with an invariant and a decreasing measure. *)
Lemma wp_iter {X R} (I : X -> S -> Prop) (μ : X -> S -> nat) (Q : R -> S -> Prop)
      fuel body x s :
    (forall x s, I x s -> wp E (body x) s (fun r s' =>
       match r with
       | inl x' => I x' s' /\ (μ x' s' < μ x s)%nat
       | inr v => Q v s'
       end)) ->
    I x s -> (μ x s < fuel)%nat -> wp E (iter fuel body x) s Q.
Proof.
    intros Hbody. revert x s. induction fuel as [|fuel IH]; intros x s HI Hμ; [lia|].
    simpl. apply wp_bind. eapply wp_mono; [by apply Hbody|].
    intros [x'|v] s'; [intros [HI' Hlt]; apply IH; [done|lia]|by intros; apply wp_ret].
Qed.
End wp.

(** [wp] of a pure computation is its value. *)
Lemma wp_Done {S A} E (m : M S A) s a s' Q : m s = Done (a, s') -> Q a s' -> wp E m s Q.
Proof. intros Hm HQ. unfold wp. by rewrite Hm. Qed.
Lemma wp_same {S A} E (m m' : M S A) s Q : m s = m' s -> wp E m' s Q -> wp E m s Q.
Proof. intros Hm. unfold wp. by rewrite Hm. Qed.
Lemma wp_weaken {S A} (E E' : string -> Prop) (m : M S A) s Q :
  (forall msg, E msg -> E' msg) -> wp E m s Q -> wp E' m s Q.
Proof. unfold wp. destruct (m s) as [[]| | | |]; auto. Qed.
Lemma returns_inv {S A} (m : M S A) s Q :
  returns m s Q -> exists a s', m s = Done (a, s') /\ Q a s'.
Proof. unfold wp. destruct (m s) as [[a s']| | | |]; naive_solver. Qed.
Lemma wp_inv {S A} E (m : M S A) s Q a s' : wp E m s Q -> m s = Done (a, s') -> Q a s'.
Proof. unfold wp. intros Hw Hm. by rewrite Hm in Hw. Qed.
(** A [safe] computation, with blocking accepted too. *)
Lemma safe_match {S A} (m : M S A) s Q :
  safe m s Q -> match m s with
                | Done (a, s') => Q a s'
                | Panicked _ | Blocked => True
                | Undefined | OutOfFuel => False
                end.
Proof. unfold wp. by destruct (m s) as [[a s']| | | |]. Qed.
Lemma bind_Done {S A B} (m : M S A) (f : A -> M S B) s a s' :
  m s = Done (a, s') -> (m ≫= f) s = f a s'.
Proof. intros Hm. unfold mbind, M_bind. by rewrite Hm. Qed.

Lemma bind_gets {S A B} (f : S -> A) (g : A -> M S B) s : (gets f ≫= g) s = g (f s) s.
Proof. done. Qed.

Lemma bind_assoc {S A B C} (m : M S A) (f : A -> M S B) (g : B -> M S C) s :
  (m ≫= fun x => f x ≫= g) s = ((m ≫= f) ≫= g) s.
Proof. unfold mbind, M_bind. by destruct (m s) as [[]| | | |]. Qed.

Lemma bind_inv {S A B} (m : M S A) (f : A -> M S B) s r :
  (m ≫= f) s = Done r -> exists a s', m s = Done (a, s') /\ f a s' = Done r.
Proof. unfold mbind, M_bind. destruct (m s) as [[a s']| | | |]; naive_solver. Qed.

(** Partial correctness: what holds when the code returns. *)
Definition wlp {S A} (m : M S A) (s : S) (Q : A -> S -> Prop) : Prop :=
  forall a s', m s = Done (a, s') -> Q a s'.

Lemma wlp_bind {S A B} (m : M S A) (f : A -> M S B) s Q :
  wlp m s (fun a s' => wlp (f a) s' Q) -> wlp (m ≫= f) s Q.
Proof. intros Hm b s' (a & s1 & H1 & H2)%bind_inv. by eapply Hm. Qed.
Lemma wlp_ret {S A} (a : A) (s : S) (Q : A -> S -> Prop) : Q a s -> wlp (mret a) s Q.
Proof. by intros HQ ? ? [= <- <-]. Qed.
Lemma wlp_gets {S A} (f : S -> A) s (Q : A -> S -> Prop) : Q (f s) s -> wlp (gets f) s Q.
Proof. by intros HQ ? ? [= <- <-]. Qed.
Lemma wlp_get {S} (s : S) (Q : S -> S -> Prop) : Q s s -> wlp get s Q.
Proof. by intros HQ ? ? [= <- <-]. Qed.
Lemma wlp_modify {S} (f : S -> S) s (Q : unit -> S -> Prop) : Q tt (f s) -> wlp (modify f) s Q.
Proof. by intros HQ ? ? [= <- <-]. Qed.
Lemma wlp_mono {S A} (m : M S A) s (Q Q' : A -> S -> Prop) :
  wlp m s Q -> (forall a s', Q a s' -> Q' a s') -> wlp m s Q'.
Proof. intros Hm HQ a s' H. by apply HQ, Hm. Qed.
Lemma wlp_eq {S A} (m : M S A) s a s' (Q : A -> S -> Prop) : m s = Done (a, s') -> Q a s' -> wlp m s Q.
Proof. intros Hm HQ a' s'' H. congruence. Qed.
Lemma wlp_zoom {S T A} `{Lens S T} (m : M T A) (s : S) (Q : A -> S -> Prop) :
  (forall a t, m (view s) = Done (a, t) -> Q a (over t s)) -> wlp (zoom m) s Q.
Proof.
  intros HQ a s'. unfold zoom. destruct (m (view s)) as [[a' t]| | | |] eqn:Hm; [|done..]. intros [= <- <-]. by apply HQ.
Qed.
Lemma wlp_for_n {S R} (I : S -> Prop) n i step (body : Z -> M S (option R)) s :
  I s -> (forall j s, I s -> wlp (body j) s (fun _ s' => I s')) -> wlp (for_n n i step body) s (fun _ s' => I s').
Proof.
  intros HI Hb. revert i s HI. induction n as [|n IH]; intros i s HI; cbn [for_n]; [by apply wlp_ret|].
  apply wlp_bind. eapply wlp_mono; [by apply Hb|]. intros [r|] s' HI'; [by apply wlp_ret|by apply IH].
Qed.
Lemma wlp_iter {S X R} (I : S -> Prop) fuel (body : X -> M S (X + R)) x s :
  I s -> (forall x s, I s -> wlp (body x) s (fun _ s' => I s')) -> wlp (iter fuel body x) s (fun _ s' => I s').
Proof.
  intros HI Hb. revert x s HI. induction fuel as [|fuel IH]; intros x s HI; cbn [iter]; [done|].
  apply wlp_bind. eapply wlp_mono; [by apply Hb|]. intros [y|r] s' HI'; [by apply IH|by apply wlp_ret].
Qed.
Lemma wlp_ub {S A} (s : S) (Q : A -> S -> Prop) : wlp ub s Q.
Proof. done. Qed.
Lemma wlp_block {S A} (s : S) (Q : A -> S -> Prop) : wlp block s Q.
Proof. done. Qed.

(** An invariant that a computation keeps when it returns. *)
Definition preserves {S A} (I : S -> Prop) (m : M S A) : Prop := forall s, I s -> wlp m s (fun _ s' => I s').

Section preserves.
Context {S : Type} (I : S -> Prop).
Lemma preserves_bind {A B} (m : M S A) (f : A -> M S B) : preserves I m -> (forall a, preserves I (f a)) -> preserves I (m ≫= f).
Proof. intros Hm Hf s Hs. apply wlp_bind. eapply wlp_mono; [by apply Hm|]. intros a s' Hs'. by apply Hf. Qed.
Lemma preserves_ret {A} (a : A) : preserves I (mret a).
Proof. intros s Hs. by apply wlp_ret. Qed.
Lemma preserves_get : preserves I get.
Proof. intros s Hs. by apply wlp_get. Qed.
Lemma preserves_gets {A} (f : S -> A) : preserves I (gets f).
Proof. intros s Hs. by apply wlp_gets. Qed.
Lemma preserves_modify (f : S -> S) : (forall s, I s -> I (f s)) -> preserves I (modify f).
Proof. intros Hf s Hs. by apply wlp_modify, Hf. Qed.
Lemma preserves_ub {A} : preserves I (ub : M S A).
Proof. done. Qed.
Lemma preserves_block {A} : preserves I (block : M S A).
Proof. done. Qed.
Lemma preserves_no_fuel {A} : preserves I (no_fuel : M S A).
Proof. done. Qed.
Lemma preserves_lift {A} (o : outcome A) : preserves I (lift o).
Proof. intros s Hs a s' Hr. unfold lift in Hr. destruct o; by simplify_eq. Qed.
Lemma preserves_for_n {R} n i step (body : Z -> M S (option R)) :
  (forall j, preserves I (body j)) -> preserves I (for_n n i step body).
Proof. intros Hb s Hs. apply wlp_for_n; [done|]. intros j s' Hs'. by apply Hb. Qed.
Lemma preserves_iter {X R} fuel (body : X -> M S (X + R)) x : (forall x, preserves I (body x)) -> preserves I (iter fuel body x).
Proof. intros Hb s Hs. apply wlp_iter; [done|]. intros y s' Hs'. by apply Hb. Qed.
Lemma preserves_void {A} (m : M S A) : preserves I (m;; mret tt) -> preserves I m.
Proof. intros Hm s Hs a s' Hr. apply (Hm s Hs tt s'). by rewrite (bind_Done _ _ _ _ _ Hr). Qed.
Lemma preserves_and (J : S -> Prop) {A} (m : M S A) : preserves I m -> preserves J m -> preserves (fun s => I s /\ J s) m.
Proof. intros HI HJ s [Hs Ht] a s' Hr. split; [by apply (HI s Hs a)|by apply (HJ s Ht a)]. Qed.
Lemma preserves_zoom {T A} `{Lens S T} (J : T -> Prop) (m : M T A) : preserves J m -> (forall s, I s -> J (view s)) ->
  (forall s t, I s -> J t -> I (over t s)) -> preserves I (zoom m).
Proof. intros Hm Hv Ho s Hs. apply wlp_zoom. intros a t Ht. apply Ho; [done|]. by apply (Hm _ (Hv s Hs) a). Qed.
End preserves.

Create HintDb preserves.
#[export] Hint Resolve preserves_ret preserves_get preserves_gets preserves_ub preserves_block preserves_no_fuel preserves_lift : preserves.
#[export] Hint Resolve wp_ret wp_get wp_gets wp_put wp_modify wp_panic : vnl.

(** ** Tactics *)

(** Take one step of a [wp] goal. *)
Ltac wp_step :=
  match goal with
  | |- wp _ (_ ≫= _) _ _ => apply wp_bind
  | |- wp _ (mret _) _ _ => apply wp_ret
  | |- wp _ get _ _ => apply wp_get
  | |- wp _ (gets _) _ _ => apply wp_gets
  | |- wp _ (put _) _ _ => apply wp_put
  | |- wp _ (modify _) _ _ => apply wp_modify
  | |- wp _ (panic _) _ _ => apply wp_panic
  | |- wp _ (if ?b then _ else _) _ _ => destruct b eqn:?
  | |- wp _ (match ?x with _ => _ end) _ _ => destruct x eqn:?
  end.
Ltac wp_steps := repeat (wp_step; cbn beta iota).

(** The same for a [wlp] goal. *)
Ltac wlp_step :=
  match goal with
  | |- wlp (_ ≫= _) _ _ => apply wlp_bind
  | |- wlp (mret _) _ _ => apply wlp_ret
  | |- wlp get _ _ => apply wlp_get
  | |- wlp (gets _) _ _ => apply wlp_gets
  | |- wlp (modify _) _ _ => apply wlp_modify
  | |- wlp ub _ _ => apply wlp_ub
  | |- wlp block _ _ => apply wlp_block
  | |- wlp (zoom _) _ _ => apply wlp_zoom; intros ? ? _
  | |- wlp (if ?b then _ else _) _ _ => destruct b eqn:?
  | |- wlp (match ?x with _ => _ end) _ _ => destruct x eqn:?
  end.
Ltac wlp_steps := repeat (wlp_step; cbn beta iota).

(** The same for a [preserves] goal, with the lemmas of the hint base. *)
Ltac preserves_step :=
  first
  [ solve [auto 2 with preserves nocore]
  | match goal with
    | |- preserves _ (_ ≫= _) => apply preserves_bind; [|intros ?]
    | |- preserves _ (for_n _ _ _ _) => apply preserves_for_n; intros ?
    | |- preserves _ (iter _ _ _) => apply preserves_iter; intros ?
    | |- preserves _ (if ?b then _ else _) => destruct b
    | |- preserves _ (match ?x with _ => _ end) => destruct x
    end ].
Ltac preserves_steps := repeat (preserves_step; cbn beta iota zeta).

(** Boolean tests in hypotheses become propositions. *)
Ltac to_prop :=
  repeat match goal with
  | H : (_ && _)%bool = true |- _ => apply andb_true_iff in H as [? ?]
  | H : (_ || _)%bool = false |- _ => apply orb_false_iff in H as [? ?]
  | H : (_ && _)%bool = false |- _ => apply andb_false_iff in H
  | H : (_ || _)%bool = true |- _ => apply orb_true_iff in H
  | H : negb _ = true |- _ => apply negb_true_iff in H
  | H : negb _ = false |- _ => apply negb_false_iff in H
  | H : (_ =? _) = true |- _ => apply Z.eqb_eq in H
  | H : (_ =? _) = false |- _ => apply Z.eqb_neq in H
  | H : (_ <? _) = true |- _ => apply Z.ltb_lt in H
  | H : (_ <? _) = false |- _ => apply Z.ltb_ge in H
  | H : (_ <=? _) = true |- _ => apply Z.leb_le in H
  | H : (_ <=? _) = false |- _ => apply Z.leb_gt in H
  end.

(** Case analysis on the innermost tests of the goal. *)
Ltac case_test :=
  match goal with
  | |- context [if ?b then _ else _] =>
      lazymatch b with context [if _ then _ else _] => fail | _ => destruct b eqn:? end
  end.
Ltac case_tests := repeat case_test; to_prop.

(** Decide a goal made of integer tests. *)
Ltac blia :=
  repeat match goal with
  | |- context [?a <=? ?b] => destruct (Z.leb_spec a b)
  | |- context [?a <? ?b] => destruct (Z.ltb_spec a b)
  | |- context [?a =? ?b] => destruct (Z.eqb_spec a b)
  end; simpl; rewrite ?andb_true_r, ?andb_false_r, ?orb_false_r, ?orb_true_r; simpl;
  first [done | lia | exfalso; lia].

(** ** First index satisfying a test *)

(** [for (i = lo; n times; i++) if (p i) return i; return -1], as an option. *)
Fixpoint scan (n : nat) (i : Z) (p : Z -> bool) : option Z :=
  match n with
  | O => None
  | Datatypes.S n' => if p i then Some i else scan n' (i + 1) p
  end.

Lemma scan_Some n i p k :
  scan n i p = Some k <->
  i <= k < i + Z.of_nat n /\ p k = true /\ (forall j, i <= j < k -> p j = false).
Proof.
  revert i. induction n as [|n IH]; intros i; simpl; [split; [done|lia]|].
  destruct (p i) eqn:Hp.
  - split.
    + intros [= <-]. split; [lia|split; [done|lia]].
    + intros (Hk & Hpk & Hall). destruct (decide (i = k)) as [->|]; [done|].
      rewrite (Hall i) in Hp; [done|lia].
  - rewrite IH. split.
    + intros (? & ? & Hall). split; [lia|split; [done|]]. intros j Hj.
      destruct (decide (i = j)) as [->|]; [done|apply Hall; lia].
    + intros (? & ? & Hall). split; [|split; [done|intros; apply Hall; lia]].
      destruct (decide (i = k)) as [->|]; [congruence|lia].
Qed.

Lemma scan_None n i p :
  scan n i p = None <-> (forall j, i <= j < i + Z.of_nat n -> p j = false).
Proof.
  revert i. induction n as [|n IH]; intros i; simpl; [split; [lia|done]|].
  destruct (p i) eqn:Hp.
  - split; [done|]. intros Hall. rewrite (Hall i) in Hp; [done|lia].
  - rewrite IH. split; intros Hall j Hj; [|apply Hall; lia].
    destruct (decide (i = j)) as [->|]; [done|apply Hall; lia].
Qed.

Lemma scan_ext n i p q :
  (forall j, i <= j < i + Z.of_nat n -> p j = q j) -> scan n i p = scan n i q.
Proof.
  revert i. induction n as [|n IH]; intros i Heq; simpl; [done|].
  rewrite (Heq i) by lia. destruct (q i); [done|]. apply IH. intros; apply Heq; lia.
Qed.

(** ** Lemmas on machine integers *)

Lemma u64_range z : 0 <= u64 z < 2^64.
Proof. apply Z.mod_pos_bound. lia. Qed.
Lemma u64_small z : 0 <= z < 2^64 -> u64 z = z.
Proof. apply Z.mod_small. Qed.
Lemma u32_range z : 0 <= u32 z < 2^32.
Proof. apply Z.mod_pos_bound. lia. Qed.
Lemma u32_small z : 0 <= z < 2^32 -> u32 z = z.
Proof. apply Z.mod_small. Qed.
Lemma u8_range z : 0 <= u8 z < 2^8.
Proof. apply Z.mod_pos_bound. lia. Qed.
Lemma u8_small z : 0 <= z < 2^8 -> u8 z = z.
Proof. apply Z.mod_small. Qed.
Lemma s32_small z : - 2^31 <= z < 2^31 -> s32 z = z.
Proof. intros. unfold s32. rewrite Z.mod_small; lia. Qed.
Lemma s64_small z : - 2^63 <= z < 2^63 -> s64 z = z.
Proof. intros. unfold s64. rewrite Z.mod_small; lia. Qed.

(** Clearing the low [k] bits of a word. *)
Lemma land_lnot_ones z k : 0 <= k -> Z.land z (Z.lnot (2^k - 1)) = z / 2^k * 2^k.
Proof.
  intros Hk. replace (2^k - 1) with (Z.ones k) by (rewrite Z.ones_equiv; lia).
  rewrite <- Z.ldiff_land, Z.ldiff_ones_r by done.
  by rewrite Z.shiftl_mul_pow2, Z.shiftr_div_pow2.
Qed.
Lemma land_ones_mod z k : 0 <= k -> Z.land z (2^k - 1) = z mod 2^k.
Proof.
  intros Hk. replace (2^k - 1) with (Z.ones k) by (rewrite Z.ones_equiv; lia).
  by rewrite Z.land_ones.
Qed.

Lemma ALIGN_UP_pow2 v k : 0 <= k -> ALIGN_UP v (2^k) = u64 (v + (2^k - 1)) / 2^k * 2^k.
Proof. intros. unfold ALIGN_UP. by rewrite land_lnot_ones. Qed.
Lemma ALIGN_UP_page v : ALIGN_UP v PAGE_SIZE = u64 (v + 4095) / 4096 * 4096.
Proof. apply (ALIGN_UP_pow2 v 12). lia. Qed.
Lemma ALIGN_UP_8 v : ALIGN_UP v 8 = u64 (v + 7) / 8 * 8.
Proof. apply (ALIGN_UP_pow2 v 3). lia. Qed.
Lemma ALIGN_DOWN_page v : ALIGN_DOWN v PAGE_SIZE = v / 4096 * 4096.
Proof. apply (land_lnot_ones v 12). lia. Qed.

#[export] Hint Rewrite ALIGN_UP_page ALIGN_UP_8 ALIGN_DOWN_page : vnl.

(** Rounding to a page does not lose the value and gains less than a page. *)
Lemma ALIGN_UP_page_bounds v :
  0 <= v <= 2^64 - 4096 -> v <= ALIGN_UP v PAGE_SIZE < v + 4096.
Proof. intros. rewrite ALIGN_UP_page, u64_small by lia. zlia. Qed.

(** The bits of a byte: reading a bit of an or/and-not with a single bit. *)
Lemma testbit_shiftl1 k i : 0 <= k -> Z.testbit (Z.shiftl 1 k) i = (k =? i).
Proof.
  intros. rewrite Z.shiftl_1_l. destruct (Z.eqb_spec k i) as [->|].
  - by apply Z.pow2_bits_true.
  - by apply Z.pow2_bits_false.
Qed.

Lemma testbit_u8 z i : 0 <= i < 8 -> Z.testbit (u8 z) i = Z.testbit z i.
Proof. intros. unfold u8. by rewrite Z.mod_pow2_bits_low by lia. Qed.
Lemma land_pow2_zero z k : 0 <= k -> (Z.land z (Z.shiftl 1 k) =? 0) = negb (Z.testbit z k).
Proof.
  intros Hk. destruct (Z.testbit z k) eqn:Hz; simpl.
  - apply Z.eqb_neq. intros H0. assert (Z.testbit (Z.land z (Z.shiftl 1 k)) k = true) as Ht.
    { by rewrite Z.land_spec, Hz, testbit_shiftl1, Z.eqb_refl. }
    by rewrite H0, Z.bits_0 in Ht.
  - apply Z.eqb_eq. apply Z.bits_inj'. intros i Hi.
    rewrite Z.land_spec, testbit_shiftl1, Z.bits_0 by done.
    destruct (Z.eqb_spec k i) as [->|]; [by rewrite Hz|by rewrite andb_false_r].
Qed.
Lemma shiftl1_u8 k : 0 <= k < 8 -> u8 (Z.shiftl 1 k) = Z.shiftl 1 k.
Proof.
  intros. apply u8_small. rewrite Z.shiftl_1_l. split; [lia|]. apply Z.pow_lt_mono_r; lia.
Qed.

(** ** Counting the indices of a range that satisfy a test *)

Fixpoint count (n : nat) (i : Z) (p : Z -> bool) : Z :=
  match n with
  | O => 0
  | Datatypes.S n' => b2z (p i) + count n' (i + 1) p
  end.

Lemma count_ext n i p q :
  (forall j, i <= j < i + Z.of_nat n -> p j = q j) -> count n i p = count n i q.
Proof.
  revert i. induction n as [|n IH]; intros i Heq; simpl; [done|].
  rewrite (Heq i) by lia. f_equal. apply IH. intros; apply Heq; lia.
Qed.
Lemma count_range n i p : 0 <= count n i p <= Z.of_nat n.
Proof.
  revert i. induction n as [|n IH]; intros i; [simpl; lia|].
  cbn [count]. specialize (IH (i + 1)). unfold b2z. destruct (p i); lia.
Qed.
Lemma count_false n i p :
  (forall j, i <= j < i + Z.of_nat n -> p j = false) -> count n i p = 0.
Proof.
  intros Hp. rewrite (count_ext _ _ _ (fun _ => false)) by done. clear.
  revert i. induction n as [|n IH]; intros i; [done|]. cbn [count]. by rewrite IH.
Qed.
Lemma count_remove n i p q k :
  i <= k < i + Z.of_nat n -> p k = true -> q k = false ->
  (forall j, i <= j < i + Z.of_nat n -> j <> k -> p j = q j) ->
  count n i p = count n i q + 1.
Proof.
  revert i. induction n as [|n IH]; intros i Hk Hp Hq Heq; [lia|]. cbn [count].
  destruct (decide (i = k)) as [->|].
  - rewrite Hp, Hq, (count_ext n (k + 1) p q); [simpl; lia|]. intros; apply Heq; lia.
  - rewrite (Heq i) by lia. rewrite (IH (i + 1)); [lia|lia|done..|].
    intros; apply Heq; lia.
Qed.
Lemma count_pos n i p k : i <= k < i + Z.of_nat n -> p k = true -> 0 < count n i p.
Proof.
  intros Hk Hp.
  rewrite (count_remove n i p (fun j => if j =? k then false else p j) k); try done.
  - pose proof (count_range n i (fun j => if j =? k then false else p j)). lia.
  - by rewrite Z.eqb_refl.
  - intros j _ Hj. by apply Z.eqb_neq in Hj as ->.
Qed.

(** Bitwise operations stay below a power of two. *)
Lemma bits_bound x k :
  0 <= k -> 0 <= x -> (forall i, k <= i -> Z.testbit x i = false) -> x < 2^k.
Proof. intros. by apply Z.bounded_iff_bits_nonneg. Qed.
Lemma bits_above x k i : 0 <= k -> 0 <= x < 2^k -> k <= i -> Z.testbit x i = false.
Proof. intros. eapply (proj1 (Z.bounded_iff_bits_nonneg k x ltac:(lia) ltac:(lia))); lia. Qed.
Lemma lor_bound a b k : 0 <= k -> 0 <= a < 2^k -> 0 <= b < 2^k -> 0 <= Z.lor a b < 2^k.
Proof.
  intros. split; [apply Z.lor_nonneg; lia|]. apply bits_bound; [done|apply Z.lor_nonneg; lia|].
  intros i Hi. by rewrite Z.lor_spec, !(bits_above _ k) by lia.
Qed.
Lemma land_bound a b k : 0 <= k -> 0 <= a < 2^k -> 0 <= Z.land a b < 2^k.
Proof.
  intros. split; [apply Z.land_nonneg; lia|]. apply bits_bound; [done|apply Z.land_nonneg; lia|].
  intros i Hi. by rewrite Z.land_spec, (bits_above a k) by lia.
Qed.

(** A function updated at one point. *)
Lemma upd_same {A} (f : Z -> A) i x : <[i := x]> f i = x.
Proof. apply fn_lookup_insert. Qed.
Lemma upd_other {A} (f : Z -> A) i j x : i <> j -> <[i := x]> f j = f j.
Proof. apply fn_lookup_insert_ne. Qed.
Lemma upd_case {A} (f : Z -> A) i j x : <[i := x]> f j = if j =? i then x else f j.
Proof.
  destruct (Z.eqb_spec j i) as [->|]; [apply upd_same|by apply upd_other].
Qed.
#[export] Hint Rewrite @upd_same : vnl.
