(* ===== verification/Pmm.v ===== *)
(** * Physical memory manager (src/src/mm/pmm.c) *)

From S2P Require Import Prelude.

Definition MAX_FRAMES : Z := 1024 * 1024.
Definition BITMAP_SIZE : Z := MAX_FRAMES / 8.

(** The file's static variables; bit [f mod 8] of byte [f / 8] is frame [f], 1 is used. *)
Record pmm := Pmm {
  bitmap : Z -> Z;
  total_frames : Z;
  free_frames : Z
}.

Definition bm_set (b : Z -> Z) (frame : Z) : Z -> Z :=
  <[frame / 8 := Z.lor (b (frame / 8)) (u8 (Z.shiftl 1 (frame mod 8)))]> b.
Definition bm_clear (b : Z -> Z) (frame : Z) : Z -> Z :=
  <[frame / 8 := Z.land (b (frame / 8)) (u8 (Z.lnot (Z.shiftl 1 (frame mod 8))))]> b.
Definition bm_test (b : Z -> Z) (frame : Z) : bool :=
  nonzero (Z.land (b (frame / 8)) (u8 (Z.shiftl 1 (frame mod 8)))).

(** An access to the bitmap is inside the array. *)
Definition in_bitmap (frame : Z) : bool := (0 <=? frame) && (frame / 8 <? BITMAP_SIZE).

Definition pmm_init (mem_upper_kb : Z) : M pmm unit :=
  let total := u64 (mem_upper_kb * 1024) / PAGE_SIZE in
  let total := if MAX_FRAMES <? total then MAX_FRAMES else total in
  put (Pmm (fun _ => 0xFF) total 0);;
  let first_free := ALIGN_UP 0x100000 PAGE_SIZE / PAGE_SIZE in
  for_n (Z.to_nat (total - first_free)) first_free 1 (fun f =>
    p ← get;
    if in_bitmap f then
      put (Pmm (bm_clear (bitmap p) f) (total_frames p) (u64 (free_frames p + 1)));;
      mret (None (A := unit))
    else ub);;
  mret tt.

Definition pmm_reserve (base len : Z) : M pmm unit :=
  let first := ALIGN_DOWN base PAGE_SIZE / PAGE_SIZE in
  let last := ALIGN_UP (u64 (base + len)) PAGE_SIZE / PAGE_SIZE in
  total ← gets total_frames;
  for_n (Z.to_nat (Z.min last total - first)) first 1 (fun f =>
    p ← get;
    if in_bitmap f then
      (if negb (bm_test (bitmap p) f)
       then put (Pmm (bm_set (bitmap p) f) (total_frames p) (u64 (free_frames p - 1)))
       else mret tt);;
      mret (None (A := unit))
    else ub);;
  mret tt.

(** The two nested loops of pmm_alloc up to the frame they stop at. *)
Fixpoint alloc_scan (n : nat) (i : Z) (b : Z -> Z) : option Z :=
  match n with
  | O => None
  | Datatypes.S n' =>
      if b i =? 0xFF then alloc_scan n' (i + 1) b
      else match scan 8 0 (fun bit => Z.land (b i) (Z.shiftl 1 bit) =? 0) with
           | Some bit => Some (i * 8 + bit)
           | None => alloc_scan n' (i + 1) b
           end
  end.

Definition pmm_alloc : M pmm Z :=
  p ← get;
  match alloc_scan (Z.to_nat BITMAP_SIZE) 0 (bitmap p) with
  | None => mret 0
  | Some frame =>
      if total_frames p <=? frame then mret 0
      else
        put (Pmm (bm_set (bitmap p) frame) (total_frames p) (u64 (free_frames p - 1)));;
        mret (frame * PAGE_SIZE)
  end.

Definition pmm_free (frame : Z) : M pmm unit :=
  let f := frame / PAGE_SIZE in
  p ← get;
  if in_bitmap f then
    if negb (bm_test (bitmap p) f) then mret tt
    else put (Pmm (bm_clear (bitmap p) f) (total_frames p) (u64 (free_frames p + 1)))
  else ub.

Definition pmm_free_pages : M pmm Z := gets free_frames.
Definition pmm_total_pages : M pmm Z := gets total_frames.

(** ** Specification: a set of free frames *)

Definition frame_free (p : pmm) (f : Z) : bool := negb (bm_test (bitmap p) f).

(** Every byte is a byte, frames past the end of memory are never free, frame
    0 (the null pointer) is never free and the counter counts the free frames. *)
Record pmm_wf (p : pmm) : Prop := {
  wf_total : 0 <= total_frames p <= MAX_FRAMES;
  wf_bytes : forall i, 0 <= bitmap p i < 256;
  wf_high : forall f, total_frames p <= f < MAX_FRAMES -> frame_free p f = false;
  wf_zero : frame_free p 0 = false;
  wf_count : free_frames p = count (Z.to_nat (total_frames p)) 0 (frame_free p)
}.

(** ** Bitmap lemmas *)

Lemma bm_test_bit b f : 0 <= f -> bm_test b f = Z.testbit (b (f / 8)) (f mod 8).
Proof.
  intros. unfold bm_test, nonzero. assert (0 <= f mod 8 < 8) by zlia.
  rewrite shiftl1_u8, land_pow2_zero by lia. by rewrite negb_involutive.
Qed.

Lemma bm_test_set b f g :
  0 <= f -> 0 <= g -> bm_test (bm_set b f) g = (g =? f) || bm_test b g.
Proof.
  intros. rewrite !bm_test_bit by done. unfold bm_set.
  assert (0 <= f mod 8 < 8) by zlia. assert (0 <= g mod 8 < 8) by zlia.
  rewrite upd_case. destruct (Z.eqb_spec (g / 8) (f / 8)) as [Hq|Hq].
  - rewrite <- Hq, Z.lor_spec, testbit_u8, testbit_shiftl1 by lia.
    rewrite orb_comm. f_equal. destruct (Z.eqb_spec (f mod 8) (g mod 8)), (Z.eqb_spec g f); zlia.
  - destruct (Z.eqb_spec g f) as [->|]; done.
Qed.

Lemma bm_test_clear b f g :
  0 <= f -> 0 <= g -> bm_test (bm_clear b f) g = negb (g =? f) && bm_test b g.
Proof.
  intros. rewrite !bm_test_bit by done. unfold bm_clear.
  assert (0 <= f mod 8 < 8) by zlia. assert (0 <= g mod 8 < 8) by zlia.
  rewrite upd_case. destruct (Z.eqb_spec (g / 8) (f / 8)) as [Hq|Hq].
  - rewrite <- Hq, Z.land_spec, testbit_u8, Z.lnot_spec, testbit_shiftl1 by lia.
    rewrite andb_comm. do 2 f_equal.
    destruct (Z.eqb_spec (f mod 8) (g mod 8)), (Z.eqb_spec g f); zlia.
  - destruct (Z.eqb_spec g f) as [->|]; done.
Qed.
#[export] Hint Rewrite bm_test_set bm_test_clear using lia : vnl.

Lemma byte_full x :
  0 <= x < 256 -> (forall k, 0 <= k < 8 -> Z.testbit x k = true) -> x = 0xFF.
Proof.
  intros Hx Hbits. apply Z.bits_inj'. intros k Hk. destruct (decide (k < 8)).
  - rewrite Hbits by lia. change 0xFF with (Z.ones 8). by rewrite Z.ones_spec_low by lia.
  - change 0xFF with (Z.ones 8). rewrite Z.ones_spec_high by lia.
    apply Z.bits_above_log2; [lia|]. destruct (decide (x = 0)) as [->|]; [simpl; lia|].
    assert (Z.log2 x < 8); [|lia]. apply Z.log2_lt_pow2; lia.
Qed.

Section scan.
  Context (b : Z -> Z) (Hbytes : forall i, 0 <= b i < 256).

Lemma bm_test_byte i k : 0 <= i -> 0 <= k < 8 -> bm_test b (i * 8 + k) = Z.testbit (b i) k.
Proof. intros. rewrite bm_test_bit by lia. do 2 f_equal; zlia. Qed.

Lemma full_byte_used i f : 0 <= i -> b i = 0xFF -> i * 8 <= f < i * 8 + 8 -> bm_test b f = true.
Proof.
    intros Hi Hb Hf. replace f with (i * 8 + (f - i * 8)) by lia.
    rewrite bm_test_byte, Hb by lia. change 0xFF with (Z.ones 8).
    apply Z.ones_spec_low. lia.
Qed.

Lemma bit_test_eq i k :
    0 <= i -> 0 <= k < 8 -> (Z.land (b i) (Z.shiftl 1 k) =? 0) = negb (bm_test b (i * 8 + k)).
Proof. intros. rewrite land_pow2_zero, bm_test_byte by lia. done. Qed.

Lemma byte_scan_Some i bit :
    0 <= i -> scan 8 0 (fun bit => Z.land (b i) (Z.shiftl 1 bit) =? 0) = Some bit ->
    0 <= bit < 8 /\ bm_test b (i * 8 + bit) = false /\
    (forall g, i * 8 <= g < i * 8 + bit -> bm_test b g = true).
Proof.
    intros Hi (Hr & Hb & Hlow)%scan_Some. split; [lia|].
    rewrite bit_test_eq in Hb by lia. apply negb_true_iff in Hb. split; [done|].
    intros g Hg. specialize (Hlow (g - i * 8)). rewrite bit_test_eq in Hlow by lia.
    replace (i * 8 + (g - i * 8)) with g in Hlow by lia. apply negb_false_iff, Hlow. lia.
Qed.

Lemma byte_scan_None i :
    0 <= i -> scan 8 0 (fun bit => Z.land (b i) (Z.shiftl 1 bit) =? 0) = None -> b i = 0xFF.
Proof.
    intros Hi Hn. rewrite scan_None in Hn. apply byte_full; [done|]. intros k Hk.
    specialize (Hn k). rewrite land_pow2_zero in Hn by lia. apply negb_false_iff, Hn. lia.
Qed.

  (** The loops stop at the lowest clear bit, if there is one. *)
Lemma alloc_scan_spec n i :
    0 <= i ->
    match alloc_scan n i b with
    | Some f => i * 8 <= f < (i + Z.of_nat n) * 8 /\ bm_test b f = false /\
                (forall g, i * 8 <= g < f -> bm_test b g = true)
    | None => forall g, i * 8 <= g < (i + Z.of_nat n) * 8 -> bm_test b g = true
    end.
Proof.
    revert i. induction n as [|n IH]; intros i Hi; cbn [alloc_scan]; [intros; lia|].
    assert (b i = 0xFF ->
      match alloc_scan n (i + 1) b with
      | Some f => i * 8 <= f < (i + Z.of_nat (S n)) * 8 /\ bm_test b f = false /\
                  (forall g, i * 8 <= g < f -> bm_test b g = true)
      | None => forall g, i * 8 <= g < (i + Z.of_nat (S n)) * 8 -> bm_test b g = true
      end) as Hskip.
    { intros Hfull. specialize (IH (i + 1) ltac:(lia)).
      destruct (alloc_scan n (i + 1) b) as [f|].
      - destruct IH as (? & ? & Hlow). split; [lia|split; [done|]]. intros g Hg.
        destruct (decide (g < i * 8 + 8)); [apply (full_byte_used i); [lia|done|lia]|apply Hlow; lia].
      - intros g Hg.
        destruct (decide (g < i * 8 + 8)); [apply (full_byte_used i); [lia|done|lia]|apply IH; lia]. }
    destruct (Z.eqb_spec (b i) 0xFF) as [Hfull|Hfull]; [by apply Hskip|].
    destruct (scan 8 0 _) as [bit|] eqn:Hs.
    - apply byte_scan_Some in Hs as (? & ? & ?); [|lia]. split; [lia|done].
    - by apply byte_scan_None in Hs.
Qed.
End scan.

(** ** The operations keep the invariant and do what they promise *)

Lemma bm_set_bytes b f :
  (forall i, 0 <= b i < 256) -> forall i, 0 <= bm_set b f i < 256.
Proof.
  intros Hb i. unfold bm_set. rewrite upd_case. destruct (i =? f / 8); [|done].
  apply (lor_bound _ _ 8); [lia|apply Hb|apply u8_range].
Qed.
Lemma bm_clear_bytes b f :
  (forall i, 0 <= b i < 256) -> forall i, 0 <= bm_clear b f i < 256.
Proof.
  intros Hb i. unfold bm_clear. rewrite upd_case. destruct (i =? f / 8); [|done].
  apply (land_bound _ _ 8); [lia|apply Hb].
Qed.

Definition mark_used (p : pmm) (f : Z) : pmm :=
  Pmm (bm_set (bitmap p) f) (total_frames p) (u64 (free_frames p - 1)).
Definition mark_free (p : pmm) (f : Z) : pmm :=
  Pmm (bm_clear (bitmap p) f) (total_frames p) (u64 (free_frames p + 1)).

Lemma frame_free_used p f g :
  0 <= f -> 0 <= g -> frame_free (mark_used p f) g = negb (g =? f) && frame_free p g.
Proof. intros. unfold frame_free. simpl. by rewrite bm_test_set, negb_orb by done. Qed.
Lemma frame_free_free p f g :
  0 <= f -> 0 <= g -> frame_free (mark_free p f) g = (g =? f) || frame_free p g.
Proof.
  intros. unfold frame_free. simpl. by rewrite bm_test_clear, negb_andb, negb_involutive by done.
Qed.
#[export] Hint Rewrite frame_free_used frame_free_free using lia : vnl.

Section invariant.
  Context (p : pmm) (Hwf : pmm_wf p).

Lemma count_bound : 0 <= free_frames p <= MAX_FRAMES.
Proof.
    destruct Hwf as [Ht _ _ _ ->].
    pose proof (count_range (Z.to_nat (total_frames p)) 0 (frame_free p)). lia.
Qed.

Lemma free_below f : 0 <= f < MAX_FRAMES -> frame_free p f = true -> 0 < f < total_frames p.
Proof.
    intros Hf Hfree. destruct Hwf as [_ _ Hh Hz _].
    destruct (decide (f = 0)) as [->|]; [congruence|].
    destruct (decide (f < total_frames p)); [lia|]. rewrite Hh in Hfree; [done|lia].
Qed.

  (** Marking a free frame used. *)
Lemma mark_used_wf f :
    0 <= f < total_frames p -> frame_free p f = true ->
    pmm_wf (mark_used p f) /\ free_frames (mark_used p f) = free_frames p - 1.
Proof.
    intros Hf Hfree. pose proof count_bound as Hcb. destruct Hwf as [Ht Hb Hh Hz Hc].
    pose proof (count_pos (Z.to_nat (total_frames p)) 0 (frame_free p) f ltac:(lia) Hfree).
    assert (free_frames (mark_used p f) = free_frames p - 1) as Hu.
    { apply u64_small. unfold MAX_FRAMES in *. lia. }
    split; [|done]. split; cbn [total_frames mark_used].
    - done.
    - by apply bm_set_bytes.
    - intros g Hg. rewrite frame_free_used, Hh by lia. apply andb_false_r.
    - rewrite frame_free_used, Hz by lia. apply andb_false_r.
    - fold (mark_used p f). rewrite Hu, Hc, (count_remove _ _ (frame_free p)
        (frame_free (mark_used p f)) f); [lia|lia|done| |].
      + rewrite frame_free_used, Z.eqb_refl by lia. done.
      + intros j ? Hj%Z.eqb_neq. rewrite frame_free_used, Hj by lia. done.
Qed.

  (** Marking a used frame free. *)
Lemma mark_free_wf f :
    0 < f < total_frames p -> frame_free p f = false ->
    pmm_wf (mark_free p f) /\ free_frames (mark_free p f) = free_frames p + 1.
Proof.
    intros Hf Hfree. pose proof count_bound as Hcb. destruct Hwf as [Ht Hb Hh Hz Hc].
    assert (free_frames (mark_free p f) = free_frames p + 1) as Hu.
    { apply u64_small. unfold MAX_FRAMES in *. lia. }
    split; [|done]. split; cbn [total_frames mark_free].
    - done.
    - by apply bm_clear_bytes.
    - intros g Hg. rewrite frame_free_free, Hh by lia. rewrite orb_false_r. lia.
    - rewrite frame_free_free, Hz by lia. rewrite orb_false_r. lia.
    - fold (mark_free p f). rewrite Hu, Hc, (count_remove _ _ (frame_free (mark_free p f))
        (frame_free p) f); [lia|lia| |done|].
      + rewrite frame_free_free, Z.eqb_refl by lia. done.
      + intros j ? Hj%Z.eqb_neq. rewrite frame_free_free, Hj by lia. done.
Qed.
End invariant.

(** What a caller of pmm_alloc learns: null means nothing was free and nothing
    changed; an address is the lowest free frame, which is now used. *)
Record allocated (p : pmm) (a : Z) (p' : pmm) : Prop := {
  al_addr : 0 < a /\ a mod PAGE_SIZE = 0 /\ a < total_frames p * PAGE_SIZE;
  al_was_free : frame_free p (a / PAGE_SIZE) = true;
  al_lowest : forall g, 0 <= g < a / PAGE_SIZE -> frame_free p g = false;
  al_state : p' = mark_used p (a / PAGE_SIZE)
}.

Lemma pmm_alloc_cases p :
  pmm_wf p ->
  returns pmm_alloc p (fun a p' => pmm_wf p' /\
    (a = 0 /\ p' = p /\ (forall g, 0 <= g < MAX_FRAMES -> frame_free p g = false) \/
     allocated p a p')).
Proof.
  intros Hwf. unfold pmm_alloc. wp_step. wp_step.
  pose proof (alloc_scan_spec (bitmap p) (wf_bytes p Hwf) (Z.to_nat BITMAP_SIZE) 0 ltac:(lia)) as Hs.
  rewrite Z2Nat.id in Hs by done. change ((0 + BITMAP_SIZE) * 8) with MAX_FRAMES in Hs.
  destruct (alloc_scan _ _ _) as [f|].
  - destruct Hs as (Hf & Hclear & Hlow).
    assert (frame_free p f = true) as Hfree by (unfold frame_free; by rewrite Hclear).
    pose proof (free_below p Hwf f ltac:(lia) Hfree) as Hbelow.
    destruct (Z.leb_spec (total_frames p) f); [lia|]. wp_steps.
    destruct (mark_used_wf p Hwf f ltac:(lia) Hfree) as [? _]. split; [done|right].
    assert (f * PAGE_SIZE / PAGE_SIZE = f) as Hdiv by (unfold PAGE_SIZE; zlia).
    split; rewrite ?Hdiv; [unfold PAGE_SIZE; zlia|done| |done].
    intros g Hg. unfold frame_free. rewrite Hlow by lia. done.
  - wp_step. split; [done|left]. split_and!; [done..|].
    intros g Hg. unfold frame_free. rewrite Hs by lia. done.
Qed.

Lemma wp_pmm_alloc E p (Q : Z -> pmm -> Prop) :
  pmm_wf p ->
  ((forall g, 0 <= g < MAX_FRAMES -> frame_free p g = false) -> Q 0 p) ->
  (forall a p', pmm_wf p' -> allocated p a p' -> Q a p') ->
  wp E pmm_alloc p Q.
Proof.
  intros Hwf H0 H1. apply (wp_weaken (fun _ => False)); [done|].
  eapply wp_mono; [by apply pmm_alloc_cases|].
  intros a p' [? [(-> & -> & ?)|?]]; [by apply H0|by apply H1].
Qed.

Lemma pmm_free_cases p a :
  pmm_wf p -> 0 <= a < MAX_FRAMES * PAGE_SIZE ->
  pmm_free a p = Done (tt, if frame_free p (a / PAGE_SIZE) then p else mark_free p (a / PAGE_SIZE)).
Proof.
  intros Hwf Ha. unfold pmm_free, frame_free, mark_free.
  assert (in_bitmap (a / PAGE_SIZE) = true) as Hin.
  { unfold in_bitmap, BITMAP_SIZE, MAX_FRAMES, PAGE_SIZE in *. apply andb_true_iff. zlia. }
  unfold mbind, M_bind, get. rewrite Hin. by destruct (bm_test _ _).
Qed.

(** ** Boot: pmm_init and pmm_reserve *)

Lemma in_bitmap_frame f : 0 <= f < MAX_FRAMES -> in_bitmap f = true.
Proof. intros. unfold in_bitmap, BITMAP_SIZE, MAX_FRAMES in *. apply andb_true_iff. zlia. Qed.

Lemma all_used_wf total : 0 <= total <= MAX_FRAMES -> pmm_wf (Pmm (fun _ => 0xFF) total 0).
Proof.
  intros Ht.
  assert (forall f, 0 <= f -> frame_free (Pmm (fun _ => 0xFF) total 0) f = false) as Hused.
  { intros f Hf. unfold frame_free. simpl. rewrite bm_test_bit by done. apply negb_false_iff.
    change 0xFF with (Z.ones 8). apply Z.ones_spec_low. zlia. }
  split; cbn [total_frames free_frames].
  - done.
  - intros i. simpl. lia.
  - intros f Hf. apply Hused. lia.
  - by apply Hused.
  - rewrite count_false; [done|]. intros f Hf. apply Hused. lia.
Qed.

Definition memory_frames (mem_upper_kb : Z) : Z :=
  Z.min (u64 (mem_upper_kb * 1024) / PAGE_SIZE) MAX_FRAMES.

Lemma pmm_init_ok kb p0 :
  returns (pmm_init kb) p0 (fun _ p =>
    pmm_wf p /\ total_frames p = memory_frames kb /\
    (forall f, 0 <= f < MAX_FRAMES ->
       frame_free p f = (256 <=? f) && (f <? memory_frames kb))).
Proof.
  set (T := memory_frames kb).
  assert (0 <= T <= MAX_FRAMES) as HT.
  { unfold T, memory_frames, MAX_FRAMES, PAGE_SIZE. pose proof (u64_range (kb * 1024)). zlia. }
  unfold pmm_init. wp_step. wp_step. cbn zeta.
  replace (if MAX_FRAMES <? _ then _ else _) with T
    by (unfold T, memory_frames; case_tests; [rewrite Z.min_r by lia|rewrite Z.min_l by lia]; done).
  change (ALIGN_UP 0x100000 PAGE_SIZE / PAGE_SIZE) with 256. wp_step.
  apply (wp_for_n _ (fun k p => pmm_wf p /\ total_frames p = T /\
    (forall f, 0 <= f < MAX_FRAMES -> frame_free p f = (256 <=? f) && (f <? 256 + Z.of_nat k)))).
  - split; [by apply all_used_wf|split; [done|]]. intros f Hf.
    destruct (frame_free _ f) eqn:Hff; [|blia].
    unfold frame_free in Hff. simpl in Hff. rewrite bm_test_bit in Hff by lia.
    change 0xFF with (Z.ones 8) in Hff. rewrite Z.ones_spec_low in Hff by zlia. done.
  - intros k p Hk (Hwf & Htot & Hff). wp_step. wp_step.
    rewrite in_bitmap_frame by lia. wp_steps. fold (mark_free p (256 + Z.of_nat k * 1)).
    destruct (mark_free_wf p Hwf (256 + Z.of_nat k * 1)) as [Hwf' _]; [lia|rewrite Hff by lia; blia|].
    split; [done|split; [done|]]. intros f Hf. rewrite frame_free_free, Hff by lia. blia.
  - intros p (Hwf & Htot & Hff). wp_step. split; [done|split; [done|]].
    intros f Hf. rewrite Hff by done. blia.
Qed.

Lemma pmm_reserve_ok p0 base len :
  pmm_wf p0 -> 0 <= base -> 0 <= len -> base + len <= 2^64 - PAGE_SIZE ->
  returns (pmm_reserve base len) p0 (fun _ p =>
    pmm_wf p /\ total_frames p = total_frames p0 /\
    (forall f, 0 <= f < MAX_FRAMES -> frame_free p f =
       frame_free p0 f && negb ((base / PAGE_SIZE <=? f) && (f * PAGE_SIZE <? base + len)))).
Proof.
  intros Hwf0 Hbase Hlen Hend. pose proof (wf_total p0 Hwf0) as HT.
  unfold pmm_reserve. cbn zeta. wp_step. wp_step.
  rewrite ALIGN_DOWN_page, ALIGN_UP_page. unfold PAGE_SIZE in *. rewrite (u64_small (base + len)) by lia.
  rewrite u64_small by lia. set (last := (base + len + 4095) / 4096 * 4096 / 4096).
  set (first := base / 4096 * 4096 / 4096). wp_step.
  assert (first = base / 4096) as Hfirst by (unfold first; zlia).
  assert (forall f, f < last <-> f * 4096 < base + len) as Hlast by (intros f; unfold last; zlia).
  assert (0 <= first) by zlia.
  apply (wp_for_n _ (fun k p => pmm_wf p /\ total_frames p = total_frames p0 /\
    (forall f, 0 <= f < MAX_FRAMES -> frame_free p f =
       frame_free p0 f && negb ((first <=? f) && (f <? first + Z.of_nat k))))).
  - split_and!; [done..|]. intros f Hf. destruct (frame_free p0 f); blia.
  - intros k p Hk (Hwf & Htot & Hff). wp_step. wp_step.
    set (f := first + Z.of_nat k * 1). rewrite in_bitmap_frame by (unfold f; lia).
    specialize (Hff f ltac:(unfold f; lia)) as Hfree.
    wp_step. destruct (bm_test (bitmap p) f) eqn:Hbm; simpl negb; cbn iota; wp_steps.
    + split_and!; [done..|]. intros g Hg. rewrite Hff by lia. destruct (decide (g = f)) as [->|].
      * rewrite Hff in Hfree by (unfold f; lia). unfold frame_free at 1 in Hfree.
        rewrite <- Hff by lia. unfold frame_free. rewrite Hbm. unfold f. blia.
      * destruct (frame_free p0 g); unfold f in *; blia.
    + fold (mark_used p f).
      destruct (mark_used_wf p Hwf f) as [Hwf' _];
        [unfold f; lia|unfold frame_free; by rewrite Hbm|].
      split_and!; [done..|]. intros g Hg.
      rewrite frame_free_used, Hff by (unfold f; lia). destruct (frame_free p0 g); unfold f; blia.
  - intros p (Hwf & Htot & Hff). wp_step. split_and!; [done..|].
    intros f Hf. rewrite Hff by done. destruct (frame_free p0 f) eqn:Hf0; [|done].
    pose proof (free_below p0 Hwf0 f Hf Hf0). specialize (Hlast f). blia.
Qed.

(** ** Properties *)

(** Clients of the allocator: the frames they hold, and what they may do next. *)
Inductive client_step : pmm * gset Z -> pmm * gset Z -> Prop :=
| step_alloc p held a p' :
    pmm_alloc p = Done (a, p') -> a <> 0 -> client_step (p, held) (p', {[a]} ∪ held)
| step_oom p held p' :
    pmm_alloc p = Done (0, p') -> client_step (p, held) (p', held)
| step_free p held a p' :
    a ∈ held -> pmm_free a p = Done (tt, p') -> client_step (p, held) (p', held ∖ {[a]}).

Record client_inv (total budget : Z) (c : pmm * gset Z) : Prop := {
  ci_wf : pmm_wf c.1;
  ci_total : total_frames c.1 = total;
  ci_held : forall a, a ∈ c.2 ->
    0 < a < total * PAGE_SIZE /\ a mod PAGE_SIZE = 0 /\ frame_free c.1 (a / PAGE_SIZE) = false;
  ci_budget : free_frames c.1 + Z.of_nat (size c.2) = budget
}.

Lemma pmm_alloc_inv p a p' :
  pmm_wf p -> pmm_alloc p = Done (a, p') -> a <> 0 -> pmm_wf p' /\ allocated p a p'.
Proof.
  intros Hwf Ha Hne.
  by destruct (wp_inv _ _ _ _ _ _ (pmm_alloc_cases p Hwf) Ha) as (? & [[? _]|?]).
Qed.
Lemma pmm_alloc_null p p' : pmm_wf p -> pmm_alloc p = Done (0, p') -> p' = p.
Proof.
  intros Hwf Ha.
  destruct (wp_inv _ _ _ _ _ _ (pmm_alloc_cases p Hwf) Ha) as (_ & [(_ & -> & _)|[[? _] _ _ _]]);
    [done|lia].
Qed.

Lemma frame_index_inj a b :
  a mod PAGE_SIZE = 0 -> b mod PAGE_SIZE = 0 -> a / PAGE_SIZE = b / PAGE_SIZE -> a = b.
Proof. unfold PAGE_SIZE. zlia. Qed.

Lemma allocated_counts p a p' :
  pmm_wf p -> allocated p a p' ->
  free_frames p' = free_frames p - 1 /\ total_frames p' = total_frames p /\
  0 < a / PAGE_SIZE < total_frames p /\
  (forall g, 0 <= g -> frame_free p' g = negb (g =? a / PAGE_SIZE) && frame_free p g).
Proof.
  intros Hwf [(? & ? & ?) Hfree _ ->]. assert (0 < a / PAGE_SIZE < total_frames p) as Hr.
  { unfold PAGE_SIZE in *. zlia. }
  destruct (mark_used_wf p Hwf (a / PAGE_SIZE)) as [_ Hc]; [lia|done|].
  split_and!; [done|done|lia|lia|]. intros g Hg. apply frame_free_used; lia.
Qed.

Lemma client_inv_step total budget c c' :
  client_inv total budget c -> client_step c c' -> client_inv total budget c'.
Proof.
  intros [Hwf Htot Hheld Hbud] Hstep. destruct Hstep as [p held a p' Ha Hne|p held p' Ha|p held a p' Hin Ha];
    simpl in *.
  - destruct (pmm_alloc_inv p a p' Hwf Ha Hne) as [Hwf' Hal].
    destruct (allocated_counts p a p' Hwf Hal) as (Hc & Ht & Hr & Hff).
    pose proof (al_addr p a p' Hal) as (? & Hmod & ?).
    assert (a ∉ held) as Hnew.
    { intros (_ & _ & Hu)%Hheld. by rewrite (al_was_free p a p' Hal) in Hu. }
    split; simpl; [done|lia| |].
    + intros b [->%elem_of_singleton|Hb]%elem_of_union.
      * rewrite Hff, Z.eqb_refl by lia. split_and!; [lia|lia|done|done].
      * specialize (Hheld b Hb) as (? & ? & Hu). rewrite Hff, Hu by (unfold PAGE_SIZE in *; zlia).
        rewrite andb_false_r. done.
    + rewrite size_union, size_singleton by (clear -Hnew; set_solver). lia.
  - apply pmm_alloc_null in Ha as ->; [|done]. by split.
  - destruct (Hheld a Hin) as (Hra & Hmod & Hused). pose proof (wf_total p Hwf).
    rewrite pmm_free_cases in Ha by (done || (unfold PAGE_SIZE in *; lia)).
    rewrite Hused in Ha. injection Ha as <-.
    assert (0 < a / PAGE_SIZE < total_frames p) as Hr by (unfold PAGE_SIZE in *; zlia).
    destruct (mark_free_wf p Hwf (a / PAGE_SIZE) Hr Hused) as [Hwf' Hc].
    split; simpl; [done|done| |].
    + intros b [Hb Hne%not_elem_of_singleton]%elem_of_difference.
      specialize (Hheld b Hb) as (? & ? & Hu).
      rewrite frame_free_free, Hu, orb_false_r by (unfold PAGE_SIZE in *; zlia).
      split_and!; [lia|lia|done|].
      apply Z.eqb_neq. intros He. by apply Hne, frame_index_inj.
    + rewrite size_difference, size_singleton by (clear -Hin; set_solver).
      assert (size held <> O) by (apply size_non_empty_iff; clear -Hin; set_solver).
      cbn [free_frames mark_free] in Hc. lia.
Qed.

(** C21: The frame allocator implements its specification, a set of free frames.
    pmm_alloc on any well-formed state returns the address of the lowest free
    frame and takes exactly that frame out of the set (the counter going down
    by one), or, when no frame is free, returns null and changes nothing. *)
Theorem pmm_alloc_refines p :
  pmm_wf p ->
  exists a p', pmm_alloc p = Done (a, p') /\ pmm_wf p' /\
    ((a = 0 /\ p' = p /\ forall f, 0 <= f < MAX_FRAMES -> frame_free p f = false) \/
     (exists f, a = f * PAGE_SIZE /\ 0 < f < total_frames p /\ frame_free p f = true /\
        (forall g, 0 <= g < f -> frame_free p g = false) /\
        (forall g, 0 <= g -> frame_free p' g = negb (g =? f) && frame_free p g) /\
        free_frames p' = free_frames p - 1)).
Proof.
  intros Hwf. destruct (returns_inv _ _ _ (pmm_alloc_cases p Hwf)) as (a & p' & Ha & Hwf' & Hc).
  exists a, p'. split; [done|split; [done|]]. destruct Hc as [Hc|Hal]; [by left|right].
  destruct (allocated_counts p a p' Hwf Hal) as (? & _ & ? & ?).
  exists (a / PAGE_SIZE). destruct Hal as [(? & ? & ?) ? ? _]. split_and!; try done; try lia.
  unfold PAGE_SIZE in *. zlia.
Qed.

(** C7: No frame is ever handed out twice. In every state that clients reach
    from a well-formed allocator by allocating and by freeing frames they
    hold, an allocation that succeeds returns a page-aligned, non-null frame
    inside memory that no client holds, and the free counter accounts exactly
    for the frames held. *)
Theorem frames_never_shared p0 p held a p' :
  pmm_wf p0 -> rtc client_step (p0, ∅) (p, held) -> pmm_alloc p = Done (a, p') -> a <> 0 ->
  (a ∉ held) /\ a mod PAGE_SIZE = 0 /\ 0 < a < total_frames p0 * PAGE_SIZE /\
  free_frames p' + Z.of_nat (size held) + 1 = free_frames p0.
Proof.
  intros Hwf0 Hrun Ha Hne.
  assert (client_inv (total_frames p0) (free_frames p0) (p, held)) as Hinv.
  { eapply (rtc_ind_l (fun c => client_inv (total_frames p0) (free_frames p0) c ->
      client_inv (total_frames p0) (free_frames p0) (p, held))); [done| |exact Hrun|].
    - intros c c' Hstep _ IH Hc. eapply IH, client_inv_step; done.
    - split; cbn [fst snd]; [done|done|set_solver|]. rewrite size_empty. lia. }
  destruct Hinv as [Hwf Htot Hheld Hbud]. simpl in *.
  destruct (pmm_alloc_inv p a p' Hwf Ha Hne) as [_ Hal].
  destruct (allocated_counts p a p' Hwf Hal) as (Hc & _ & Hr & _).
  destruct Hal as [(? & ? & ?) Hfree _ _]. split_and!; try lia.
  intros (_ & _ & Hu)%Hheld. congruence.
Qed.

(** The boot sequence pmm_init; pmm_reserve leaves free exactly the frames
    of memory from 1 MiB up that no byte of the reserved range touches (and
    that the range's first page does not start), capped at 4 GiB. *)
Theorem boot_free_frames kb base len p0 :
  0 <= base -> 0 <= len -> base + len <= 2^64 - PAGE_SIZE ->
  exists p, (pmm_init kb;; pmm_reserve base len) p0 = Done (tt, p) /\ pmm_wf p /\
    (forall f, 0 <= f < MAX_FRAMES -> frame_free p f =
      ((256 <=? f) && (f <? memory_frames kb) &&
       negb ((base / PAGE_SIZE <=? f) && (f * PAGE_SIZE <? base + len)))).
Proof.
  intros ? ? ?. destruct (returns_inv _ _ _ (pmm_init_ok kb p0)) as ([] & p1 & Hi & Hwf & Ht & Hf).
  destruct (returns_inv _ _ _ (pmm_reserve_ok p1 base len Hwf ltac:(done) ltac:(done) ltac:(done)))
    as ([] & p & Hr & Hwf' & _ & Hf').
  exists p. split; [by rewrite (bind_Done _ _ _ _ _ Hi)|]. split; [done|].
  intros f Hr'. by rewrite Hf', Hf.
Qed.

(** ** Witnesses *)

(** Eight frames of which only frame 5 is free. *)
Definition pmm_sample : pmm := mark_free (Pmm (fun _ => 0xFF) 8 0) 5.

Lemma pmm_sample_wf : pmm_wf pmm_sample.
Proof. apply mark_free_wf; [apply all_used_wf; done|simpl; lia|by vm_compute]. Qed.

Lemma pmm_alloc_refines_witness :
  pmm_wf pmm_sample /\ exists p', pmm_alloc pmm_sample = Done (5 * PAGE_SIZE, p').
Proof.
  split; [apply pmm_sample_wf|].
  destruct (pmm_alloc_refines pmm_sample pmm_sample_wf) as (a & p' & Ha & _).
  exists p'. rewrite Ha. do 2 f_equal. revert Ha. vm_compute. by intros [= <- _].
Defined.

Lemma frames_never_shared_witness :
  exists p', pmm_alloc pmm_sample = Done (5 * PAGE_SIZE, p') /\ free_frames p' + 0 + 1 = 1.
Proof.
  exists (mark_used pmm_sample 5). split; [vm_compute; reflexivity|].
  destruct (frames_never_shared pmm_sample pmm_sample ∅ (5 * PAGE_SIZE) (mark_used pmm_sample 5))
    as (_ & _ & _ & Hb); [apply pmm_sample_wf|apply rtc_refl|vm_compute; reflexivity|done|].
  exact Hb.
Defined.

Lemma boot_free_frames_witness :
  exists p, (pmm_init 1100;; pmm_reserve 0x101000 0x1800) pmm_sample = Done (tt, p) /\
    (fun f => frame_free p f) <$> [255; 256; 257; 258; 259; 274; 275] =
      [false; true; false; false; true; true; false].
Proof.
  destruct (boot_free_frames 1100 0x101000 0x1800 pmm_sample) as (p & Hp & _ & Hf);
    [done..|].
  exists p. split; [exact Hp|clear Hp]. cbn [fmap list_fmap].
  rewrite !Hf by (unfold MAX_FRAMES; lia). vm_compute. reflexivity.
Defined.
