(* ===== verification/Mem.v ===== *)
(** * Byte-addressed memory

    RAM as the kernel sees it: a byte at every address, little-endian words.
    The kernel reaches physical memory below 4 GiB through the boot identity
    map, so a physical address and the kernel pointer to it are the same
    number; the heap's own virtual region is a second memory (see Heap). *)

From S2P Require Import Prelude.

Abbreviation mem := (Z -> Z) (only parsing).

(** Every cell holds a byte. *)
Definition mem_ok (m : mem) : Prop := forall a, 0 <= m a < 256.

Definition store8 (m : mem) (a v : Z) : mem := <[a := u8 v]> m.

(** Little-endian words of [n] bytes. *)
Fixpoint load_le (n : nat) (m : mem) (a : Z) : Z :=
  match n with
  | O => 0
  | Datatypes.S n' => m a + 256 * load_le n' m (a + 1)
  end.
Fixpoint store_le (n : nat) (m : mem) (a v : Z) : mem :=
  match n with
  | O => m
  | Datatypes.S n' => store_le n' (store8 m a v) (a + 1) (v / 256)
  end.

Definition load16 := load_le 2.
Definition load32 := load_le 4.
Definition load64 := load_le 8.
Definition store16 := store_le 2.
Definition store32 := store_le 4.
Definition store64 := store_le 8.

(** A list of bytes read from and written to memory. *)
Definition load_bytes (m : mem) (a : Z) (n : nat) : list Z := (fun i => m (a + i)) <$> seqZ 0 (Z.of_nat n).
Fixpoint store_bytes (m : mem) (a : Z) (bs : list Z) : mem :=
  match bs with
  | [] => m
  | b :: bs' => store_bytes (store8 m a b) (a + 1) bs'
  end.

(** A buffer given by its bytes, and the little-endian bytes of a word. *)
Definition bytes_at (bs : list Z) : mem := fun a => default 0 (bs !! Z.to_nat a).
Fixpoint le_bytes (n : nat) (v : Z) : list Z :=
  match n with
  | O => []
  | S n' => u8 v :: le_bytes n' (v / 256)
  end.

(** Two memories with the same contents. *)
Definition meq (m m' : mem) : Prop := forall a, m a = m' a.
#[export] Instance meq_equivalence : Equivalence meq.
Proof. split; unfold meq; [done| |]; intros ?; [intros|intros ???]; congruence. Qed.

(** The bytes [\[lo, hi)] are the same in both memories. *)
Definition same_on (lo hi : Z) (m m' : mem) : Prop := forall a, lo <= a < hi -> m a = m' a.

Lemma store8_at m a v x : store8 m a v x = if x =? a then u8 v else m x.
Proof. apply upd_case. Qed.

#[export] Instance store8_proper : Proper (meq ==> eq ==> eq ==> meq) store8.
Proof. intros m m' Hm a ? <- v ? <- x. rewrite !store8_at. by rewrite Hm. Qed.
#[export] Instance load_le_proper n : Proper (meq ==> eq ==> eq) (load_le n).
Proof.
  intros m m' Hm a ? <-. revert a. induction n as [|n IH]; intros a; simpl; [done|].
  by rewrite Hm, IH.
Qed.
#[export] Instance store_le_proper n : Proper (meq ==> eq ==> eq ==> meq) (store_le n).
Proof.
  intros m m' Hm a ? <- v ? <-. revert m m' Hm a v.
  induction n as [|n IH]; intros m m' Hm a v; simpl; [done|]. apply IH. by rewrite Hm.
Qed.

Lemma load_le_ext n m m' a : same_on a (a + Z.of_nat n) m m' -> load_le n m a = load_le n m' a.
Proof.
  revert a. induction n as [|n IH]; intros a Hs; cbn [load_le]; [done|].
  rewrite (Hs a), (IH (a + 1)); [done| |lia]. intros x Hx. apply Hs. lia.
Qed.

Lemma store_le_at n m a v x :
  store_le n m a v x = if (a <=? x) && (x <? a + Z.of_nat n) then v / 256 ^ (x - a) mod 256 else m x.
Proof.
  revert m a v. induction n as [|n IH]; intros m a v; cbn [store_le].
  - destruct (Z.leb_spec a x), (Z.ltb_spec x (a + Z.of_nat 0)); simpl; try done; lia.
  - rewrite IH, store8_at. destruct (Z.eqb_spec x a) as [->|Hne].
    + replace (a - a) with 0 by lia. rewrite Z.pow_0_r, Z.div_1_r.
      destruct (Z.leb_spec (a + 1) a), (Z.leb_spec a a), (Z.ltb_spec a (a + Z.of_nat (S n)));
        simpl; try lia. done.
    + destruct (decide (a < x < a + Z.of_nat (S n))).
      * replace ((a + 1 <=? x) && (x <? a + 1 + Z.of_nat n)) with true by blia.
        replace ((a <=? x) && (x <? a + Z.of_nat (S n))) with true by blia.
        rewrite Z.div_div by lia. do 2 f_equal.
        replace (x - a) with (1 + (x - (a + 1))) by lia. rewrite Z.pow_add_r by lia. lia.
      * replace ((a + 1 <=? x) && (x <? a + 1 + Z.of_nat n)) with false by blia.
        by replace ((a <=? x) && (x <? a + Z.of_nat (S n))) with false by blia.
Qed.

Lemma store_le_other n m a v x :
  x < a \/ a + Z.of_nat n <= x -> store_le n m a v x = m x.
Proof. intros. rewrite store_le_at. by replace (_ && _) with false by blia. Qed.

Lemma mem_ok_store_le n m a v : mem_ok m -> mem_ok (store_le n m a v).
Proof.
  intros Hm x. rewrite store_le_at. destruct (_ && _); [apply Z.mod_pos_bound; lia|apply Hm].
Qed.
Lemma mem_ok_store8 m a v : mem_ok m -> mem_ok (store8 m a v).
Proof. intros Hm x. rewrite store8_at. destruct (_ =? _); [apply u8_range|apply Hm]. Qed.

Lemma load_le_range n m a : mem_ok m -> 0 <= load_le n m a < 256 ^ Z.of_nat n.
Proof.
  intros Hm. revert a. induction n as [|n IH]; intros a; cbn [load_le]; [simpl; lia|].
  specialize (IH (a + 1)). specialize (Hm a).
  rewrite Nat2Z.inj_succ, Z.pow_succ_r by lia. lia.
Qed.

(** A word read back where it was written. *)
Lemma load_store_same n m a v :
  load_le n (store_le n m a v) a = v mod 256 ^ Z.of_nat n.
Proof.
  revert m a v. induction n as [|n IH]; intros m a v; cbn [load_le store_le].
  - by rewrite Z.mod_1_r.
  - rewrite IH, store_le_other by lia. rewrite store8_at, Z.eqb_refl. unfold u8.
    rewrite Nat2Z.inj_succ, Z.pow_succ_r by lia.
    rewrite Z.rem_mul_r by lia. change (2^8) with 256. lia.
Qed.

Lemma load_store_other n k m a b v :
  a + Z.of_nat n <= b \/ b + Z.of_nat k <= a ->
  load_le n (store_le k m b v) a = load_le n m a.
Proof.
  intros Hd. apply load_le_ext. intros x Hx. apply store_le_other. lia.
Qed.

Lemma load64_store64 m a v : 0 <= v < 2^64 -> load64 (store64 m a v) a = v.
Proof. intros. unfold load64, store64. rewrite load_store_same. by apply Z.mod_small. Qed.
Lemma load64_store64_other m a b v :
  a + 8 <= b \/ b + 8 <= a -> load64 (store64 m b v) a = load64 m a.
Proof. intros. by apply load_store_other. Qed.
Lemma load64_range m a : mem_ok m -> 0 <= load64 m a < 2^64.
Proof. apply (load_le_range 8). Qed.
Lemma store64_other m a v x : x < a \/ a + 8 <= x -> store64 m a v x = m x.
Proof. intros. by apply store_le_other. Qed.
#[export] Hint Resolve mem_ok_store_le mem_ok_store8 : vnl.

Lemma store_bytes_at m a bs x :
  store_bytes m a bs x =
  match bs !! Z.to_nat (x - a) with
  | Some b => if a <=? x then u8 b else m x
  | None => m x
  end.
Proof.
  revert m a. induction bs as [|b bs IH]; intros m a; [done|]. cbn [store_bytes].
  rewrite IH, store8_at. destruct (Z.eqb_spec x a) as [->|Hne].
  - rewrite Z.sub_diag, Z.leb_refl. simpl.
    destruct (Z.leb_spec (a + 1) a); try lia. all: by repeat case_match.
  - destruct (decide (a < x)).
    + replace (Z.to_nat (x - a)) with (S (Z.to_nat (x - (a + 1)))) by lia. simpl.
      destruct (Z.leb_spec a x), (Z.leb_spec (a + 1) x); try lia. all: done.
    + replace (Z.to_nat (x - a)) with O by lia. simpl.
      destruct (Z.leb_spec a x), (Z.leb_spec (a + 1) x); try lia. all: by case_match.
Qed.

Lemma length_load_bytes m a n : length (load_bytes m a n) = n.
Proof. unfold load_bytes. rewrite length_fmap, length_seqZ. lia. Qed.
Lemma lookup_load_bytes m a n i :
  load_bytes m a n !! i = if decide (i < n)%nat then Some (m (a + Z.of_nat i)) else None.
Proof.
  unfold load_bytes. rewrite list_lookup_fmap. case_decide.
  - rewrite lookup_seqZ_lt by lia. done.
  - rewrite lookup_seqZ_ge by lia. done.
Qed.

(** Bytes read back where they were written. *)
Lemma load_store_bytes m a bs :
  Forall (fun b => 0 <= b < 256) bs ->
  load_bytes (store_bytes m a bs) a (length bs) = bs.
Proof.
  intros Hbs. apply list_eq. intros i. rewrite lookup_load_bytes. case_decide as Hi.
  - rewrite store_bytes_at. replace (Z.to_nat _) with i by lia.
    destruct (lookup_lt_is_Some_2 bs i Hi) as [b Hb]. rewrite Hb.
    replace (a <=? a + Z.of_nat i) with true by blia.
    rewrite u8_small; [done|]. by eapply (Forall_lookup_1 _ _ _ _ Hbs).
  - symmetry. apply lookup_ge_None. lia.
Qed.
Lemma mem_ok_store_bytes m a bs : mem_ok m -> mem_ok (store_bytes m a bs).
Proof.
  intros Hm. revert m a Hm. induction bs as [|b bs IH]; intros m a Hm; simpl; [done|].
  apply IH. by apply mem_ok_store8.
Qed.

(** Writing back the word read from another memory copies its bytes. *)
Lemma store_load_at n m m0 p x :
  mem_ok m0 ->
  store_le n m p (load_le n m0 p) x = if (p <=? x) && (x <? p + Z.of_nat n) then m0 x else m x.
Proof.
  intros Hm. revert m p. induction n as [|n IH]; intros m p; cbn [load_le store_le]; [blia|].
  assert (u8 (m0 p + 256 * load_le n m0 (p + 1)) = m0 p) as Hb.
  { unfold u8. rewrite Z.add_comm, Z.mul_comm. change (2^8) with 256. rewrite Z.add_comm, Z_mod_plus_full. apply Z.mod_small, Hm. }
  replace ((m0 p + 256 * load_le n m0 (p + 1)) / 256) with (load_le n m0 (p + 1)).
  2: { rewrite Z.mul_comm, Z.div_add by lia. rewrite Z.div_small by apply Hm. lia. }
  rewrite IH, store8_at, Hb. destruct (Z.eqb_spec x p) as [->|]; blia.
Qed.

Lemma bytes_at_ok bs : Forall (fun b => 0 <= b < 256) bs -> mem_ok (bytes_at bs).
Proof.
  intros Hbs a. unfold bytes_at. destruct (bs !! Z.to_nat a) as [b|] eqn:Hb; simpl; [|lia].
  by apply (Forall_lookup_1 _ _ _ _ Hbs) in Hb.
Qed.
