(* ===== verification/Strings.v ===== *)
(** * String and memory routines (src/src/lib/string.c)

    Every routine works on the bytes of a memory (see Mem). Loops that stop at
    a terminator take fuel and return [None] when it runs out; the theorems
    show that the length of the string is enough. Components that only pass
    C strings around use [string] values, which these theorems justify:
    [cstr m a s] says that the bytes of [s] and a terminator are at [a]. *)

From S2P Require Import Prelude Mem.

(** ** The routines *)

Fixpoint strlen_from (fuel : nat) (m : mem) (s n : Z) : option Z :=
  match fuel with
  | O => None
  | S k => if nonzero (m s) then strlen_from k m (s + 1) (u64 (n + 1)) else Some n
  end.
Definition strlen (fuel : nat) (m : mem) (s : Z) : option Z := strlen_from fuel m s 0.

Fixpoint strcmp (fuel : nat) (m : mem) (a b : Z) : option Z :=
  match fuel with
  | O => None
  | S k => if nonzero (m a) && (m a =? m b) then strcmp k m (a + 1) (b + 1)
           else Some (m a - m b)
  end.

(** [while (n-- && *a && *a == *b)]: [n] has wrapped to (size_t)-1 exactly when
    the count was used up. *)
Fixpoint strncmp (fuel : nat) (m : mem) (a b n : Z) : option Z :=
  match fuel with
  | O => None
  | S k =>
      let n' := u64 (n - 1) in
      if nonzero n && (nonzero (m a) && (m a =? m b)) then strncmp k m (a + 1) (b + 1) n'
      else if n' =? 2^64 - 1 then Some 0 else Some (m a - m b)
  end.

Fixpoint strcpy (fuel : nat) (m : mem) (dst src : Z) : option mem :=
  match fuel with
  | O => None
  | S k =>
      let c := m src in
      let m' := store8 m dst c in
      if nonzero c then strcpy k m' (dst + 1) (src + 1) else Some m'
  end.

(** memset(), memcpy() and memcmp() count [n] down to zero. *)
Fixpoint memset (m : mem) (dst c : Z) (n : nat) : mem :=
  match n with
  | O => m
  | S k => memset (store8 m dst c) (dst + 1) c k
  end.

Fixpoint memcpy (m : mem) (dst src : Z) (n : nat) : mem :=
  match n with
  | O => m
  | S k => memcpy (store8 m dst (m src)) (dst + 1) (src + 1) k
  end.

(** The second loop of memmove(): [d] and [s] point one past the bytes left. *)
Fixpoint memmove_down (m : mem) (d s : Z) (n : nat) : mem :=
  match n with
  | O => m
  | S k => memmove_down (store8 m (d - 1) (m (s - 1))) (d - 1) (s - 1) k
  end.
Definition memmove (m : mem) (dst src : Z) (n : nat) : mem :=
  if dst <? src then memcpy m dst src n
  else memmove_down m (dst + Z.of_nat n) (src + Z.of_nat n) n.

Fixpoint memcmp (m : mem) (a b : Z) (n : nat) : Z :=
  match n with
  | O => 0
  | S k => if negb (m a =? m b) then m a - m b else memcmp m (a + 1) (b + 1) k
  end.

(** The first loop of strncpy() returns with the [n] left and [dst] advanced
    past what it wrote; a terminator it copies is not counted in [n]. *)
Fixpoint strncpy_copy (m : mem) (dst src : Z) (n : nat) : mem * Z * nat :=
  match n with
  | O => (m, dst, O)
  | S k =>
      let c := m src in
      let m' := store8 m dst c in
      if nonzero c then strncpy_copy m' (dst + 1) (src + 1) k else (m', dst + 1, n)
  end.
Definition strncpy (m : mem) (dst src : Z) (n : nat) : mem :=
  let '(m', dst', n') := strncpy_copy m dst src n in memset m' dst' 0 n'.

Fixpoint skip_to_nul (fuel : nat) (m : mem) (dst : Z) : option Z :=
  match fuel with
  | O => None
  | S k => if nonzero (m dst) then skip_to_nul k m (dst + 1) else Some dst
  end.
Definition strcat (fuel : nat) (m : mem) (dst src : Z) : option mem :=
  d ← skip_to_nul fuel m dst; strcpy fuel m d src.

Fixpoint strncat_copy (m : mem) (dst src : Z) (n : nat) : mem * Z :=
  match n with
  | O => (m, dst)
  | S k => if nonzero (m src) then strncat_copy (store8 m dst (m src)) (dst + 1) (src + 1) k
           else (m, dst)
  end.
Definition strncat (fuel : nat) (m : mem) (dst src : Z) (n : nat) : option mem :=
  d ← skip_to_nul fuel m dst;
  let '(m', d') := strncat_copy m d src n in Some (store8 m' d' 0).

(** A pointer result is an address, 0 for NULL. *)
Fixpoint strchr (fuel : nat) (m : mem) (s c : Z) : option Z :=
  match fuel with
  | O => None
  | S k => if nonzero (m s) then (if m s =? u8 c then Some s else strchr k m (s + 1) c)
           else Some 0
  end.
Fixpoint strrchr_from (fuel : nat) (m : mem) (s c last : Z) : option Z :=
  match fuel with
  | O => None
  | S k => if nonzero (m s) then strrchr_from k m (s + 1) c (if m s =? u8 c then s else last)
           else Some last
  end.
Definition strrchr (fuel : nat) (m : mem) (s c : Z) : option Z := strrchr_from fuel m s c 0.

Fixpoint strstr_from (fuel fuel' : nat) (m : mem) (hay needle nl : Z) : option Z :=
  match fuel with
  | O => None
  | S k =>
      if nonzero (m hay) then
        r ← strncmp fuel' m hay needle nl;
        if r =? 0 then Some hay else strstr_from k fuel' m (hay + 1) needle nl
      else Some 0
  end.
Definition strstr (fuel : nat) (m : mem) (hay needle : Z) : option Z :=
  if negb (nonzero (m needle)) then Some hay
  else nl ← strlen fuel m needle; strstr_from fuel fuel m hay needle nl.

(** strtol(): blanks, sign, prefix, digits. *)
Definition is_blank (c : Z) : bool := (c =? 32) || (c =? 9).
Fixpoint skip_blanks (fuel : nat) (m : mem) (s : Z) : option Z :=
  match fuel with
  | O => None
  | S k => if is_blank (m s) then skip_blanks k m (s + 1) else Some s
  end.
Definition is_x (c : Z) : bool := (c =? 120) || (c =? 88).

(** The sign and the base the prefix selects, with [s] moved past them. *)
Definition strtol_sign (m : mem) (s : Z) : bool * Z :=
  if m s =? 45 then (true, s + 1) else if m s =? 43 then (false, s + 1) else (false, s).
Definition strtol_base (m : mem) (s base : Z) : Z * Z :=
  if base =? 0 then
    if (m s =? 48) && is_x (m (s + 1)) then (16, s + 2)
    else if m s =? 48 then (8, s + 1) else (10, s)
  else if (base =? 16) && ((m s =? 48) && is_x (m (s + 1))) then (16, s + 2)
  else (base, s).
Definition strtol_digit (c : Z) : option Z :=
  if (48 <=? c) && (c <=? 57) then Some (c - 48)
  else if (97 <=? c) && (c <=? 102) then Some (c - 97 + 10)
  else if (65 <=? c) && (c <=? 70) then Some (c - 65 + 10)
  else None.
Fixpoint strtol_digits (fuel : nat) (m : mem) (s base v : Z) : option (Z * Z) :=
  match fuel with
  | O => None
  | S k =>
      if nonzero (m s) then
        match strtol_digit (m s) with
        | Some d => if base <=? d then Some (v, s)
                    else strtol_digits k m (s + 1) base (s64 (v * base + d))
        | None => Some (v, s)
        end
      else Some (v, s)
  end.
(** The value and the end pointer. *)
Definition strtol (fuel : nat) (m : mem) (s base : Z) : option (Z * Z) :=
  s0 ← skip_blanks fuel m s;
  let '(neg, s1) := strtol_sign m s0 in
  let '(base', s2) := strtol_base m s1 base in
  '(v, e) ← strtol_digits fuel m s2 base' 0;
  Some (if (neg : bool) then s64 (- v) else v, e).

(** ** C strings *)

(** The bytes [l], none of them zero, and a terminator at [a]. *)
Definition cstr (m : mem) (a : Z) (l : list Z) : Prop :=
  Forall (fun c => 0 < c < 256) l /\
  (forall i c, l !! i = Some c -> m (a + Z.of_nat i) = c) /\
  m (a + Z.of_nat (length l)) = 0.

Lemma cstr_nil m a : cstr m a [] <-> m a = 0.
Proof.
  unfold cstr. simpl. rewrite Z.add_0_r. split; [by intros (_ & _ & ?)|].
  intros Ha. split_and!; [constructor|by intros ?? ?|done].
Qed.

Lemma cstr_cons m a c l :
  cstr m a (c :: l) <-> 0 < c < 256 /\ m a = c /\ cstr m (a + 1) l.
Proof.
  unfold cstr. rewrite Forall_cons_iff. cbn [length]. split.
  - intros ([Hc Hl] & Hm & Hz). split_and!; [lia|lia| |done| |].
    + rewrite <- (Hm O c); [by rewrite Z.add_0_r|done].
    + intros i d Hd. rewrite <- (Hm (S i) d Hd). f_equal. lia.
    + rewrite <- Hz. f_equal. lia.
  - intros (Hc & Hm & Hl & Hi & Hz). split_and!; [lia..|done| |].
    + intros [|i] d Hd; simpl in Hd; [injection Hd as <-; by rewrite Z.add_0_r|].
      rewrite <- (Hi i d Hd). f_equal. lia.
    + rewrite <- Hz. f_equal. lia.
Qed.

Lemma cstr_same_on m m' a l :
  same_on a (a + Z.of_nat (length l) + 1) m m' -> cstr m a l -> cstr m' a l.
Proof.
  intros Hs (Hl & Hi & Hz). split_and!; [done| |].
  - intros i c Hc. rewrite <- (Hi i c Hc). symmetry. apply Hs.
    apply lookup_lt_Some in Hc. lia.
  - rewrite <- Hz. symmetry. apply Hs. lia.
Qed.

Lemma nonzero_pos c : 0 < c -> nonzero c = true.
Proof. intros. unfold nonzero. by replace (c =? 0) with false by blia. Qed.

(** Bytes of a [string], and the string at an address. *)
Definition bytes_of (s : string) : list Z := (fun c => Z.of_N (Ascii.N_of_ascii c)) <$> String.list_ascii_of_string s.

Lemma length_bytes_of s : length (bytes_of s) = String.length s.
Proof. unfold bytes_of. rewrite length_fmap. induction s as [|c s IH]; simpl; congruence. Qed.

(** ** strlen, strcmp *)

Lemma strlen_from_cstr m a l fuel n :
  cstr m a l -> (length l < fuel)%nat -> 0 <= n -> n + Z.of_nat (length l) < 2^64 ->
  strlen_from fuel m a n = Some (n + Z.of_nat (length l)).
Proof.
  revert a fuel n. induction l as [|c l IH]; intros a [|fuel] n Hc Hf Hn Hlt;
    cbn [strlen_from length] in *; try lia.
  - apply cstr_nil in Hc. rewrite Hc. cbn. f_equal. lia.
  - apply cstr_cons in Hc as (Hc & -> & Hl). rewrite nonzero_pos by lia.
    rewrite u64_small by lia. rewrite IH; [f_equal; lia|done|lia..].
Qed.

(** Lexicographic difference of two terminated strings. *)
Fixpoint bytes_diff (l k : list Z) : Z :=
  match l, k with
  | [], [] => 0
  | [], d :: _ => - d
  | c :: _, [] => c
  | c :: l', d :: k' => if c =? d then bytes_diff l' k' else c - d
  end.

Lemma strcmp_cstr m a b l k fuel :
  cstr m a l -> cstr m b k -> (length l < fuel)%nat ->
  strcmp fuel m a b = Some (bytes_diff l k).
Proof.
  revert a b k fuel. induction l as [|c l IH]; intros a b k [|fuel] Ha Hb Hf;
    cbn [strcmp length bytes_diff] in *; try lia.
  - apply cstr_nil in Ha. rewrite Ha. cbn. destruct k as [|d k].
    + apply cstr_nil in Hb. by rewrite Hb.
    + apply cstr_cons in Hb as (_ & -> & _). done.
  - apply cstr_cons in Ha as (Hc & -> & Hl). rewrite nonzero_pos by lia. cbn.
    destruct k as [|d k].
    + apply cstr_nil in Hb. rewrite Hb. destruct (Z.eqb_spec c 0); [lia|]. f_equal. lia.
    + apply cstr_cons in Hb as (Hd & -> & Hk). destruct (Z.eqb_spec c d); [|done].
      apply IH; [done|done|lia].
Qed.

Lemma bytes_diff_0 l k :
  Forall (fun c => 0 < c < 256) l -> Forall (fun c => 0 < c < 256) k ->
  bytes_diff l k = 0 <-> l = k.
Proof.
  intros Hl. revert k. induction Hl as [|c l Hc Hl IH]; intros [|d k] Hk; simpl; try done.
  - apply Forall_cons_iff in Hk as [Hd _]. split; [lia|done].
  - split; [lia|done].
  - apply Forall_cons_iff in Hk as [Hd Hk]. destruct (Z.eqb_spec c d) as [->|].
    + rewrite IH by done. split; [by intros ->|by intros [= ->]].
    + split; [lia|congruence].
Qed.

(** ** Copying and filling *)

Lemma store_bytes_app m a l k :
  store_bytes m a (l ++ k) = store_bytes (store_bytes m a l) (a + Z.of_nat (length l)) k.
Proof.
  revert m a. induction l as [|c l IH]; intros m a; cbn [app store_bytes length].
  - by rewrite Z.add_0_r.
  - rewrite IH. f_equal. lia.
Qed.

Lemma memset_bytes m d c n : memset m d c n = store_bytes m d (replicate n c).
Proof. revert m d. induction n as [|n IH]; intros m d; simpl; [done|]. apply IH. Qed.

Lemma memset_at m d c n x :
  memset m d c n x = if (d <=? x) && (x <? d + Z.of_nat n) then u8 c else m x.
Proof.
  revert m d. induction n as [|n IH]; intros m d; cbn [memset]; [blia|].
  rewrite IH, store8_at. blia.
Qed.

(** A forward copy is right when the destination is not inside the rest of the
    source, a backward one when the source is not inside the rest of the destination. *)
Lemma memcpy_at m d s n x :
  d <= s \/ s + Z.of_nat n <= d ->
  memcpy m d s n x = if (d <=? x) && (x <? d + Z.of_nat n) then u8 (m (s + (x - d))) else m x.
Proof.
  revert m d s. induction n as [|n IH]; intros m d s Hd; cbn [memcpy]; [blia|].
  rewrite IH, !store8_at by lia. destruct (Z.eqb_spec x d) as [->|Hx].
  - replace (s + (d - d)) with s by lia. blia.
  - replace (s + 1 + (x - (d + 1))) with (s + (x - d)) by lia. blia.
Qed.

Lemma memmove_down_at m d s n x :
  s <= d \/ d + Z.of_nat n <= s ->
  memmove_down m (d + Z.of_nat n) (s + Z.of_nat n) n x =
  if (d <=? x) && (x <? d + Z.of_nat n) then u8 (m (s + (x - d))) else m x.
Proof.
  revert m. induction n as [|n IH]; intros m Hd; cbn [memmove_down]; [blia|].
  replace (d + Z.of_nat (S n) - 1) with (d + Z.of_nat n) by lia.
  replace (s + Z.of_nat (S n) - 1) with (s + Z.of_nat n) by lia.
  rewrite IH, !store8_at by lia. destruct (Z.eqb_spec x (d + Z.of_nat n)) as [->|Hx].
  - replace (s + (d + Z.of_nat n - d)) with (s + Z.of_nat n) by lia. blia.
  - blia.
Qed.

Lemma memmove_at m d s n x :
  memmove m d s n x = if (d <=? x) && (x <? d + Z.of_nat n) then u8 (m (s + (x - d))) else m x.
Proof.
  unfold memmove. destruct (Z.ltb_spec d s).
  - apply memcpy_at. lia.
  - apply memmove_down_at. lia.
Qed.

(** What is left of the source string after a byte was written elsewhere. *)
Lemma cstr_store8 m a l x v :
  x < a \/ a + Z.of_nat (length l) < x -> cstr m a l -> cstr (store8 m x v) a l.
Proof.
  intros Hx. apply cstr_same_on. intros y Hy. rewrite store8_at.
  by replace (y =? x) with false by blia.
Qed.

Lemma strcpy_cstr m d s l fuel :
  cstr m s l -> d + Z.of_nat (length l) < s \/ s + Z.of_nat (length l) < d ->
  (length l < fuel)%nat -> strcpy fuel m d s = Some (store_bytes m d (l ++ [0])).
Proof.
  revert m d s fuel. induction l as [|c l IH]; intros m d s [|fuel] Hs Hd Hf;
    cbn [strcpy length app store_bytes] in *; try lia.
  - apply cstr_nil in Hs. by rewrite Hs.
  - apply cstr_cons in Hs as (Hc & -> & Hl). rewrite nonzero_pos by lia.
    apply IH; [apply cstr_store8; [lia|done]|lia|lia].
Qed.

(** What strncpy() stores. *)
Definition strncpy_bytes (l : list Z) (n : nat) : list Z :=
  if (length l <? n)%nat then l ++ replicate (n + 1 - length l) 0 else take n l.

Lemma strncpy_copy_cstr m d s l n :
  cstr m s l -> d + Z.of_nat n < s \/ s + Z.of_nat (length l) < d ->
  strncpy_copy m d s n =
  if (length l <? n)%nat
  then (store_bytes m d (l ++ [0]), d + Z.of_nat (length l) + 1, (n - length l)%nat)
  else (store_bytes m d (take n l), d + Z.of_nat n, O).
Proof.
  revert m d s l. induction n as [|n IH]; intros m d s l Hs Hd.
  - replace (_ <? 0)%nat with false by (symmetry; apply Nat.ltb_ge; lia).
    cbn [strncpy_copy take store_bytes]. by rewrite Z.add_0_r.
  - cbn [strncpy_copy]. destruct l as [|c l].
    + apply cstr_nil in Hs. rewrite Hs. cbn. f_equal. f_equal. lia.
    + cbn [length] in Hd. apply cstr_cons in Hs as (Hc & -> & Hl). rewrite nonzero_pos by lia.
      rewrite (IH _ _ _ l); [|apply cstr_store8; [lia|done]|lia].
      change (length (c :: l) <? S n)%nat with (length l <? n)%nat.
      destruct (length l <? n)%nat; cbn [app store_bytes take length].
      * by replace (d + Z.of_nat (S (length l)) + 1) with (d + 1 + Z.of_nat (length l) + 1) by lia.
      * by replace (d + Z.of_nat (S n)) with (d + 1 + Z.of_nat n) by lia.
Qed.

(** ** Numbers *)

(** The value of a digit string and the bytes of decimal digits. *)
Definition digits_val (base : Z) (ds : list Z) (v : Z) : Z := fold_left (fun v d => v * base + d) ds v.
Definition dec_bytes (ds : list Z) : list Z := (fun d => d + 48) <$> ds.

Lemma digits_val_mono ds v : 0 <= v -> Forall (fun d => 0 <= d < 10) ds -> v <= digits_val 10 ds v.
Proof.
  intros Hv Hds. revert v Hv. induction Hds as [|d ds Hd Hds IH]; intros v Hv; simpl; [lia|].
  etrans; [|apply IH; lia]. lia.
Qed.

Lemma strtol_digit_dec d : 0 <= d < 10 -> strtol_digit (d + 48) = Some d.
Proof.
  intros. unfold strtol_digit. replace (_ && _) with true by blia. f_equal. lia.
Qed.

(** The rest of the string does not begin with a decimal digit. *)
Definition no_digit (l : list Z) : Prop :=
  match l with [] => True | c :: _ => c < 48 \/ 57 < c end.

Lemma strtol_digit_none c d : c < 48 \/ 57 < c -> strtol_digit c = Some d -> 10 <= d.
Proof.
  intros Hc. unfold strtol_digit.
  destruct ((48 <=? c) && (c <=? 57)) eqn:H1; [to_prop; lia|].
  destruct ((97 <=? c) && (c <=? 102)) eqn:H2; [to_prop; intros [= <-]; lia|].
  destruct ((65 <=? c) && (c <=? 70)) eqn:H3; [to_prop; intros [= <-]; lia|done].
Qed.

Lemma strtol_digits_dec m a ds rest v fuel :
  cstr m a (dec_bytes ds ++ rest) -> Forall (fun d => 0 <= d < 10) ds -> no_digit rest ->
  0 <= v -> digits_val 10 ds v < 2^63 -> (length ds < fuel)%nat ->
  strtol_digits fuel m a 10 v = Some (digits_val 10 ds v, a + Z.of_nat (length ds)).
Proof.
  intros Hc Hds. revert m a v fuel Hc.
  induction Hds as [|d ds Hd Hds IH]; intros m a v [|fuel] Hc Hr Hv Hlt Hf;
    cbn [strtol_digits length dec_bytes fmap list_fmap app digits_val fold_left] in *; try lia.
  - rewrite Z.add_0_r. destruct rest as [|c rest].
    + apply cstr_nil in Hc. by rewrite Hc.
    + apply cstr_cons in Hc as (Hc & -> & _). rewrite nonzero_pos by lia.
      destruct (strtol_digit c) as [d|] eqn:Hd; [|done].
      apply strtol_digit_none in Hd; [|done]. by replace (10 <=? d) with true by blia.
  - apply cstr_cons in Hc as (Hc & -> & Hl). rewrite nonzero_pos, strtol_digit_dec by lia.
    replace (10 <=? d) with false by blia.
    pose proof (digits_val_mono ds (v * 10 + d)) as Hm. unfold digits_val in *.
    rewrite s64_small by (specialize (Hm ltac:(lia) Hds); lia).
    rewrite IH; [do 2 f_equal; lia|done|done|lia|done|lia].
Qed.

Lemma skip_blanks_cstr m a nb l fuel :
  cstr m a (replicate nb 32 ++ l) -> match l with [] => True | c :: _ => is_blank c = false end ->
  (nb < fuel)%nat -> skip_blanks fuel m a = Some (a + Z.of_nat nb) /\ cstr m (a + Z.of_nat nb) l.
Proof.
  revert a fuel. induction nb as [|nb IH]; intros a [|fuel] Hc Hl Hf;
    cbn [replicate app skip_blanks] in *; try lia.
  - rewrite Z.add_0_r. split; [|done]. destruct l as [|c l].
    + apply cstr_nil in Hc. by rewrite Hc.
    + apply cstr_cons in Hc as (_ & -> & _). by rewrite Hl.
  - apply cstr_cons in Hc as (_ & -> & Hc). simpl.
    replace (a + Z.of_nat (S nb)) with (a + 1 + Z.of_nat nb) by lia. apply IH; [done..|lia].
Qed.

Lemma cstr_store_bytes m a l :
  Forall (fun c => 0 < c < 256) l -> cstr (store_bytes m a (l ++ [0])) a l.
Proof.
  intros Hl. assert (forall i c, (l ++ [0]) !! i = Some c -> 0 <= c < 256 ->
    store_bytes m a (l ++ [0]) (a + Z.of_nat i) = c) as Hat.
  { intros i c Hi Hc. rewrite store_bytes_at. replace (Z.to_nat _) with i by lia.
    rewrite Hi. replace (a <=? _) with true by blia. by apply u8_small. }
  split_and!; [done| |].
  - intros i c Hi. apply Hat; [by apply lookup_app_l_Some|].
    pose proof (Forall_lookup_1 _ _ _ _ Hl Hi). cbn in *. lia.
  - apply Hat; [|lia]. rewrite lookup_app_r by lia. by rewrite Nat.sub_diag.
Qed.

Lemma strtol_sign_minus m a l : cstr m a (45 :: l) -> strtol_sign m a = (true, a + 1).
Proof. intros (_ & H & _)%cstr_cons. unfold strtol_sign. by rewrite H. Qed.
Lemma strtol_sign_none m a c l : cstr m a (c :: l) -> 48 <= c <= 57 -> strtol_sign m a = (false, a).
Proof.
  intros (_ & H & _)%cstr_cons Hc. unfold strtol_sign. rewrite H.
  by replace (c =? 45) with false by blia; replace (c =? 43) with false by blia.
Qed.

(** ** Properties *)

(** strncpy() of a string shorter than [n] stores the string and pads with
    zeros, one byte past the [n] bytes of the destination; a string of [n] or
    more bytes fills the destination without a terminator. *)
Theorem strncpy_stores m dst src l n :
  cstr m src l -> dst + Z.of_nat n < src \/ src + Z.of_nat (length l) < dst ->
  strncpy m dst src n = store_bytes m dst (strncpy_bytes l n) /\
  length (strncpy_bytes l n) = if (length l <? n)%nat then (n + 1)%nat else n.
Proof.
  intros Hs Hd. unfold strncpy. rewrite (strncpy_copy_cstr _ _ _ _ _ Hs Hd).
  unfold strncpy_bytes. destruct (Nat.ltb_spec (length l) n).
  - rewrite memset_bytes. replace (n + 1 - length l)%nat with (S (n - length l)) by lia.
    cbn [replicate]. rewrite !store_bytes_app, length_app, length_cons, length_replicate.
    cbn [store_bytes]. split; [done|lia].
  - rewrite memset_bytes, length_take. split; [done|lia].
Qed.

Definition sample_src : mem := store_bytes (fun _ => 7) 100 ([47; 98] ++ [0]).
Lemma strncpy_stores_witness :
  strncpy sample_src 200 100 4 = store_bytes sample_src 200 [47; 98; 0; 0; 0] /\
  strncpy sample_src 200 100 4 204 = 0.
Proof.
  destruct (strncpy_stores sample_src 200 100 [47; 98] 4) as [H _].
  - apply cstr_store_bytes. repeat constructor; lia.
  - simpl. lia.
  - rewrite H. split; reflexivity.
Defined.

(** memmove() moves [n] bytes from [src] to [dst] however the two ranges
    overlap, and changes nothing else. *)
Theorem memmove_moves m dst src n :
  mem_ok m ->
  load_bytes (memmove m dst src n) dst n = load_bytes m src n /\
  (forall x, x < dst \/ dst + Z.of_nat n <= x -> memmove m dst src n x = m x).
Proof.
  intros Hm. split.
  - apply list_eq. intros i. rewrite !lookup_load_bytes. case_decide; [|done].
    rewrite memmove_at. replace (_ && _) with true by blia. f_equal.
    rewrite u8_small by apply Hm. f_equal. lia.
  - intros x Hx. rewrite memmove_at. by replace (_ && _) with false by blia.
Qed.

Lemma memmove_moves_witness :
  load_bytes (memmove (store_bytes (fun _ => 0) 10 [1; 2; 3; 4]) 11 10 4) 11 4 = [1; 2; 3; 4].
Proof.
  destruct (memmove_moves (store_bytes (fun _ => 0) 10 [1; 2; 3; 4]) 11 10 4) as [H _].
  - apply mem_ok_store_bytes. intros x. lia.
  - rewrite H. reflexivity.
Defined.

(** strtol() in base ten skips blanks, reads an optional minus and the digits
    up to the first other character, and returns the number they write and the
    place it stopped, when the number fits 63 bits. *)
Theorem strtol_decimal fuel m a nb neg ds rest :
  cstr m a (replicate nb 32 ++ (if neg : bool then [45] else []) ++ dec_bytes ds ++ rest) ->
  Forall (fun d => 0 <= d < 10) ds -> (0 < length ds)%nat -> no_digit rest ->
  digits_val 10 ds 0 < 2^63 -> (nb + length ds < fuel)%nat ->
  strtol fuel m a 10 =
  Some (if neg then - digits_val 10 ds 0 else digits_val 10 ds 0,
        a + Z.of_nat nb + b2z neg + Z.of_nat (length ds)).
Proof.
  intros Hc Hds Hlen Hr Hlt Hf. unfold strtol.
  destruct ds as [|d ds]; [simpl in Hlen; lia|].
  pose proof (digits_val_mono (d :: ds) 0 ltac:(lia) Hds) as Hpos.
  apply Forall_cons_iff in Hds as [Hd Hds].
  destruct (skip_blanks_cstr m a nb _ fuel Hc) as [-> Hs].
  { destruct neg; simpl; [done|]. unfold is_blank. blia. }
  { lia. }
  cbn [mbind option_bind]. unfold strtol_base. simpl (10 =? _). cbn iota. destruct neg.
  - rewrite (strtol_sign_minus _ _ _ Hs). apply cstr_cons in Hs as (_ & _ & Hs). cbn [andb].
    rewrite (strtol_digits_dec _ _ (d :: ds) rest); [|done|by constructor|done..|lia].
    cbn [mbind option_bind]. rewrite s64_small by lia. cbn [b2z]. do 2 f_equal.
  - rewrite (strtol_sign_none _ _ _ _ Hs) by lia. cbn [andb].
    rewrite (strtol_digits_dec _ _ (d :: ds) rest); [|done|by constructor|done..|lia].
    cbn [mbind option_bind]. cbn [b2z]. do 2 f_equal. lia.
Qed.

Lemma strtol_decimal_witness :
  strtol 10 (store_bytes (fun _ => 0) 64 ([32; 45; 49; 50; 120] ++ [0])) 64 10 = Some (-12, 68).
Proof.
  refine (strtol_decimal 10 _ 64 1 true [1; 2] [120] _ _ _ _ _ _).
  - apply cstr_store_bytes. repeat constructor; lia.
  - repeat constructor; lia.
  - simpl. lia.
  - simpl. lia.
  - reflexivity.
  - simpl. lia.
Defined.
