(* ===== verification/Vmm.v ===== *)
(** * Virtual memory (src/src/mm/vmm.c, mm/uspace.c, kernel/uaccess.c)

    The page tables are ordinary words of physical memory. [walk] follows them
    exactly as the code does; [reaches] is the same walk as a relation, used
    for the invariant that no two walks share a table unless they share the
    address prefix. *)

From S2P Require Import Prelude Pmm Mem Strings.

(** Proofs use [memset_at], never the unfolded loop. *)
#[global] Opaque memset.

Definition VMM_FLAG_PRESENT : Z := Z.shiftl 1 0.
Definition VMM_FLAG_WRITE : Z := Z.shiftl 1 1.
Definition VMM_FLAG_USER : Z := Z.shiftl 1 2.
Definition VMM_FLAG_HUGE : Z := Z.shiftl 1 7.
Definition VMM_FLAG_NX : Z := Z.shiftl 1 63.
Definition PAGE_MASK : Z := u64 (Z.lnot (PAGE_SIZE - 1)).

Definition PML4_IDX (va : Z) : Z := Z.land (Z.shiftr va 39) 0x1FF.
Definition PDPT_IDX (va : Z) : Z := Z.land (Z.shiftr va 30) 0x1FF.
Definition PD_IDX (va : Z) : Z := Z.land (Z.shiftr va 21) 0x1FF.
Definition PT_IDX (va : Z) : Z := Z.land (Z.shiftr va 12) 0x1FF.

(** The frames, physical memory, the file's static pointer and the register. *)
Record vm := Vm {
  vm_pmm : pmm;
  ram : mem;
  current_pml4 : Z;
  cr3 : Z
}.

#[export] Instance vm_pmm_lens : Lens vm pmm :=
  {| view := vm_pmm; over p s := Vm p (ram s) (current_pml4 s) (cr3 s) |}.
#[export] Instance vm_pmm_laws : LensLaws vm pmm.
Proof. split; [done|by intros []|done]. Qed.

Definition set_ram (m : mem) (s : vm) : vm := Vm (vm_pmm s) m (current_pml4 s) (cr3 s).

(** A word of physical memory, reached through the identity map of the low 4
    GiB; the null pointer is not dereferenced. *)
Definition in_ram (a : Z) : bool := (0 <? a) && (a + 8 <=? 2^32).
Definition rd64 (a : Z) : M vm Z :=
  s ← get; if in_ram a then mret (load64 (ram s) a) else ub.
Definition wr64 (a v : Z) : M vm unit :=
  if in_ram a then modify (fun s => set_ram (store64 (ram s) a v) s) else ub.

(** ** vmm.c *)

Definition alloc_pt_frame : M vm Z :=
  frame ← zoom pmm_alloc;
  if frame =? 0 then panic "VMM: out of physical memory"
  else
    modify (fun s => set_ram (memset (ram s) frame 0 (Z.to_nat PAGE_SIZE)) s);;
    mret frame.

Definition level_idx (level : nat) (virt : Z) : Z :=
  match level with
  | 3%nat => PML4_IDX virt
  | 2%nat => PDPT_IDX virt
  | 1%nat => PD_IDX virt
  | _ => 0
  end.

Definition present (entry : Z) : bool := nonzero (Z.land entry VMM_FLAG_PRESENT).
Definition huge (entry : Z) : bool := nonzero (Z.land entry VMM_FLAG_HUGE).

(** The loop [for (level = 3; level > 0; level--)]; 0 is the NULL result. *)
Fixpoint walk (level : nat) (table virt : Z) (create : bool) : M vm Z :=
  match level with
  | O => mret (table + 8 * PT_IDX virt)
  | S l =>
      let at_idx := table + 8 * level_idx level virt in
      entry ← rd64 at_idx;
      if negb (present entry) then
        if negb create then mret 0
        else
          frame ← alloc_pt_frame;
          wr64 at_idx (Z.lor (Z.lor frame VMM_FLAG_PRESENT) VMM_FLAG_WRITE);;
          walk l frame virt create
      else if negb (level =? 3)%nat && huge entry then mret 0
      else walk l (Z.land entry PAGE_MASK) virt create
  end.
Definition vmm_get_pte_pml4_phys (root_phys virt : Z) (create : bool) : M vm Z :=
  walk 3 root_phys virt create.
Definition vmm_get_pte (pml4 virt : Z) (create : bool) : M vm Z :=
  vmm_get_pte_pml4_phys pml4 virt create.

Definition vmm_init : M vm unit := modify (fun s => Vm (vm_pmm s) (ram s) (cr3 s) (cr3 s)).

Definition pte_value (phys flags : Z) : Z :=
  Z.lor (Z.lor (Z.land phys PAGE_MASK) flags) VMM_FLAG_PRESENT.

Definition vmm_map (virt phys flags : Z) : M vm unit :=
  root ← gets current_pml4;
  pte ← vmm_get_pte root virt true;
  wr64 pte (pte_value phys flags).

Definition vmm_unmap (virt : Z) : M vm unit :=
  root ← gets current_pml4;
  pte ← vmm_get_pte root virt false;
  if nonzero pte then wr64 pte 0 else mret tt.

(** The mapped address an entry gives, and from the entry that [pte] points at. *)
Definition entry_phys (e virt : Z) : Z :=
  if negb (present e) then 0
  else Z.lor (Z.land e PAGE_MASK) (Z.land virt (PAGE_SIZE - 1)).
Definition pte_phys (pte virt : Z) : M vm Z := e ← rd64 pte; mret (entry_phys e virt).

Definition vmm_get_phys (virt : Z) : M vm Z :=
  root ← gets current_pml4;
  pte ← vmm_get_pte root virt false;
  if negb (nonzero pte) then mret 0 else pte_phys pte virt.

Definition vmm_map_in_pml4 (pml4_phys virt phys flags : Z) : M vm unit :=
  pte ← vmm_get_pte_pml4_phys pml4_phys virt true;
  wr64 pte (pte_value phys flags).

Definition unmap_page (pml4_phys v : Z) : M vm unit :=
  pte ← vmm_get_pte_pml4_phys pml4_phys v false;
  if nonzero pte then
    e ← rd64 pte;
    if present e then wr64 pte 0 else mret tt
  else mret tt.

Definition vmm_unmap_range_pml4 (fuel : nat) (pml4_phys virt nbytes : Z) : M vm unit :=
  if nbytes =? 0 then mret tt
  else
    let end_ := u64 (virt + nbytes) in
    iter fuel (fun v =>
      if v <? end_ then
        unmap_page pml4_phys v;;
        mret (inl (u64 (v + PAGE_SIZE)))
      else mret (inr tt)) (Z.land virt PAGE_MASK).

Fixpoint lookup_walk (level : nat) (table virt : Z) : M vm Z :=
  match level with
  | O => pte_phys (table + 8 * PT_IDX virt) virt
  | S l =>
      entry ← rd64 (table + 8 * level_idx level virt);
      if negb (present entry) then mret 0
      else if negb (level =? 3)%nat && huge entry then mret 0
      else lookup_walk l (Z.land entry PAGE_MASK) virt
  end.
Definition vmm_lookup_phys_pml4 (root_phys virt : Z) : M vm Z := lookup_walk 3 root_phys virt.

(** ** uspace.c *)

Definition uspace_create_pml4 : M vm Z :=
  pg ← zoom pmm_alloc;
  if pg =? 0 then mret 0
  else
    modify (fun s => set_ram (memset (ram s) pg 0 (Z.to_nat PAGE_SIZE)) s);;
    kp ← gets cr3;
    e ← rd64 (kp + 8 * 511);
    wr64 (pg + 8 * 511) e;;
    mret pg.

(** ** uaccess.c: a byte at a time through the page tables *)

(** The loop: the result code and the bytes put in [out]. *)
Fixpoint copy_user_loop (cr3_phys uva : Z) (n : nat) (i : Z) (out : list Z) : M vm (Z * list Z) :=
  match n with
  | O => mret (- E2BIG, out ++ [0])
  | S n' =>
      pa ← vmm_lookup_phys_pml4 cr3_phys (u64 (uva + i));
      if pa =? 0 then mret (- EFAULT, out)
      else if 0x100000000 <=? pa then mret (- EFAULT, out)
      else
        c ← gets (fun s => ram s pa);
        if c =? 0 then mret (0, out ++ [c])
        else copy_user_loop cr3_phys uva n' (i + 1) (out ++ [c])
  end.
(** [null_out] is [out == NULL]. *)
Definition copy_user_cstring (cr3_phys user_ptr : Z) (null_out : bool) (out_cap : Z) :
    M vm (Z * list Z) :=
  if null_out || (out_cap <? 2) then mret (- EINVAL, [])
  else copy_user_loop cr3_phys user_ptr (Z.to_nat (out_cap - 1)) 0 [].

(** ** elf_load.c: vnl_copy_to_user_va, the write in the other direction *)

(** A byte stored at a physical address the kernel can reach. *)
Definition wr8 (a v : Z) : M vm unit :=
  if (0 <? a) && (a <? 2^32) then modify (fun s => set_ram (store8 (ram s) a v) s) else ub.

Fixpoint vnl_copy_to_user_va (pml4 dst_va : Z) (src : list Z) : M vm unit :=
  match src with
  | [] => mret tt
  | b :: src' =>
      pa ← vmm_lookup_phys_pml4 pml4 dst_va;
      if pa =? 0 then mret tt
      else wr8 pa b;; vnl_copy_to_user_va pml4 (u64 (dst_va + 1)) src'
  end.

(** ** Addresses and entries *)

Lemma PAGE_MASK_val : PAGE_MASK = 2^64 - 4096.
Proof. reflexivity. Qed.

Lemma land_mask_9 z k : 0 <= k -> Z.land (Z.shiftr z k) 0x1FF = z / 2^k mod 512.
Proof.
  intros Hk. rewrite Z.shiftr_div_pow2 by done. change 0x1FF with (2^9 - 1).
  by rewrite land_ones_mod.
Qed.
Lemma level_idx_range l v : 0 <= level_idx l v < 512.
Proof.
  destruct l as [|[|[|[|l]]]]; simpl; [lia| | | |lia];
    (unfold PML4_IDX, PDPT_IDX, PD_IDX; rewrite land_mask_9 by lia; apply Z.mod_pos_bound; lia).
Qed.
Lemma PT_IDX_range v : 0 <= PT_IDX v < 512.
Proof. unfold PT_IDX. rewrite land_mask_9 by lia. apply Z.mod_pos_bound. lia. Qed.

Lemma land_page_mask e : 0 <= e < 2^64 -> Z.land e PAGE_MASK = e / 4096 * 4096.
Proof.
  intros He. rewrite <- ALIGN_DOWN_page. unfold ALIGN_DOWN. apply Z.bits_inj'. intros i Hi.
  rewrite !Z.land_spec. destruct (Z.testbit e i) eqn:Hb; [|done]. simpl.
  destruct (decide (i < 64)).
  - unfold PAGE_MASK, u64. by rewrite Z.mod_pow2_bits_low.
  - rewrite (bits_above e 64 i) in Hb by lia. done.
Qed.

Lemma present_bit e : present e = Z.testbit e 0.
Proof.
  unfold present, nonzero, VMM_FLAG_PRESENT. rewrite land_pow2_zero by lia.
  by rewrite negb_involutive.
Qed.
Lemma huge_bit e : huge e = Z.testbit e 7.
Proof.
  unfold huge, nonzero, VMM_FLAG_HUGE. rewrite land_pow2_zero by lia.
  by rewrite negb_involutive.
Qed.

(** A page-aligned address has no low bits. *)
Lemma aligned_testbit a k : a mod 4096 = 0 -> 0 <= k < 12 -> Z.testbit a k = false.
Proof.
  intros Ha Hk. rewrite <- (Z.mod_pow2_bits_low a 12 k) by lia.
  change (2^12) with 4096. by rewrite Ha, Z.bits_0.
Qed.

Lemma lor_div_4096 a f : 0 <= f < 4096 -> Z.lor a f / 4096 = a / 4096.
Proof.
  intros Hf. change 4096 with (2^12). rewrite <- !Z.shiftr_div_pow2, Z.shiftr_lor by lia.
  rewrite (Z.shiftr_div_pow2 f), Z.div_small, Z.lor_0_r by lia. done.
Qed.

(** The entry that links a new table. *)
Lemma link_entry f :
  0 <= f < 2^32 -> f mod 4096 = 0 ->
  let e := Z.lor (Z.lor f VMM_FLAG_PRESENT) VMM_FLAG_WRITE in
  0 <= e < 2^64 /\ present e = true /\ huge e = false /\ Z.land e PAGE_MASK = f /\
  Z.land e VMM_FLAG_USER = 0.
Proof.
  intros Hf Ha e. assert (0 <= e < 2^64) as He.
  { unfold e, VMM_FLAG_PRESENT, VMM_FLAG_WRITE. change (Z.shiftl 1 0) with 1. change (Z.shiftl 1 1) with 2.
    apply lor_bound; [lia| |lia]. apply lor_bound; lia. }
  assert (forall k, 0 <= k < 12 -> Z.testbit e k = (k <? 2)) as Hbit.
  { intros k Hk. unfold e, VMM_FLAG_PRESENT, VMM_FLAG_WRITE.
    rewrite !Z.lor_spec, !testbit_shiftl1, (aligned_testbit f) by lia. blia. }
  split_and!; [lia|lia|by rewrite present_bit, Hbit|by rewrite huge_bit, Hbit| |].
  - rewrite land_page_mask by done. unfold e. rewrite !lor_div_4096 by done. zlia.
  - apply Z.eqb_eq. unfold VMM_FLAG_USER. by rewrite land_pow2_zero, Hbit by lia.
Qed.

Lemma zero_entry : present 0 = false.
Proof. done. Qed.

(** ** Walks as a relation *)

Section walks.
Variable m : mem.

Definition entry (l : nat) (t v : Z) : Z := load64 m (t + 8 * level_idx l v).

(** An entry that leads to a table. *)
Definition links (l : nat) (e : Z) : bool := present e && (((l =? 3)%nat) || negb (huge e)).

(** The walk for [v] in address space [root] is at table [t] of level [l]. *)
Inductive reaches (root v : Z) : nat -> Z -> Prop :=
| reach_root : reaches root v 3 root
| reach_down l t :
    reaches root v (S l) t -> links (S l) (entry (S l) t v) = true ->
    reaches root v l (Z.land (entry (S l) t v) PAGE_MASK).

Lemma reaches_level root v l t : reaches root v l t -> (l <= 3)%nat.
Proof. induction 1; lia. Qed.

(** The table of the last level, from table [t] of level [l]. *)
Fixpoint descend (l : nat) (t v : Z) : option Z :=
  match l with
  | O => Some t
  | S l' => if links l (entry l t v) then descend l' (Z.land (entry l t v) PAGE_MASK) v else None
  end.

Lemma reaches_descend root v l t : reaches root v l t -> descend 3 root v = descend l t v.
Proof.
  induction 1 as [|l t H IH Hl]; [done|]. rewrite IH. cbn [descend]. by rewrite Hl.
Qed.
Lemma descend_reaches root v l t t' :
  reaches root v l t -> descend l t v = Some t' -> reaches root v 0 t'.
Proof.
  revert t. induction l as [|l IH]; intros t Hr Hd; simpl in Hd; [congruence|].
  destruct (links _ _) eqn:Hl; [|done]. eapply IH; [|done]. by apply reach_down.
Qed.

Definition pte_of (root v : Z) : option Z :=
  t ← descend 3 root v; Some (load64 m (t + 8 * PT_IDX v)).
(** The address [v] is mapped to, 0 when it is not. *)
Definition translate (root v : Z) : Z :=
  match pte_of root v with
  | Some e => entry_phys e v
  | None => 0
  end.

(** No large page is in the way of a mapping for [v]. *)
Definition no_huge (root v : Z) : Prop :=
  forall l t, reaches root v (S l) t -> present (entry (S l) t v) = true ->
              links (S l) (entry (S l) t v) = true.
End walks.

(** Two addresses agree on the indices above level [l]. *)
Definition same_path (l : nat) (v w : Z) : Prop :=
  forall k, (l < k <= 3)%nat -> level_idx k v = level_idx k w.

Definition vpn (v : Z) : Z := v / 4096 mod 2^36.

Lemma same_page v w : same_path 0 v w /\ PT_IDX v = PT_IDX w <-> vpn v = vpn w.
Proof.
  unfold same_path, vpn, PT_IDX. split.
  - intros [H Hpt]. pose proof (H 1%nat ltac:(lia)) as H1. pose proof (H 2%nat ltac:(lia)) as H2.
    pose proof (H 3%nat ltac:(lia)) as H3. simpl in H1, H2, H3. unfold PML4_IDX, PDPT_IDX, PD_IDX in *.
    rewrite !land_mask_9 in * by lia. clear H.
    replace (2^39) with (4096 * 2^27) in * by lia. replace (2^30) with (4096 * 2^18) in * by lia.
    replace (2^21) with (4096 * 2^9) in * by lia. change (2^12) with 4096 in *.
    rewrite <- !Z.div_div in * by lia. generalize dependent (v / 4096). generalize dependent (w / 4096).
    clear. intros a H b H1 H2 H3. zlia.
  - intros H.
    assert (forall k, (k <= 27) -> 0 <= k -> v / 4096 / 2^k mod 512 = w / 4096 / 2^k mod 512) as Hk.
    { intros k Hk Hk0.
      assert (forall x, x / 2^k mod 512 = x mod 2^36 / 2^k mod 512) as Hx.
      { intros x. rewrite (Z.div_mod x (2^36)) at 1 by lia.
        replace (2^36) with (2^k * (2^(36-k))) at 1 by (rewrite <- Z.pow_add_r; [f_equal|..]; lia).
        rewrite <- Z.mul_assoc, (Z.mul_comm (2^k)), Z.div_add_l by (apply Z.pow_nonzero; lia).
        replace (2^(36-k)) with (512 * 2^(27-k))
          by (change 512 with (2^9); rewrite <- Z.pow_add_r; [f_equal|..]; lia).
        rewrite <- Z.mul_assoc, (Z.mul_comm 512). by rewrite Z.add_comm, Z_mod_plus_full. }
      rewrite (Hx (v / 4096)), (Hx (w / 4096)). by rewrite H. }
    split.
    + intros [|[|[|[|k]]]] Hlt; try lia; simpl; unfold PML4_IDX, PDPT_IDX, PD_IDX;
        rewrite !land_mask_9 by lia.
      * specialize (Hk 9). rewrite !Z.div_div in Hk by lia. apply Hk; lia.
      * specialize (Hk 18). rewrite !Z.div_div in Hk by lia. apply Hk; lia.
      * specialize (Hk 27). rewrite !Z.div_div in Hk by lia. apply Hk; lia.
    + rewrite !land_mask_9 by lia. specialize (Hk 0). rewrite !Z.div_1_r in Hk. apply Hk; lia.
Qed.

(** ** The page-table invariant *)

Definition table_ok (p : pmm) (t : Z) : Prop :=
  t mod 4096 = 0 /\ 0 < t < 2^32 /\ frame_free p (t / 4096) = false.

(** The part of two address spaces that may be common: the kernel slot. *)
Definition share (r r' : Z) (l : nat) (v : Z) : Prop := r = r' \/ ((l < 3)%nat /\ PML4_IDX v = 511).

(** [R] are the page-table roots in use: every table is a used frame, and two
    walks meet only at the same level, on the same path. *)
Record pt_inv (p : pmm) (m : mem) (R : gset Z) : Prop := {
  pt_pmm : pmm_wf p;
  pt_mem : mem_ok m;
  pt_table : forall r v l t, r ∈ R -> reaches m r v l t -> table_ok p t;
  pt_unique : forall r r' v v' l l' t, r ∈ R -> r' ∈ R ->
    reaches m r v l t -> reaches m r' v' l' t -> l = l' /\ same_path l v v' /\ share r r' l v
}.

Lemma same_path_down l v w :
  (l < 3)%nat -> same_path (S l) v w -> level_idx (S l) v = level_idx (S l) w -> same_path l v w.
Proof.
  intros Hl Hs He k Hk. destruct (decide (k = S l)) as [->|]; [done|]. apply Hs. lia.
Qed.
Lemma same_path_up l v w : same_path l v w -> same_path (S l) v w.
Proof. intros Hs k Hk. apply Hs. lia. Qed.
Lemma same_path_sym l v w : same_path l v w -> same_path l w v.
Proof. intros Hs k Hk. symmetry. by apply Hs. Qed.

Lemma reaches_path m r v w l t : same_path l v w -> reaches m r v l t -> reaches m r w l t.
Proof.
  intros Hs H. induction H as [|l t H IH Hl]; [constructor|].
  assert (entry m (S l) t v = entry m (S l) t w) as He.
  { unfold entry. rewrite (Hs (S l)); [done|]. apply reaches_level in H. lia. }
  rewrite He in *. constructor; [|done]. apply IH. by apply same_path_up.
Qed.

(** A word of a table lies in the table's frame. *)
Lemma word_in_page t i a :
  t mod 4096 = 0 -> 0 <= i < 512 -> t + 8 * i <= a < t + 8 * i + 8 -> a / 4096 = t / 4096.
Proof. zlia. Qed.

Lemma words_apart t i t' j :
  t mod 4096 = 0 -> t' mod 4096 = 0 -> 0 <= i < 512 -> 0 <= j < 512 -> t <> t' \/ i <> j ->
  t + 8 * i + 8 <= t' + 8 * j \/ t' + 8 * j + 8 <= t + 8 * i.
Proof. zlia. Qed.

Lemma table_in_ram p t i : table_ok p t -> 0 <= i < 512 -> in_ram (t + 8 * i) = true.
Proof.
  intros (Ha & Ht & _) Hi. unfold in_ram. apply andb_true_iff.
  split; [apply Z.ltb_lt; lia|apply Z.leb_le; zlia].
Qed.

Section pt.
Context {p : pmm} {m : mem} {R : gset Z} (Hinv : pt_inv p m R).

(** Entries of directories that did not change lead to the same tables. *)
Lemma reaches_same m' :
  (forall r v l t, r ∈ R -> reaches m r v (S l) t -> entry m' (S l) t v = entry m (S l) t v) ->
  forall r v l t, r ∈ R -> reaches m' r v l t <-> reaches m r v l t.
Proof.
  intros He r v l t Hr. split; intros H.
  - induction H as [|l t H IH Hl]; [constructor|]. rewrite (He r v l t Hr IH) in *.
    by constructor.
  - induction H as [|l t H IH Hl]; [constructor|]. rewrite <- (He r v l t Hr H) in *.
    by constructor.
Qed.

(** The two halves of every lookup: reaching the last table or not. *)
Lemma translate_reached r v t :
  reaches m r v 0 t -> translate m r v =
    entry_phys (load64 m (t + 8 * PT_IDX v)) v.
Proof. intros Ht. unfold translate, pte_of. by rewrite (reaches_descend _ _ _ _ _ Ht). Qed.
Lemma translate_not_reached r v :
  (forall t, ~ reaches m r v 0 t) -> translate m r v = 0.
Proof.
  intros Hn. unfold translate, pte_of. destruct (descend m 3 r v) as [t|] eqn:Hd; [|done].
  destruct (Hn t). eapply descend_reaches; [|done]. constructor.
Qed.
Lemma reached_dec r v : (exists t, reaches m r v 0 t) \/ (forall t, ~ reaches m r v 0 t).
Proof.
  destruct (descend m 3 r v) as [t|] eqn:Hd.
  - left. exists t. eapply descend_reaches; [|done]. constructor.
  - right. intros t Ht. by rewrite (reaches_descend _ _ _ _ _ Ht) in Hd.
Qed.

(** A walk to a table, from any address that takes the same path. *)
Lemma reaches_iff r v w l t :
  r ∈ R -> reaches m r v l t -> reaches m r w l t <-> same_path l v w.
Proof.
  intros Hr Hv. split; intros Hw.
  - by destruct (pt_unique _ _ _ Hinv r r v w l l t Hr Hr Hv Hw) as (_ & ? & _).
  - by eapply reaches_path.
Qed.
End pt.

(** ** Linking a new table into a directory *)

Section link.
Context {p : pmm} {m : mem} {R : gset Z} (Hinv : pt_inv p m R).
Context (r0 v0 : Z) (l0 : nat) (t0 f : Z).
Hypothesis Hr0 : r0 ∈ R.
Hypothesis Ht0 : reaches m r0 v0 (S l0) t0.
Hypothesis Habsent : present (entry m (S l0) t0 v0) = false.
Hypothesis Hf : table_ok p f.
Hypothesis Hnew : forall r v l t, r ∈ R -> reaches m r v l t -> t <> f.
Hypothesis Hzero : forall a, a / 4096 = f / 4096 -> m a = 0.

Let slot : Z := t0 + 8 * level_idx (S l0) v0.
Let e : Z := Z.lor (Z.lor f VMM_FLAG_PRESENT) VMM_FLAG_WRITE.
Let m' : mem := store64 m slot e.

Lemma link_t0_ok : table_ok p t0.
Proof. by eapply (pt_table _ _ _ Hinv). Qed.

Lemma link_e_ok : 0 <= e < 2^64 /\ (forall l, links l e = true) /\ Z.land e PAGE_MASK = f.
Proof.
  destruct Hf as (Ha & Hr & _). destruct (link_entry f) as (He & Hp & Hh & Hm & _); [lia|done|].
  split; [exact He|split; [|exact Hm]]. intros l. unfold links, e. rewrite Hp, Hh. simpl.
  by rewrite orb_true_r.
Qed.

Lemma link_level : (l0 < 3)%nat.
Proof. apply reaches_level in Ht0. lia. Qed.

(** A directory entry after the store. *)
Lemma link_entry_cases r v l t :
  r ∈ R -> reaches m r v (S l) t ->
  (entry m' (S l) t v = entry m (S l) t v /\ ~ (t = t0 /\ level_idx (S l) v = level_idx (S l0) v0)) \/
  (l = l0 /\ t = t0 /\ level_idx (S l) v = level_idx (S l0) v0 /\ entry m' (S l) t v = e).
Proof.
  intros Hr Ht. pose proof (pt_table _ _ _ Hinv r v _ t Hr Ht) as (Ha & _).
  pose proof link_t0_ok as (Ha0 & _). pose proof link_e_ok as (He & _).
  destruct (decide (t = t0 /\ level_idx (S l) v = level_idx (S l0) v0)) as [[-> Hi]|Hne].
  - right. destruct (pt_unique _ _ _ Hinv r r0 v v0 (S l) (S l0) t0) as (Hl & _); [done..|].
    injection Hl as ->. split_and!; [done..|]. unfold entry, m', slot. rewrite Hi.
    by apply load64_store64.
  - left. split; [|done]. unfold entry, m', slot. apply load64_store64_other.
    apply words_apart; [done|done|apply level_idx_range..|].
    destruct (decide (t = t0)) as [->|]; [right; intros Hi; by apply Hne|by left].
Qed.

Lemma link_entry_new l v : entry m' l f v = 0.
Proof.
  pose proof link_t0_ok as (Ha0 & _). destruct Hf as (Hfa & _).
  unfold entry, m', slot. rewrite load64_store64_other.
  - unfold load64. rewrite (load_le_ext 8 m (fun _ => 0)); [done|]. intros a Hr. apply Hzero.
    eapply word_in_page; [done|apply (level_idx_range l v)|lia].
  - apply words_apart; [done|done|apply level_idx_range..|].
    left. symmetry. by apply (Hnew r0 v0 (S l0) t0).
Qed.

Lemma link_reaches r v l t :
  r ∈ R ->
  reaches m' r v l t <->
  reaches m r v l t \/
  (l = l0 /\ t = f /\ reaches m r v (S l0) t0 /\ level_idx (S l0) v = level_idx (S l0) v0).
Proof.
  intros Hr. pose proof link_e_ok as (He & Hlk & Hmask). split.
  - induction 1 as [|l t H [IH|IH] Hl]; [left; constructor| |].
    + destruct (link_entry_cases r v l t Hr IH) as [[Heq _]|(-> & -> & Hi & Heq)].
      * left. rewrite Heq in *. by constructor.
      * right. by rewrite Heq, Hmask.
    + destruct IH as (_ & -> & _). rewrite link_entry_new in Hl. unfold links in Hl.
      by rewrite zero_entry in Hl.
  - assert (forall l t, reaches m r v l t -> reaches m' r v l t) as Hold.
    { intros l' t'. induction 1 as [|l1 t1 H IH Hl]; [constructor|].
      destruct (link_entry_cases r v l1 t1 Hr H) as [[Heq _]|(-> & -> & Hi & Heq)].
      - rewrite <- Heq in *. by constructor.
      - unfold links, entry in Hl. unfold entry in Habsent. rewrite Hi in Hl.
        by rewrite Habsent in Hl. }
    intros [H|(-> & -> & H & Hi)]; [by apply Hold|].
    rewrite <- Hmask. replace e with (entry m' (S l0) t0 v).
    + constructor; [by apply Hold|].
      destruct (link_entry_cases r v l0 t0 Hr H) as [[_ []]|(_ & _ & _ & ->)]; [done|apply Hlk].
    + by destruct (link_entry_cases r v l0 t0 Hr H) as [[_ []]|(_ & _ & _ & ->)].
Qed.

Lemma link_inv : pt_inv p m' R.
Proof.
  pose proof link_level as Hlev. split.
  - apply Hinv.
  - apply mem_ok_store_le, Hinv.
  - intros r v l t Hr Ht%link_reaches; [|done]. destruct Ht as [Ht|(-> & -> & _)]; [|done].
    by eapply (pt_table _ _ _ Hinv).
  - intros r r' v v' l l' t Hr Hr' Ht%link_reaches Ht'%link_reaches; [|done..].
    destruct Ht as [Ht|(-> & -> & Ht & Hi)], Ht' as [Ht'|(-> & Heq & Ht' & Hi')].
    + by apply (pt_unique _ _ _ Hinv r r' v v' l l' t).
    + by destruct (Hnew r v l t Hr Ht).
    + by destruct (Hnew r' v' l' f Hr' Ht').
    + destruct (pt_unique _ _ _ Hinv r r' v v' _ _ t0 Hr Hr' Ht Ht') as (_ & Hs & Hsh).
      split_and!; [done|apply same_path_down; [done|done|congruence]|].
      destruct Hsh as [->|[_ ?]]; [by left|right; by split].
Qed.

Lemma link_translate r v : r ∈ R -> translate m' r v = translate m r v.
Proof.
  intros Hr. destruct (reached_dec (m := m) r v) as [[t Ht]|Hn].
  - assert (reaches m' r v 0 t) as Ht' by (apply link_reaches; [done|by left]).
    rewrite (translate_reached _ _ _ Ht), (translate_reached _ _ _ Ht').
    unfold m', slot. rewrite load64_store64_other; [done|].
    pose proof (pt_table _ _ _ Hinv r v _ t Hr Ht) as (Ha & _). pose proof link_t0_ok as (Ha0 & _).
    apply words_apart; [done|done|apply PT_IDX_range|apply level_idx_range|]. left. intros ->.
    by destruct (pt_unique _ _ _ Hinv r r0 v v0 0 (S l0) t0 Hr Hr0 Ht Ht0).
  - rewrite (translate_not_reached _ _ Hn).
    destruct (reached_dec (m := m') r v) as [[t Ht]|Hn']; [|by apply translate_not_reached].
    rewrite (translate_reached _ _ _ Ht). apply link_reaches in Ht as [Ht|(_ & -> & _)]; [| |done].
    { by destruct (Hn t). }
    assert (load64 m' (f + 8 * PT_IDX v) = 0) as ->; [|done].
    (* the new last table is all zeros *)
    pose proof link_t0_ok as (Ha0 & _). destruct Hf as (Hfa & _).
    unfold m', slot. rewrite load64_store64_other.
    + unfold load64. rewrite (load_le_ext 8 m (fun _ => 0)); [done|]. intros a Ha. apply Hzero.
      eapply word_in_page; [done|apply (PT_IDX_range v)|lia].
    + apply words_apart; [done|done|apply PT_IDX_range|apply level_idx_range|].
      left. symmetry. by apply (Hnew r0 v0 (S l0) t0).
Qed.
End link.

(** ** What a walk that creates tables does to the state *)

Definition is_table (m : mem) (R : gset Z) (t : Z) : Prop :=
  exists r v l, r ∈ R /\ reaches m r v l t.

(** A property of every entry a walk for [v] meets. *)
Definition path_entries (P : nat -> Z -> Prop) (m : mem) (r v : Z) : Prop :=
  forall l t, reaches m r v (S l) t -> P (S l) (entry m (S l) t v).

(** Such a property that an empty entry and the entry of a new table have. *)
Definition stable_entry (P : nat -> Z -> Prop) : Prop :=
  (forall l, P l 0) /\
  (forall l f, 0 < f < 2^32 -> f mod 4096 = 0 ->
     P l (Z.lor (Z.lor f VMM_FLAG_PRESENT) VMM_FLAG_WRITE)).

(** Tables may be added; frames in use stay in use, memory outside the tables
    and the frames that were free is unchanged. *)
Record vm_step (R : gset Z) (s s' : vm) : Prop := {
  vs_regs : current_pml4 s' = current_pml4 s /\ cr3 s' = cr3 s;
  vs_total : total_frames (vm_pmm s') = total_frames (vm_pmm s);
  vs_free : free_frames (vm_pmm s') <= free_frames (vm_pmm s);
  vs_used : forall f, 0 <= f -> frame_free (vm_pmm s) f = false -> frame_free (vm_pmm s') f = false;
  vs_tables : forall t, is_table (ram s') R t ->
    is_table (ram s) R t \/ (0 <= t /\ frame_free (vm_pmm s) (t / 4096) = true);
  vs_path : forall P r v, stable_entry P -> r ∈ R ->
    path_entries P (ram s) r v -> path_entries P (ram s') r v;
  vs_mem : forall a, 0 <= a -> frame_free (vm_pmm s) (a / 4096) = false ->
    (forall t, is_table (ram s) R t -> a / 4096 <> t / 4096) -> ram s' a = ram s a
}.
(** Such a step that changes no translation. *)
Record vm_ext (R : gset Z) (s s' : vm) : Prop := {
  ve_step : vm_step R s s';
  ve_reach : forall r v l t, r ∈ R -> reaches (ram s) r v l t -> reaches (ram s') r v l t;
  ve_translate : forall r v, r ∈ R -> translate (ram s') r v = translate (ram s) r v
}.

#[export] Instance vm_step_refl R : Reflexive (vm_step R).
Proof. intros s. split; auto; lia. Qed.
#[export] Instance vm_step_trans R : Transitive (vm_step R).
Proof.
  intros s1 s2 s3 H1 H2. split.
  - destruct (vs_regs _ _ _ H1), (vs_regs _ _ _ H2). split; congruence.
  - by rewrite (vs_total _ _ _ H2), (vs_total _ _ _ H1).
  - pose proof (vs_free _ _ _ H1). pose proof (vs_free _ _ _ H2). lia.
  - intros f Hf Hu. by apply (vs_used _ _ _ H2), (vs_used _ _ _ H1).
  - intros t [Ht|[Hpos Ht]]%(vs_tables _ _ _ H2); [by apply (vs_tables _ _ _ H1)|right].
    split; [done|]. destruct (frame_free (vm_pmm s1) (t / 4096)) eqn:Hf; [done|].
    rewrite (vs_used _ _ _ H1) in Ht; [done| |done]. zlia.
  - intros P r v HP Hr Hp. apply (vs_path _ _ _ H2); [done..|]. by apply (vs_path _ _ _ H1).
  - intros a Ha Hu Hn. rewrite (vs_mem _ _ _ H2), (vs_mem _ _ _ H1); [done..| |].
    + apply (vs_used _ _ _ H1); [zlia|done].
    + intros t [Ht|[Hpos Ht]]%(vs_tables _ _ _ H1); [by apply Hn|].
      intros Heq. rewrite <- Heq in Ht. congruence.
Qed.
#[export] Instance vm_ext_refl R : Reflexive (vm_ext R).
Proof. intros s. by split. Qed.
#[export] Instance vm_ext_trans R : Transitive (vm_ext R).
Proof.
  intros s1 s2 s3 [H1 Hr1 Ht1] [H2 Hr2 Ht2]. split; [by etrans| |].
  - intros r v l t Hr Ht. by apply Hr2, Hr1.
  - intros r v Hr. by rewrite Ht2, Ht1.
Qed.

(** The bookkeeping facts of an allocation, at page granularity. *)
Lemma allocated_page p a p' :
  pmm_wf p -> allocated p a p' ->
  table_ok p' a /\ frame_free p (a / 4096) = true /\ total_frames p' = total_frames p /\
  free_frames p' = free_frames p - 1 /\
  (forall g, 0 <= g -> frame_free p g = false -> frame_free p' g = false).
Proof.
  intros Hwf Ha. destruct (allocated_counts _ _ _ Hwf Ha) as (Hf & Ht & Hr & Hg).
  destruct Ha as [(H1 & H2 & H3) Hfree _ _]. pose proof (wf_total p Hwf).
  unfold MAX_FRAMES, PAGE_SIZE in *. split_and!; [split_and!| | | |]; try lia; try done.
  - rewrite Hg by lia. by rewrite Z.eqb_refl.
  - intros g Hg0 Hu. rewrite Hg, Hu by done. by rewrite andb_false_r.
Qed.

(** A fresh frame, cleared, with anything written to it. *)
Section fresh.
Context (R : gset Z) (s : vm) (f : Z) (p' : pmm) (m1 : mem).
Hypothesis Hinv : pt_inv (vm_pmm s) (ram s) R.
Hypothesis Hal : allocated (vm_pmm s) f p'.
Hypothesis Hm1 : forall a, a / 4096 <> f / 4096 -> m1 a = ram s a.
Hypothesis Hok : mem_ok m1.

Let s1 : vm := Vm p' m1 (current_pml4 s) (cr3 s).

Lemma fresh_not_table r v l t : r ∈ R -> reaches (ram s) r v l t -> t / 4096 <> f / 4096.
Proof.
  intros Hr Ht. destruct (pt_table _ _ _ Hinv r v l t Hr Ht) as (_ & _ & Hu).
  destruct (allocated_page _ _ _ (pt_pmm _ _ _ Hinv) Hal) as (_ & Hf & _). congruence.
Qed.

Lemma fresh_word r v l t i :
  r ∈ R -> reaches (ram s) r v l t -> 0 <= i < 512 ->
  load64 m1 (t + 8 * i) = load64 (ram s) (t + 8 * i).
Proof.
  intros Hr Ht Hi. destruct (pt_table _ _ _ Hinv r v l t Hr Ht) as (Ha & _).
  apply load_le_ext. intros a Hrg. apply Hm1. rewrite (word_in_page t i a); [|done..].
  by eapply fresh_not_table.
Qed.

Lemma fresh_reaches r v l t : r ∈ R -> reaches m1 r v l t <-> reaches (ram s) r v l t.
Proof.
  apply reaches_same. clear r v l t. intros r v l t Hr Ht. unfold entry.
  by eapply fresh_word, level_idx_range.
Qed.

Lemma fresh_translate r v : r ∈ R -> translate m1 r v = translate (ram s) r v.
Proof.
  intros Hr. destruct (reached_dec (m := ram s) r v) as [[t Ht]|Hn].
  - rewrite (translate_reached _ _ _ Ht), (translate_reached (m := m1) r v t).
    + by rewrite (fresh_word r v 0 t (PT_IDX v) Hr Ht (PT_IDX_range v)).
    + by apply fresh_reaches.
  - rewrite !translate_not_reached; [done|done|]. intros t Ht%fresh_reaches; [|done]. by apply (Hn t).
Qed.

Lemma fresh_inv : pt_inv p' m1 R.
Proof.
  destruct (allocated_page _ _ _ (pt_pmm _ _ _ Hinv) Hal) as (_ & _ & _ & _ & Hu). split.
  - destruct Hal as [_ Hf _ ->]. apply (mark_used_wf _ (pt_pmm _ _ _ Hinv)); [|done].
    destruct (allocated_counts _ _ _ (pt_pmm _ _ _ Hinv) Hal) as (_ & _ & Hr & _).
    pose proof (wf_total _ (pt_pmm _ _ _ Hinv)). lia.
  - done.
  - intros r v l t Hr Ht%fresh_reaches; [|done].
    destruct (pt_table _ _ _ Hinv r v l t Hr Ht) as (? & ? & Hf). split_and!; [done|lia..|].
    apply Hu; [zlia|done].
  - intros r r' v v' l l' t Hr Hr' Ht%fresh_reaches Ht'%fresh_reaches; [|done..].
    by eapply (pt_unique _ _ _ Hinv).
Qed.

Lemma fresh_ext : vm_ext R s s1.
Proof.
  destruct (allocated_page _ _ _ (pt_pmm _ _ _ Hinv) Hal) as (_ & Hff & Ht & Hc & Hu).
  split; [|intros r v l t Hr Hrt; by apply fresh_reaches|intros r v; apply fresh_translate].
  split; simpl.
  - done.
  - done.
  - lia.
  - done.
  - intros t (r & v & l & Hr & Hrt%fresh_reaches); [|done]. left. by exists r, v, l.
  - intros P r v HP Hr Hp l t Hrt%fresh_reaches; [|done]. unfold entry.
    rewrite (fresh_word r v (S l) t) by (done || apply level_idx_range). by apply Hp.
  - intros a Ha Hused _. apply Hm1. congruence.
Qed.
End fresh.

(** The link of a new table is such a step. *)
Lemma link_ext R s r0 v0 l0 t0 f :
  pt_inv (vm_pmm s) (ram s) R -> r0 ∈ R -> reaches (ram s) r0 v0 (S l0) t0 ->
  present (entry (ram s) (S l0) t0 v0) = false ->
  table_ok (vm_pmm s) f -> (forall r v l t, r ∈ R -> reaches (ram s) r v l t -> t <> f) ->
  (forall a, a / 4096 = f / 4096 -> ram s a = 0) ->
  let s' := set_ram (store64 (ram s) (t0 + 8 * level_idx (S l0) v0)
    (Z.lor (Z.lor f VMM_FLAG_PRESENT) VMM_FLAG_WRITE)) s in
  reaches (ram s') r0 v0 l0 f /\
  (forall r v l t, r ∈ R -> reaches (ram s') r v l t -> reaches (ram s) r v l t \/ t = f) /\
  (forall r v l t, r ∈ R -> reaches (ram s) r v l t -> reaches (ram s') r v l t) /\
  (forall r v, r ∈ R -> translate (ram s') r v = translate (ram s) r v) /\
  (forall P r v, stable_entry P -> r ∈ R ->
     path_entries P (ram s) r v -> path_entries P (ram s') r v) /\
  (forall a, a / 4096 <> t0 / 4096 -> ram s' a = ram s a).
Proof.
  intros Hinv Hr0 Ht0 Habs Hf Hnew Hz s'.
  pose proof (link_reaches Hinv r0 v0 l0 t0 f Hr0 Ht0 Habs Hf Hnew Hz) as Hlr. split_and!.
  - apply Hlr; [done|]. right. by split_and!.
  - intros r v l t Hr [?|(_ & ? & _)]%Hlr; [by left|by right|done].
  - intros r v l t Hr Ht. apply Hlr; [done|by left].
  - exact (link_translate Hinv r0 v0 l0 t0 f Hr0 Ht0 Habs Hf Hnew Hz).
  - intros P r v [HP0 HPl] Hr Hp l t Hrt. pose proof Hf as (Hfa & Hfr & _).
    apply Hlr in Hrt as [Hrt|(_ & -> & _)]; [| |done].
    + destruct (link_entry_cases Hinv r0 v0 l0 t0 f Hr0 Ht0 Hf r v l t Hr Hrt)
        as [[Heq _]|(-> & -> & _ & Heq)]; unfold s'; cbn [set_ram ram]; rewrite Heq;
        [by apply Hp|by apply HPl].
    + unfold s'. cbn [set_ram ram].
      by rewrite (link_entry_new Hinv r0 v0 l0 t0 f Hr0 Ht0 Hf Hnew Hz).
  - intros a Ha. apply store64_other. pose proof (pt_table _ _ _ Hinv _ _ _ _ Hr0 Ht0) as (Hal & _).
    pose proof (level_idx_range (S l0) v0). destruct (decide (t0 + 8 * level_idx (S l0) v0 <= a));
      [right|left; lia].
    destruct (decide (a < t0 + 8 * level_idx (S l0) v0 + 8)); [|lia].
    destruct Ha. eapply word_in_page; [done..|lia].
Qed.

Lemma memset_page m f a :
  f mod 4096 = 0 ->
  memset m f 0 (Z.to_nat PAGE_SIZE) a = if decide (a / 4096 = f / 4096) then 0 else m a.
Proof.
  intros Hf. rewrite memset_at, Z2Nat.id by done. unfold PAGE_SIZE. case_decide.
  - by replace (_ && _) with true by (symmetry; apply andb_true_iff; zlia).
  - replace (_ && _) with false; [done|]. symmetry. apply andb_false_iff. zlia.
Qed.

(** Allocating, clearing and linking a table for one level of a walk. *)
Lemma new_table_ok R s r v l t f p' m1 :
  pt_inv (vm_pmm s) (ram s) R -> r ∈ R -> reaches (ram s) r v (S l) t ->
  present (entry (ram s) (S l) t v) = false -> allocated (vm_pmm s) f p' ->
  (forall a, m1 a = if decide (a / 4096 = f / 4096) then 0 else ram s a) ->
  let m2 := store64 m1 (t + 8 * level_idx (S l) v)
    (Z.lor (Z.lor f VMM_FLAG_PRESENT) VMM_FLAG_WRITE) in
  let s2 := Vm p' m2 (current_pml4 s) (cr3 s) in
  pt_inv p' m2 R /\ vm_ext R s s2 /\ reaches m2 r v l f.
Proof.
  intros Hinv Hr Ht Habs Hal Hm1 m2 s2.
  destruct (allocated_page _ _ _ (pt_pmm _ _ _ Hinv) Hal) as (Hf & Hff & _).
  assert (forall a, a / 4096 <> f / 4096 -> m1 a = ram s a) as Hother.
  { intros a Ha. rewrite Hm1. by case_decide. }
  assert (mem_ok m1) as Hok.
  { intros a. rewrite Hm1. case_decide; [lia|apply Hinv]. }
  set (s1 := Vm p' m1 (current_pml4 s) (cr3 s)).
  pose proof (fresh_inv R s f p' m1 Hinv Hal Hother Hok) as Hinv1.
  pose proof (fresh_ext R s f p' m1 Hinv Hal Hother) as Hext.
  pose proof (fresh_reaches R s f p' m1 Hinv Hal Hother) as Hreach.
  assert (reaches m1 r v (S l) t) as Ht1 by by apply Hreach.
  assert (present (entry m1 (S l) t v) = false) as Habs1.
  { unfold entry. by rewrite (fresh_word R s f p' m1 Hinv Hal Hother r v (S l) t) by
      (done || apply level_idx_range). }
  assert (forall r v l t, r ∈ R -> reaches m1 r v l t -> t <> f) as Hnew.
  { intros r' v' l' t' Hr' Ht' ->. apply Hreach in Ht'; [|done].
    by destruct (fresh_not_table R s f p' Hinv Hal _ _ _ _ Hr' Ht'). }
  assert (forall a, a / 4096 = f / 4096 -> m1 a = 0) as Hz by (intros a Ha; rewrite Hm1; by case_decide).
  destruct (link_ext R s1 r v l t f Hinv1 Hr Ht1 Habs1 Hf Hnew Hz) as (Hl1 & Hl2 & Hl3 & Hl4 & Hl5 & Hl6).
  split_and!; [exact (link_inv Hinv1 r v l t f Hr Ht1 Habs1 Hf Hnew Hz)| |exact Hl1].
  destruct Hext as [Hstep _ Htr]. split.
  2: { intros r' v' l' t' Hr' Ht'. apply Hl3; [done|]. by apply Hreach. }
  2: { intros r' v' Hr'. etrans; [exact (Hl4 r' v' Hr')|exact (Htr r' v' Hr')]. }
  split; simpl; [done|apply (vs_total _ _ _ Hstep)|apply (vs_free _ _ _ Hstep)
    |apply (vs_used _ _ _ Hstep)| | |].
  - intros t' (r' & v' & l' & Hr' & [Ht'| ->]%Hl2); [| |done].
    + left. exists r', v', l'. split; [done|]. by apply Hreach.
    + right. split; [|done]. destruct Hf. lia.
  - intros P r' v' HP Hr' Hp. apply Hl5; [done..|]. by apply (vs_path _ _ _ Hstep).
  - intros a Ha Hu Hn. rewrite <- (vs_mem _ _ _ Hstep a Ha Hu Hn). apply Hl6. apply Hn.
    by exists r, v, (S l).
Qed.

Lemma no_huge_stable : stable_entry (fun l e => present e = true -> links l e = true).
Proof.
  split; [done|]. intros l f Hf Ha. destruct (link_entry f) as (_ & Hp & Hh & _); [lia|done|].
  intros _. unfold links. rewrite Hp, Hh. by rewrite orb_true_r.
Qed.
Lemma no_huge_step R s s' r v :
  vm_step R s s' -> r ∈ R -> no_huge (ram s) r v -> no_huge (ram s') r v.
Proof. intros Hstep Hr. apply (vs_path _ _ _ Hstep _ r v no_huge_stable Hr). Qed.

Lemma rd64_ok E s a (Q : Z -> vm -> Prop) :
  in_ram a = true -> Q (load64 (ram s) a) s -> wp E (rd64 a) s Q.
Proof. intros Ha HQ. unfold rd64. wp_step. wp_step. rewrite Ha. by wp_step. Qed.
Lemma wr64_ok E s a v (Q : unit -> vm -> Prop) :
  in_ram a = true -> Q tt (set_ram (store64 (ram s) a v) s) -> wp E (wr64 a v) s Q.
Proof. intros Ha HQ. unfold wr64. rewrite Ha. by wp_step. Qed.

(** A walk that may create tables ends at the entry for [v]; it panics only
    when memory runs out. *)
Lemma walk_create_ok R r v l : forall t s,
  pt_inv (vm_pmm s) (ram s) R -> r ∈ R -> reaches (ram s) r v l t -> no_huge (ram s) r v ->
  safe (walk l t v true) s (fun pte s' =>
    pt_inv (vm_pmm s') (ram s') R /\ vm_ext R s s' /\
    exists t', reaches (ram s') r v 0 t' /\ pte = t' + 8 * PT_IDX v).
Proof.
  induction l as [|l IH]; intros t s Hinv Hr Ht Hnh; cbn [walk].
  { wp_step. split; [done|split; [done|]]. by exists t. }
  pose proof (pt_table _ _ _ Hinv r v _ t Hr Ht) as Htab.
  pose proof (table_in_ram _ t (level_idx (S l) v) Htab (level_idx_range _ _)) as Hin.
  wp_step. apply rd64_ok; [done|]. fold (entry (ram s) (S l) t v).
  destruct (present (entry (ram s) (S l) t v)) eqn:Hp; cbn [negb].
  - assert (links (S l) (entry (ram s) (S l) t v) = true) as Hlk by by apply Hnh.
    replace (negb (S l =? 3)%nat && huge _) with false; [by apply IH; [..|constructor|]|].
    unfold links in Hlk. rewrite Hp in Hlk. destruct (S l =? 3)%nat, (huge _); done.
  - unfold alloc_pt_frame. do 2 wp_step. apply wp_zoom.
    apply wp_pmm_alloc; [apply Hinv|done|].
    intros f p' _ Hal.
    destruct (allocated_page _ _ _ (pt_pmm _ _ _ Hinv) Hal) as ((Hfa & Hf0 & _) & _).
    replace (f =? 0) with false by blia. do 3 wp_step. wp_step. apply wr64_ok; [done|].
    destruct (new_table_ok R s r v l t f p' _ Hinv Hr Ht Hp Hal (fun a => memset_page _ f a Hfa)) as (Hinv2 & Hext2 & Hr2).
    eapply wp_mono; [apply IH; [exact Hinv2|done|exact Hr2|]|].
    { by apply (no_huge_step R s _ r v (ve_step _ _ _ Hext2)). }
    intros pte s' (Hi & He & Hreach).
    split; [exact Hi|split; [etrans; [exact Hext2|exact He]|exact Hreach]].
Qed.

(** ** Writing the entry of a page *)

Section leaf.
Context {s : vm} {R : gset Z} (Hinv : pt_inv (vm_pmm s) (ram s) R).
Context {r v t : Z} (e : Z).
Hypothesis Hr : r ∈ R.
Hypothesis Ht : reaches (ram s) r v 0 t.

Let m' : mem := store64 (ram s) (t + 8 * PT_IDX v) e.

Lemma leaf_ok : table_ok (vm_pmm s) t.
Proof. by eapply (pt_table _ _ _ Hinv). Qed.

Lemma leaf_reaches r' w l u : r' ∈ R -> reaches m' r' w l u <-> reaches (ram s) r' w l u.
Proof.
  apply reaches_same. clear r' w l u. intros r' w l u Hr' Hu. unfold entry, m'.
  pose proof (pt_table _ _ _ Hinv _ _ _ _ Hr' Hu) as (Ha & _). pose proof leaf_ok as (Hta & _).
  apply load64_store64_other, words_apart; [done|done|apply level_idx_range|apply PT_IDX_range|].
  left. intros ->. by destruct (pt_unique _ _ _ Hinv _ _ _ _ _ _ _ Hr' Hr Hu Ht).
Qed.

Lemma leaf_inv : pt_inv (vm_pmm s) m' R.
Proof.
  split; [apply Hinv|by apply mem_ok_store_le, Hinv| |].
  - intros r' w l u Hr' Hu%leaf_reaches; [|done]. by eapply (pt_table _ _ _ Hinv).
  - intros r1 r2 v1 v2 l1 l2 u H1 H2 Hu1%leaf_reaches Hu2%leaf_reaches; [|done..].
    by eapply (pt_unique _ _ _ Hinv).
Qed.

Lemma leaf_hit r' w :
  r' ∈ R -> reaches (ram s) r' w 0 t -> PT_IDX w = PT_IDX v -> 0 <= e < 2^64 ->
  translate m' r' w = entry_phys e w.
Proof.
  intros Hr' Hw Hi He. rewrite (translate_reached (m := m') r' w t) by by apply leaf_reaches.
  unfold m'. by rewrite Hi, load64_store64.
Qed.

Lemma leaf_miss r' w :
  r' ∈ R -> ~ (reaches (ram s) r' w 0 t /\ PT_IDX w = PT_IDX v) ->
  translate m' r' w = translate (ram s) r' w.
Proof.
  intros Hr' Hne. destruct (reached_dec (m := ram s) r' w) as [[u Hu]|Hn].
  - rewrite (translate_reached _ _ _ Hu), (translate_reached (m := m') r' w u) by by apply leaf_reaches.
    f_equal. unfold m'. pose proof (pt_table _ _ _ Hinv _ _ _ _ Hr' Hu) as (Ha & _).
    pose proof leaf_ok as (Hta & _).
    apply load64_store64_other, words_apart; [done|done|apply PT_IDX_range..|].
    destruct (decide (u = t)) as [->|]; [right; intros Hi; by apply Hne|by left].
  - rewrite !translate_not_reached; [done|done|]. intros u Hu%leaf_reaches; [|done]. by apply (Hn u).
Qed.

Lemma leaf_step : vm_step R s (set_ram m' s).
Proof.
  split; simpl; [done|done|lia|done| | |].
  - intros u (r' & w & l & Hr' & Hu%leaf_reaches); [|done]. left. by exists r', w, l.
  - intros P r' w _ Hr' Hp l u Hu%leaf_reaches; [|done]. specialize (Hp l u Hu).
    replace (entry m' (S l) u w) with (entry (ram s) (S l) u w); [done|]. symmetry.
    unfold entry, m'. pose proof (pt_table _ _ _ Hinv _ _ _ _ Hr' Hu) as (Ha & _).
    pose proof leaf_ok as (Hta & _).
    apply load64_store64_other, words_apart; [done|done|apply level_idx_range|apply PT_IDX_range|].
    left. intros ->. by destruct (pt_unique _ _ _ Hinv _ _ _ _ _ _ _ Hr' Hr Hu Ht).
  - intros a Ha _ Hn. pose proof (PT_IDX_range v). pose proof leaf_ok as (Hta & _).
    unfold m'. apply store64_other.
    destruct (decide (t + 8 * PT_IDX v <= a)); [right|left; lia].
    destruct (decide (a < t + 8 * PT_IDX v + 8)); [|lia].
    destruct (Hn t); [by exists r, v, 0%nat|]. eapply word_in_page; [done..|lia].
Qed.

(** In the address space itself exactly the page of [v] changes. *)
Lemma leaf_translate w :
  0 <= e < 2^64 ->
  translate m' r w = if vpn w =? vpn v then entry_phys e w else translate (ram s) r w.
Proof.
  intros He. pose proof (reaches_iff Hinv r v w 0 t Hr Ht) as Hiff.
  destruct (Z.eqb_spec (vpn w) (vpn v)) as [Hv|Hv].
  - apply same_page in Hv as [Hs Hi]. apply leaf_hit; [done| |done|done].
    by apply Hiff, same_path_sym.
  - apply leaf_miss; [done|]. intros [Hw Hi]. apply Hv, same_page. split; [|done].
    by apply same_path_sym, Hiff.
Qed.

(** Other address spaces are untouched outside the kernel slot. *)
Lemma leaf_other r' w :
  r' ∈ R -> r' <> r -> PML4_IDX w <> 511 -> translate m' r' w = translate (ram s) r' w.
Proof.
  intros Hr' Hne Hw. apply leaf_miss; [done|]. intros [Hu _].
  by destruct (pt_unique _ _ _ Hinv r' r w v 0 0 t Hr' Hr Hu Ht) as (_ & _ & [?|[_ ?]]).
Qed.
End leaf.

(** What mapping the page of [v] with entry [e] does. *)
Record vm_mapped (R : gset Z) (r v e : Z) (s s' : vm) : Prop := {
  vma_inv : pt_inv (vm_pmm s') (ram s') R;
  vma_step : vm_step R s s';
  vma_page : forall w, translate (ram s') r w =
    if vpn w =? vpn v then entry_phys e w else translate (ram s) r w;
  vma_other : forall r' w, r' ∈ R -> r' <> r -> PML4_IDX w <> 511 ->
    translate (ram s') r' w = translate (ram s) r' w
}.

Lemma pte_value_range phys flags :
  0 <= phys < 2^64 -> 0 <= flags < 2^64 -> 0 <= pte_value phys flags < 2^64.
Proof.
  intros Hp Hf. unfold pte_value, VMM_FLAG_PRESENT. change (Z.shiftl 1 0) with 1.
  apply lor_bound; [lia| |lia]. apply lor_bound; [lia| |done]. apply land_bound; lia.
Qed.

Lemma lor_disjoint a b : a mod 4096 = 0 -> 0 <= b < 4096 -> Z.lor a b = a + b.
Proof.
  intros Ha Hb. rewrite <- Z.lxor_lor, <- Z.add_nocarry_lxor; [done| |].
  all: apply Z.bits_inj'; intros i Hi; rewrite Z.land_spec, Z.bits_0;
    destruct (decide (i < 12)); [by rewrite aligned_testbit by lia|].
  all: by rewrite (bits_above b 12 i), andb_false_r by lia.
Qed.

(** The entry of a page translates an address of the page to the frame. *)
Lemma entry_phys_value phys flags w :
  0 <= phys < 2^64 -> phys mod 4096 = 0 -> 0 <= flags < 4096 ->
  entry_phys (pte_value phys flags) w = phys + w mod 4096.
Proof.
  intros Hp Ha Hf. unfold entry_phys, pte_value. rewrite present_bit, (land_page_mask phys) by done.
  assert (phys / 4096 * 4096 = phys) as -> by zlia.
  rewrite Z.lor_spec. unfold VMM_FLAG_PRESENT at 1. rewrite testbit_shiftl1, orb_true_r by lia. cbn [negb].
  rewrite land_page_mask.
  2: { unfold VMM_FLAG_PRESENT. change (Z.shiftl 1 0) with 1.
       apply lor_bound; [lia| |lia]. apply lor_bound; lia. }
  rewrite !lor_div_4096 by done. assert (phys / 4096 * 4096 = phys) as -> by zlia.
  unfold PAGE_SIZE. change (4096 - 1) with (2^12 - 1). rewrite land_ones_mod by lia.
  apply lor_disjoint; zlia.
Qed.

Lemma map_in_pml4_ok R r v phys flags s :
  pt_inv (vm_pmm s) (ram s) R -> r ∈ R -> no_huge (ram s) r v ->
  0 <= phys < 2^64 -> 0 <= flags < 2^64 ->
  safe (vmm_map_in_pml4 r v phys flags) s (fun _ s' => vm_mapped R r v (pte_value phys flags) s s').
Proof.
  intros Hinv Hr Hnh Hp Hf. unfold vmm_map_in_pml4, vmm_get_pte_pml4_phys. wp_step.
  eapply wp_mono; [apply (walk_create_ok R r v 3 r s Hinv Hr); [constructor|done]|].
  intros pte s1 (Hinv1 & Hext & t & Ht & ->).
  pose proof (pt_table _ _ _ Hinv1 _ _ _ _ Hr Ht) as Htab. apply wr64_ok.
  { apply (table_in_ram _ _ _ Htab), PT_IDX_range. }
  pose proof (pte_value_range phys flags Hp Hf) as He. split.
  - apply (leaf_inv Hinv1 _ Hr Ht).
  - etrans; [apply (ve_step _ _ _ Hext)|apply (leaf_step Hinv1 _ Hr Ht)].
  - intros w. cbn [set_ram ram]. rewrite (leaf_translate Hinv1 _ Hr Ht w He).
    by rewrite (ve_translate _ _ _ Hext).
  - intros r' w Hr' Hne Hw. cbn [set_ram ram]. rewrite (leaf_other Hinv1 _ Hr Ht) by done.
    by apply (ve_translate _ _ _ Hext).
Qed.

(** vmm_map is vmm_map_in_pml4 on the kernel's own tables. *)
Lemma wp_vmm_map E v phys flags s (Q : unit -> vm -> Prop) :
  wp E (vmm_map_in_pml4 (current_pml4 s) v phys flags) s Q -> wp E (vmm_map v phys flags) s Q.
Proof. done. Qed.

(** ** Lookups *)

Lemma walk_lookup_ok R r v s l t :
  pt_inv (vm_pmm s) (ram s) R -> r ∈ R -> reaches (ram s) r v l t ->
  walk l t v false s =
  Done (match descend (ram s) l t v with Some u => u + 8 * PT_IDX v | None => 0 end, s).
Proof.
  intros Hinv Hr. revert t. induction l as [|l IH]; intros t Ht; [done|].
  pose proof (pt_table _ _ _ Hinv _ _ _ _ Hr Ht) as Htab. cbn [walk descend].
  unfold mbind at 1, M_bind at 1, rd64, mbind at 1, M_bind at 1, get.
  rewrite (table_in_ram _ _ _ Htab) by apply level_idx_range. cbn [mret M_ret].
  fold (entry (ram s) (S l) t v). unfold links.
  destruct (present (entry (ram s) (S l) t v)) eqn:Hp; cbn [negb andb]; [|done].
  destruct (S l =? 3)%nat eqn:Hl, (huge (entry (ram s) (S l) t v)) eqn:Hh; cbn [negb andb orb]; try done;
    (apply IH; constructor; [done|]; unfold links; by rewrite Hp, Hl, ?Hh).
Qed.

Lemma lookup_walk_ok R r v s l t :
  pt_inv (vm_pmm s) (ram s) R -> r ∈ R -> reaches (ram s) r v l t ->
  lookup_walk l t v s =
  Done (match descend (ram s) l t v with
        | Some u => entry_phys (load64 (ram s) (u + 8 * PT_IDX v)) v | None => 0 end, s).
Proof.
  intros Hinv Hr. revert t. induction l as [|l IH]; intros t Ht;
    pose proof (pt_table _ _ _ Hinv _ _ _ _ Hr Ht) as Htab; cbn [lookup_walk descend].
  { unfold pte_phys, mbind, M_bind, rd64, mbind, M_bind, get.
    by rewrite (table_in_ram _ _ _ Htab) by apply PT_IDX_range. }
  unfold mbind at 1, M_bind at 1, rd64, mbind at 1, M_bind at 1, get.
  rewrite (table_in_ram _ _ _ Htab) by apply level_idx_range. cbn [mret M_ret].
  fold (entry (ram s) (S l) t v). unfold links.
  destruct (present (entry (ram s) (S l) t v)) eqn:Hp; cbn [negb andb]; [|done].
  destruct (S l =? 3)%nat eqn:Hl, (huge (entry (ram s) (S l) t v)) eqn:Hh; cbn [negb andb orb]; try done;
    (apply IH; constructor; [done|]; unfold links; by rewrite Hp, Hl, ?Hh).
Qed.

Lemma lookup_ok R r v s :
  pt_inv (vm_pmm s) (ram s) R -> r ∈ R ->
  vmm_lookup_phys_pml4 r v s = Done (translate (ram s) r v, s).
Proof.
  intros Hinv Hr. unfold vmm_lookup_phys_pml4.
  rewrite (lookup_walk_ok R r v s 3 r Hinv Hr) by constructor. unfold translate, pte_of.
  by destruct (descend _ _ _ _).
Qed.

(** ** Unmapping *)

Lemma unmap_page_ok R r v s :
  pt_inv (vm_pmm s) (ram s) R -> r ∈ R ->
  returns (unmap_page r v) s (fun _ s' =>
    vm_pmm s' = vm_pmm s /\ vm_mapped R r v 0 s s').
Proof.
  intros Hinv Hr. unfold unmap_page, vmm_get_pte_pml4_phys. wp_step.
  eapply wp_Done; [apply (walk_lookup_ok R r v s 3 r); [done|done|constructor]|].
  destruct (descend (ram s) 3 r v) as [t|] eqn:Hd.
  - assert (reaches (ram s) r v 0 t) as Ht by (eapply descend_reaches; [constructor|done]).
    pose proof (pt_table _ _ _ Hinv _ _ _ _ Hr Ht) as Htab.
    pose proof (table_in_ram _ _ _ Htab (PT_IDX_range v)) as Hin.
    replace (nonzero (t + 8 * PT_IDX v)) with true.
    2: { symmetry. apply nonzero_pos. destruct Htab as (_ & ? & _). pose proof (PT_IDX_range v). lia. }
    wp_step. apply rd64_ok; [done|]. destruct (present _) eqn:Hp.
    + apply wr64_ok; [done|]. split; [done|]. split.
      * apply (leaf_inv Hinv _ Hr Ht).
      * apply (leaf_step Hinv _ Hr Ht).
      * intros w. cbn [set_ram ram]. by apply (leaf_translate Hinv _ Hr Ht).
      * intros r' w Hr' Hne Hw. cbn [set_ram ram]. by apply (leaf_other Hinv _ Hr Ht).
    + wp_step. split; [done|]. split; [done|done| |done]. intros w.
      destruct (Z.eqb_spec (vpn w) (vpn v)) as [[Hs Hi]%same_page|]; [|done].
      rewrite (translate_reached (m := ram s) r w t).
      * unfold entry_phys. by rewrite Hi, Hp.
      * apply same_path_sym in Hs. by eapply reaches_path.
  - cbn. split; [done|]. split; [done|done| |done]. intros w.
    destruct (Z.eqb_spec (vpn w) (vpn v)) as [[Hs Hi]%same_page|]; [|done].
    apply translate_not_reached. intros t Ht. assert (reaches (ram s) r v 0 t) as Hv by by eapply reaches_path.
    by rewrite (reaches_descend _ _ _ _ _ Hv) in Hd.
Qed.

Lemma vpn_small w : 0 <= w < 2^48 -> vpn w = w / 4096.
Proof. intros. unfold vpn. apply Z.mod_small. zlia. Qed.

(** Low pages below [b] that the loop has reached from [a]. *)
Definition in_pages (a b w : Z) : bool := (a / 4096 <=? w / 4096) && (w / 4096 <? b / 4096).

Lemma in_pages_next a x w :
  a <= x -> x mod 4096 = 0 ->
  in_pages a (x + 4096) w = (w / 4096 =? x / 4096) || in_pages a x w.
Proof.
  intros Ha Hx. unfold in_pages.
  assert (a / 4096 <= x / 4096) by zlia. assert ((x + 4096) / 4096 = x / 4096 + 1) as -> by zlia.
  blia.
Qed.

(** C22: unmapping a range that ends below 2^48 ends, makes every page that meets the
    range unmapped, and leaves every other page of the address space and every other
    address space as it was. *)
Theorem vmm_unmap_range_unmaps R r virt n fuel s :
  pt_inv (vm_pmm s) (ram s) R -> r ∈ R ->
  0 <= virt -> 0 < n -> virt + n < 2^48 -> n / 4096 + 2 < Z.of_nat fuel ->
  returns (vmm_unmap_range_pml4 fuel r virt n) s (fun _ s' =>
    pt_inv (vm_pmm s') (ram s') R /\ vm_pmm s' = vm_pmm s /\
    (forall w, 0 <= w < 2^48 ->
       translate (ram s') r w =
       if in_pages virt (virt + n + 4095) w then 0 else translate (ram s) r w) /\
    (forall r' w, r' ∈ R -> r' <> r -> PML4_IDX w <> 511 ->
       translate (ram s') r' w = translate (ram s) r' w)).
Proof.
  intros Hinv Hr Hv Hn Hlt Hfuel. unfold vmm_unmap_range_pml4.
  replace (n =? 0) with false by blia. rewrite u64_small by lia.
  rewrite land_page_mask by lia.
  set (I := fun x s' =>
    virt / 4096 * 4096 <= x < virt + n + 4096 /\ x mod 4096 = 0 /\
    pt_inv (vm_pmm s') (ram s') R /\ vm_pmm s' = vm_pmm s /\
    (forall w, 0 <= w < 2^48 ->
       translate (ram s') r w =
       if in_pages (virt / 4096 * 4096) x w then 0 else translate (ram s) r w) /\
    (forall r' w, r' ∈ R -> r' <> r -> PML4_IDX w <> 511 ->
       translate (ram s') r' w = translate (ram s) r' w)).
  apply (wp_iter _ I (fun x _ => Z.to_nat ((virt + n + 4095 - x) / 4096))).
  2: { unfold I. split_and!; [lia|zlia|zlia|done|done| |done]. intros w Hw.
       unfold in_pages. replace (_ && _) with false; [done|]. symmetry. blia. }
  2: { zlia. }
  intros x s' (Hx & Ha & Hinv' & Hp & Htr & Hoth). destruct (Z.ltb_spec x (virt + n)).
  - wp_step. eapply wp_mono; [apply (unmap_page_ok R r x s' Hinv' Hr)|].
    intros [] s1 (Hp1 & [Hi1 _ Hpg Ho1]). wp_step.
    assert (u64 (x + PAGE_SIZE) = x + 4096) as -> by (unfold PAGE_SIZE; apply u64_small; zlia).
    split; [|zlia]. unfold I. split_and!; [zlia|zlia|zlia|done|congruence| |].
    + intros w Hw. rewrite Hpg, Htr by done. rewrite in_pages_next by lia.
      rewrite !vpn_small by zlia. by destruct (_ =? _).
    + intros r' w Hr' Hne Hw. by rewrite Ho1, Hoth.
  - wp_step. split_and!; [done|done| |done]. intros w Hw. rewrite Htr by done.
    replace (in_pages (virt / 4096 * 4096) x w) with (in_pages virt (virt + n + 4095) w); [done|].
    unfold in_pages. f_equal; f_equal; zlia.
Qed.

(** a range whose end lies in the last page of the address space is never
    finished: the page counter wraps to zero below the end, whatever the fuel. *)
Theorem vmm_unmap_range_never_ends r virt n fuel s s' :
  n <> 0 -> 2^64 - 4096 < u64 (virt + n) ->
  vmm_unmap_range_pml4 fuel r virt n s <> Done (tt, s').
Proof.
  intros Hn Hend. unfold vmm_unmap_range_pml4. replace (n =? 0) with false by blia.
  assert (Z.land virt PAGE_MASK mod 4096 = 0 /\ 0 <= Z.land virt PAGE_MASK < 2^64) as [Ha Hr].
  { rewrite Z.land_comm. split; [|apply land_bound; [lia|rewrite PAGE_MASK_val; lia]].
    change 4096 with (2^12). rewrite <- Z.land_ones by lia.
    rewrite (Z.land_comm PAGE_MASK), <- Z.land_assoc. by rewrite (eq_refl : Z.land PAGE_MASK (Z.ones 12) = 0), Z.land_0_r. }
  generalize dependent (Z.land virt PAGE_MASK). intros x. revert x s.
  induction fuel as [|fuel IH]; intros x s Ha Hr; [done|]. cbn [iter].
  replace (x <? u64 (virt + n)) with true by (symmetry; apply Z.ltb_lt; zlia).
  intros (y & s1 & (? & s2 & _ & [= <- <-])%bind_inv & H)%bind_inv.
  revert H. apply IH; unfold u64, PAGE_SIZE; zlia.
Qed.

(** ** A new address space *)

Section new_space.
Context {s : vm} {R : gset Z} (Hinv : pt_inv (vm_pmm s) (ram s) R) (Hcr3 : cr3 s ∈ R).
Context (g : Z) (p' : pmm) (Hal : allocated (vm_pmm s) g p') (m1 : mem).
Hypothesis Hm1 : forall a, m1 a = if decide (a / 4096 = g / 4096) then 0 else ram s a.

Let e : Z := load64 m1 (cr3 s + 8 * 511).
Let m2 : mem := store64 m1 (g + 8 * 511) e.

Lemma space_g : table_ok p' g.
Proof. by destruct (allocated_page _ _ _ (pt_pmm _ _ _ Hinv) Hal) as (Hg & _). Qed.

Lemma space_m2_other a : a / 4096 <> g / 4096 -> m2 a = ram s a.
Proof.
  intros Ha. pose proof space_g as (Hga & _). unfold m2.
  rewrite store64_other; [rewrite Hm1; by case_decide|].
  destruct (decide (g + 8 * 511 <= a)); [right|left; lia].
  destruct (decide (a < g + 8 * 511 + 8)); [|lia].
  destruct Ha. eapply (word_in_page g 511); lia.
Qed.

Lemma space_ok : mem_ok m2.
Proof.
  apply mem_ok_store_le. intros a. rewrite Hm1. case_decide; [lia|apply Hinv].
Qed.

(** The new root's entries: the kernel slot is copied, the others are empty. *)
Lemma space_entry v :
  entry m2 3 g v = if PML4_IDX v =? 511 then entry (ram s) 3 (cr3 s) v else 0.
Proof.
  pose proof space_g as (Hga & Hgr & _). pose proof (level_idx_range 3 v) as Hi. simpl in Hi.
  unfold entry, m2, level_idx. destruct (Z.eqb_spec (PML4_IDX v) 511) as [->|Hne].
  - rewrite load64_store64.
    + unfold e. apply load_le_ext. intros a Ha. rewrite Hm1. case_decide as Hd; [|done].
      destruct (fresh_not_table R s g p' Hinv Hal (cr3 s) v 3 (cr3 s) Hcr3); [constructor|].
      rewrite <- Hd. symmetry. eapply (word_in_page (cr3 s) 511); [|lia|lia].
      apply (pt_table _ _ _ Hinv (cr3 s) v 3 (cr3 s) Hcr3). constructor.
    + apply load64_range. intros a. rewrite Hm1. case_decide; [lia|apply Hinv].
  - rewrite load64_store64_other by (apply words_apart; [done|done|lia|lia|by right]).
    unfold load64. rewrite (load_le_ext 8 m1 (fun _ => 0)); [done|]. intros a Ha. rewrite Hm1.
    rewrite decide_True; [done|]. by eapply (word_in_page g (PML4_IDX v)).
Qed.

Lemma space_old r v l t : r ∈ R -> reaches m2 r v l t <-> reaches (ram s) r v l t.
Proof. by apply (fresh_reaches R s g p' m2 Hinv Hal space_m2_other). Qed.

Lemma space_new v l t :
  reaches m2 g v l t <->
  (l = 3%nat /\ t = g) \/ ((l < 3)%nat /\ PML4_IDX v = 511 /\ reaches (ram s) (cr3 s) v l t).
Proof.
  split.
  - induction 1 as [|l t H IH Hl]; [by left|]. right.
    destruct IH as [[Hl3 ->]|(Hl3 & Hv & IH)].
    + injection Hl3 as ->. rewrite space_entry in *.
      destruct (Z.eqb_spec (PML4_IDX v) 511) as [Hv|]; [|done]. split_and!; [lia|done|].
      constructor; [constructor|done].
    + split_and!; [lia|done|]. apply (space_old (cr3 s)); [done|]. constructor; [by apply space_old|done].
  - intros [[-> ->]|(Hl & Hv & H)]; [constructor|].
    induction H as [|l t H IH Hlk]; [lia|].
    destruct (decide (S l = 3)%nat) as [He|].
    + injection He as ->. inversion H as [|? t0 H0]; subst; [|apply reaches_level in H0; lia].
      pose proof (space_entry v) as Hse. rewrite Hv in Hse. simpl (511 =? 511) in Hse. cbn iota in Hse.
      rewrite <- Hse in *. constructor; [constructor|done].
    + assert (reaches m2 g v (S l) t) as IH' by (apply IH; lia).
      assert (entry m2 (S l) t v = entry (ram s) (S l) t v) as He.
      { unfold entry. apply (fresh_word R s g p' m2 Hinv Hal space_m2_other (cr3 s) v (S l) t);
          [done|done|apply level_idx_range]. }
      rewrite <- He in *. by constructor.
Qed.

Lemma space_inv : pt_inv p' m2 ({[g]} ∪ R).
Proof.
  pose proof (fresh_inv R s g p' m2 Hinv Hal space_m2_other space_ok) as Hi. split.
  - apply Hi.
  - apply space_ok.
  - intros r v l t [->%elem_of_singleton|Hr]%elem_of_union Ht; [|by eapply (pt_table _ _ _ Hi)].
    apply space_new in Ht as [[_ ->]|(_ & _ & Ht)]; [apply space_g|].
    eapply (pt_table _ _ _ Hi (cr3 s)); [done|by apply space_old].
  - assert (forall r v l t, r ∈ R -> reaches m2 r v l t -> t <> g) as Hng.
    { intros r v l t Hr Ht%space_old ->; [|done].
      by destruct (fresh_not_table R s g p' Hinv Hal _ _ _ _ Hr Ht). }
    assert (forall v l t, reaches m2 g v l t -> l <> 3%nat ->
      PML4_IDX v = 511 /\ reaches m2 (cr3 s) v l t) as Hlow.
    { intros v l t [[? _]|(_ & Hv & Ht)]%space_new Hl; [done|]. split; [done|by apply space_old]. }
    assert (forall r v v' l l' t, r ∈ R -> reaches m2 r v l t -> reaches m2 g v' l' t ->
      l = l' /\ same_path l v v' /\ ((l < 3)%nat /\ PML4_IDX v' = 511)) as Hmix.
    { intros r v v' l l' t Hr Ht Ht'. destruct (decide (l' = 3)%nat) as [->|Hl'].
      - apply space_new in Ht' as [[_ ->]|(? & _)]; [|lia]. by destruct (Hng r v l g Hr Ht).
      - destruct (Hlow _ _ _ Ht' Hl') as [Hv Ht''].
        destruct (pt_unique _ _ _ Hi _ _ _ _ _ _ _ Hr Hcr3 Ht Ht'') as (-> & ? & _).
        split_and!; [done..| |done]. apply reaches_level in Ht'. lia. }
    intros r r' v v' l l' t [->%elem_of_singleton|Hr]%elem_of_union
      [->%elem_of_singleton|Hr']%elem_of_union Ht Ht'.
    + destruct (decide (l = 3)%nat) as [->|Hl].
      * apply space_new in Ht as [[_ ->]|(? & _)]; [|lia].
        apply space_new in Ht' as [[-> _]|(Hl' & Hv' & Ht')].
        { split_and!; [done| |by left]. intros k Hk. lia. }
        apply space_old in Ht'; [|done]. by destruct (Hng _ _ _ _ Hcr3 Ht').
      * destruct (Hlow _ _ _ Ht Hl) as [Hv Ht1].
        destruct (Hmix _ _ _ _ _ _ Hcr3 Ht1 Ht') as (-> & ? & _). split_and!; [done..|by left].
    + destruct (Hmix _ _ _ _ _ _ Hr' Ht' Ht) as (-> & Hs & Hl).
      split_and!; [done|by apply same_path_sym|by right].
    + destruct (Hmix _ _ _ _ _ _ Hr Ht Ht') as (-> & Hs & Hl & Hv).
      split_and!; [done|done|right]. split; [done|]. rewrite <- Hv. apply (Hs 3%nat). lia.
    + by eapply (pt_unique _ _ _ Hi).
Qed.

Lemma space_translate_new v :
  translate m2 g v = if PML4_IDX v =? 511 then translate (ram s) (cr3 s) v else 0.
Proof.
  destruct (reached_dec (m := m2) g v) as [[t Ht]|Hn].
  - rewrite (translate_reached _ _ _ Ht). apply space_new in Ht as [[? _]|(_ & -> & Ht)]; [done|].
    simpl. rewrite (translate_reached _ _ _ Ht). f_equal.
    apply (fresh_word R s g p' m2 Hinv Hal space_m2_other _ _ _ _ _ Hcr3 Ht (PT_IDX_range v)).
  - rewrite (translate_not_reached _ _ Hn). destruct (Z.eqb_spec (PML4_IDX v) 511) as [Hv|]; [|done].
    symmetry. apply translate_not_reached. intros t Ht. apply (Hn t), space_new. right.
    split_and!; [lia|done|done].
Qed.

Lemma space_translate_old r v : r ∈ R -> translate m2 r v = translate (ram s) r v.
Proof. apply (fresh_translate R s g p' m2 Hinv Hal space_m2_other). Qed.
End new_space.

Lemma uspace_create_ok E R s (Q : Z -> vm -> Prop) :
  pt_inv (vm_pmm s) (ram s) R -> cr3 s ∈ R ->
  Q 0 s ->
  (forall g p' m1, allocated (vm_pmm s) g p' ->
     (forall a, m1 a = if decide (a / 4096 = g / 4096) then 0 else ram s a) ->
     Q g (Vm p' (store64 m1 (g + 8 * 511) (load64 m1 (cr3 s + 8 * 511))) (current_pml4 s) (cr3 s))) ->
  wp E uspace_create_pml4 s Q.
Proof.
  intros Hinv Hcr3 H0 Hg. unfold uspace_create_pml4. wp_step. apply wp_zoom.
  apply wp_pmm_alloc; 
    [apply Hinv|intros _; replace (over (view s) s) with s by (by destruct s); exact H0|]. intros g p' _ Hal.
  destruct (allocated_page _ _ _ (pt_pmm _ _ _ Hinv) Hal) as (Htab & _).
  pose proof Htab as (Hga & ? & _). replace (g =? 0) with false by blia.
  assert (table_ok (vm_pmm s) (cr3 s)) as Hc.
  { apply (pt_table _ _ _ Hinv _ 0 3 _ Hcr3). constructor. }
  do 2 wp_step. do 2 wp_step. wp_step. apply rd64_ok; [by apply (table_in_ram _ _ 511 Hc)|].
  wp_step. apply wr64_ok; [by apply (table_in_ram _ _ 511 Htab)|]. wp_step.
  apply (Hg g p' _ Hal). intros a. by apply memset_page.
Qed.

(** The start of the kernel heap (kernel/main.c) and the slot it lies in. *)
Definition HEAP_BASE : Z := 0xFFFFC00000000000.
Definition heap_va (v : Z) : Prop := HEAP_BASE <= v < HEAP_BASE + 2^39.
Lemma heap_va_slot v : heap_va v -> PML4_IDX v = 384.
Proof. unfold heap_va, HEAP_BASE, PML4_IDX. intros. rewrite land_mask_9 by lia. zlia. Qed.

(** C4: a new user address space is a root no other space uses; it shows the
    kernel slot of the current space and nothing else, so the kernel heap is
    not mapped in it; the existing spaces keep their translations. *)
Theorem uspace_create_isolates R s :
  pt_inv (vm_pmm s) (ram s) R -> cr3 s ∈ R ->
  returns uspace_create_pml4 s (fun r s' =>
    (r = 0 /\ s' = s) \/
    ((r ∉ R) /\ pt_inv (vm_pmm s') (ram s') ({[r]} ∪ R) /\
     (forall v, translate (ram s') r v =
        if PML4_IDX v =? 511 then translate (ram s) (cr3 s) v else 0) /\
     (forall v, heap_va v -> translate (ram s') r v = 0) /\
     (forall r' v, r' ∈ R -> translate (ram s') r' v = translate (ram s) r' v))).
Proof.
  intros Hinv Hcr3. apply (uspace_create_ok _ R); [done..|by left|]. intros g p' m1 Hal Hm1. right.
  split_and!.
  - intros Hg. by destruct (fresh_not_table R s g p' Hinv Hal g 0 3 g Hg); [constructor|].
  - by apply (space_inv Hinv Hcr3 g p' Hal).
  - intros v. by apply (space_translate_new Hinv Hcr3 g p' Hal).
  - intros v Hv. cbn [ram]. rewrite (space_translate_new Hinv Hcr3 g p' Hal m1 Hm1).
    by rewrite (heap_va_slot v Hv).
  - intros r' v Hr'. by apply (space_translate_old Hinv g p' Hal).
Qed.

(** C2: mapping a page makes its addresses translate to the frame, byte for
    byte, and changes no other page of any address space outside the shared
    kernel slot; the tables stay well formed. It panics only out of memory. *)
Theorem vmm_map_in_pml4_maps R r v phys flags s :
  pt_inv (vm_pmm s) (ram s) R -> r ∈ R -> no_huge (ram s) r v ->
  0 <= phys < 2^64 -> phys mod 4096 = 0 -> 0 <= flags < 4096 ->
  safe (vmm_map_in_pml4 r v phys flags) s (fun _ s' =>
    pt_inv (vm_pmm s') (ram s') R /\
    (forall w, translate (ram s') r w =
       if vpn w =? vpn v then phys + w mod 4096 else translate (ram s) r w) /\
    (forall r' w, r' ∈ R -> r' <> r -> PML4_IDX w <> 511 ->
       translate (ram s') r' w = translate (ram s) r' w)).
Proof.
  intros Hinv Hr Hnh Hp Ha Hf. eapply wp_mono; [apply (map_in_pml4_ok R); [done..|lia]|].
  intros _ s' [Hi _ Hpg Ho]. split_and!; [done| |done]. intros w. rewrite Hpg.
  by rewrite entry_phys_value.
Qed.

Lemma user_clear_stable : stable_entry (fun _ e => Z.land e VMM_FLAG_USER = 0).
Proof.
  split; [done|]. intros l f Hf Ha.
  by destruct (link_entry f) as (_ & _ & _ & _ & Hu); [lia|done|].
Qed.

(** Every directory entry on the way to a page mapped in a new user address
    space lacks the user flag, whatever flags the page itself was given. *)
Theorem user_directories_lack_user_flag R s v phys flags :
  pt_inv (vm_pmm s) (ram s) R -> cr3 s ∈ R -> PML4_IDX v <> 511 ->
  0 <= phys < 2^64 -> phys mod 4096 = 0 -> 0 <= flags < 4096 ->
  safe (r ← uspace_create_pml4;
        if r =? 0 then mret 0 else vmm_map_in_pml4 r v phys flags;; mret r) s
    (fun r s' => r <> 0 ->
       translate (ram s') r v = phys + v mod 4096 /\
       path_entries (fun _ e => Z.land e VMM_FLAG_USER = 0) (ram s') r v).
Proof.
  intros Hinv Hcr3 Hv Hp Ha Hf. wp_step. apply (uspace_create_ok _ R); [done..|by cbn|].
  intros g p' m1 Hal Hm1. set (s1 := Vm p' _ _ _).
  destruct (allocated_page _ _ _ (pt_pmm _ _ _ Hinv) Hal) as ((_ & ? & _) & _).
  replace (g =? 0) with false by blia.
  pose proof (space_inv Hinv Hcr3 g p' Hal m1 Hm1) as Hinv1.
  assert (forall P, stable_entry P -> path_entries P (ram s1) g v) as Hpath.
  { intros P [HP _] l t Ht. apply (space_new Hinv Hcr3 g p' Hal m1 Hm1) in Ht as [[Hl ->]|(_ & ? & _)]; [|done].
    injection Hl as ->. unfold s1. cbn [ram]. rewrite (space_entry Hinv Hcr3 g p' Hal m1 Hm1).
    apply Z.eqb_neq in Hv as ->. apply HP. }
  wp_step. eapply wp_mono; [apply (map_in_pml4_ok _ g v phys flags s1 Hinv1); [by apply elem_of_union_l, elem_of_singleton|
    apply (Hpath _ no_huge_stable)|done|lia]|].
  intros _ s2 [Hi Hs Hpg _]. wp_step. intros _. split.
  - by rewrite Hpg, Z.eqb_refl, entry_phys_value.
  - apply (vs_path _ _ _ Hs _ _ _ user_clear_stable); [by apply elem_of_union_l, elem_of_singleton|]. apply Hpath, user_clear_stable.
Qed.

(** ** Copies between the kernel and a user address space *)

(** The byte user code sees at [a], when its page is mapped below 4 GiB. *)
Definition user_byte (m : mem) (r a : Z) : option Z :=
  let pa := translate m r a in
  if (pa =? 0) || (0x100000000 <=? pa) then None else Some (m pa).

(** The bytes [l], none of them zero, are readable from [uva] on, and the byte
    after them is [stop]: a terminator or not readable. *)
Definition user_string (m : mem) (r uva : Z) (l : list Z) (stop : option Z) : Prop :=
  (forall k c, l !! k = Some c -> user_byte m r (u64 (uva + Z.of_nat k)) = Some c /\ c <> 0) /\
  user_byte m r (u64 (uva + Z.of_nat (length l))) = stop /\ (stop = None \/ stop = Some 0).

(** What copy_user_cstring() makes of it in a buffer of [n + 1] bytes. *)
Definition copy_result (n : nat) (l : list Z) (stop : option Z) : Z * list Z :=
  if (n <=? length l)%nat then (- E2BIG, take n l ++ [0])
  else match stop with None => (- EFAULT, l) | Some _ => (0, l ++ [0]) end.

Lemma user_byte_read R r a s n :
  pt_inv (vm_pmm s) (ram s) R -> r ∈ R ->
  forall uva i out, u64 (uva + i) = a ->
  copy_user_loop r uva (S n) i out s =
  match user_byte (ram s) r a with
  | None => Done ((- EFAULT, out), s)
  | Some c => if c =? 0 then Done ((0, out ++ [c]), s)
              else copy_user_loop r uva n (i + 1) (out ++ [c]) s
  end.
Proof.
  intros Hinv Hr uva i out <-. cbn [copy_user_loop]. rewrite (bind_Done _ _ _ _ _ (lookup_ok R r _ s Hinv Hr)).
  unfold user_byte. destruct (_ =? 0); [done|]. destruct (_ <=? _); [done|]. cbn [orb].
  rewrite (bind_Done _ _ s (ram s (translate (ram s) r (u64 (uva + i)))) s); [|done].
  by destruct (_ =? 0).
Qed.

Lemma copy_user_loop_ok R r s n :
  pt_inv (vm_pmm s) (ram s) R -> r ∈ R ->
  forall uva i out l stop, user_string (ram s) r (uva + i) l stop ->
  copy_user_loop r uva n i out s =
  Done (let '(code, bytes) := copy_result n l stop in (code, out ++ bytes), s).
Proof.
  intros Hinv Hr. induction n as [|n IH]; intros uva i out l stop (Hl & Hs & Hstop); [done|].
  destruct l as [|c l].
  - cbn [length] in Hs. rewrite Z.add_0_r in Hs.
    rewrite (user_byte_read R r _ s n Hinv Hr uva i out eq_refl), Hs.
    destruct Hstop as [->| ->]; cbn; [by rewrite app_nil_r|done].
  - destruct (Hl O c eq_refl) as [H0 Hc]. rewrite Z.add_0_r in H0.
    rewrite (user_byte_read R r _ s n Hinv Hr uva i out eq_refl), H0.
    replace (c =? 0) with false by blia. rewrite (IH uva (i + 1) _ l stop).
    + unfold copy_result. cbn [length]. change (S n <=? S (length l))%nat with (n <=? length l)%nat.
      destruct (n <=? length l)%nat; [|destruct stop]; cbn [take]; by rewrite <- app_assoc.
    + split; [|split; [|done]].
      * intros k d Hk. replace (uva + (i + 1) + Z.of_nat k) with (uva + i + Z.of_nat (S k)) by lia.
        by apply Hl.
      * rewrite <- Hs. f_equal. f_equal. cbn [length]. lia.
Qed.

(** C36: copy_user_cstring() copies the user string with its terminator when it
    fits, truncates and terminates one that does not with -E2BIG, and stops with
    -EFAULT at the first byte that is not mapped below 4 GiB; it changes nothing. *)
Theorem copy_user_cstring_copies R r uva cap l stop s :
  pt_inv (vm_pmm s) (ram s) R -> r ∈ R -> 2 <= cap -> user_string (ram s) r uva l stop ->
  copy_user_cstring r uva false cap s = Done (copy_result (Z.to_nat (cap - 1)) l stop, s).
Proof.
  intros Hinv Hr Hcap Hl. unfold copy_user_cstring. replace (cap <? 2) with false by blia. cbn [orb].
  rewrite (copy_user_loop_ok R r s _ Hinv Hr uva 0 [] l stop) by by rewrite Z.add_0_r.
  by destruct (copy_result _ _ _).
Qed.

(** Bytes of a user range lie in plain frames: mapped below 4 GiB, outside the
    page tables, each address in a byte of its own. *)
Definition user_range (m : mem) (R : gset Z) (r dst : Z) (n : nat) : Prop :=
  (forall k, (k < n)%nat -> let pa := translate m r (u64 (dst + Z.of_nat k)) in
     0 < pa < 2^32 /\ (forall t, is_table m R t -> pa / 4096 <> t / 4096)) /\
  (forall j k, (j < n)%nat -> (k < n)%nat -> j <> k ->
     translate m r (u64 (dst + Z.of_nat j)) <> translate m r (u64 (dst + Z.of_nat k))).

(** Writing outside the tables changes no translation. *)
Section data_write.
Context {p : pmm} {m : mem} {R : gset Z} (Hinv : pt_inv p m R) (m' : mem).
Hypothesis Hsame : forall a t, is_table m R t -> a / 4096 = t / 4096 -> m' a = m a.

Lemma data_word r v l t i :
  r ∈ R -> reaches m r v l t -> 0 <= i < 512 -> load64 m' (t + 8 * i) = load64 m (t + 8 * i).
Proof.
  intros Hr Ht Hi. destruct (pt_table _ _ _ Hinv r v l t Hr Ht) as (Ha & _).
  apply load_le_ext. intros a Hrg. apply (Hsame a t); [by exists r, v, l|].
  by apply (word_in_page t i a).
Qed.
Lemma data_reaches r v l t : r ∈ R -> reaches m' r v l t <-> reaches m r v l t.
Proof.
  apply reaches_same. clear r v l t. intros r v l t Hr Ht. unfold entry.
  by eapply data_word, level_idx_range.
Qed.
Lemma data_translate r v : r ∈ R -> translate m' r v = translate m r v.
Proof.
  intros Hr. destruct (reached_dec (m := m) r v) as [[t Ht]|Hn].
  - rewrite (translate_reached _ _ _ Ht), (translate_reached (m := m') r v t) by by apply data_reaches.
    by rewrite (data_word r v 0 t (PT_IDX v) Hr Ht (PT_IDX_range v)).
  - rewrite !translate_not_reached; [done|done|]. intros t Ht%data_reaches; [|done]. by apply (Hn t).
Qed.
Lemma data_inv : mem_ok m' -> pt_inv p m' R.
Proof.
  intros Hok. split; [apply Hinv|done| |].
  - intros r v l t Hr Ht%data_reaches; [|done]. by eapply (pt_table _ _ _ Hinv).
  - intros r r' v v' l l' t Hr Hr' Ht%data_reaches Ht'%data_reaches; [|done..].
    by eapply (pt_unique _ _ _ Hinv).
Qed.
Lemma data_tables t : is_table m' R t <-> is_table m R t.
Proof. split; intros (r & v & l & Hr & Ht); exists r, v, l; (split; [done|]); by apply data_reaches. Qed.
End data_write.

Lemma wr8_ok E r va v s (Q : unit -> vm -> Prop) :
  let pa := translate (ram s) r va in
  0 < pa < 2^32 -> Q tt (set_ram (store8 (ram s) pa v) s) -> wp E (wr8 pa v) s Q.
Proof.
  intros pa Hpa HQ. unfold wr8. replace ((0 <? pa) && (pa <? 2^32)) with true; [by wp_step|].
  symmetry. apply andb_true_iff. split; apply Z.ltb_lt; lia.
Qed.

Lemma user_range_tail m R r dst n :
  user_range m R r dst (S n) -> user_range m R r (u64 (dst + 1)) n.
Proof.
  assert (forall k : nat, u64 (u64 (dst + 1) + Z.of_nat k) = u64 (dst + Z.of_nat (S k))) as Hs.
  { intros k. unfold u64. rewrite Zplus_mod_idemp_l. f_equal. lia. }
  intros [Ha Hd]. split.
  - intros k Hk. rewrite Hs. apply Ha. lia.
  - intros j k Hj Hk Hne. rewrite !Hs. apply Hd; lia.
Qed.

Lemma copy_to_user_ok R r src : forall dst s,
  pt_inv (vm_pmm s) (ram s) R -> r ∈ R -> 0 <= dst < 2^64 ->
  user_range (ram s) R r dst (length src) ->
  returns (vnl_copy_to_user_va r dst src) s (fun _ s' =>
    pt_inv (vm_pmm s') (ram s') R /\ vm_pmm s' = vm_pmm s /\
    (forall r' v, r' ∈ R -> translate (ram s') r' v = translate (ram s) r' v) /\
    (forall k b, src !! k = Some b -> ram s' (translate (ram s) r (u64 (dst + Z.of_nat k))) = u8 b) /\
    (forall a, (forall k, (k < length src)%nat -> a <> translate (ram s) r (u64 (dst + Z.of_nat k))) ->
       ram s' a = ram s a) /\
    (current_pml4 s' = current_pml4 s /\ cr3 s' = cr3 s)).
Proof.
  induction src as [|b src IH]; intros dst s Hinv Hr Hdst Hrg; cbn [vnl_copy_to_user_va].
  { wp_step. by split_and!. }
  wp_step. eapply wp_Done; [by apply (lookup_ok R)|].
  destruct (proj1 Hrg O) as [Hpa Hplain]; [simpl; lia|]. cbn zeta in Hpa, Hplain.
  rewrite Z.add_0_r, (u64_small dst) in Hpa, Hplain by done.
  set (pa := translate (ram s) r dst) in *. replace (pa =? 0) with false by blia.
  wp_step. apply wr8_ok; [done|]. fold pa. set (s1 := set_ram _ s).
  assert (forall a t, is_table (ram s) R t -> a / 4096 = t / 4096 -> ram s1 a = ram s a) as Hsame.
  { intros a t Ht Heq. cbn. rewrite store8_at. destruct (Z.eqb_spec a pa) as [->|]; [|done].
    by destruct (Hplain t Ht). }
  assert (mem_ok (ram s1)) as Hok by apply mem_ok_store8, Hinv.
  pose proof (data_inv Hinv _ Hsame Hok) as Hinv1.
  pose proof (data_translate Hinv _ Hsame) as Htr.
  assert (user_range (ram s1) R r (u64 (dst + 1)) (length src)) as Hrg1.
  { apply user_range_tail. destruct Hrg as [Hu Hd]. split.
    - intros k Hk. cbn zeta. rewrite Htr by done. destruct (Hu k Hk) as [? Hn]. split; [done|].
      intros t Ht%(data_tables Hinv _ Hsame). by apply Hn.
    - intros j k Hj Hk Hne. rewrite !Htr by done. by apply Hd. }
  assert (forall k : nat, u64 (u64 (dst + 1) + Z.of_nat k) = u64 (dst + Z.of_nat (S k))) as Hsh.
  { intros k. unfold u64. rewrite Zplus_mod_idemp_l. f_equal. lia. }
  eapply wp_mono; [apply (IH _ s1 Hinv1 Hr (u64_range _) Hrg1)|].
  intros _ s2 (Hi2 & Hp2 & Htr2 & Hk2 & Ho2 & Hr2). split_and!; [done|done| | | |apply Hr2..].
  - intros r' v Hr'. by rewrite Htr2, Htr.
  - intros [|k] d Hd; simpl in Hd.
    + injection Hd as <-. rewrite Z.add_0_r, u64_small by done. fold pa. rewrite Ho2.
      * cbn. by rewrite store8_at, Z.eqb_refl.
      * intros k Hk. rewrite Htr, Hsh by done.
        pose proof (proj2 Hrg O (S k) ltac:(simpl; lia) ltac:(simpl; lia) ltac:(lia)) as Hne.
        by rewrite Z.add_0_r, (u64_small dst) in Hne.
    + rewrite <- Hsh, <- Htr by done. by apply Hk2.
  - intros a Ha. rewrite Ho2.
    + cbn. rewrite store8_at. destruct (Z.eqb_spec a pa) as [->|]; [|done].
      destruct (Ha O); [simpl; lia|]. by rewrite Z.add_0_r, u64_small.
    + intros k Hk. rewrite Htr, Hsh by done. apply Ha. simpl. lia.
Qed.

(** A string the kernel copies into mapped user memory is the string the
    kernel reads back from there. *)
Theorem user_copy_roundtrip R r dst l cap s :
  pt_inv (vm_pmm s) (ram s) R -> r ∈ R -> 0 <= dst < 2^64 ->
  Forall (fun c => 0 < c < 256) l -> Z.of_nat (length l) + 1 < cap ->
  user_range (ram s) R r dst (length l + 1) ->
  exists s', vnl_copy_to_user_va r dst (l ++ [0]) s = Done (tt, s') /\
    copy_user_cstring r dst false cap s' = Done ((0, l ++ [0]), s').
Proof.
  intros Hinv Hr Hdst Hl Hcap Hrg.
  assert ((length l + 1)%nat = length (l ++ [0])) as Hlen by (by rewrite length_app).
  rewrite Hlen in Hrg.
  destruct (returns_inv _ _ _ (copy_to_user_ok R r (l ++ [0]) dst s Hinv Hr Hdst Hrg))
    as ([] & s' & Hs & Hi & _ & Htr & Hk & _ & _).
  exists s'. split; [done|].
  assert (forall k b, (l ++ [0]) !! k = Some b -> 0 <= b < 256 ->
    user_byte (ram s') r (u64 (dst + Z.of_nat k)) = Some b) as Hub.
  { intros k b Hb Hbr. unfold user_byte. rewrite Htr by done.
    destruct (proj1 Hrg k) as [Hpa _]; [by apply lookup_lt_Some in Hb|]. cbn zeta in Hpa.
    replace (_ || _) with false by (symmetry; apply orb_false_iff; split; [blia|apply Z.leb_gt; lia]).
    by rewrite (Hk k b Hb), u8_small by done. }
  unfold copy_user_cstring. replace (cap <? 2) with false by (symmetry; apply Z.ltb_ge; lia). cbn [orb].
  rewrite (copy_user_loop_ok R r s' _ Hi Hr dst 0 [] l (Some 0)).
  - unfold copy_result. by replace (_ <=? _)%nat with false by (symmetry; apply Nat.leb_gt; lia).
  - rewrite Z.add_0_r. split; [|split; [|by right]].
    + intros k c Hc. pose proof (Forall_lookup_1 _ _ _ _ Hl Hc) as Hcr. cbn in Hcr.
      split; [|lia]. apply Hub; [by apply lookup_app_l_Some|lia].
    + apply Hub; [|lia]. rewrite lookup_app_r by lia. by rewrite Nat.sub_diag.
Qed.

(** ** Witnesses *)

(** Sixteen frames: frame 1 holds an empty root, frames 4 to 9 are free. *)
Definition vm_pmm_sample : pmm := foldr (fun f p => mark_free p f) (Pmm (fun _ => 0xFF) 16 0) [4; 5; 6; 7; 8; 9].
Definition vm_sample : vm := Vm vm_pmm_sample (fun _ => 0) 0x1000 0x1000.

Lemma vm_pmm_sample_wf : pmm_wf vm_pmm_sample.
Proof.
  unfold vm_pmm_sample. cbn [foldr].
  repeat (apply mark_free_wf; [|cbn; lia|by vm_compute]). by apply all_used_wf.
Qed.

Lemma empty_reaches r v l t : reaches (fun _ => 0) r v l t -> l = 3%nat /\ t = r.
Proof. induction 1 as [|l t H [_ _] Hl]; [done|]. discriminate Hl. Qed.

Lemma vm_sample_inv : pt_inv (vm_pmm vm_sample) (ram vm_sample) {[0x1000]}.
Proof.
  split; [apply vm_pmm_sample_wf|intros a; cbn; lia| |].
  - intros r v l t ->%elem_of_singleton [_ ->]%empty_reaches. split_and!; [done..|by vm_compute].
  - intros r r' v v' l l' t ->%elem_of_singleton ->%elem_of_singleton [-> ->]%empty_reaches
      [-> _]%empty_reaches. split_and!; [done|intros k Hk; lia|by left].
Qed.
Lemma vm_sample_root : 0x1000 ∈@{gset Z} {[0x1000]}.
Proof. by apply elem_of_singleton. Qed.
Lemma vm_sample_no_huge r v : no_huge (ram vm_sample) r v.
Proof. intros l t [[= ->] ->]%empty_reaches. done. Qed.

Definition is_done {A} (o : outcome A) : bool := match o with Done _ => true | _ => false end.

Lemma vmm_map_in_pml4_maps_witness :
  is_done (vmm_map_in_pml4 0x1000 0x400000 0x9000 7 vm_sample) = true /\
  safe (vmm_map_in_pml4 0x1000 0x400000 0x9000 7) vm_sample (fun _ s' =>
    translate (ram s') 0x1000 0x400123 = 0x9123 /\ translate (ram s') 0x1000 0x401123 = 0).
Proof.
  split; [by vm_compute|].
  refine (wp_mono _ _ _ _ _ (vmm_map_in_pml4_maps {[0x1000]} 0x1000 0x400000 0x9000 7 vm_sample
    vm_sample_inv vm_sample_root (vm_sample_no_huge _ _) _ _ _) _); [by vm_compute..|].
  intros _ s' (_ & Ht & _). split; rewrite Ht; by vm_compute.
Defined.

Lemma uspace_create_isolates_witness :
  is_done (uspace_create_pml4 vm_sample) = true /\
  returns uspace_create_pml4 vm_sample (fun r s' => r = 0 \/ translate (ram s') r HEAP_BASE = 0).
Proof.
  split; [by vm_compute|].
  refine (wp_mono _ _ _ _ _ (uspace_create_isolates {[0x1000]} vm_sample vm_sample_inv vm_sample_root) _).
  intros r s' [[-> _]|(_ & _ & _ & Hh & _)]; [by left|right]. apply Hh. unfold heap_va. lia.
Defined.

Lemma user_directories_lack_user_flag_witness :
  safe (r ← uspace_create_pml4;
        if r =? 0 then mret 0 else vmm_map_in_pml4 r 0x400000 0x9000 7;; mret r) vm_sample
    (fun r s' => r <> 0 -> translate (ram s') r 0x400010 = 0x9010 \/ translate (ram s') r 0x400000 = 0x9000).
Proof.
  refine (wp_mono _ _ _ _ _ (user_directories_lack_user_flag {[0x1000]} vm_sample 0x400000 0x9000 7
    vm_sample_inv vm_sample_root _ _ _ _) _); [by vm_compute..|].
  intros r s' H Hr. right. apply (H Hr).
Defined.

Lemma vmm_unmap_range_unmaps_witness :
  returns (vmm_unmap_range_pml4 5 0x1000 0x400010 0x1000) vm_sample (fun _ s' =>
    translate (ram s') 0x1000 0x401234 = 0).
Proof.
  refine (wp_mono _ _ _ _ _ (vmm_unmap_range_unmaps {[0x1000]} 0x1000 0x400010 0x1000 5 vm_sample
    vm_sample_inv vm_sample_root _ _ _ _) _); [lia|lia|lia|by vm_compute|].
  intros _ s' (_ & _ & Ht & _). rewrite Ht by lia. by vm_compute.
Defined.

Lemma vmm_unmap_range_never_ends_witness :
  vmm_unmap_range_pml4 100 0x1000 0xFFFFFFFFFFFFF000 0xFFF vm_sample <> Done (tt, vm_sample).
Proof. apply vmm_unmap_range_never_ends; by vm_compute. Defined.

(** A space with one page at 0x400000 backed by frame 10. *)
Definition vm_mapped_sample : vm :=
  match vmm_map_in_pml4 0x1000 0x400000 0xA000 7 vm_sample with Done (_, s) => s | _ => vm_sample end.

Lemma vm_mapped_sample_ok :
  vm_mapped {[0x1000]} 0x1000 0x400000 (pte_value 0xA000 7) vm_sample vm_mapped_sample.
Proof.
  pose proof (map_in_pml4_ok {[0x1000]} 0x1000 0x400000 0xA000 7 vm_sample vm_sample_inv
    vm_sample_root (vm_sample_no_huge _ _) ltac:(lia) ltac:(lia)) as H.
  assert (is_done (vmm_map_in_pml4 0x1000 0x400000 0xA000 7 vm_sample) = true) as Hd by by vm_compute.
  unfold vm_mapped_sample, wp in *. by destruct (vmm_map_in_pml4 _ _ _ _ _) as [[]| | | |].
Qed.

Lemma vm_mapped_sample_page k :
  (k < 16)%nat -> translate (ram vm_mapped_sample) 0x1000 (u64 (0x400000 + Z.of_nat k)) = 0xA000 + Z.of_nat k.
Proof.
  intros Hk. rewrite u64_small by lia. rewrite (vma_page _ _ _ _ _ _ vm_mapped_sample_ok).
  replace (_ =? _) with true by (symmetry; apply Z.eqb_eq; unfold vpn; f_equal; zlia).
  rewrite entry_phys_value by (by vm_compute). zlia.
Qed.

Lemma vm_mapped_sample_range n : (n <= 16)%nat -> user_range (ram vm_mapped_sample) {[0x1000]} 0x1000 0x400000 n.
Proof.
  intros Hn. split.
  - intros k Hk. cbn zeta. rewrite vm_mapped_sample_page by lia. split; [lia|].
    intros t [Ht|[_ Ht]]%(vs_tables _ _ _ (vma_step _ _ _ _ _ _ vm_mapped_sample_ok)).
    + destruct Ht as (r & v & l & ->%elem_of_singleton & [_ ->]%empty_reaches). zlia.
    + intros Heq. rewrite <- Heq in Ht. replace ((0xA000 + Z.of_nat k) / 4096) with 10 in Ht by zlia.
      by vm_compute in Ht.
  - intros j k Hj Hk Hne. rewrite !vm_mapped_sample_page by lia. lia.
Qed.

Lemma user_copy_roundtrip_witness :
  exists s', vnl_copy_to_user_va 0x1000 0x400000 [104; 105; 0] vm_mapped_sample = Done (tt, s') /\
    copy_user_cstring 0x1000 0x400000 false 64 s' = Done ((0, [104; 105; 0]), s').
Proof.
  refine (user_copy_roundtrip {[0x1000]} 0x1000 0x400000 [104; 105] 64 vm_mapped_sample
    (vma_inv _ _ _ _ _ _ vm_mapped_sample_ok) vm_sample_root _ _ _ _).
  - lia.
  - repeat constructor.
  - by vm_compute.
  - apply vm_mapped_sample_range. simpl. lia.
Defined.

Lemma copy_user_cstring_copies_witness :
  copy_user_cstring 0x1000 0x400000 false 64 vm_mapped_sample = Done ((0, [0]), vm_mapped_sample) /\
  copy_user_cstring 0x1000 0x500000 false 64 vm_mapped_sample = Done ((- EFAULT, []), vm_mapped_sample).
Proof.
  split.
  - refine (copy_user_cstring_copies {[0x1000]} 0x1000 0x400000 64 [] (Some 0) vm_mapped_sample
      (vma_inv _ _ _ _ _ _ vm_mapped_sample_ok) vm_sample_root _ _); [lia|].
    split; [done|split; [by vm_compute|by right]].
  - refine (copy_user_cstring_copies {[0x1000]} 0x1000 0x500000 64 [] None vm_mapped_sample
      (vma_inv _ _ _ _ _ _ vm_mapped_sample_ok) vm_sample_root _ _); [lia|].
    split; [done|split; [by vm_compute|by left]].
Defined.

(** The lookup in the kernel's own tables and the lookup that takes a root
    agree, and both only read: they give the address the page tables encode. *)
Theorem vmm_lookups_agree R v s :
  pt_inv (vm_pmm s) (ram s) R -> current_pml4 s ∈ R ->
  vmm_get_phys v s = Done (translate (ram s) (current_pml4 s) v, s) /\
  vmm_lookup_phys_pml4 (current_pml4 s) v s = Done (translate (ram s) (current_pml4 s) v, s).
Proof.
  intros Hinv Hr. split; [|by apply (lookup_ok R)]. unfold vmm_get_phys, vmm_get_pte, vmm_get_pte_pml4_phys.
  rewrite (bind_Done _ _ s (current_pml4 s) s) by done.
  rewrite (bind_Done _ _ _ _ _ (walk_lookup_ok R _ v s 3 _ Hinv Hr (reach_root _ _ _))).
  unfold translate, pte_of. destruct (descend (ram s) 3 (current_pml4 s) v) as [t|] eqn:Hd; [|done].
  assert (reaches (ram s) (current_pml4 s) v 0 t) as Ht by (eapply descend_reaches; [constructor|done]).
  pose proof (pt_table _ _ _ Hinv _ _ _ _ Hr Ht) as Htab. pose proof (PT_IDX_range v).
  rewrite nonzero_pos by (destruct Htab as (_ & ? & _); lia). cbn [negb].
  unfold pte_phys. rewrite (bind_Done _ _ s (load64 (ram s) (t + 8 * PT_IDX v)) s); [done|].
  unfold rd64. rewrite (bind_Done _ _ s s s) by done. by rewrite (table_in_ram _ _ _ Htab).
Qed.

Lemma vmm_lookups_agree_witness :
  vmm_get_phys 0x400008 vm_sample = Done (0, vm_sample).
Proof.
  destruct (vmm_lookups_agree {[0x1000]} 0x400008 vm_sample vm_sample_inv vm_sample_root) as [H _].
  rewrite H. f_equal.
Defined.
