(* ===== verification/UserSpace.v ===== *)
(** * Pages of a user address space
    (src/src/kernel/elf_load.c, kernel/syscall.c, kernel/user_task.c)

    The loader, the program break, anonymous mappings and user stacks all give
    an address space fresh frames page by page. [space] says that a set of
    pages is backed by frames of their own; [space_step] what adding pages and
    writing to them leaves alone. *)

From S2P Require Import Prelude Pmm Mem Strings Vmm.

(** ** The common step *)

Definition USER_PAGE : Z := Z.lor (Z.lor VMM_FLAG_PRESENT VMM_FLAG_WRITE) VMM_FLAG_USER.

(** pmm_alloc(), memset() where the code has it, vmm_map_in_pml4(); false when
    there is no frame. *)
Definition map_user_page (clear : bool) (pml4 va : Z) : M vm bool :=
  pg ← zoom pmm_alloc;
  if pg =? 0 then mret false
  else
    (if clear then modify (fun s => set_ram (memset (ram s) pg 0 (Z.to_nat PAGE_SIZE)) s) else mret tt);;
    vmm_map_in_pml4 pml4 va pg USER_PAGE;;
    mret true.

(** The loop over [n] pages from [v0]; it stops at the first page without frame. *)
Fixpoint map_user_pages (clear : bool) (pml4 : Z) (n : nat) (va : Z) : M vm bool :=
  match n with
  | O => mret true
  | S n' =>
      ok ← map_user_page clear pml4 (u64 va);
      if ok : bool then map_user_pages clear pml4 n' (va + PAGE_SIZE) else mret false
  end.

(** ** Addresses of user programs *)

Definition user_va (v : Z) : Prop := 0 <= v < 2^47.
Definition user_no_huge (m : mem) (r : Z) : Prop := forall v, user_va v -> no_huge m r v.

Lemma user_va_slot v : user_va v -> PML4_IDX v <> 511.
Proof. unfold user_va, PML4_IDX. intros. rewrite land_mask_9 by lia. zlia. Qed.
Lemma user_vpn v : user_va v -> vpn v = v / 4096.
Proof. intros [? ?]. apply vpn_small. lia. Qed.

(** The [n] pages from page number [p] on. *)
Definition page_set (p : Z) (n : nat) : gset Z := list_to_set (seqZ p (Z.of_nat n)).
Lemma elem_page_set p n x : x ∈ page_set p n <-> p <= x < p + Z.of_nat n.
Proof. unfold page_set. by rewrite elem_of_list_to_set, elem_of_seqZ. Qed.

(** ** Pages with frames of their own *)

Record page_ok (R : gset Z) (r : Z) (s : vm) (v : Z) : Prop := {
  po_range : 0 < translate (ram s) r v < 2^32;
  po_offset : translate (ram s) r v mod 4096 = v mod 4096;
  po_used : frame_free (vm_pmm s) (translate (ram s) r v / 4096) = false;
  po_plain : forall t, is_table (ram s) R t -> translate (ram s) r v / 4096 <> t / 4096
}.

(** The pages [W] of address space [r]. *)
Record space (R : gset Z) (r : Z) (W : gset Z) (s : vm) : Prop := {
  sp_inv : pt_inv (vm_pmm s) (ram s) R;
  sp_root : r ∈ R;
  sp_page : forall v, vpn v ∈ W -> page_ok R r s v;
  sp_inj : forall v w, vpn v ∈ W -> vpn w ∈ W ->
    translate (ram s) r v / 4096 = translate (ram s) r w / 4096 -> vpn v = vpn w
}.

Definition owned (r : Z) (W : gset Z) (s : vm) (f : Z) : Prop :=
  exists v, vpn v ∈ W /\ translate (ram s) r v / 4096 = f.

(** From pages [W] to pages [W'] of space [r]: frames in use stay in use, the
    other address spaces and the other pages keep their translations, and
    memory in use that is neither a page table nor a page of the space keeps
    its contents. *)
Record space_step (R : gset Z) (r : Z) (W W' : gset Z) (s s' : vm) : Prop := {
  ss_sub : W ⊆ W';
  ss_regs : current_pml4 s' = current_pml4 s /\ cr3 s' = cr3 s;
  ss_used : forall f, 0 <= f -> frame_free (vm_pmm s) f = false -> frame_free (vm_pmm s') f = false;
  ss_tables : forall t, is_table (ram s') R t ->
    is_table (ram s) R t \/ (0 <= t /\ frame_free (vm_pmm s) (t / 4096) = true);
  ss_path : forall P q v, stable_entry P -> q ∈ R ->
    path_entries P (ram s) q v -> path_entries P (ram s') q v;
  ss_other : forall q v, q ∈ R -> q <> r -> PML4_IDX v <> 511 ->
    translate (ram s') q v = translate (ram s) q v;
  ss_keep : forall v, vpn v ∉ W' -> translate (ram s') r v = translate (ram s) r v;
  ss_owned : forall f, owned r W' s' f -> owned r W s f \/ (0 <= f /\ frame_free (vm_pmm s) f = true);
  ss_mem : forall a, 0 <= a -> frame_free (vm_pmm s) (a / 4096) = false ->
    (forall t, is_table (ram s) R t -> a / 4096 <> t / 4096) -> ~ owned r W s (a / 4096) ->
    ram s' a = ram s a
}.

Lemma space_step_refl R r W s : space_step R r W W s s.
Proof. split; auto. Qed.

Lemma space_step_trans R r W1 W2 W3 s1 s2 s3 :
  space_step R r W1 W2 s1 s2 -> space_step R r W2 W3 s2 s3 -> space_step R r W1 W3 s1 s3.
Proof.
  intros H1 H2. split.
  - etrans; [apply H1|apply H2].
  - destruct (ss_regs _ _ _ _ _ _ H1), (ss_regs _ _ _ _ _ _ H2). split; congruence.
  - intros f Hf Hu. by apply (ss_used _ _ _ _ _ _ H2), (ss_used _ _ _ _ _ _ H1).
  - intros t [Ht|[Hpos Ht]]%(ss_tables _ _ _ _ _ _ H2); [by apply (ss_tables _ _ _ _ _ _ H1)|right].
    split; [done|]. destruct (frame_free (vm_pmm s1) (t / 4096)) eqn:Hf; [done|].
    rewrite (ss_used _ _ _ _ _ _ H1) in Ht; [done| |done]. zlia.
  - intros P q v HP Hq Hp. apply (ss_path _ _ _ _ _ _ H2); [done..|]. by apply (ss_path _ _ _ _ _ _ H1).
  - intros q v Hq Hne Hs. by rewrite (ss_other _ _ _ _ _ _ H2), (ss_other _ _ _ _ _ _ H1).
  - intros v Hv. rewrite (ss_keep _ _ _ _ _ _ H2) by done. apply (ss_keep _ _ _ _ _ _ H1).
    intros Hin. apply Hv. by apply (ss_sub _ _ _ _ _ _ H2).
  - intros f [Ho|[Hp Hff]]%(ss_owned _ _ _ _ _ _ H2); [by apply (ss_owned _ _ _ _ _ _ H1)|right].
    split; [done|]. destruct (frame_free (vm_pmm s1) f) eqn:Hu; [done|].
    by rewrite (ss_used _ _ _ _ _ _ H1) in Hff.
  - intros a Ha Hu Hn Ho. rewrite (ss_mem _ _ _ _ _ _ H2), (ss_mem _ _ _ _ _ _ H1); [done..| | |].
    + apply (ss_used _ _ _ _ _ _ H1); [zlia|done].
    + intros t [Ht|[Hpos Ht]]%(ss_tables _ _ _ _ _ _ H1); [by apply Hn|].
      intros Heq. rewrite <- Heq in Ht. congruence.
    + intros [Ho'|[_ Hf]]%(ss_owned _ _ _ _ _ _ H1); [done|congruence].
Qed.

Lemma no_huge_space R r W W' s s' q :
  space_step R r W W' s s' -> q ∈ R -> user_no_huge (ram s) q -> user_no_huge (ram s') q.
Proof.
  intros Hst Hq Hn v Hv. apply (ss_path _ _ _ _ _ _ Hst _ q v no_huge_stable Hq). by apply Hn.
Qed.

(** A byte of a page of the space is readable. *)
Lemma space_byte R r W s v : space R r W s -> vpn v ∈ W -> user_byte (ram s) r v = Some (ram s (translate (ram s) r v)).
Proof.
  intros Hs Hv. destruct (po_range _ _ _ _ (sp_page _ _ _ _ Hs v Hv)). unfold user_byte.
  replace (_ || _) with false; [done|]. symmetry. apply orb_false_iff. split; [apply Z.eqb_neq|apply Z.leb_gt]; lia.
Qed.

(** The empty set of pages. *)
Lemma space_empty R r s : pt_inv (vm_pmm s) (ram s) R -> r ∈ R -> space R r ∅ s.
Proof. intros. split; [done|done|intros v; set_solver..]. Qed.

(** ** One page more *)

Section add.
Context {R : gset Z} {r va : Z} {W : gset Z} {s : vm} (Hs : space R r W s).
Context (f : Z) (p' : pmm) (Hal : allocated (vm_pmm s) f p') (m1 : mem).
Hypothesis Hm1 : forall a, a / 4096 <> f / 4096 -> m1 a = ram s a.
Context (s2 : vm).
Let s1 : vm := Vm p' m1 (current_pml4 s) (cr3 s).
Hypothesis Hmap : vm_mapped R r va (pte_value f USER_PAGE) s1 s2.

Lemma add_frame : table_ok p' f /\ frame_free (vm_pmm s) (f / 4096) = true.
Proof. destruct (allocated_page _ _ _ (pt_pmm _ _ _ (sp_inv _ _ _ _ Hs)) Hal) as (? & ? & _). done. Qed.

Lemma add_ext : vm_ext R s s1.
Proof. apply (fresh_ext R s f p' m1); [apply Hs|done..]. Qed.
Lemma add_step : vm_step R s s2.
Proof. etrans; [apply (ve_step _ _ _ add_ext)|apply (vma_step _ _ _ _ _ _ Hmap)]. Qed.

Lemma add_new v : vpn v = vpn va -> translate (ram s2) r v = f + v mod 4096.
Proof.
  intros Hv. rewrite (vma_page _ _ _ _ _ _ Hmap), Hv, Z.eqb_refl.
  destruct add_frame as [(Ha & Hr & _) _]. by apply entry_phys_value; [lia|..].
Qed.
Lemma add_old v : vpn v <> vpn va -> translate (ram s2) r v = translate (ram s) r v.
Proof.
  intros Hv%Z.eqb_neq. rewrite (vma_page _ _ _ _ _ _ Hmap), Hv. apply (ve_translate _ _ _ add_ext), Hs.
Qed.
Lemma add_new_frame v : vpn v = vpn va -> translate (ram s2) r v / 4096 = f / 4096.
Proof. intros Hv. rewrite add_new by done. destruct add_frame as [(Ha & _) _]. zlia. Qed.

Lemma add_page_ok v : vpn v ∈ {[vpn va]} ∪ W -> page_ok R r s2 v.
Proof.
  destruct add_frame as [(Ha & Hr & Hu) Hff]. intros Hv. destruct (decide (vpn v = vpn va)) as [He|Hne].
  - split; rewrite ?(add_new_frame v He), ?(add_new v He); [zlia|zlia| |].
    + apply (vs_used _ _ _ (vma_step _ _ _ _ _ _ Hmap)); [zlia|done].
    + intros t [(q & w & l & Hq & Ht)|[_ Ht]]%(vs_tables _ _ _ (vma_step _ _ _ _ _ _ Hmap)) Heq.
      * apply (fresh_reaches R s f p' m1 (sp_inv _ _ _ _ Hs) Hal Hm1) in Ht; [|done].
        by apply (fresh_not_table R s f p' (sp_inv _ _ _ _ Hs) Hal q w l t Hq Ht).
      * cbn [s1 vm_pmm] in Ht. congruence.
  - assert (vpn v ∈ W) as Hw by set_solver. destruct (sp_page _ _ _ _ Hs v Hw) as [Hpr Hpo Hpu Hpp].
    split; rewrite ?(add_old v Hne); [done|done| |].
    + apply (vs_used _ _ _ add_step); [zlia|done].
    + intros t [Ht|[_ Ht]]%(vs_tables _ _ _ add_step); [by apply Hpp|congruence].
Qed.

Lemma add_space : space R r ({[vpn va]} ∪ W) s2.
Proof.
  destruct add_frame as [_ Hff]. split; [apply Hmap|apply Hs|apply add_page_ok|]. intros v w Hv Hw Heq.
  destruct (decide (vpn v = vpn va)) as [Ev|Ev], (decide (vpn w = vpn va)) as [Ew|Ew]; [congruence|exfalso..|].
  - rewrite (add_new_frame v Ev), (add_old w Ew) in Heq.
    assert (vpn w ∈ W) as Hin by set_solver. pose proof (po_used _ _ _ _ (sp_page _ _ _ _ Hs w Hin)). congruence.
  - rewrite (add_new_frame w Ew), (add_old v Ev) in Heq.
    assert (vpn v ∈ W) as Hin by set_solver. pose proof (po_used _ _ _ _ (sp_page _ _ _ _ Hs v Hin)). congruence.
  - rewrite (add_old v Ev), (add_old w Ew) in Heq. apply (sp_inj _ _ _ _ Hs); set_solver.
Qed.

Lemma add_space_step : space_step R r W ({[vpn va]} ∪ W) s s2.
Proof.
  destruct add_frame as [(Ha & Hr & Hu) Hff]. pose proof add_step as [? ? ? ? ? ? Hmem]. split; try done.
  - set_solver.
  - intros q v Hq Hne Hsl. rewrite (vma_other _ _ _ _ _ _ Hmap) by done. by apply (ve_translate _ _ _ add_ext).
  - intros v Hv. apply add_old. set_solver.
  - intros g (v & Hv & <-). destruct (decide (vpn v = vpn va)) as [Ev|Ev].
    + right. rewrite (add_new_frame v Ev). split; [zlia|done].
    + left. exists v. rewrite (add_old v Ev). set_solver.
  - intros a Hpos Hua Hn _. by apply Hmem.
Qed.

(** The pages there were keep their contents; the new page has its frame's. *)
Lemma add_byte v : vpn v ∈ {[vpn va]} ∪ W ->
  user_byte (ram s2) r v = if decide (vpn v = vpn va) then Some (m1 (f + v mod 4096)) else user_byte (ram s) r v.
Proof.
  intros Hv. destruct add_frame as [(Ha & Hr & Hu) Hff]. rewrite (space_byte R r _ s2 v add_space Hv). case_decide as Ev.
  - rewrite (add_new v Ev). f_equal. pose proof (add_page_ok v Hv) as [_ _ _ Hp]. rewrite (add_new_frame v Ev) in Hp.
    assert ((f + v mod 4096) / 4096 = f / 4096) as Hfr by zlia.
    apply (vs_mem _ _ _ (vma_step _ _ _ _ _ _ Hmap)); [zlia|by rewrite Hfr|].
    intros t (q & w & l & Hq & Ht) Heq. rewrite Hfr in Heq.
    apply (fresh_reaches R s f p' m1 (sp_inv _ _ _ _ Hs) Hal Hm1) in Ht; [|done].
    by apply (fresh_not_table R s f p' (sp_inv _ _ _ _ Hs) Hal q w l t Hq Ht).
  - assert (vpn v ∈ W) as Hw by set_solver. destruct (sp_page _ _ _ _ Hs v Hw) as [Hpr Hpo Hpu Hpp].
    rewrite (space_byte R r W s v Hs Hw), (add_old v Ev). f_equal.
    by apply (vs_mem _ _ _ add_step); [lia|..].
Qed.
End add.

Definition out_of_frames (s : vm) : Prop := forall g, 0 <= g < MAX_FRAMES -> frame_free (vm_pmm s) g = false.

Lemma map_user_page_ok R r W s clear va :
  space R r W s -> user_va va -> user_no_huge (ram s) r ->
  safe (map_user_page clear r va) s (fun ok s' =>
    if ok : bool then
      space R r ({[vpn va]} ∪ W) s' /\ space_step R r W ({[vpn va]} ∪ W) s s' /\
      (forall v, vpn v ∈ W -> vpn v <> vpn va -> user_byte (ram s') r v = user_byte (ram s) r v) /\
      (forall v, vpn v = vpn va -> clear = true -> user_byte (ram s') r v = Some 0)
    else s' = s /\ out_of_frames s).
Proof.
  intros Hs Hva Hnh. unfold map_user_page. wp_step. apply wp_zoom. apply wp_pmm_alloc; [apply Hs| |].
  { intros Hall. change (0 =? 0) with true. cbn iota. wp_step. by destruct s. }
  intros f p' _ Hal. destruct (add_frame Hs f p' Hal) as [(Hfa & Hfr & _) _].
  replace (f =? 0) with false by blia.
  set (m1 := if clear then memset (ram s) f 0 (Z.to_nat PAGE_SIZE) else ram s).
  assert (forall a, m1 a = if decide (a / 4096 = f / 4096) then if clear then 0 else ram s a else ram s a) as Hm1.
  { intros a. unfold m1. destruct clear; [by rewrite memset_page|by case_decide]. }
  assert (mem_ok m1) as Hok.
  { intros a. rewrite Hm1. pose proof (pt_mem _ _ _ (sp_inv _ _ _ _ Hs) a). case_decide; [destruct clear|]; lia. }
  assert (forall a, a / 4096 <> f / 4096 -> m1 a = ram s a) as Hother by (intros a Ha; rewrite Hm1; by case_decide).
  wp_step. eapply (wp_Done _ _ _ tt (Vm p' m1 (current_pml4 s) (cr3 s))); [unfold m1; by destruct clear|].
  wp_step. pose proof (fresh_inv R s f p' m1 (sp_inv _ _ _ _ Hs) Hal Hother Hok) as Hinv1.
  pose proof (add_ext Hs f p' Hal m1 Hother) as Hext.
  eapply wp_mono; [apply (map_in_pml4_ok R r va f USER_PAGE); [done|apply Hs| |lia|done]|].
  { eapply no_huge_step; [apply Hext|apply Hs|by apply Hnh]. }
  intros [] s2 Hmap. cbn beta in Hmap. wp_step.
  split; [by apply (add_space Hs f p' Hal m1 Hother s2)|split; [by apply (add_space_step Hs f p' Hal m1 Hother s2)|split]].
  - intros v Hv Hne. rewrite (add_byte Hs f p' Hal m1 Hother s2 Hmap v) by set_solver. by case_decide.
  - intros v Hv ->. rewrite (add_byte Hs f p' Hal m1 Hother s2 Hmap v) by set_solver. case_decide; [|done].
    rewrite Hm1. case_decide as Hd; [done|]. destruct Hd. clear -Hfa. zlia.
Qed.

(** The addresses of [n] pages from [va] on. *)
Definition in_range (va : Z) (n : nat) (v : Z) : Prop := va <= v < va + 4096 * Z.of_nat n.

Lemma in_range_page va n v : va mod 4096 = 0 -> user_va v -> vpn v ∈ page_set (va / 4096) n <-> in_range va n v.
Proof. intros Ha Hv. rewrite elem_page_set, user_vpn by done. unfold in_range. zlia. Qed.

(** What the loop does: [k] pages were added. *)
Record added (R : gset Z) (r va : Z) (n : nat) (clear : bool) (W : gset Z) (s : vm) (ok : bool) (k : nat) (s' : vm) : Prop := {
  ad_count : if ok then k = n else (k < n)%nat /\ out_of_frames s';
  ad_space : space R r (page_set (va / 4096) k ∪ W) s';
  ad_step : space_step R r W (page_set (va / 4096) k ∪ W) s s';
  ad_new : clear = true -> forall v, user_va v -> in_range va k v -> user_byte (ram s') r v = Some 0;
  ad_old : forall v, user_va v -> vpn v ∈ W -> ~ in_range va k v -> user_byte (ram s') r v = user_byte (ram s) r v
}.

Lemma page_set_S p n : page_set p (S n) = {[p]} ∪ page_set (p + 1) n.
Proof. apply set_eq. intros x. rewrite elem_of_union, elem_of_singleton, !elem_page_set. lia. Qed.

Lemma map_user_pages_ok R r clear n : forall va W s,
  space R r W s -> user_no_huge (ram s) r -> va mod 4096 = 0 -> 0 <= va -> va + 4096 * Z.of_nat n <= 2^47 ->
  safe (map_user_pages clear r n va) s (fun ok s' => exists k, added R r va n clear W s ok k s').
Proof.
  induction n as [|n IH]; intros va W s Hs Hnh Ha H0 Hend; cbn [map_user_pages].
  { wp_step. exists O. assert (page_set (va / 4096) 0 = ∅) as He by done.
    split; rewrite ?He, ?(left_id_L ∅ (∪)); [done|done|apply space_step_refl|unfold in_range; intros; lia|done]. }
  rewrite u64_small by lia. assert (user_va va) as Hva by (unfold user_va; lia).
  wp_step. eapply wp_mono; [by apply (map_user_page_ok R r W s clear va)|].
  intros [|] s1; cbn beta iota.
  2: { intros [-> Hout]. wp_step. exists O. assert (page_set (va / 4096) 0 = ∅) as He by done.
       split; rewrite ?He, ?(left_id_L ∅ (∪)); [split; [lia|done]|done|apply space_step_refl|unfold in_range; intros; lia|done]. }
  intros (Hs1 & Hst1 & Hold1 & Hnew1). unfold PAGE_SIZE.
  eapply wp_mono; [apply (IH (va + 4096) _ s1 Hs1); [|zlia|lia|lia]|].
  { eapply no_huge_space; [exact Hst1|apply Hs|done]. }
  intros ok s2 (k & [Hc Hs2 Hst2 Hnew2 Hold2]). exists (S k).
  assert (page_set (va / 4096) (S k) ∪ W = page_set ((va + 4096) / 4096) k ∪ ({[vpn va]} ∪ W)) as HW.
  { rewrite page_set_S, user_vpn by done. replace ((va + 4096) / 4096) with (va / 4096 + 1) by zlia. set_solver. }
  split; rewrite ?HW; [|done|by eapply space_step_trans| |].
  - destruct ok; [lia|destruct Hc; split; [lia|done]].
  - intros Hcl v Hv Hr. destruct (decide (in_range (va + 4096) k v)) as [Hi|Hi]; [by apply Hnew2|].
    assert (vpn v = vpn va) as He by (rewrite !user_vpn by done; unfold in_range in *; zlia).
    rewrite Hold2; [by apply Hnew1|done|rewrite He; set_solver|done].
  - intros v Hv Hin Hn. rewrite Hold2; [|done|set_solver|unfold in_range in *; lia]. apply Hold1; [done|].
    rewrite !user_vpn by done. unfold in_range in Hn. zlia.
Qed.

(** ** Writing to pages of the space *)

Definition image_write (dst : Z) (bs : list Z) (img : Z -> option Z) (a : Z) : option Z :=
  match bs !! Z.to_nat (a - dst) with
  | Some b => if dst <=? a then Some b else img a
  | None => img a
  end.

Lemma image_write_other dst bs img a :
  a < dst \/ dst + Z.of_nat (length bs) <= a -> image_write dst bs img a = img a.
Proof.
  intros Ha. unfold image_write. destruct (bs !! _) as [b|] eqn:Hb; [|done].
  apply lookup_lt_Some in Hb. destruct (Z.leb_spec dst a); [lia|done].
Qed.
Lemma image_write_at dst bs img k b :
  bs !! k = Some b -> image_write dst bs img (dst + Z.of_nat k) = Some b.
Proof.
  intros Hb. unfold image_write. replace (Z.to_nat _) with k by lia. rewrite Hb.
  by replace (dst <=? _) with true by (symmetry; apply Z.leb_le; lia).
Qed.
Lemma image_write_ext dst bs img img' a : img a = img' a -> image_write dst bs img a = image_write dst bs img' a.
Proof. intros Ha. unfold image_write. by rewrite Ha. Qed.

Section write.
Context {R : gset Z} {r : Z} {W : gset Z} {s : vm} (Hs : space R r W s).
Context (dst : Z) (src : list Z).
Hypothesis Hdst : 0 <= dst /\ dst + Z.of_nat (length src) <= 2^47.
Hypothesis Hin : forall k, (k < length src)%nat -> vpn (dst + Z.of_nat k) ∈ W.

Lemma same_byte v w : user_va v -> user_va w -> vpn v ∈ W -> vpn w ∈ W ->
  translate (ram s) r v = translate (ram s) r w -> v = w.
Proof.
  intros Hv Hw Hvw Hww He. pose proof (sp_inj _ _ _ _ Hs v w Hvw Hww ltac:(by rewrite He)) as Hp.
  pose proof (po_offset _ _ _ _ (sp_page _ _ _ _ Hs v Hvw)) as H1.
  pose proof (po_offset _ _ _ _ (sp_page _ _ _ _ Hs w Hww)) as H2. rewrite He in H1.
  rewrite !user_vpn in Hp by done. clear - Hp H1 H2. zlia.
Qed.

Lemma write_range : user_range (ram s) R r dst (length src).
Proof.
  assert (forall k : nat, (k < length src)%nat -> u64 (dst + Z.of_nat k) = dst + Z.of_nat k) as Hu.
  { intros k Hk. apply u64_small. lia. }
  split.
  - intros k Hk. cbn zeta. rewrite Hu by done. destruct (sp_page _ _ _ _ Hs _ (Hin k Hk)). done.
  - intros j k Hj Hk Hne. rewrite !Hu by done. intros He.
    assert (dst + Z.of_nat j = dst + Z.of_nat k); [|lia].
    apply same_byte; [unfold user_va; lia..|by apply Hin|by apply Hin|done].
Qed.

Lemma write_user_ok : Forall (fun b => 0 <= b < 256) src ->
  returns (vnl_copy_to_user_va r dst src) s (fun _ s' =>
    space R r W s' /\ space_step R r W W s s' /\ vm_pmm s' = vm_pmm s /\
    (forall v, user_va v -> vpn v ∈ W -> user_byte (ram s') r v = image_write dst src (user_byte (ram s) r) v)).
Proof.
  intros Hb. eapply wp_mono; [apply (copy_to_user_ok R r src dst s); [apply Hs|apply Hs|lia|apply write_range]|].
  intros [] s' (Hi & Hp & Htr & Hk & Ho & Hregs).
  assert (forall k : nat, (k < length src)%nat -> u64 (dst + Z.of_nat k) = dst + Z.of_nat k) as Hu.
  { intros k Hlt. apply u64_small. lia. }
  assert (forall a t, is_table (ram s) R t -> a / 4096 = t / 4096 -> ram s' a = ram s a) as Hsame.
  { intros a t Ht He. apply Ho. intros k Hlt ->. rewrite Hu in He by done.
    by destruct (po_plain _ _ _ _ (sp_page _ _ _ _ Hs _ (Hin k Hlt)) t). }
  pose proof (data_tables (sp_inv _ _ _ _ Hs) _ Hsame) as Htab.
  pose proof (data_reaches (sp_inv _ _ _ _ Hs) _ Hsame) as Hre.
  assert (space R r W s') as Hs'.
  { split; [done|apply Hs| |].
    - intros v Hv. destruct (sp_page _ _ _ _ Hs v Hv). split; rewrite ?Htr, ?Hp by apply Hs; try done.
      intros t Ht%Htab. by apply po_plain0.
    - intros v w Hv Hw. rewrite !Htr by apply Hs. by apply (sp_inj _ _ _ _ Hs). }
  split_and!; [done| |done|].
  - split; try done.
    + by rewrite Hp.
    + intros t Ht%Htab. by left.
    + intros P q v HP Hq Hpe l t Ht%Hre; [|done]. unfold entry.
      rewrite (data_word (sp_inv _ _ _ _ Hs) _ Hsame q v (S l) t) by (done || apply level_idx_range). by apply Hpe.
    + intros q v Hq _ _. by apply Htr.
    + intros v _. apply Htr, Hs.
    + intros f (v & Hv & <-). left. exists v. by rewrite Htr by apply Hs.
    + intros a H0 _ _ Hno. apply Ho. intros k Hlt ->. destruct Hno. exists (dst + Z.of_nat k).
      rewrite Hu by done. split; [by apply Hin|done].
  - intros v Hva Hv. rewrite (space_byte R r W s' v Hs' Hv), Htr by apply Hs.
    destruct (decide (dst <= v < dst + Z.of_nat (length src))) as [Hr|Hr].
    + replace v with (dst + Z.of_nat (Z.to_nat (v - dst))) at 2 by lia.
      destruct (lookup_lt_is_Some_2 src (Z.to_nat (v - dst))) as [b Hlb]; [lia|].
      rewrite (image_write_at dst src _ _ b Hlb). f_equal. pose proof (Hk _ _ Hlb) as Hkb.
      rewrite Hu in Hkb by lia. replace (dst + Z.of_nat (Z.to_nat (v - dst))) with v in Hkb by lia.
      rewrite Hkb. apply u8_small. by apply (Forall_lookup_1 _ _ _ _ Hb) in Hlb.
    + rewrite image_write_other by lia. rewrite (space_byte R r W s v Hs Hv). f_equal. apply Ho.
      intros k Hlt He. rewrite Hu in He by done.
      assert (v = dst + Z.of_nat k); [|lia]. apply same_byte; [done|unfold user_va; lia|done|by apply Hin|done].
Qed.
End write.
