(* ===== verification/ElfLoad.v ===== *)
(** * The program loader (src/src/kernel/elf_load.c)

    elf_load_exec() over the bytes of the file and the page tables of the new
    address space. The reference is [elf_image]: the bytes a program should see,
    as a function of the file alone. *)

From S2P Require Import Prelude Pmm Mem Strings Vmm UserSpace.

(** ** Headers *)

Record Elf64_Ehdr := {
  e_ident : Z -> Z;
  e_type : Z;
  e_machine : Z;
  e_version : Z;
  e_entry : Z;
  e_phoff : Z;
  e_shoff : Z;
  e_flags : Z;
  e_ehsize : Z;
  e_phentsize : Z;
  e_phnum : Z;
  e_shentsize : Z;
  e_shnum : Z;
  e_shstrndx : Z
}.
Record Elf64_Phdr := {
  p_type : Z;
  p_flags : Z;
  p_offset : Z;
  p_vaddr : Z;
  p_paddr : Z;
  p_filesz : Z;
  p_memsz : Z;
  p_align : Z
}.
Definition SIZEOF_EHDR : Z := 64.
Definition SIZEOF_PHDR : Z := 56.
Definition PT_LOAD : Z := 1.
Definition EM_X86_64 : Z := 62.
Definition ET_EXEC : Z := 2.

(** The structures laid over the file's bytes. *)
Definition ehdr (data : list Z) : Elf64_Ehdr :=
  let m := bytes_at data in {|
  e_ident := m; e_type := load16 m 16; e_machine := load16 m 18; e_version := load32 m 20;
  e_entry := load64 m 24; e_phoff := load64 m 32; e_shoff := load64 m 40; e_flags := load32 m 48;
  e_ehsize := load16 m 52; e_phentsize := load16 m 54; e_phnum := load16 m 56;
  e_shentsize := load16 m 58; e_shnum := load16 m 60; e_shstrndx := load16 m 62 |}.
Definition phdr (data : list Z) (o : Z) : Elf64_Phdr :=
  let m := bytes_at data in {|
  p_type := load32 m o; p_flags := load32 m (o + 4); p_offset := load64 m (o + 8);
  p_vaddr := load64 m (o + 16); p_paddr := load64 m (o + 24); p_filesz := load64 m (o + 32);
  p_memsz := load64 m (o + 40); p_align := load64 m (o + 48) |}.

(** ** Loading *)

Definition elf_len (data : list Z) : Z := Z.of_nat (length data).

(** The checks of the file header, in order. *)
Definition header_ok (data : list Z) : bool :=
  (SIZEOF_EHDR <=? elf_len data) &&
  (let eh := ehdr data in
   (e_ident eh 0 =? 0x7f) && (e_ident eh 1 =? 69) && (e_ident eh 2 =? 76) && (e_ident eh 3 =? 70) &&
   ((e_ident eh 4 =? 2) && (e_type eh =? ET_EXEC) && (e_machine eh =? EM_X86_64)) &&
   ((e_phentsize eh =? SIZEOF_PHDR) && negb (e_phnum eh =? 0)) &&
   (u64 (e_phoff eh + u64 (e_phnum eh * SIZEOF_PHDR)) <=? elf_len data)).

Definition seg_v0 (ph : Elf64_Phdr) : Z := Z.land (p_vaddr ph) PAGE_MASK.
Definition seg_v1 (ph : Elf64_Phdr) : Z := ALIGN_UP (u64 (p_vaddr ph + p_memsz ph)) PAGE_SIZE.
Definition seg_pages (ph : Elf64_Phdr) : nat := Z.to_nat ((seg_v1 ph - seg_v0 ph) / PAGE_SIZE).
Definition file_bytes (data : list Z) (ph : Elf64_Phdr) : list Z :=
  take (Z.to_nat (p_filesz ph)) (drop (Z.to_nat (p_offset ph)) data).

(** The body of the loop for a PT_LOAD header; [Some] is the error to return.
    The sum of offset and size can wrap: bytes outside the file are then read. *)
Definition load_segment (pml4_phys : Z) (data : list Z) (ph : Elf64_Phdr) : M vm (option Z) :=
  if seg_v1 ph <? seg_v0 ph then mret (Some (- EINVAL))
  else
    ok ← map_user_pages true pml4_phys (seg_pages ph) (seg_v0 ph);
    if negb ok then mret (Some (- ENOMEM))
    else if elf_len data <? u64 (p_offset ph + p_filesz ph) then mret (Some (- ENOEXEC))
    else
      (if nonzero (p_filesz ph) then
         if elf_len data <? p_offset ph + p_filesz ph then ub
         else vnl_copy_to_user_va pml4_phys (p_vaddr ph) (file_bytes data ph)
       else mret tt);;
      mret None.

(** The loop from header [i] on: an error or the highest end address. *)
Fixpoint load_segments (n : nat) (pml4_phys : Z) (data : list Z) (i max_end : Z) : M vm (Z + Z) :=
  match n with
  | O => mret (inr max_end)
  | S n' =>
      let eh := ehdr data in
      let at_ := u64 (e_phoff eh + i * e_phentsize eh) in
      let ph := phdr data at_ in
      if elf_len data <? at_ + 4 then ub
      else if negb (p_type ph =? PT_LOAD) then load_segments n' pml4_phys data (i + 1) max_end
      else if elf_len data <? at_ + 48 then ub
      else
          r ← load_segment pml4_phys data ph;
          match r with
          | Some e => mret (inl e)
          | None =>
              let end_ := u64 (p_vaddr ph + p_memsz ph) in
              load_segments n' pml4_phys data (i + 1) (if max_end <? end_ then end_ else max_end)
          end
  end.

(** An error, or the entry point and the break. *)
Definition elf_load_exec (pml4_phys : Z) (data : list Z) : M vm (Z + Z * Z) :=
  if negb (header_ok data) then mret (inl (- ENOEXEC))
  else
    let eh := ehdr data in
    r ← load_segments (Z.to_nat (e_phnum eh)) pml4_phys data 0 0;
    mret (match r with
          | inl e => inl e
          | inr max_end => inr (e_entry eh, ALIGN_UP max_end PAGE_SIZE)
          end).

(** ** The reference: what a loaded program sees *)

Definition zero_pages (v0 : Z) (n : nat) (img : Z -> option Z) (a : Z) : option Z :=
  if (v0 <=? a) && (a <? v0 + 4096 * Z.of_nat n) then Some 0 else img a.

(** The pages of a segment are fresh, then hold the bytes of the file; a page
    it has in common with an earlier segment loses what was there. *)
Definition segment_image (data : list Z) (img : Z -> option Z) (ph : Elf64_Phdr) : Z -> option Z :=
  image_write (p_vaddr ph) (file_bytes data ph) (zero_pages (seg_v0 ph) (seg_pages ph) img).

Definition all_phdrs (data : list Z) : list Elf64_Phdr :=
  (fun i => phdr data (e_phoff (ehdr data) + i * SIZEOF_PHDR)) <$> seqZ 0 (e_phnum (ehdr data)).
Definition is_load (ph : Elf64_Phdr) : bool := p_type ph =? PT_LOAD.
Definition loads (data : list Z) : list Elf64_Phdr := base.filter is_load (all_phdrs data).
Definition elf_image (data : list Z) : Z -> option Z := foldl (segment_image data) (fun _ => None) (loads data).
Definition elf_end (data : list Z) : Z := foldl (fun e ph => Z.max e (p_vaddr ph + p_memsz ph)) 0 (loads data).

(** ** What the file must not do *)

(** The sums the code computes do not wrap, and segments lie in the lower half. *)
Record segment_sane (ph : Elf64_Phdr) : Prop := {
  sg_pos : 0 <= p_vaddr ph /\ 0 <= p_filesz ph /\ 0 <= p_offset ph;
  sg_end : p_vaddr ph + p_memsz ph <= 2^47;
  sg_size : p_filesz ph <= p_memsz ph;
  sg_file : p_offset ph + p_filesz ph < 2^64
}.
Record elf_sane (data : list Z) : Prop := {
  es_bytes : Forall (fun b => 0 <= b < 256) data;
  es_table : e_phoff (ehdr data) + e_phnum (ehdr data) * SIZEOF_PHDR < 2^64;
  es_loads : Forall segment_sane (loads data)
}.

Definition in_file (data : list Z) (ph : Elf64_Phdr) : bool := p_offset ph + p_filesz ph <=? elf_len data.
Definition accepted (data : list Z) : bool := header_ok data && forallb (in_file data) (loads data).

(** The pages [W] of the space hold the image; there is nothing else in it. *)
Record loaded (R : gset Z) (r : Z) (s0 : vm) (W : gset Z) (s : vm) (img : Z -> option Z) : Prop := {
  ld_space : space R r W s;
  ld_step : space_step R r ∅ W s0 s;
  ld_in : forall a, user_va a -> vpn a ∈ W -> user_byte (ram s) r a = img a;
  ld_out : forall a, user_va a -> vpn a ∉ W -> img a = None
}.

Section segment.
Context (ph : Elf64_Phdr) (Hph : segment_sane ph).

Lemma seg_v0_eq : seg_v0 ph = p_vaddr ph / 4096 * 4096.
Proof. destruct Hph as [(? & ? & ?) ? ? ?]. unfold seg_v0. apply land_page_mask. lia. Qed.
Lemma seg_v1_eq : seg_v1 ph = (p_vaddr ph + p_memsz ph + 4095) / 4096 * 4096.
Proof. destruct Hph as [(? & ? & ?) ? ? ?]. unfold seg_v1. rewrite ALIGN_UP_page, !u64_small; rewrite ?u64_small; lia. Qed.

Lemma seg_bounds : seg_v0 ph mod 4096 = 0 /\ 0 <= seg_v0 ph <= p_vaddr ph /\ seg_v0 ph <= seg_v1 ph /\
  p_vaddr ph + p_memsz ph <= seg_v1 ph <= 2^47 /\ seg_v0 ph + 4096 * Z.of_nat (seg_pages ph) = seg_v1 ph.
Proof.
  destruct Hph as [(? & ? & ?) ? ? ?]. unfold seg_pages, PAGE_SIZE. rewrite seg_v0_eq, seg_v1_eq.
  assert ((p_vaddr ph + p_memsz ph + 4095) / 4096 * 4096 <= 2^47) by zlia.
  split; [zlia|]. split; [zlia|]. split; [zlia|]. split; [zlia|]. rewrite Z2Nat.id; zlia.
Qed.

Lemma length_file_bytes data : in_file data ph = true -> Z.of_nat (length (file_bytes data ph)) = p_filesz ph.
Proof.
  destruct Hph as [(? & ? & ?) ? ? ?]. unfold in_file, elf_len. intros Hin%Z.leb_le.
  unfold file_bytes. rewrite length_take, length_drop. lia.
Qed.
End segment.

(** ** The loader builds the image *)

(** What an error leaves: pages were added and nothing else. *)
Definition load_error (R : gset Z) (r : Z) (s0 : vm) (data : list Z) (e : Z) (s : vm) : Prop :=
  (exists W, space R r W s /\ space_step R r ∅ W s0 s) /\
  ((e = - ENOMEM /\ out_of_frames s) \/ (e = - ENOEXEC /\ accepted data = false)).

Section load.
Context (R : gset Z) (r : Z) (s0 : vm) (data : list Z).
Hypothesis Hnh : user_no_huge (ram s0) r.
Hypothesis Hsane : elf_sane data.

Lemma pages_loaded W s img ph k s1 :
  segment_sane ph -> loaded R r s0 W s img ->
  added R r (seg_v0 ph) (seg_pages ph) true W s true k s1 ->
  loaded R r s0 (page_set (seg_v0 ph / 4096) (seg_pages ph) ∪ W) s1 (zero_pages (seg_v0 ph) (seg_pages ph) img).
Proof.
  intros Hph [Hs Hst Hin Hout] [Hk Hs1 Hst1 Hnew Hold]. subst k.
  destruct (seg_bounds ph Hph) as (Ha & _).
  assert (forall a, zero_pages (seg_v0 ph) (seg_pages ph) img a =
    if decide (in_range (seg_v0 ph) (seg_pages ph) a) then Some 0 else img a) as Hz.
  { intros a. unfold zero_pages, in_range. case_decide; [by replace (_ && _) with true by blia|].
    by replace (_ && _) with false by blia. }
  split; [done|by eapply space_step_trans| |].
  - intros a Hva Hw. rewrite Hz. case_decide as Hr; [by apply Hnew|].
    rewrite elem_of_union, in_range_page in Hw by done. destruct Hw as [|Hw]; [done|].
    rewrite Hold by done. by apply Hin.
  - intros a Hva Hw. rewrite Hz. rewrite elem_of_union, in_range_page in Hw by done.
    case_decide; [by destruct Hw; left|]. apply Hout; [done|]. intros ?. apply Hw. by right.
Qed.

Lemma bytes_loaded W s img ph :
  segment_sane ph -> in_file data ph = true ->
  loaded R r s0 (page_set (seg_v0 ph / 4096) (seg_pages ph) ∪ W) s img ->
  returns (vnl_copy_to_user_va r (p_vaddr ph) (file_bytes data ph)) s (fun _ s' =>
    loaded R r s0 (page_set (seg_v0 ph / 4096) (seg_pages ph) ∪ W) s'
      (image_write (p_vaddr ph) (file_bytes data ph) img)).
Proof.
  intros Hph Hfile [Hs Hst Hin Hout]. destruct (seg_bounds ph Hph) as (Ha & Hv0 & Hv & Hv1 & Hn).
  pose proof (length_file_bytes ph Hph data Hfile) as Hlen. pose proof (sg_size ph Hph) as Hsz.
  destruct (sg_pos ph Hph) as (Hp0 & Hf0 & _).
  assert (forall k, (k < length (file_bytes data ph))%nat -> in_range (seg_v0 ph) (seg_pages ph) (p_vaddr ph + Z.of_nat k)) as Hrg.
  { intros k Hk. unfold in_range. lia. }
  eapply wp_mono.
  - apply (write_user_ok Hs).
    + lia.
    + intros k Hk. apply elem_of_union_l, in_range_page; [done|unfold user_va; lia|by apply Hrg].
    + unfold file_bytes. apply Forall_take, Forall_drop, Hsane.
  - intros _ s' (Hs' & Hst' & _ & Hb). split; [done|by eapply space_step_trans| |].
    + intros a Hva Hw. rewrite Hb by done. by apply image_write_ext, Hin.
    + intros a Hva Hw. rewrite image_write_other; [by apply Hout|].
      rewrite elem_of_union, in_range_page in Hw by done.
      assert (~ in_range (seg_v0 ph) (seg_pages ph) a) as Hr by tauto. unfold in_range in Hr. lia.
Qed.

Lemma load_segment_ok W s img ph :
  segment_sane ph -> ph ∈ loads data -> loaded R r s0 W s img ->
  safe (load_segment r data ph) s (fun res s' =>
    match res with
    | None => (exists W', loaded R r s0 W' s' (segment_image data img ph)) /\ in_file data ph = true
    | Some e => load_error R r s0 data e s'
    end).
Proof.
  intros Hph Hmem Hl. destruct (seg_bounds ph Hph) as (Ha & Hv0 & Hv & Hv1 & Hn).
  unfold load_segment. replace (seg_v1 ph <? seg_v0 ph) with false by blia. wp_step.
  eapply wp_mono; [apply (map_user_pages_ok R r true _ _ W s); [apply Hl| |done|lia|lia]|].
  { eapply no_huge_space; [apply Hl|apply (ld_space _ _ _ _ _ _ Hl)|done]. }
  intros [|] s1 [k Hadd]; cbn [negb].
  2: { destruct (ad_count _ _ _ _ _ _ _ _ _ _ Hadd) as [_ Hout]. wp_step. split; [|by left].
       eexists. split; [apply Hadd|]. eapply space_step_trans; [apply Hl|apply Hadd]. }
  pose proof (pages_loaded W s img ph k s1 Hph Hl Hadd) as Hl1.
  destruct (sg_pos ph Hph) as (_ & Hf0 & Ho0). rewrite u64_small by (pose proof (sg_file ph Hph); lia).
  destruct (in_file data ph) eqn:Hfile; unfold in_file in Hfile.
  2: { apply Z.leb_gt, Z.ltb_lt in Hfile as Hlt. rewrite Hlt. wp_step. split.
       - eexists. split; apply Hl1.
       - right. split; [done|]. unfold accepted. apply andb_false_iff. right. apply not_true_iff_false.
         intros Hall. rewrite forallb_forall in Hall.
         specialize (Hall ph (proj1 (list_elem_of_In _ _) Hmem)). unfold in_file in Hall. apply Z.leb_le in Hall. lia. }
  apply Z.leb_le in Hfile as Hle. rewrite (proj2 (Z.ltb_ge _ _) Hle). wp_step.
  unfold nonzero. destruct (Z.eqb_spec (p_filesz ph) 0) as [Hz|Hz]; cbn [negb].
  - do 2 wp_step. split; [|done]. exists (page_set (seg_v0 ph / 4096) (seg_pages ph) ∪ W).
    assert (file_bytes data ph = []) as He by (unfold file_bytes; by rewrite Hz).
    unfold segment_image. rewrite He. destruct Hl1 as [H1 H2 H3 H4]. by split.
  - eapply wp_weaken; [|eapply wp_mono; [by apply (bytes_loaded W s1 _ ph Hph Hfile Hl1)|]]; [done|].
    intros [] s2 Hl2. cbn beta in Hl2. wp_step. split; [|done]. eexists. exact Hl2.
Qed.

Hypothesis Hhead : header_ok data = true.

Lemma header_facts : e_phentsize (ehdr data) = SIZEOF_PHDR /\ 0 <= e_phoff (ehdr data) /\
  0 <= e_phnum (ehdr data) < 2^16 /\ e_phoff (ehdr data) + e_phnum (ehdr data) * SIZEOF_PHDR <= elf_len data.
Proof.
  pose proof (bytes_at_ok data (es_bytes _ Hsane)) as Hm. pose proof (es_table _ Hsane) as Ht.
  assert (0 <= e_phoff (ehdr data)) as Ho by apply (load64_range _ _ Hm).
  assert (0 <= e_phnum (ehdr data) < 2^16) as Hn by apply (load_le_range 2 _ _ Hm).
  unfold header_ok in Hhead. cbv zeta in Hhead. to_prop. unfold SIZEOF_PHDR in *.
  rewrite (u64_small (e_phnum _ * _)) in * by lia. rewrite u64_small in * by lia. done.
Qed.

(** The PT_LOAD headers from the [i]-th on. *)
Definition rest (i : Z) (n : nat) : list Elf64_Phdr :=
  base.filter is_load ((fun i => phdr data (e_phoff (ehdr data) + i * SIZEOF_PHDR)) <$> seqZ i (Z.of_nat n)).
Lemma rest_S i n :
  rest i (S n) = (let ph := phdr data (e_phoff (ehdr data) + i * SIZEOF_PHDR) in
                  if is_load ph then [ph] else []) ++ rest (i + 1) n.
Proof.
  unfold rest. rewrite Nat2Z.inj_succ, seqZ_cons by lia. replace (Z.pred (Z.succ (Z.of_nat n))) with (Z.of_nat n) by lia.
  rewrite fmap_cons, filter_cons. cbv zeta. replace (Z.succ i) with (i + 1) by lia.
  by destruct (is_load (phdr _ _)).
Qed.

Lemma load_segments_ok n : forall i W s img mx,
  0 <= i -> i + Z.of_nat n = e_phnum (ehdr data) -> (forall ph, ph ∈ rest i n -> ph ∈ loads data) ->
  loaded R r s0 W s img ->
  safe (load_segments n r data i mx) s (fun res s' =>
    match res with
    | inr m => (exists W', loaded R r s0 W' s' (foldl (segment_image data) img (rest i n))) /\
        m = foldl (fun e ph => Z.max e (p_vaddr ph + p_memsz ph)) mx (rest i n) /\ forallb (in_file data) (rest i n) = true
    | inl e => load_error R r s0 data e s'
    end).
Proof.
  induction n as [|n IH]; intros i W s img mx Hi Hn Hsub Hl; cbn [load_segments].
  { wp_step. split; [by exists W|done]. }
  destruct header_facts as (He & Ho & Hp & Hlen). pose proof (es_table _ Hsane) as Ht. unfold SIZEOF_PHDR in *.
  rewrite He, u64_small by lia. rewrite rest_S in Hsub |- *. cbv zeta in Hsub |- *. unfold SIZEOF_PHDR in *.
  set (ph := phdr data (e_phoff (ehdr data) + i * 56)) in *.
  replace (elf_len data <? _ + 4) with false by blia. fold (is_load ph).
  destruct (is_load ph) eqn:Hload; cbn [negb].
  2: { cbn [app]. apply (IH (i + 1) W); [lia|lia|done|done]. }
  replace (elf_len data <? _ + 48) with false by blia.
  assert (ph ∈ loads data) as Hph by (apply Hsub, elem_of_app; left; constructor).
  pose proof (proj1 (list.Forall_forall _ _) (es_loads _ Hsane) ph Hph) as Hsg.
  wp_step. eapply wp_mono; [by apply (load_segment_ok W s img ph)|]. intros [e|] s1; cbn beta iota.
  { intros Herr. by wp_step. }
  intros [[W1 Hl1] Hfile]. destruct (sg_pos ph Hsg) as (? & ? & ?). pose proof (sg_end ph Hsg). pose proof (sg_size ph Hsg).
  rewrite u64_small by lia.
  eapply wp_mono; [apply (IH (i + 1) W1); [lia|lia| |exact Hl1]|].
  { intros q Hq. apply Hsub, elem_of_app. by right. }
  intros [e|m] s2; cbn beta iota; [done|]. intros (HW & -> & Hall). split; [exact HW|]. split.
  - cbn [app foldl]. f_equal. destruct (Z.ltb_spec mx (p_vaddr ph + p_memsz ph)); lia.
  - cbn [app forallb]. by rewrite Hfile.
Qed.
End load.

(** A space just made by uspace_create_pml4(): nothing in the lower half. *)
Definition fresh_space (R : gset Z) (r : Z) (s : vm) : Prop :=
  pt_inv (vm_pmm s) (ram s) R /\ r ∈ R /\ (forall v, user_va v -> translate (ram s) r v = 0) /\
  user_no_huge (ram s) r.

(** C3: loading a program whose header sums do not wrap into a new address
    space: on success the space shows exactly the image of the file - the bytes of every
    segment, zeroes to the end of its pages, nothing elsewhere - and the entry
    point and break are the file's; a file that is not accepted gives -ENOEXEC;
    -ENOMEM means that no frame is left. The other address spaces keep their
    translations, and memory in use outside the page tables its contents. *)
Theorem elf_load_exec_loads R r data s :
  fresh_space R r s -> elf_sane data ->
  safe (elf_load_exec r data) s (fun res s' =>
    pt_inv (vm_pmm s') (ram s') R /\
    (forall q v, q ∈ R -> q <> r -> PML4_IDX v <> 511 -> translate (ram s') q v = translate (ram s) q v) /\
    (forall a, 0 <= a -> frame_free (vm_pmm s) (a / 4096) = false ->
       (forall t, is_table (ram s) R t -> a / 4096 <> t / 4096) -> ram s' a = ram s a) /\
    match res with
    | inr (entry, brk) => accepted data = true /\ entry = e_entry (ehdr data) /\ brk = ALIGN_UP (elf_end data) PAGE_SIZE /\
        (forall a, user_va a -> user_byte (ram s') r a = elf_image data a)
    | inl e => (e = - ENOMEM /\ out_of_frames s') \/ (e = - ENOEXEC /\ accepted data = false)
    end).
Proof.
  intros (Hinv & Hr & Hempty & Hnh) Hsane. unfold elf_load_exec.
  destruct (header_ok data) eqn:Hh; cbn [negb].
  2: { wp_step. split_and!; [done..|]. right. unfold accepted. by rewrite Hh. }
  destruct (header_facts data Hsane Hh) as (_ & _ & Hp & _).
  assert (rest data 0 (Z.to_nat (e_phnum (ehdr data))) = loads data) as Hrest by (unfold rest; by rewrite Z2Nat.id by lia).
  wp_step. eapply wp_mono.
  { apply (load_segments_ok R r s data Hnh Hsane Hh _ 0 ∅ s (fun _ => None) 0); [lia|lia|by rewrite Hrest|].
    split; [by apply space_empty|apply space_step_refl|set_solver|done]. }
  rewrite Hrest. intros [e|m] s'; cbn beta iota.
  - intros ((W & Hs & Hst) & Herr). wp_step. split_and!; [apply Hs|apply Hst| |done].
    intros a H0 Hu Hn. apply (ss_mem _ _ _ _ _ _ Hst); [done..|]. intros (v & Hv & _). set_solver.
  - intros ((W & [Hs Hst Hin Hout]) & -> & Hall). wp_step. split_and!; [apply Hs|apply Hst| | |done|done|].
    + intros a H0 Hu Hn. apply (ss_mem _ _ _ _ _ _ Hst); [done..|]. intros (v & Hv & _). set_solver.
    + unfold accepted. by rewrite Hh.
    + intros a Ha. destruct (decide (vpn a ∈ W)) as [Hw|Hw]; [by apply Hin|].
      unfold elf_image. rewrite Hout by done. unfold user_byte.
      by rewrite (ss_keep _ _ _ _ _ _ Hst), Hempty.
Qed.

(** ** Witness: a program of one segment *)

Definition sample_elf : list Z :=
  [0x7f; 69; 76; 70; 2] ++ replicate 11 0 ++ le_bytes 2 2 ++ le_bytes 2 62 ++ le_bytes 4 1 ++ le_bytes 8 0x400000 ++
  le_bytes 8 64 ++ le_bytes 8 0 ++ le_bytes 4 0 ++ le_bytes 2 64 ++ le_bytes 2 56 ++ le_bytes 2 1 ++ replicate 6 0 ++
  le_bytes 4 1 ++ le_bytes 4 5 ++ le_bytes 8 120 ++ le_bytes 8 0x400000 ++ le_bytes 8 0 ++ le_bytes 8 2 ++
  le_bytes 8 5 ++ le_bytes 8 4096 ++ [104; 105].

Lemma bytes_b l : forallb (fun b => (0 <=? b) && (b <? 256)) l = true -> Forall (fun b => 0 <= b < 256) l.
Proof.
  intros Hall. apply list.Forall_forall. intros b Hb. rewrite forallb_forall in Hall.
  specialize (Hall b (proj1 (list_elem_of_In _ _) Hb)). apply andb_true_iff in Hall as [H1 H2]. lia.
Qed.

Lemma sample_elf_sane : elf_sane sample_elf.
Proof.
  split; [by apply bytes_b|by vm_compute|].
  assert (loads sample_elf = [phdr sample_elf 64]) as -> by by vm_compute.
  constructor; [|constructor]. split; [split_and!|..]; by vm_compute.
Qed.

Lemma vm_sample_fresh : fresh_space {[0x1000]} 0x1000 vm_sample.
Proof.
  split; [apply vm_sample_inv|split; [apply vm_sample_root|split]].
  - intros v Hv. apply translate_not_reached. by intros t [? _]%empty_reaches.
  - intros v Hv. apply vm_sample_no_huge.
Qed.

Definition is_loaded (o : outcome ((Z + Z * Z) * vm)) : bool := match o with Done (inr _, _) => true | _ => false end.

Lemma elf_load_exec_loads_witness :
  is_loaded (elf_load_exec 0x1000 sample_elf vm_sample) = true /\
  safe (elf_load_exec 0x1000 sample_elf) vm_sample (fun res s' =>
    match res with
    | inr (entry, brk) => entry = 0x400000 /\ brk = 0x401000 /\ user_byte (ram s') 0x1000 0x400001 = Some 105 /\
        user_byte (ram s') 0x1000 0x400004 = Some 0 /\ user_byte (ram s') 0x1000 0x401000 = None
    | inl e => True
    end).
Proof.
  split; [by vm_compute|].
  eapply wp_mono; [apply (elf_load_exec_loads {[0x1000]} 0x1000 sample_elf vm_sample vm_sample_fresh sample_elf_sane)|].
  intros [e|[entry brk]] s' (_ & _ & _ & H); [done|]. destruct H as (_ & -> & -> & Himg).
  split_and!; [by vm_compute|by vm_compute|..]; rewrite Himg by (by vm_compute); by vm_compute.
Defined.
