(* ===== verification/Heap.v ===== *)
(** * Kernel heap (src/src/mm/heap.c)

    Blocks with a header and a footer tile the heap's own region of virtual
    memory ([kmem]); the free ones are chained through their headers. The heap
    grows by mapping fresh frames behind its end. [heap_inv] is the invariant;
    the Allocator interface at the end is what the clients rely on. *)

From S2P Require Import Prelude Pmm Mem Strings Vmm.

(** struct BlockHeader: the size word with the in-use bit, and the two links. *)
Definition SIZEOF_HEADER : Z := 24.
Definition SIZEOF_FOOTER : Z := 8.
Definition MIN_BLOCK : Z := SIZEOF_HEADER + SIZEOF_FOOTER + 16.
Definition ALIGN8 (n : Z) : Z := ALIGN_UP n 8.

Record heap := Heap {
  hp_vm : vm;
  kmem : mem;
  free_list : Z;
  heap_end : Z
}.

#[export] Instance hp_vm_lens : Lens heap vm :=
  {| view := hp_vm; over v s := Heap v (kmem s) (free_list s) (heap_end s) |}.
#[export] Instance hp_vm_laws : LensLaws heap vm.
Proof. split; [done|by intros []|done]. Qed.

Definition set_kmem (m : mem) (s : heap) : heap := Heap (hp_vm s) m (free_list s) (heap_end s).
Definition set_free_list (h : Z) (s : heap) : heap := Heap (hp_vm s) (kmem s) h (heap_end s).
Definition set_heap_end (e : Z) (s : heap) : heap := Heap (hp_vm s) (kmem s) (free_list s) e.

(** Words of the heap region; a pointer outside it is not a block. *)
Definition in_heap (a : Z) : bool := (HEAP_BASE <=? a) && (a + 8 <=? HEAP_BASE + 2^39).
Definition hrd (a : Z) : M heap Z :=
  s ← get; if in_heap a then mret (load64 (kmem s) a) else ub.
Definition hwr (a v : Z) : M heap unit :=
  if in_heap a then modify (fun s => set_kmem (store64 (kmem s) a v) s) else ub.

(** ** Internal helpers *)

Definition size_field (h : Z) : Z := h.
Definition prev_field (h : Z) : Z := h + 8.
Definition next_field (h : Z) : Z := h + 16.

Definition word_size (w : Z) : Z := Z.land w (u64 (Z.lnot 1)).
Definition word_used (w : Z) : bool := nonzero (Z.land w 1).
Definition blk_size (h : Z) : M heap Z := w ← hrd (size_field h); mret (word_size w).
Definition blk_used (h : Z) : M heap bool := w ← hrd (size_field h); mret (word_used w).

Definition get_footer (h : Z) : M heap Z := sz ← blk_size h; mret (h + sz - SIZEOF_FOOTER).
Definition next_block (h : Z) : M heap Z := sz ← blk_size h; mret (h + sz).

Definition set_size (h sz : Z) (used : bool) : M heap unit :=
  hwr (size_field h) (Z.lor sz (b2z used));;
  f ← get_footer h;
  hwr f (Z.lor sz (b2z used)).

Definition free_list_remove (h : Z) : M heap unit :=
  prev ← hrd (prev_field h);
  next ← hrd (next_field h);
  (if nonzero prev then hwr (next_field prev) next else modify (set_free_list next));;
  (if nonzero next then hwr (prev_field next) prev else mret tt);;
  hwr (next_field h) 0;;
  hwr (prev_field h) 0.

Definition free_list_insert (h : Z) : M heap unit :=
  fl ← gets free_list;
  hwr (next_field h) fl;;
  hwr (prev_field h) 0;;
  (if nonzero fl then hwr (prev_field fl) h else mret tt);;
  modify (set_free_list h).

(** The loop that backs [\[base, base + len)] with frames. *)
Definition map_pages (base len : Z) (msg : string) : M heap unit :=
  for_n (Z.to_nat (len / PAGE_SIZE)) 0 PAGE_SIZE (fun off =>
    frame ← zoom (zoom pmm_alloc);
    if frame =? 0 then panic msg
    else
      zoom (vmm_map (u64 (base + off)) frame (Z.lor VMM_FLAG_PRESENT VMM_FLAG_WRITE));;
      mret (None (A := unit)));;
  mret tt.

Definition heap_expand (extra : Z) : M heap unit :=
  let extra := ALIGN_UP extra PAGE_SIZE in
  base ← gets heap_end;
  map_pages base extra "heap: OOM expanding heap";;
  let h := base in
  set_size h extra false;;
  hwr (next_field h) 0;;
  hwr (prev_field h) 0;;
  modify (fun s => set_heap_end (u64 (heap_end s + extra)) s);;
  free_list_insert h.

(** ** Public API *)

Definition heap_init (base initial_size : Z) : M heap unit :=
  let initial_size := ALIGN_UP initial_size PAGE_SIZE in
  modify (set_heap_end base);;
  map_pages base initial_size "heap_init: OOM";;
  let h := base in
  set_size h initial_size false;;
  hwr (next_field h) 0;;
  hwr (prev_field h) 0;;
  modify (set_free_list h);;
  modify (set_heap_end (u64 (base + initial_size))).

(** The block found: taken off the free list and split when enough is left. *)
Definition take_block (h size : Z) : M heap Z :=
  free_list_remove h;;
  sz ← blk_size h;
  let leftover := u64 (sz - size) in
  (if MIN_BLOCK <=? leftover then
     set_size h size true;;
     rest ← next_block h;
     set_size rest leftover false;;
     hwr (next_field rest) 0;;
     hwr (prev_field rest) 0;;
     free_list_insert rest
   else
     sz' ← blk_size h;
     set_size h sz' true);;
  mret (h + SIZEOF_HEADER).

(** Every block has at least [MIN_BLOCK] bytes: the free list is no longer than this. *)
Definition search_fuel (s : heap) : nat := S (Z.to_nat ((heap_end s - HEAP_BASE) / MIN_BLOCK)).

(** The first-fit search: [Some p] when a block was found. *)
Definition first_fit (size : Z) : M heap (option Z) :=
  fuel ← gets search_fuel;
  start ← gets free_list;
  iter fuel (fun h =>
    if nonzero h then
      sz ← blk_size h;
      if size <=? sz then p ← take_block h size; mret (inr (Some p))
      else next ← hrd (next_field h); mret (inl next)
    else mret (inr None)) start.

(** The size of the block a request needs. *)
Definition block_size (size : Z) : Z :=
  let size := ALIGN8 (u64 (size + SIZEOF_HEADER + SIZEOF_FOOTER)) in
  if size <? MIN_BLOCK then MIN_BLOCK else size.

(** [retries] bounds the recursive call after the heap was expanded. *)
Fixpoint kmalloc_n (retries : nat) (size : Z) : M heap Z :=
  if size =? 0 then mret 0
  else
    let size := block_size size in
    r ← first_fit size;
    match r with
    | Some p => mret p
    | None =>
        heap_expand (u64 (size + PAGE_SIZE));;
        match retries with
        | O => no_fuel
        | S n => kmalloc_n n size
        end
    end.
Definition kmalloc (size : Z) : M heap Z := kmalloc_n 1 size.

Definition kcalloc (n size : Z) : M heap Z :=
  let total := u64 (n * size) in
  p ← kmalloc total;
  (if nonzero p then modify (fun s => set_kmem (memset (kmem s) p 0 (Z.to_nat total)) s) else mret tt);;
  mret p.

Definition kfree (ptr : Z) : M heap unit :=
  if ptr =? 0 then mret tt
  else
    let h := ptr - SIZEOF_HEADER in
    used ← blk_used h;
    if negb used then panic "ASSERT: blk_used(h)"
    else
      sz ← blk_size h;
      set_size h sz false;;
      nxt ← next_block h;
      end_ ← gets heap_end;
      (if nxt <? end_ then
         used_next ← blk_used nxt;
         if negb used_next then
           free_list_remove nxt;;
           sz1 ← blk_size h;
           sz2 ← blk_size nxt;
           set_size h (u64 (sz1 + sz2)) false
         else mret tt
       else mret tt);;
      free_list_insert h.

Definition krealloc (ptr size : Z) : M heap Z :=
  if ptr =? 0 then kmalloc size
  else
    let h := ptr - SIZEOF_HEADER in
    sz ← blk_size h;
    let old_size := u64 (sz - SIZEOF_HEADER - SIZEOF_FOOTER) in
    new_ptr ← kmalloc size;
    if new_ptr =? 0 then mret 0
    else
      modify (fun s => set_kmem (memcpy (kmem s) new_ptr ptr
        (Z.to_nat (if old_size <? size then old_size else size))) s);;
      kfree ptr;;
      mret new_ptr.

(** strdup() of lib/string.c. *)
Definition strdup (fuel : nat) (s : Z) : M heap Z :=
  len ← gets (fun h => strlen fuel (kmem h) s);
  match len with
  | None => no_fuel
  | Some l =>
      let n := u64 (l + 1) in
      p ← kmalloc n;
      (if nonzero p then modify (fun h => set_kmem (memcpy (kmem h) p s (Z.to_nat n)) h) else mret tt);;
      mret p
  end.

(** ** Words *)

Lemma HEAP_BASE_pos : 0 < HEAP_BASE.
Proof. done. Qed.
Lemma HEAP_TOP_bound : HEAP_BASE + 2^39 < 2^64.
Proof. done. Qed.
Lemma HEAP_BASE_page : HEAP_BASE mod 4096 = 0.
Proof. done. Qed.

Lemma in_heap_true a : HEAP_BASE <= a -> a + 8 <= HEAP_BASE + 2^39 -> in_heap a = true.
Proof. intros. unfold in_heap. apply andb_true_iff. split; apply Z.leb_le; lia. Qed.

Lemma size_word sz u :
  0 <= sz -> sz mod 8 = 0 -> Z.lor sz (b2z u) = sz + b2z u.
Proof.
  intros Hs H8. destruct u; cbn [b2z]; [|by rewrite Z.lor_0_r, Z.add_0_r].
  assert (Z.land sz 1 = 0) as Hl by (change 1 with (Z.ones 1); rewrite Z.land_ones by lia; zlia).
  rewrite <- Z.lxor_lor by done. by rewrite Z.add_nocarry_lxor.
Qed.
Lemma word_size_val sz u :
  0 <= sz < 2^63 -> sz mod 8 = 0 -> word_size (sz + b2z u) = sz.
Proof.
  intros Hs H8. unfold word_size. replace (u64 (Z.lnot 1)) with (Z.ldiff (Z.ones 64) (Z.ones 1)) by done.
  rewrite <- (size_word sz u) by lia. rewrite Z.land_comm, Z.land_lor_distr_r.
  apply Z.bits_inj'. intros i Hi. rewrite Z.lor_spec, !Z.land_spec, Z.ldiff_spec.
  assert (Z.testbit (b2z u) i = (i =? 0) && u) as Hu.
  { destruct u; cbn [b2z]; [|by rewrite Z.bits_0, andb_false_r]. rewrite andb_true_r.
    change 1 with (Z.shiftl 1 0). rewrite testbit_shiftl1 by lia. apply Z.eqb_sym. }
  rewrite Hu, !Z.testbit_ones_nonneg by lia.
  destruct (Z.testbit sz i) eqn:Hb.
  - destruct (decide (i < 64)).
    + destruct (decide (i < 1)).
      * assert (i = 0) as -> by lia. exfalso.
        assert (Z.testbit (sz mod 2^1) 0 = true) as Hbb by (rewrite Z.mod_pow2_bits_low by lia; done).
        assert (sz mod 2^1 = 0) as Hz by zlia. by rewrite Hz, Z.bits_0 in Hbb.
      * replace (i <? 64) with true by blia. replace (i <? 1) with false by blia. done.
    + rewrite (bits_above sz 63 i) in Hb by lia. done.
  - rewrite andb_false_r. simpl. destruct (Z.eqb_spec i 0) as [->|]; [|by rewrite andb_false_r].
    done.
Qed.
Lemma word_used_val sz u : 0 <= sz -> sz mod 8 = 0 -> word_used (sz + b2z u) = u.
Proof.
  intros Hs H8. unfold word_used, nonzero. change 1 with (2^1 - 1). rewrite land_ones_mod by lia.
  destruct u; cbn [b2z].
  - replace ((sz + 1) mod 2^1) with 1 by zlia. done.
  - replace ((sz + 0) mod 2^1) with 0 by zlia. done.
Qed.

Section wp_words.
Context (E : string -> Prop).

Lemma hrd_ok a s (Q : Z -> heap -> Prop) :
  in_heap a = true -> Q (load64 (kmem s) a) s -> wp E (hrd a) s Q.
Proof. intros Ha HQ. unfold hrd. wp_step. wp_step. rewrite Ha. by wp_step. Qed.
Lemma hwr_ok a v s (Q : unit -> heap -> Prop) :
  in_heap a = true -> Q tt (set_kmem (store64 (kmem s) a v) s) -> wp E (hwr a v) s Q.
Proof. intros Ha HQ. unfold hwr. rewrite Ha. by wp_step. Qed.

Lemma blk_size_ok h sz u s (Q : Z -> heap -> Prop) :
  in_heap h = true -> load64 (kmem s) h = sz + b2z u -> 0 <= sz < 2^63 -> sz mod 8 = 0 ->
  Q sz s -> wp E (blk_size h) s Q.
Proof.
  intros Hh Hw Hs H8 HQ. unfold blk_size, size_field. wp_step. apply hrd_ok; [done|]. wp_step.
  by rewrite Hw, word_size_val.
Qed.
Lemma blk_used_ok h sz u s (Q : bool -> heap -> Prop) :
  in_heap h = true -> load64 (kmem s) h = sz + b2z u -> 0 <= sz < 2^63 -> sz mod 8 = 0 ->
  Q u s -> wp E (blk_used h) s Q.
Proof.
  intros Hh Hw Hs H8 HQ. unfold blk_used, size_field. wp_step. apply hrd_ok; [done|]. wp_step.
  rewrite Hw, word_used_val by lia. done.
Qed.

(** The memory after set_size: header and footer. *)
Definition sized (m : mem) (h sz : Z) (u : bool) : mem :=
  store64 (store64 m h (sz + b2z u)) (h + sz - 8) (sz + b2z u).

Lemma set_size_ok h sz u s (Q : unit -> heap -> Prop) :
  HEAP_BASE <= h -> h + sz <= HEAP_BASE + 2^39 -> 16 <= sz -> sz mod 8 = 0 ->
  Q tt (set_kmem (sized (kmem s) h sz u) s) -> wp E (set_size h sz u) s Q.
Proof.
  intros Hh Ht Hs H8 HQ. unfold set_size. rewrite size_word by lia.
  assert (0 <= sz + b2z u < 2^64) as Hw by (pose proof HEAP_BASE_pos; destruct u; cbn [b2z]; lia).
  wp_step. apply hwr_ok; [apply in_heap_true; unfold size_field; lia|].
  wp_step. unfold get_footer. wp_step. eapply (blk_size_ok h sz u).
  - apply in_heap_true; lia.
  - cbn. unfold size_field. by apply load64_store64.
  - pose proof HEAP_BASE_pos. lia.
  - done.
  - wp_step. unfold SIZEOF_FOOTER. apply hwr_ok; [apply in_heap_true; lia|]. exact HQ.
Qed.
End wp_words.

Lemma sized_other m h sz u x :
  16 <= sz -> x < h \/ h + 8 <= x < h + sz - 8 \/ h + sz <= x -> sized m h sz u x = m x.
Proof. intros Hs Hx. unfold sized. rewrite !store64_other by lia. done. Qed.
Lemma sized_words m h sz u :
  16 <= sz < 2^63 -> load64 (sized m h sz u) h = sz + b2z u /\ load64 (sized m h sz u) (h + sz - 8) = sz + b2z u.
Proof.
  intros Hs. assert (0 <= sz + b2z u < 2^64) as Hw by (destruct u; cbn [b2z]; lia).
  unfold sized. split; [rewrite load64_store64_other by lia|]; by apply load64_store64.
Qed.
Lemma load64_same m m' a : same_on a (a + 8) m m' -> load64 m a = load64 m' a.
Proof. apply (load_le_ext 8). Qed.

(** ** The chain of free blocks *)

(** [l] is a doubly linked segment between [p] and [n]. *)
Fixpoint dseg (m : mem) (p : Z) (l : list Z) (n : Z) : Prop :=
  match l with
  | [] => True
  | x :: l' => load64 m (x + 8) = p /\ load64 m (x + 16) = hd n l' /\ dseg m x l' n
  end.

Definition lst (p : Z) (l : list Z) : Z := default p (list.last l).

Lemma lst_cons p x l : lst p (x :: l) = lst x l.
Proof. unfold lst. destruct l as [|y l]; [done|]. rewrite !last_cons_cons. destruct (list.last (y :: l)) eqn:Hl; [done|].
  by apply last_None in Hl. Qed.
Lemma lst_in p l : l <> [] -> lst p l ∈ l.
Proof.
  intros Hl. unfold lst. destruct (list.last l) as [x|] eqn:Hx; [by apply last_Some_elem_of|].
  by apply last_None in Hx.
Qed.

Lemma dseg_app m p l1 l2 n :
  dseg m p (l1 ++ l2) n <-> dseg m p l1 (hd n l2) /\ dseg m (lst p l1) l2 n.
Proof.
  revert p. induction l1 as [|x l1 IH]; intros p; simpl; [tauto|].
  rewrite IH, lst_cons. destruct l1; simpl; tauto.
Qed.

Lemma dseg_ext m m' p l n :
  (forall x, x ∈ l -> same_on (x + 8) (x + 24) m m') -> dseg m p l n -> dseg m' p l n.
Proof.
  revert p. induction l as [|x l IH]; intros p Hs; simpl; [done|].
  assert (same_on (x + 8) (x + 24) m m') as Hx by (apply Hs; left).
  rewrite <- (load64_same m m' (x + 8)) by (intros a ?; apply Hx; lia).
  rewrite <- (load64_same m m' (x + 16)) by (intros a ?; apply Hx; lia).
  intros (? & ? & ?). split_and!; [done..|]. apply IH; [|done]. intros y Hy. apply Hs. by right.
Qed.

(** The successor of a segment changes in its last element. *)
Lemma dseg_next m m' p l n n' :
  NoDup l -> dseg m p l n ->
  (forall x, x ∈ l -> load64 m' (x + 8) = load64 m (x + 8)) ->
  (forall x, x ∈ l -> load64 m' (x + 16) = if decide (x = lst p l) then n' else load64 m (x + 16)) ->
  dseg m' p l n'.
Proof.
  revert p. induction l as [|x l IH]; intros p Hnd Hd H8 H16; simpl; [done|].
  apply list.NoDup_cons in Hnd as [Hx Hnd]. destruct Hd as (Hp & Hn & Hd). rewrite lst_cons in H16.
  split_and!.
  - rewrite H8 by left. done.
  - rewrite H16 by left. destruct l as [|y l].
    + by rewrite decide_True.
    + rewrite decide_False; [done|]. intros Heq. apply Hx. rewrite Heq. by apply lst_in.
  - apply IH; [done|done|intros; apply H8; by right|intros; apply H16; by right].
Qed.

(** The predecessor of a segment changes in its first element. *)
Lemma dseg_prev m m' p p' l n :
  dseg m p l n ->
  (forall x, x ∈ l -> load64 m' (x + 16) = load64 m (x + 16)) ->
  (forall x, x ∈ l -> load64 m' (x + 8) = if decide (x = hd 0 l) then p' else load64 m (x + 8)) ->
  NoDup l -> dseg m' p' l n.
Proof.
  destruct l as [|x l]; intros Hd H16 H8 Hnd; simpl; [done|]. destruct Hd as (Hp & Hn & Hd).
  apply list.NoDup_cons in Hnd as [Hx Hnd]. simpl in H8. split_and!.
  - rewrite H8 by left. by rewrite decide_True.
  - rewrite H16 by left. done.
  - clear Hn Hp. assert (forall y, y ∈ l -> y <> x) as Hne by (intros y Hy ->; done).
    assert (forall y, y ∈ l -> load64 m' (y + 16) = load64 m (y + 16)) as H16' by (intros; apply H16; by right).
    assert (forall y, y ∈ l -> load64 m' (y + 8) = load64 m (y + 8)) as H8'.
    { intros y Hy. rewrite H8 by by right. rewrite decide_False; [done|]. by apply Hne. }
    clear -Hd H16' H8'. revert x Hd. induction l as [|y l IH]; intros x Hd; simpl; [done|].
    destruct Hd as (? & ? & ?). split_and!; [rewrite H8' by left; done|rewrite H16' by left; done|].
    apply IH; [| |done]; intros; [apply H16'|apply H8']; by right.
Qed.

(** ** The blocks *)

Abbreviation blocks := (gmap Z (Z * bool)) (only parsing).

(** [B] gives the size and use of the block at each header address. *)
Record blocks_ok (m : mem) (B : blocks) (e : Z) : Prop := {
  bo_range : forall a sz u, B !! a = Some (sz, u) ->
    HEAP_BASE <= a /\ a + sz <= e /\ 48 <= sz /\ a mod 8 = 0 /\ sz mod 8 = 0;
  bo_words : forall a sz u, B !! a = Some (sz, u) ->
    load64 m a = sz + b2z u /\ load64 m (a + sz - 8) = sz + b2z u;
  bo_disj : forall a a' sz u sz' u', B !! a = Some (sz, u) -> B !! a' = Some (sz', u') ->
    a <> a' -> a + sz <= a' \/ a' + sz' <= a;
  bo_next : forall a sz u, B !! a = Some (sz, u) -> a + sz = e \/ is_Some (B !! (a + sz));
  bo_top : HEAP_BASE <= e <= HEAP_BASE + 2^39 /\ e mod 8 = 0
}.

Record chain_ok (m : mem) (B : blocks) (fl : list Z) : Prop := {
  co_nodup : NoDup fl;
  co_free : forall x, x ∈ fl -> exists sz, B !! x = Some (sz, false);
  co_seg : dseg m 0 fl 0
}.

(** Bytes that are not the links of a free block. *)
Definition no_links (B : blocks) (x : Z) : Prop :=
  forall a sz, B !! a = Some (sz, false) -> ~ (a + 8 <= x < a + 24).

Lemma blocks_ok_frame m m' B e :
  blocks_ok m B e -> (forall x, no_links B x -> m' x = m x) -> blocks_ok m' B e.
Proof.
  intros H Hf. split; try apply H. intros a sz u Ha.
  destruct (bo_words _ _ _ H a sz u Ha) as [<- H2].
  destruct (bo_range _ _ _ H a sz u Ha) as (_ & _ & Hsz & _).
  split; [|rewrite <- H2]; apply load64_same; intros x Hx; apply Hf; intros b szb Hb Hbx.
  all: destruct (bo_range _ _ _ H b szb false Hb) as (_ & _ & Hsb & _).
  all: destruct (decide (a = b)) as [->|Hne]; [rewrite Hb in Ha; injection Ha as <- <-; lia|].
  all: destruct (bo_disj _ _ _ H a b sz u szb false Ha Hb Hne); lia.
Qed.

(** The block [\[a, a + sz)] read at its header. *)
Lemma block_in_heap m B e a sz u k :
  blocks_ok m B e -> B !! a = Some (sz, u) -> 0 <= k -> k + 8 <= sz -> in_heap (a + k) = true.
Proof.
  intros H Ha Hk Hk8. destruct (bo_range _ _ _ H a sz u Ha) as (? & ? & _).
  destruct (bo_top _ _ _ H). apply in_heap_true; lia.
Qed.

Lemma block_size_ok E m B e a sz u s (Q : Z -> heap -> Prop) :
  blocks_ok m B e -> kmem s = m -> B !! a = Some (sz, u) -> Q sz s -> wp E (blk_size a) s Q.
Proof.
  intros H Hm Ha HQ. destruct (bo_range _ _ _ H a sz u Ha) as (? & ? & ? & ? & ?).
  destruct (bo_words _ _ _ H a sz u Ha) as [Hw _]. destruct (bo_top _ _ _ H). pose proof HEAP_TOP_bound.
  pose proof HEAP_BASE_pos.
  apply (blk_size_ok E a sz u); [|by rewrite Hm|lia|done|done].
  replace a with (a + 0) by lia. apply (block_in_heap m B e a sz u); (done || lia).
Qed.

Section chain.
Context {m : mem} {B : blocks} {e : Z} (Hb : blocks_ok m B e).

Lemma free_sep x y :
  (exists sz, B !! x = Some (sz, false)) -> (exists sz, B !! y = Some (sz, false)) ->
  x <> y -> x + 48 <= y \/ y + 48 <= x.
Proof.
  intros [sx Hx] [sy Hy] Hne. destruct (bo_range _ _ _ Hb x _ _ Hx) as (_ & _ & ? & _).
  destruct (bo_range _ _ _ Hb y _ _ Hy) as (_ & _ & ? & _).
  destruct (bo_disj _ _ _ Hb x y _ _ _ _ Hx Hy Hne); lia.
Qed.
Lemma free_pos x : (exists sz, B !! x = Some (sz, false)) -> 0 < x.
Proof.
  intros [sx Hx]. destruct (bo_range _ _ _ Hb x _ _ Hx). pose proof HEAP_BASE_pos. lia.
Qed.
Lemma free_in_heap x k :
  (exists sz, B !! x = Some (sz, false)) -> 0 <= k <= 40 -> in_heap (x + k) = true.
Proof.
  intros [sx Hx] Hk. destruct (bo_range _ _ _ Hb x _ _ Hx) as (_ & _ & ? & _).
  eapply block_in_heap; [done..|lia|lia].
Qed.

Context {l1 l2 : list Z} {h : Z} (Hc : chain_ok m B (l1 ++ h :: l2)).

(** Memory after [h] was taken out of the chain. *)
Definition unlinked : mem :=
  let prev := lst 0 l1 in
  let next := hd 0 l2 in
  let m1 := if nonzero prev then store64 m (prev + 16) next else m in
  let m2 := if nonzero next then store64 m1 (next + 8) prev else m1 in
  store64 (store64 m2 (h + 16) 0) (h + 8) 0.

Lemma chain_elem x : x ∈ l1 ++ l2 -> (exists sz, B !! x = Some (sz, false)) /\ x <> h.
Proof.
  intros Hx. pose proof (co_nodup _ _ _ Hc) as Hnd. split.
  - apply (co_free _ _ _ Hc). apply elem_of_app in Hx as [?|?]; apply elem_of_app; [by left|right; by right].
  - intros ->. apply list.NoDup_app in Hnd as (_ & H1 & H2). apply list.NoDup_cons in H2 as [H2 _].
    apply elem_of_app in Hx as [Hx|Hx]; [|done]. by apply (H1 h Hx); left.
Qed.
Lemma chain_h : exists sz, B !! h = Some (sz, false).
Proof. apply (co_free _ _ _ Hc), elem_of_app. right. by left. Qed.

Lemma lst_nonzero : nonzero (lst 0 l1) = true <-> l1 <> [].
Proof.
  split; [by intros H ->|]. intros Hl. apply nonzero_pos, free_pos.
  apply chain_elem, elem_of_app. left. by apply lst_in.
Qed.
Lemma hd_nonzero : nonzero (hd 0 l2) = true <-> l2 <> [].
Proof.
  split; [by intros H ->|]. intros Hl. apply nonzero_pos, free_pos.
  apply chain_elem, elem_of_app. right. destruct l2; [done|by left].
Qed.

Lemma unlinked_other x : no_links B x -> unlinked x = m x.
Proof.
  intros Hx. unfold unlinked. destruct chain_h as [sh Hh]. pose proof (Hx h sh Hh).
  rewrite !store64_other by lia.
  destruct (nonzero (hd 0 l2)) eqn:Hn.
  - apply hd_nonzero in Hn. destruct (chain_elem (hd 0 l2)) as [[sn Hsn] _].
    { apply elem_of_app. right. destruct l2; [done|by left]. }
    pose proof (Hx _ sn Hsn). rewrite store64_other by lia.
    destruct (nonzero (lst 0 l1)) eqn:Hp; [|done]. apply lst_nonzero in Hp.
    destruct (chain_elem (lst 0 l1)) as [[sp Hsp] _]; [apply elem_of_app; left; by apply lst_in|].
    pose proof (Hx _ sp Hsp). by rewrite store64_other by lia.
  - destruct (nonzero (lst 0 l1)) eqn:Hp; [|done]. apply lst_nonzero in Hp.
    destruct (chain_elem (lst 0 l1)) as [[sp Hsp] _]; [apply elem_of_app; left; by apply lst_in|].
    pose proof (Hx _ sp Hsp). by rewrite store64_other by lia.
Qed.

Lemma chain_pair x y :
  x ∈ l1 ++ l2 -> y ∈ l1 ++ l2 ->
  0 < y < 2^64 /\ (x = y \/ x + 48 <= y \/ y + 48 <= x).
Proof.
  intros [Hx _]%chain_elem [Hy _]%chain_elem. pose proof (free_pos _ Hy). split.
  - destruct Hy as [sy Hsy]. destruct (bo_range _ _ _ Hb _ _ _ Hsy) as (_ & ? & ? & _).
    pose proof HEAP_TOP_bound. destruct (bo_top _ _ _ Hb). lia.
  - destruct (decide (x = y)); [by left|right]. by apply free_sep.
Qed.
Lemma lst_elem : l1 <> [] -> lst 0 l1 ∈ l1 ++ l2.
Proof. intros. apply elem_of_app. left. by apply lst_in. Qed.
Lemma hd_elem : l2 <> [] -> hd 0 l2 ∈ l1 ++ l2.
Proof. intros. apply elem_of_app. right. destruct l2; [done|by left]. Qed.
Lemma chain_far x : x ∈ l1 ++ l2 -> x + 48 <= h \/ h + 48 <= x.
Proof. intros [Hx Hne]%chain_elem. apply free_sep; [done|apply chain_h|done]. Qed.

(** The links of the other free blocks after the removal. *)
Lemma unlinked_prev x :
  x ∈ l1 ++ l2 ->
  load64 unlinked (x + 8) =
    (if decide (l2 <> [] /\ x = hd 0 l2) then lst 0 l1 else load64 m (x + 8)).
Proof.
  intros Hx. pose proof (chain_far x Hx). unfold unlinked.
  rewrite !(load64_store64_other _ _ (h + 8)), !(load64_store64_other _ _ (h + 16)) by lia.
  assert (0 <= lst 0 l1 < 2^64) as Hlst.
  { destruct (decide (l1 = [])) as [->|Hl]; [done|].
    destruct (chain_pair x _ Hx (lst_elem Hl)). lia. }
  assert (load64 (if nonzero (lst 0 l1) then store64 m (lst 0 l1 + 16) (hd 0 l2) else m) (x + 8) =
          load64 m (x + 8)) as Hm1.
  { destruct (nonzero (lst 0 l1)) eqn:Hp; [|done]. apply lst_nonzero in Hp.
    destruct (chain_pair x _ Hx (lst_elem Hp)). by rewrite load64_store64_other by lia. }
  destruct (nonzero (hd 0 l2)) eqn:Hn.
  - apply hd_nonzero in Hn. destruct (chain_pair x _ Hx (hd_elem Hn)) as [_ Hs]. case_decide as Hd.
    + destruct Hd as [_ ->]. by rewrite load64_store64.
    + rewrite load64_store64_other; [done|]. destruct Hs as [->|]; [|lia]. by destruct Hd.
  - rewrite Hm1. case_decide as Hd; [|done]. destruct Hd as [Hl2 _]. apply hd_nonzero in Hl2. congruence.
Qed.
Lemma unlinked_next x :
  x ∈ l1 ++ l2 ->
  load64 unlinked (x + 16) =
    (if decide (l1 <> [] /\ x = lst 0 l1) then hd 0 l2 else load64 m (x + 16)).
Proof.
  intros Hx. pose proof (chain_far x Hx). unfold unlinked.
  rewrite !(load64_store64_other _ _ (h + 8)), !(load64_store64_other _ _ (h + 16)) by lia.
  assert (0 <= hd 0 l2 < 2^64) as Hhd.
  { destruct (decide (l2 = [])) as [->|Hl]; [done|].
    destruct (chain_pair x _ Hx (hd_elem Hl)). lia. }
  replace (load64 (if nonzero (hd 0 l2) then _ else _) (x + 16)) with
    (load64 (if nonzero (lst 0 l1) then store64 m (lst 0 l1 + 16) (hd 0 l2) else m) (x + 16)).
  2: { destruct (nonzero (hd 0 l2)) eqn:Hn; [|done]. apply hd_nonzero in Hn.
       destruct (chain_pair x _ Hx (hd_elem Hn)). by rewrite (load64_store64_other _ (x + 16)) by lia. }
  destruct (nonzero (lst 0 l1)) eqn:Hn.
  - apply lst_nonzero in Hn. destruct (chain_pair x _ Hx (lst_elem Hn)) as [_ Hs]. case_decide as Hd.
    + destruct Hd as [_ ->]. by rewrite load64_store64.
    + rewrite load64_store64_other; [done|]. destruct Hs as [->|]; [|lia]. by destruct Hd.
  - case_decide as Hd; [|done]. destruct Hd as [Hl1 _]. apply lst_nonzero in Hl1. congruence.
Qed.

Lemma unlinked_chain : chain_ok unlinked B (l1 ++ l2).
Proof.
  pose proof (co_nodup _ _ _ Hc) as Hnd. pose proof (co_seg _ _ _ Hc) as Hseg.
  apply list.NoDup_app in Hnd as (Hnd1 & Hdis & Hnd2). apply list.NoDup_cons in Hnd2 as [Hh2 Hnd2].
  apply dseg_app in Hseg as [Hs1 (Hhp & Hhn & Hs2)]. split.
  - apply list.NoDup_app. split_and!; [done| |done]. intros x Hx Hx2. apply (Hdis x Hx). by right.
  - intros x Hx. by apply chain_elem.
  - apply dseg_app. split.
    + eapply dseg_next; [done|exact Hs1| |].
      * intros x Hx. rewrite unlinked_prev by (apply elem_of_app; by left).
        rewrite decide_False; [done|]. intros [Hl2 ->]. apply (Hdis _ Hx). right.
        destruct l2; [done|by left].
      * intros x Hx. rewrite unlinked_next by (apply elem_of_app; by left).
        assert (l1 <> []) by (by intros ->; inversion Hx).
        destruct (decide (x = lst 0 l1)); [by rewrite decide_True|].
        rewrite decide_False; [done|]. by intros [_ ?].
    + eapply dseg_prev; [exact Hs2| | |done].
      * intros x Hx. rewrite unlinked_next by (apply elem_of_app; by right).
        rewrite decide_False; [done|]. intros [Hl1 ->]. apply (Hdis (lst 0 l1)); [by apply lst_in|by right].
      * intros x Hx. rewrite unlinked_prev by (apply elem_of_app; by right).
        assert (l2 <> []) by (by intros ->; inversion Hx).
        destruct (decide (x = hd 0 l2)); [by rewrite decide_True|].
        rewrite decide_False; [done|]. by intros [_ ?].
Qed.

(** free_list_remove() takes [h] out of the chain. *)
Lemma free_list_remove_ok E s (Q : unit -> heap -> Prop) :
  kmem s = m -> free_list s = hd 0 (l1 ++ h :: l2) ->
  Q tt (Heap (hp_vm s) unlinked (hd 0 (l1 ++ l2)) (heap_end s)) ->
  wp E (free_list_remove h) s Q.
Proof.
  intros Hm Hfl HQ. pose proof (co_seg _ _ _ Hc) as (_ & Hp & Hn & _)%dseg_app.
  pose proof chain_h as Hh. unfold free_list_remove, prev_field, next_field.
  wp_step. apply hrd_ok; [by apply free_in_heap|]. wp_step. apply hrd_ok; [by apply free_in_heap|].
  rewrite Hm, Hp, Hn. wp_step.
  set (m1 := if nonzero (lst 0 l1) then store64 m (lst 0 l1 + 16) (hd 0 l2) else m).
  assert (wp E (if nonzero (lst 0 l1) then hwr (lst 0 l1 + 16) (hd 0 l2) else modify (set_free_list (hd 0 l2))) s
    (fun _ s' => s' = Heap (hp_vm s) m1 (hd 0 (l1 ++ l2)) (heap_end s))) as Hw1.
  { unfold m1. destruct (nonzero (lst 0 l1)) eqn:Hl.
    - apply lst_nonzero in Hl. apply hwr_ok.
      + apply free_in_heap; [by apply chain_elem, lst_elem|lia].
      + unfold set_kmem. rewrite Hfl, Hm. by destruct l1.
    - assert (l1 = []) as Hl1.
      { destruct (decide (l1 = [])); [done|]. apply lst_nonzero in n. congruence. }
      wp_step. unfold set_free_list. rewrite Hm, Hl1. done. }
  eapply wp_mono; [exact Hw1|]. intros _ s1 ->. wp_step.
  set (m2 := if nonzero (hd 0 l2) then store64 m1 (hd 0 l2 + 8) (lst 0 l1) else m1).
  assert (wp E (if nonzero (hd 0 l2) then hwr (hd 0 l2 + 8) (lst 0 l1) else mret tt)
    (Heap (hp_vm s) m1 (hd 0 (l1 ++ l2)) (heap_end s))
    (fun _ s' => s' = Heap (hp_vm s) m2 (hd 0 (l1 ++ l2)) (heap_end s))) as Hw2.
  { unfold m2. destruct (nonzero (hd 0 l2)) eqn:Hl; [|by wp_step].
    apply hd_nonzero in Hl. apply hwr_ok; [|done].
    apply free_in_heap; [by apply chain_elem, hd_elem|lia]. }
  eapply wp_mono; [exact Hw2|]. intros _ s2 ->. wp_step. apply hwr_ok; [by apply free_in_heap|].
  apply hwr_ok; [by apply free_in_heap|]. exact HQ.
Qed.
End chain.
Arguments unlinked m l1 l2 h : clear implicits.

Lemma mem_ok_unlinked m l1 l2 h : mem_ok m -> mem_ok (unlinked m l1 l2 h).
Proof.
  intros Hm. unfold unlinked. do 2 apply mem_ok_store_le.
  destruct (nonzero (hd 0 l2)); [apply mem_ok_store_le|]; destruct (nonzero (lst 0 l1)); try done;
    by apply mem_ok_store_le.
Qed.
Lemma mem_ok_sized m h sz u : mem_ok m -> mem_ok (sized m h sz u).
Proof. intros Hm. by do 2 apply mem_ok_store_le. Qed.

(** Memory after [h] was put at the front of the chain. *)
Definition inserted (m : mem) (fl : list Z) (h : Z) : mem :=
  let m1 := store64 (store64 m (h + 16) (hd 0 fl)) (h + 8) 0 in
  if nonzero (hd 0 fl) then store64 m1 (hd 0 fl + 8) h else m1.

Lemma mem_ok_inserted m fl h : mem_ok m -> mem_ok (inserted m fl h).
Proof.
  intros Hm. unfold inserted. destruct (nonzero _); repeat apply mem_ok_store_le; done.
Qed.

Section insert.
Context {m : mem} {B : blocks} {e : Z} {fl : list Z} {h sz : Z}.
Hypothesis Hb : blocks_ok m B e.
Hypothesis Hc : chain_ok m B fl.
Hypothesis Hh : B !! h = Some (sz, false).
Hypothesis Hnew : h ∉ fl.

Lemma insert_hd : nonzero (hd 0 fl) = true <-> fl <> [].
Proof.
  split; [by intros H ->|]. intros Hl. apply nonzero_pos, (free_pos Hb).
  apply (co_free _ _ _ Hc). destruct fl; [done|by left].
Qed.
Lemma insert_far x : x ∈ fl -> x + 48 <= h \/ h + 48 <= x.
Proof.
  intros Hx. apply (free_sep Hb); [by apply (co_free _ _ _ Hc)|by eexists|].
  by intros ->.
Qed.
Lemma insert_range x : x ∈ h :: fl -> 0 < x < 2^64.
Proof.
  intros Hx. assert (exists sz, B !! x = Some (sz, false)) as Hf.
  { apply elem_of_cons in Hx as [->|Hx]; [by eexists|by apply (co_free _ _ _ Hc)]. }
  pose proof (free_pos Hb _ Hf). destruct Hf as [sx Hsx].
  destruct (bo_range _ _ _ Hb _ _ _ Hsx) as (_ & ? & ? & _).
  pose proof HEAP_TOP_bound. destruct (bo_top _ _ _ Hb). lia.
Qed.

Lemma inserted_other x : no_links B x -> inserted m fl h x = m x.
Proof.
  intros Hx. pose proof (Hx h sz Hh). unfold inserted.
  assert (store64 (store64 m (h + 16) (hd 0 fl)) (h + 8) 0 x = m x) as H1
    by (rewrite !store64_other by lia; done).
  destruct (nonzero (hd 0 fl)) eqn:Hn; [|done]. apply insert_hd in Hn.
  destruct (co_free _ _ _ Hc (hd 0 fl)) as [sn Hsn]; [destruct fl; [done|by left]|].
  pose proof (Hx _ sn Hsn). by rewrite store64_other by lia.
Qed.

Lemma inserted_chain : chain_ok (inserted m fl h) B (h :: fl).
Proof.
  assert (0 <= hd 0 fl < 2^64) as Hhd.
  { destruct (decide (fl = [])) as [->|Hl]; [done|].
    assert (hd 0 fl ∈ h :: fl) as Hin by (right; destruct fl; [done|by left]).
    pose proof (insert_range _ Hin). lia. }
  assert (fl <> [] -> hd 0 fl + 48 <= h \/ h + 48 <= hd 0 fl) as Hfar.
  { intros Hl. apply insert_far. destruct fl; [done|by left]. }
  pose proof (insert_range h ltac:(by left)) as Hhr.
  split.
  - apply list.NoDup_cons. split; [done|apply Hc].
  - intros x Hx. apply elem_of_cons in Hx as [->|Hx]; [by eexists|by apply (co_free _ _ _ Hc)].
  - assert (forall a, (fl <> [] -> a + 8 <= hd 0 fl + 8 \/ hd 0 fl + 16 <= a) ->
      load64 (inserted m fl h) a = load64 (store64 (store64 m (h + 16) (hd 0 fl)) (h + 8) 0) a) as Hins.
    { intros a Ha. unfold inserted. destruct (nonzero (hd 0 fl)) eqn:Hn; [|done].
      apply insert_hd, Ha in Hn. by rewrite load64_store64_other by lia. }
    split_and!.
    + rewrite Hins by (intros Hl; specialize (Hfar Hl); lia). by apply load64_store64.
    + rewrite Hins by (intros Hl; specialize (Hfar Hl); lia).
      rewrite load64_store64_other by lia. by apply load64_store64.
    + eapply dseg_prev; [apply (co_seg _ _ _ Hc)| | |apply Hc].
      * intros x Hx. assert (fl <> []) as Hl by (by intros ->; inversion Hx).
        pose proof (insert_far x Hx). rewrite Hins.
        -- by rewrite !load64_store64_other by lia.
        -- intros _. destruct (decide (x = hd 0 fl)) as [->|Hne]; [lia|].
           destruct (free_sep Hb x (hd 0 fl)); [by apply (co_free _ _ _ Hc)|apply (co_free _ _ _ Hc)|done|lia|lia].
           destruct fl; [done|by left].
      * intros x Hx. assert (fl <> []) as Hl by (by intros ->; inversion Hx).
        pose proof (insert_far x Hx). case_decide as Hd.
        -- subst x. unfold inserted. replace (nonzero (hd 0 fl)) with true by (symmetry; by apply insert_hd).
           apply load64_store64. lia.
        -- rewrite Hins; [by rewrite !load64_store64_other by lia|].
           intros _. destruct (free_sep Hb x (hd 0 fl)); [by apply (co_free _ _ _ Hc)|apply (co_free _ _ _ Hc)|done|lia|lia].
           destruct fl; [done|by left].
Qed.

Lemma free_list_insert_ok E s (Q : unit -> heap -> Prop) :
  kmem s = m -> free_list s = hd 0 fl ->
  Q tt (Heap (hp_vm s) (inserted m fl h) h (heap_end s)) ->
  wp E (free_list_insert h) s Q.
Proof.
  intros Hm Hfl HQ. unfold free_list_insert, prev_field, next_field.
  assert (exists sz, B !! h = Some (sz, false)) as Hfree by by eexists.
  do 2 wp_step. rewrite Hfl. wp_step. apply hwr_ok; [by apply (free_in_heap Hb)|].
  wp_step. apply hwr_ok; [by apply (free_in_heap Hb)|]. wp_step. cbn [set_kmem kmem]. rewrite Hm.
  revert HQ. unfold inserted. destruct (nonzero (hd 0 fl)) eqn:Hn; intros HQ.
  - apply insert_hd in Hn. apply hwr_ok; [|by wp_step].
    apply (free_in_heap Hb); [|lia]. apply (co_free _ _ _ Hc). destruct fl; [done|by left].
  - wp_step. by wp_step.
Qed.
End insert.

(** ** Changing the tiling *)

Lemma chain_ok_frame m m' (B B' : blocks) fl :
  chain_ok m B fl ->
  (forall x, x ∈ fl -> same_on (x + 8) (x + 24) m m' /\ exists sz, B' !! x = Some (sz, false)) ->
  chain_ok m' B' fl.
Proof.
  intros Hc Hs. split; [apply Hc|intros; by apply Hs|].
  eapply dseg_ext; [|apply Hc]. intros. by apply Hs.
Qed.

Section tiling.
Context {m : mem} {B : blocks} {e : Z} (Hb : blocks_ok m B e).

(** A block gets a new use bit. *)
Lemma blocks_retag h sz u u' :
  B !! h = Some (sz, u) -> blocks_ok (sized m h sz u') (<[h := (sz, u')]> B) e.
Proof.
  intros Hh. destruct (bo_range _ _ _ Hb h sz u Hh) as (H1 & H2 & H3 & H4 & H5).
  destruct (bo_top _ _ _ Hb) as [? ?]. pose proof HEAP_TOP_bound. pose proof HEAP_BASE_pos.
  assert (forall a s1 u1, <[h := (sz, u')]> B !! a = Some (s1, u1) ->
    (a = h /\ s1 = sz /\ u1 = u') \/ (a <> h /\ B !! a = Some (s1, u1))) as Hlk.
  { intros a s1 u1. destruct (decide (a = h)) as [->|Hne].
    - rewrite lookup_insert_eq. intros [= <- <-]. by left.
    - rewrite lookup_insert_ne by done. by right. }
  split; [| | | |done].
  - intros a s1 u1 [(-> & -> & _)|[_ Ha]]%Hlk; [lia|by apply (bo_range _ _ _ Hb a s1 u1)].
  - intros a s1 u1 [(-> & -> & ->)|[Hne Ha]]%Hlk; [apply sized_words; lia|].
    destruct (bo_words _ _ _ Hb a s1 u1 Ha) as [Hw Hf]. rewrite <- Hw at 1. rewrite <- Hf.
    destruct (bo_range _ _ _ Hb a s1 u1 Ha) as (_ & _ & ? & _).
    destruct (bo_disj _ _ _ Hb a h s1 u1 sz u Ha Hh Hne);
      split; apply load64_same; intros x Hx; apply sized_other; lia.
  - intros a a' s1 u1 s2 u2 [(-> & -> & _)|[Hn1 Ha]]%Hlk [(-> & -> & _)|[Hn2 Ha']]%Hlk Hne; [done| | |].
    + by apply (bo_disj _ _ _ Hb h a' sz u s2 u2).
    + by apply (bo_disj _ _ _ Hb a h s1 u1 sz u).
    + by apply (bo_disj _ _ _ Hb a a' s1 u1 s2 u2).
  - intros a s1 u1 Ha. assert (exists u2, B !! a = Some (s1, u2)) as [u2 Ha2].
    { apply Hlk in Ha as [(-> & -> & _)|[_ Ha]]; by eexists. }
    destruct (bo_next _ _ _ Hb a s1 u2 Ha2) as [|Hs]; [by left|right].
    apply lookup_insert_is_Some'. by right.
Qed.

(** A block is cut in two. *)
Lemma blocks_split h sz u n u' :
  B !! h = Some (sz, u) -> 48 <= n -> n mod 8 = 0 -> 48 <= sz - n ->
  blocks_ok (sized (sized m h n u') (h + n) (sz - n) false)
    (<[h + n := (sz - n, false)]> (<[h := (n, u')]> B)) e /\ B !! (h + n) = None.
Proof.
  intros Hh Hn1 Hn8 Hn2. destruct (bo_range _ _ _ Hb h sz u Hh) as (H1 & H2 & H3 & H4 & H5).
  destruct (bo_top _ _ _ Hb) as [? ?]. pose proof HEAP_TOP_bound. pose proof HEAP_BASE_pos.
  assert (B !! (h + n) = None) as Hnone.
  { destruct (B !! (h + n)) as [[s2 u2]|] eqn:Hx; [|done].
    destruct (bo_range _ _ _ Hb _ _ _ Hx) as (_ & _ & ? & _).
    destruct (bo_disj _ _ _ Hb h (h + n) _ _ _ _ Hh Hx); lia. }
  split; [|done].
  assert (forall a s1 u1, <[h + n := (sz - n, false)]> (<[h := (n, u')]> B) !! a = Some (s1, u1) ->
    (a = h + n /\ s1 = sz - n /\ u1 = false) \/ (a = h /\ s1 = n /\ u1 = u') \/
    (a <> h /\ a <> h + n /\ B !! a = Some (s1, u1))) as Hlk.
  { intros a s1 u1. destruct (decide (a = h + n)) as [->|Hne].
    { rewrite lookup_insert_eq. intros [= <- <-]. by left. }
    rewrite lookup_insert_ne by done. destruct (decide (a = h)) as [->|Hne'].
    { rewrite lookup_insert_eq. intros [= <- <-]. right; by left. }
    rewrite lookup_insert_ne by done. by right; right. }
  assert (forall a s1 u1, a <> h -> B !! a = Some (s1, u1) -> 48 <= s1 /\ (a + s1 <= h \/ h + sz <= a)) as Hapart.
  { intros a s1 u1 Hne Ha. split; [by apply (bo_range _ _ _ Hb _ _ _ Ha)|].
    by apply (bo_disj _ _ _ Hb a h s1 u1 sz u). }
  split; [| | | |done].
  - intros a s1 u1 [(-> & -> & _)|[(-> & -> & _)|(_ & _ & Ha)]]%Hlk;
      [split_and!; (lia || zlia)|lia|by apply (bo_range _ _ _ Hb a s1 u1)].
  - intros a s1 u1 [(-> & -> & ->)|[(-> & -> & ->)|(Hne & _ & Ha)]]%Hlk.
    + apply sized_words. lia.
    + destruct (sized_words m h n u') as [Hw Hf]; [lia|]. rewrite <- Hw at 1. rewrite <- Hf.
      split; apply load64_same; intros x Hx; apply sized_other; lia.
    + destruct (bo_words _ _ _ Hb a s1 u1 Ha) as [Hw Hf]. rewrite <- Hw at 1. rewrite <- Hf.
      destruct (Hapart a s1 u1 Hne Ha).
      split; apply load64_same; intros x Hx; rewrite !sized_other by lia; done.
  - intros a a' s1 u1 s2 u2 [(-> & -> & _)|[(-> & -> & _)|(Hn & Hn' & Ha)]]%Hlk
      [(-> & -> & _)|[(-> & -> & _)|(Hm & Hm' & Ha')]]%Hlk Hne; try done; try lia.
    + destruct (Hapart a' s2 u2 Hm Ha'); lia.
    + destruct (Hapart a' s2 u2 Hm Ha'); lia.
    + destruct (Hapart a s1 u1 Hn Ha); lia.
    + destruct (Hapart a s1 u1 Hn Ha); lia.
    + by apply (bo_disj _ _ _ Hb a a' s1 u1 s2 u2).
  - intros a s1 u1 [(-> & -> & _)|[(-> & -> & _)|(Hn & Hn' & Ha)]]%Hlk.
    + replace (h + n + (sz - n)) with (h + sz) by lia.
      destruct (bo_next _ _ _ Hb h sz u Hh) as [|Hs]; [by left|right].
      apply lookup_insert_is_Some'. right. apply lookup_insert_is_Some'. by right.
    + right. by rewrite lookup_insert_eq.
    + destruct (bo_next _ _ _ Hb a s1 u1 Ha) as [|Hs]; [by left|right].
      apply lookup_insert_is_Some'. right. apply lookup_insert_is_Some'. by right.
Qed.

(** A block takes in its successor. *)
Lemma blocks_merge h s1 u1 s2 u2 :
  B !! h = Some (s1, u1) -> B !! (h + s1) = Some (s2, u2) ->
  blocks_ok (sized m h (s1 + s2) false) (<[h := (s1 + s2, false)]> (delete (h + s1) B)) e.
Proof.
  intros Hh Hn. destruct (bo_range _ _ _ Hb h s1 u1 Hh) as (H1 & H2 & H3 & H4 & H5).
  destruct (bo_range _ _ _ Hb _ s2 u2 Hn) as (I1 & I2 & I3 & I4 & I5).
  destruct (bo_top _ _ _ Hb) as [? ?]. pose proof HEAP_TOP_bound. pose proof HEAP_BASE_pos.
  assert (forall a sz u, <[h := (s1 + s2, false)]> (delete (h + s1) B) !! a = Some (sz, u) ->
    (a = h /\ sz = s1 + s2 /\ u = false) \/ (a <> h /\ a <> h + s1 /\ B !! a = Some (sz, u))) as Hlk.
  { intros a sz u. destruct (decide (a = h)) as [->|Hne].
    { rewrite lookup_insert_eq. intros [= <- <-]. by left. }
    rewrite lookup_insert_ne by done. intros [? Ha]%lookup_delete_Some. by right. }
  assert (forall a sz u, a <> h -> a <> h + s1 -> B !! a = Some (sz, u) ->
    48 <= sz /\ (a + sz <= h \/ h + (s1 + s2) <= a)) as Hapart.
  { intros a sz u Hne Hne' Ha. split; [by apply (bo_range _ _ _ Hb _ _ _ Ha)|].
    destruct (bo_range _ _ _ Hb _ _ _ Ha) as (_ & _ & ? & _).
    pose proof (bo_disj _ _ _ Hb a h sz u s1 u1 Ha Hh Hne).
    pose proof (bo_disj _ _ _ Hb a _ sz u s2 u2 Ha Hn Hne'). lia. }
  split; [| | | |done].
  - intros a sz u [(-> & -> & _)|(_ & _ & Ha)]%Hlk; [split_and!; (lia || zlia)|by apply (bo_range _ _ _ Hb a sz u)].
  - intros a sz u [(-> & -> & ->)|(Hne & Hne' & Ha)]%Hlk; [apply sized_words; lia|].
    destruct (bo_words _ _ _ Hb a sz u Ha) as [Hw Hf]. rewrite <- Hw at 1. rewrite <- Hf.
    destruct (Hapart a sz u Hne Hne' Ha). split; apply load64_same; intros x Hx; apply sized_other; lia.
  - intros a a' sz u sz' u' [(-> & -> & _)|(Hm & Hm' & Ha)]%Hlk [(-> & -> & _)|(Hk & Hk' & Ha')]%Hlk Hne; [done| | |].
    + destruct (Hapart a' sz' u' Hk Hk' Ha'); lia.
    + destruct (Hapart a sz u Hm Hm' Ha); lia.
    + by apply (bo_disj _ _ _ Hb a a' sz u sz' u').
  - intros a sz u [(-> & -> & _)|(Hm & Hm' & Ha)]%Hlk.
    + replace (h + (s1 + s2)) with (h + s1 + s2) by lia.
      destruct (bo_next _ _ _ Hb _ s2 u2 Hn) as [|Hs]; [by left|right].
      rewrite lookup_insert_ne, lookup_delete_ne by lia. done.
    + destruct (bo_next _ _ _ Hb a sz u Ha) as [|Hs]; [by left|right].
      destruct (decide (a + sz = h)) as [->|]; [by rewrite lookup_insert_eq|].
      destruct (Hapart a sz u Hm Hm' Ha). rewrite lookup_insert_ne, lookup_delete_ne by lia. done.
Qed.

(** A block is added behind the last one. *)
Lemma blocks_grow sz :
  48 <= sz -> sz mod 8 = 0 -> e + sz <= HEAP_BASE + 2^39 ->
  blocks_ok (sized m e sz false) (<[e := (sz, false)]> B) (e + sz) /\ B !! e = None.
Proof.
  intros Hsz H8 Htop. destruct (bo_top _ _ _ Hb) as [? ?]. pose proof HEAP_TOP_bound. pose proof HEAP_BASE_pos.
  assert (B !! e = None) as Hnone.
  { destruct (B !! e) as [[s2 u2]|] eqn:Hx; [|done].
    destruct (bo_range _ _ _ Hb _ _ _ Hx) as (_ & ? & ? & _). lia. }
  split; [|done].
  assert (forall a s1 u1, <[e := (sz, false)]> B !! a = Some (s1, u1) ->
    (a = e /\ s1 = sz /\ u1 = false) \/
    (B !! a = Some (s1, u1) /\ HEAP_BASE <= a /\ a + s1 <= e /\ 48 <= s1)) as Hlk.
  { intros a s1 u1. destruct (decide (a = e)) as [->|Hne].
    - rewrite lookup_insert_eq. intros [= <- <-]. by left.
    - rewrite lookup_insert_ne by done. intros Ha. right. split; [done|].
      destruct (bo_range _ _ _ Hb _ _ _ Ha) as (? & ? & ? & _). lia. }
  split; [| | | |split; [lia|zlia]].
  - intros a s1 u1 [(-> & -> & _)|(Ha & _)]%Hlk; [lia|].
    destruct (bo_range _ _ _ Hb a s1 u1 Ha) as (? & ? & ? & ? & ?). lia.
  - intros a s1 u1 [(-> & -> & ->)|(Ha & ? & ? & ?)]%Hlk; [apply sized_words; lia|].
    destruct (bo_words _ _ _ Hb a s1 u1 Ha) as [Hw Hf]. rewrite <- Hw at 1. rewrite <- Hf.
    split; apply load64_same; intros x Hx; apply sized_other; lia.
  - intros a a' s1 u1 s2 u2 [(-> & -> & _)|(Ha & ? & ? & ?)]%Hlk [(-> & -> & _)|(Ha' & ? & ? & ?)]%Hlk Hne;
      [done|lia|lia|]. by apply (bo_disj _ _ _ Hb a a' s1 u1 s2 u2).
  - intros a s1 u1 [(-> & -> & _)|(Ha & _)]%Hlk; [by left|right].
    destruct (bo_next _ _ _ Hb a s1 u1 Ha) as [->|Hs]; [by rewrite lookup_insert_eq|].
    apply lookup_insert_is_Some'. by right.
Qed.
End tiling.

(** ** The invariant *)

(** The size of the block in use at [a]. *)
Definition used (B : blocks) (a : Z) : option Z :=
  match B !! a with Some (sz, true) => Some sz | _ => None end.

Lemma used_Some B a sz : used B a = Some sz <-> B !! a = Some (sz, true).
Proof. unfold used. destruct (B !! a) as [[s []]|]; naive_solver. Qed.

(** The contents of the blocks in use are the same. *)
Definition keeps (B : blocks) (m m' : mem) : Prop :=
  forall a sz, used B a = Some sz -> same_on (a + 24) (a + sz - 8) m m'.

Record heap_core (B : blocks) (fl : list Z) (s : heap) : Prop := {
  hc_blocks : blocks_ok (kmem s) B (heap_end s);
  hc_chain : chain_ok (kmem s) B fl;
  hc_head : free_list s = hd 0 fl;
  hc_all : forall a sz, B !! a = Some (sz, false) -> a ∈ fl;
  hc_mem : mem_ok (kmem s)
}.

(** The frames behind the heap: [H] are in use, as many as the heap has pages,
    and every heap address is mapped. *)
Record heap_vm (R H : gset Z) (e : Z) (v : vm) : Prop := {
  hv_pt : pt_inv (vm_pmm v) (ram v) R;
  hv_root : current_pml4 v ∈ R;
  hv_huge : forall w, heap_va w -> no_huge (ram v) (current_pml4 v) w;
  hv_frames : forall f, f ∈ H -> 0 < f < total_frames (vm_pmm v) /\ frame_free (vm_pmm v) f = false;
  hv_size : e = HEAP_BASE + 4096 * Z.of_nat (size H);
  hv_mapped : forall w, HEAP_BASE <= w < e -> translate (ram v) (current_pml4 v) w <> 0
}.

Definition heap_inv (R H : gset Z) (B : blocks) (fl : list Z) (s : heap) : Prop :=
  heap_vm R H (heap_end s) (hp_vm s) /\ heap_core B fl s.

Lemma no_links_used B m e a sz x :
  blocks_ok m B e -> used B a = Some sz -> a + 24 <= x < a + sz - 8 -> no_links B x.
Proof.
  intros Hb Ha%used_Some Hx b szb Hbb Hr. destruct (decide (a = b)) as [->|Hne]; [congruence|].
  destruct (bo_range _ _ _ Hb b szb false Hbb) as (_ & _ & ? & _).
  destruct (bo_disj _ _ _ Hb a b _ _ _ _ Ha Hbb Hne); lia.
Qed.

Lemma keeps_links B m m' e :
  blocks_ok m B e -> (forall x, no_links B x -> m' x = m x) -> keeps B m m'.
Proof.
  intros Hb Hf a sz Ha x Hx. symmetry. apply Hf. by eapply no_links_used.
Qed.
Lemma keeps_trans B m1 m2 m3 : keeps B m1 m2 -> keeps B m2 m3 -> keeps B m1 m3.
Proof. intros H1 H2 a sz Ha x Hx. by rewrite (H1 a sz Ha x Hx), (H2 a sz Ha x Hx). Qed.

(** Writing the size words of a free block, or of a block's own header, keeps
    the contents of the blocks in use elsewhere. *)
Lemma keeps_sized B m m0 e h sz u sz' u' :
  blocks_ok m0 B e -> B !! h = Some (sz, u) -> 16 <= sz' <= sz ->
  (forall a s, used B a = Some s -> a <> h) -> keeps B m (sized m h sz' u').
Proof.
  intros Hb Hh Hsz Hne a s Ha x Hx. symmetry. apply sized_other; [lia|].
  pose proof (Hne a s Ha). apply used_Some in Ha.
  destruct (bo_range _ _ _ Hb a s true Ha) as (_ & _ & ? & _).
  destruct (bo_disj _ _ _ Hb a h _ _ _ _ Ha Hh); [done|lia|lia].
Qed.

Lemma free_not_used (B : blocks) h sz : B !! h = Some (sz, false) -> forall a s, used B a = Some s -> a <> h.
Proof. intros Hh a s Ha%used_Some ->. congruence. Qed.

(** The links of other free blocks are outside the words set_size() writes. *)
Lemma sized_links B m e h sz u sz' u' x :
  blocks_ok m B e -> B !! h = Some (sz, u) -> 16 <= sz' <= sz ->
  (exists s, B !! x = Some (s, false)) -> x <> h -> forall m1,
  same_on (x + 8) (x + 24) m1 (sized m1 h sz' u').
Proof.
  intros Hb Hh Hsz [s Hx] Hne m1 a Ha. symmetry. apply sized_other; [lia|].
  destruct (bo_range _ _ _ Hb x s false Hx) as (_ & _ & ? & _).
  destruct (bo_disj _ _ _ Hb x h _ _ _ _ Hx Hh Hne); lia.
Qed.

(** ** Taking a block from the free list *)

#[local] Opaque store64 load64.

Lemma mem_ok_store64 m a v : mem_ok m -> mem_ok (store64 m a v).
Proof. apply (mem_ok_store_le 8). Qed.

(** [h] is off the chain and still free: the state take_block() works on. *)
Section take.
Context {B : blocks} {fl : list Z} {h sz : Z} {s : heap}.
Hypothesis Hb : blocks_ok (kmem s) B (heap_end s).
Hypothesis Hc : chain_ok (kmem s) B fl.
Hypothesis Hhd : free_list s = hd 0 fl.
Hypothesis Hm : mem_ok (kmem s).
Hypothesis Hh : B !! h = Some (sz, false).
Hypothesis Hnh : h ∉ fl.
Hypothesis Hall : forall a s1, B !! a = Some (s1, false) -> a <> h -> a ∈ fl.

Lemma take_range :
  HEAP_BASE <= h /\ h + sz <= heap_end s /\ 48 <= sz /\ sz mod 8 = 0 /\
  heap_end s <= HEAP_BASE + 2^39 /\ HEAP_BASE + 2^39 < 2^64 /\ 0 < HEAP_BASE.
Proof.
  destruct (bo_range _ _ _ Hb h sz false Hh) as (? & ? & ? & ? & ?).
  destruct (bo_top _ _ _ Hb) as [? _]. pose proof HEAP_TOP_bound. pose proof HEAP_BASE_pos. lia.
Qed.

Lemma take_apart x s1 u : B !! x = Some (s1, u) -> x <> h -> 48 <= s1 /\ (x + s1 <= h \/ h + sz <= x).
Proof.
  intros Hx Hne. split; [by apply (bo_range _ _ _ Hb x s1 u)|]. by apply (bo_disj _ _ _ Hb x h s1 u sz false).
Qed.
Lemma take_chain_ne x : x ∈ fl -> x <> h.
Proof. by intros Hx ->. Qed.

(** The block is used whole. *)
Lemma take_whole E (Q : unit -> heap -> Prop) :
  (forall B', heap_core B' fl (set_kmem (sized (kmem s) h sz true) s) ->
     (forall a, used B' a = if decide (a = h) then Some sz else used B a) ->
     keeps B (kmem s) (sized (kmem s) h sz true) ->
     Q tt (set_kmem (sized (kmem s) h sz true) s)) ->
  wp E (set_size h sz true) s Q.
Proof.
  intros HQ. pose proof take_range. apply set_size_ok; [lia..|].
  apply (HQ (<[h := (sz, true)]> B)).
  - split; cbn; [by eapply blocks_retag| |done| |by apply mem_ok_sized].
    + apply (chain_ok_frame (kmem s) _ B); [done|]. intros x Hx. destruct (co_free _ _ _ Hc x Hx) as [sx Hsx].
      split; [eapply (sized_links B); [done|done|lia|by eexists|by apply take_chain_ne]|].
      exists sx. rewrite lookup_insert_ne; [done|]. intros <-. by apply Hnh.
    + intros a s1. destruct (decide (a = h)) as [->|Hne]; [by rewrite lookup_insert_eq|].
      rewrite lookup_insert_ne by done. intros Ha. by apply (Hall a s1).
  - intros a. unfold used. case_decide as Hd; [subst a; by rewrite lookup_insert_eq|].
    by rewrite lookup_insert_ne by done.
  - eapply (keeps_sized B); [done|done|lia|]. by eapply free_not_used.
Qed.

Context (size : Z).
Hypothesis Hsize : 48 <= size.
Hypothesis H8 : size mod 8 = 0.
Hypothesis Hleft : 48 <= sz - size.

Let rest : Z := h + size.
Let B2 : blocks := <[rest := (sz - size, false)]> (<[h := (size, true)]> B).
Let m2 : mem := sized (sized (kmem s) h size true) rest (sz - size) false.
Let m3 : mem := store64 (store64 m2 (rest + 16) 0) (rest + 8) 0.

Lemma split_blocks : blocks_ok m2 B2 (heap_end s) /\ B !! rest = None.
Proof. by apply (blocks_split Hb h sz false size true). Qed.
Lemma split_rest : B2 !! rest = Some (sz - size, false).
Proof. apply lookup_insert_eq. Qed.
Lemma split_lookup a : a <> rest -> a <> h -> B2 !! a = B !! a.
Proof. intros. unfold B2. by rewrite !lookup_insert_ne by done. Qed.
Lemma split_old_ne x s1 u : B !! x = Some (s1, u) -> x <> rest.
Proof. intros Hx ->. destruct split_blocks. congruence. Qed.

Lemma split_m2_other x : x < h \/ h + sz <= x -> m2 x = kmem s x.
Proof. intros Hx. pose proof take_range. unfold m2, rest. rewrite !sized_other by lia. done. Qed.
Lemma split_m3_other x : no_links B2 x -> m3 x = m2 x.
Proof. intros Hx. pose proof (Hx rest _ split_rest). unfold m3. rewrite !store64_other by lia. done. Qed.

Lemma split_chain : chain_ok m3 B2 fl.
Proof.
  apply (chain_ok_frame (kmem s) _ B); [done|]. intros x Hx. destruct (co_free _ _ _ Hc x Hx) as [sx Hsx].
  destruct (take_apart x sx false Hsx (take_chain_ne x Hx)). pose proof take_range. split.
  - intros a Ha. unfold m3. rewrite !store64_other by (unfold rest; lia). rewrite split_m2_other by lia. done.
  - exists sx. rewrite split_lookup; [done| |by apply take_chain_ne]. by eapply split_old_ne.
Qed.
Lemma split_rest_new : rest ∉ fl.
Proof. intros Hin. destruct (co_free _ _ _ Hc rest Hin) as [? Hx]. by apply split_old_ne in Hx. Qed.

(** The block is split and the rest goes back on the free list. *)
Lemma take_split E (Q : unit -> heap -> Prop) :
  (forall B' fl' s', heap_core B' fl' s' ->
     (forall a, used B' a = if decide (a = h) then Some size else used B a) ->
     keeps B (kmem s) (kmem s') -> hp_vm s' = hp_vm s -> heap_end s' = heap_end s -> Q tt s') ->
  wp E (set_size h size true;;
        rest ← next_block h;
        set_size rest (sz - size) false;;
        hwr (next_field rest) 0;;
        hwr (prev_field rest) 0;;
        free_list_insert rest) s Q.
Proof.
  intros HQ. pose proof take_range. destruct split_blocks as [Hb2 Hnone].
  wp_step. apply set_size_ok; [lia..|]. wp_step. unfold next_block. wp_step.
  eapply (blk_size_ok E h size true); [apply in_heap_true; lia|apply sized_words; lia|lia|done|].
  wp_step. fold rest. wp_step. apply set_size_ok; [unfold rest; lia..|zlia|].
  cbn [set_kmem kmem hp_vm free_list heap_end]. fold m2.
  wp_step. unfold next_field. apply hwr_ok; [eapply (block_in_heap m2 B2); (apply split_rest || done || lia)|].
  wp_step. unfold prev_field. apply hwr_ok; [eapply (block_in_heap m2 B2); (apply split_rest || done || lia)|].
  cbn [set_kmem kmem hp_vm free_list heap_end]. fold m3.
  pose proof (blocks_ok_frame _ _ _ _ Hb2 split_m3_other) as Hb3.
  pose proof (inserted_chain Hb3 split_chain split_rest split_rest_new) as Hc4.
  pose proof (inserted_other Hb3 split_chain split_rest split_rest_new) as Hf4.
  apply (free_list_insert_ok (e := heap_end s) Hb3 split_chain split_rest split_rest_new); [done|done|].
  apply (HQ B2 (rest :: fl)); [| | |done|done].
  - split; [exact (blocks_ok_frame _ _ _ _ Hb3 Hf4)|exact Hc4|done| |].
    + intros a s1. destruct (decide (a = rest)) as [->|Hne]; [left|]. destruct (decide (a = h)) as [->|Hne'].
      { unfold B2. rewrite lookup_insert_ne, lookup_insert_eq by done. done. }
      rewrite split_lookup by done. intros Ha. right. by apply (Hall a s1).
    + apply mem_ok_inserted, mem_ok_store64, mem_ok_store64, mem_ok_sized, mem_ok_sized, Hm.
  - intros a. unfold used. case_decide as Hd; [subst a|].
    + unfold B2. rewrite lookup_insert_ne by (unfold rest; lia). by rewrite lookup_insert_eq.
    + destruct (decide (a = rest)) as [->|Hne]; [by rewrite split_rest, Hnone|by rewrite split_lookup].
  - intros a s1 Ha x Hx. cbn [kmem]. symmetry. pose proof (free_not_used B h sz Hh a s1 Ha) as Hah.
    assert (used B2 a = Some s1) as Ha2.
    { apply used_Some in Ha as Ha'. apply used_Some. rewrite split_lookup; [done| |done]. by eapply split_old_ne. }
    rewrite Hf4, split_m3_other by (by eapply (no_links_used B2)). apply used_Some in Ha.
    destruct (take_apart a s1 true Ha Hah). apply split_m2_other. lia.
Qed.
End take.

Lemma take_block_ok E B fl s h sz size (Q : Z -> heap -> Prop) :
  heap_core B fl s -> B !! h = Some (sz, false) -> 48 <= size <= sz -> size mod 8 = 0 ->
  (forall B' fl' n s', heap_core B' fl' s' -> size <= n ->
     (forall a, used B' a = if decide (a = h) then Some n else used B a) ->
     keeps B (kmem s) (kmem s') -> hp_vm s' = hp_vm s -> heap_end s' = heap_end s ->
     Q (h + 24) s') ->
  wp E (take_block h size) s Q.
Proof.
  intros [Hb Hc Hhd Hall Hm] Hh Hsize H8 HQ.
  assert (exists l1 l2, fl = l1 ++ h :: l2) as (l1 & l2 & ->) by (apply list_elem_of_split, (Hall h sz Hh)).
  unfold take_block. wp_step. apply (free_list_remove_ok Hb Hc); [done|done|].
  pose proof (unlinked_chain Hb Hc) as Hc1. pose proof (unlinked_other Hb Hc) as Hf1.
  pose proof (blocks_ok_frame _ _ _ _ Hb Hf1) as Hb1. pose proof (keeps_links _ _ _ _ Hb Hf1) as Hk1.
  pose proof (mem_ok_unlinked _ l1 l2 h Hm) as Hm1.
  set (m1 := unlinked (kmem s) l1 l2 h) in *. set (s1 := Heap _ _ _ _).
  assert (h ∉ l1 ++ l2) as Hnh by (intros Hx; by apply (chain_elem Hc) in Hx as [_ ?]).
  assert (forall a s2, B !! a = Some (s2, false) -> a <> h -> a ∈ l1 ++ l2) as Hall1.
  { intros a s2 Ha Hne. pose proof (Hall a s2 Ha) as Hin. rewrite elem_of_app, elem_of_cons in Hin.
    apply elem_of_app. tauto. }
  pose proof (take_range (s := s1) Hb1 Hh).
  wp_step. apply (block_size_ok E (kmem s1) B (heap_end s) h sz false); [done..|].
  rewrite u64_small by lia. change MIN_BLOCK with 48. wp_step.
  destruct (Z.leb_spec 48 (sz - size)) as [Hsplit|_].
  - apply (take_split (s := s1) Hb1 Hc1 eq_refl Hm1 Hh Hnh Hall1 size); [lia|done|lia|].
    intros B' fl' s' Hcore Hused Hk Hv He. wp_step.
    apply (HQ B' fl' size s'); [done|lia|done|by eapply keeps_trans|done|done].
  - wp_step. apply (block_size_ok E (kmem s1) B (heap_end s) h sz false); [done..|].
    apply (take_whole (s := s1) Hb1 Hc1 eq_refl Hm1 Hh Hnh Hall1). intros B' Hcore Hused Hk. wp_step.
    eapply (HQ B' _ sz); [exact Hcore|lia|done|by eapply keeps_trans|done|done].
Qed.

(** ** The first-fit search *)

(** The free list fits the fuel of the search. *)
Lemma chain_length m B e fl :
  blocks_ok m B e -> chain_ok m B fl -> (length fl <= Z.to_nat ((e - HEAP_BASE) / 48))%nat.
Proof.
  intros Hb Hc. set (f := fun x => (x - HEAP_BASE) / 48).
  assert (NoDup (f <$> fl)) as Hnd.
  { apply NoDup_fmap_2_strong; [|apply Hc]. intros x y Hx Hy Hf. destruct (decide (x = y)); [done|].
    destruct (free_sep Hb x y); [by apply (co_free _ _ _ Hc)..|done| |]; unfold f in Hf; zlia. }
  rewrite <- (length_fmap f), <- (length_seqZ 0 ((e - HEAP_BASE) / 48)).
  apply submseteq_length, NoDup_submseteq; [done|]. intros y (x & -> & Hx)%list_elem_of_fmap.
  destruct (co_free _ _ _ Hc x Hx) as [sz Hsz].
  destruct (bo_range _ _ _ Hb x sz false Hsz) as (? & ? & ? & _).
  apply elem_of_seqZ. unfold f. zlia.
Qed.

Lemma first_fit_ok E B fl s size (Q : option Z -> heap -> Prop) :
  heap_core B fl s -> 48 <= size -> size mod 8 = 0 ->
  (forall h sz B' fl' n s', B !! h = Some (sz, false) -> heap_core B' fl' s' -> size <= n ->
     (forall a, used B' a = if decide (a = h) then Some n else used B a) ->
     keeps B (kmem s) (kmem s') -> hp_vm s' = hp_vm s -> heap_end s' = heap_end s ->
     Q (Some (h + 24)) s') ->
  ((forall a sz, B !! a = Some (sz, false) -> sz < size) -> Q None s) ->
  wp E (first_fit size) s Q.
Proof.
  intros Hcore Hsize H8 Hfound Hnone. pose proof Hcore as [Hb Hc Hhd Hall Hm].
  unfold first_fit. do 2 wp_step. do 2 wp_step. rewrite Hhd.
  pose proof (chain_length _ _ _ _ Hb Hc) as Hlen.
  assert (length fl < search_fuel s)%nat as Hfuel by (unfold search_fuel; change MIN_BLOCK with 48; lia).
  assert (forall l2 l1 fuel, fl = l1 ++ l2 -> (length l2 < fuel)%nat ->
    (forall x sz, x ∈ l1 -> B !! x = Some (sz, false) -> sz < size) ->
    wp E (iter fuel (fun h => if nonzero h then
      sz ← blk_size h;
      if size <=? sz then p ← take_block h size; mret (inr (Some p))
      else next ← hrd (next_field h); mret (inl next)
    else mret (inr None)) (hd 0 l2)) s Q) as Hgen; [|by apply (Hgen fl []); [..|by intros ?? ?%not_elem_of_nil]].
  clear Hfuel. induction l2 as [|h l2 IH]; intros l1 [|fuel] Hfl Hf Hlt; cbn [length] in Hf; try lia;
    cbn [iter hd]; wp_step.
  - change (nonzero 0) with false. cbn iota. wp_step. wp_step. apply Hnone. intros a sz Ha. apply (Hlt a); [|done].
    rewrite <- (app_nil_r l1), <- Hfl. by apply (Hall a sz).
  - assert (h ∈ fl) as Hin by (rewrite Hfl; apply elem_of_app; right; by left).
    destruct (co_free _ _ _ Hc h Hin) as [sz Hsz].
    rewrite nonzero_pos by (apply (free_pos Hb); by eexists).
    wp_step. apply (block_size_ok E (kmem s) B (heap_end s) h sz false); [done..|].
    destruct (Z.leb_spec size sz).
    + wp_step. apply (take_block_ok E B fl s h sz); [done|done|lia|done|].
      intros B' fl' n s' ??????. wp_step. wp_step. by apply (Hfound h sz B' fl' n s').
    + wp_step. unfold next_field. apply hrd_ok; [apply (free_in_heap Hb); [by eexists|lia]|].
      pose proof (co_seg _ _ _ Hc) as Hseg. rewrite Hfl in Hseg.
      apply dseg_app in Hseg as [_ (_ & -> & _)]. wp_step.
      apply (IH (l1 ++ [h])); [by rewrite <- app_assoc|lia|].
      intros x sx [Hx| ->%list_elem_of_singleton]%elem_of_app Hsx; [by apply (Hlt x)|congruence].
Qed.

(** ** Growing the heap *)

Lemma frames_bound (H : gset Z) (n : Z) :
  0 <= n -> (forall f, f ∈ H -> 0 <= f < n) -> Z.of_nat (size H) <= n.
Proof.
  intros Hn Hf. assert (H ⊆ list_to_set (seqZ 0 n)) as Hs.
  { intros f Hin. apply elem_of_list_to_set, elem_of_seqZ. specialize (Hf f Hin). lia. }
  apply subseteq_size in Hs. rewrite size_list_to_set in Hs by apply NoDup_seqZ.
  rewrite length_seqZ in Hs. lia.
Qed.

Lemma heap_vm_range R H e v : heap_vm R H e v -> HEAP_BASE <= e <= HEAP_BASE + 2^32 /\ e mod 4096 = 0.
Proof.
  intros Hv. pose proof (hv_size _ _ _ _ Hv) as ->. pose proof (wf_total _ (pt_pmm _ _ _ (hv_pt _ _ _ _ Hv))).
  assert (Z.of_nat (size H) <= total_frames (vm_pmm v)) as Hs.
  { apply frames_bound; [lia|]. intros f Hf. pose proof (hv_frames _ _ _ _ Hv f Hf). lia. }
  unfold MAX_FRAMES in *. split; [lia|]. pose proof HEAP_BASE_page. zlia.
Qed.

Lemma heap_page_vpn e w : HEAP_BASE <= e -> e mod 4096 = 0 -> e <= w < e + 4096 -> vpn w = vpn e.
Proof. intros. unfold vpn. f_equal. zlia. Qed.

(** One more page behind the heap, backed by the frame just allocated. *)
Lemma map_heap_page_ok R H e v f p' :
  heap_vm R H e v -> allocated (vm_pmm v) f p' ->
  safe (vmm_map e f 3) (Vm p' (ram v) (current_pml4 v) (cr3 v)) (fun _ v' =>
    heap_vm R ({[f / 4096]} ∪ H) (e + 4096) v' /\ vm_step R v v').
Proof.
  intros Hv Hal. pose proof Hv as [Hpt Hroot Hhuge Hfr Hsz Hmap].
  destruct (heap_vm_range _ _ _ _ Hv) as [Hr He].
  destruct (allocated_page _ _ _ (pt_pmm _ _ _ Hpt) Hal) as ((Hfa & Hfb & Hfu) & Hff & Htot & _ & Hkeep).
  set (v1 := Vm p' _ _ _).
  pose proof (fresh_inv R v f p' (ram v) Hpt Hal (fun a _ => eq_refl) (pt_mem _ _ _ Hpt)) as Hpt1.
  pose proof (fresh_ext R v f p' (ram v) Hpt Hal (fun a _ => eq_refl)) as [Hst1 _ _].
  assert (heap_va e) as Hva by (unfold heap_va; lia).
  apply wp_vmm_map. eapply wp_mono; [apply (map_in_pml4_ok R (current_pml4 v) e f 3 v1 Hpt1 Hroot (Hhuge e Hva)); lia|].
  intros _ v' [Hpt' Hst' Hpg _]. assert (vm_step R v v') as Hst by by etrans.
  split; [|done]. destruct (vs_regs _ _ _ Hst) as [Hreg _]. split.
  - done.
  - by rewrite Hreg.
  - intros w Hw. rewrite Hreg. apply (no_huge_step R v v' _ w Hst Hroot), Hhuge, Hw.
  - intros g [->%elem_of_singleton|Hg]%elem_of_union; rewrite (vs_total _ _ _ Hst).
    + destruct (allocated_counts _ _ _ (pt_pmm _ _ _ Hpt) Hal) as (_ & _ & Hrg & _).
      split; [exact Hrg|]. apply (vs_used _ _ _ Hst'); [zlia|done].
    + destruct (Hfr g Hg) as [? Hu]. split; [done|]. apply (vs_used _ _ _ Hst); [lia|done].
  - rewrite size_union, size_singleton by (apply disjoint_singleton_l; intros Hin;
      destruct (Hfr _ Hin); congruence). lia.
  - intros w Hw. rewrite Hreg, Hpg. destruct (Z.eqb_spec (vpn w) (vpn e)) as [Hq|Hq].
    + rewrite entry_phys_value by lia. zlia.
    + apply Hmap. destruct (decide (w < e)); [lia|]. destruct Hq. apply heap_page_vpn; lia.
Qed.

Lemma map_pages_ok R H s base msg n len :
  heap_vm R H base (hp_vm s) -> len = 4096 * Z.of_nat n ->
  safe (map_pages base len msg) s (fun _ s' =>
    kmem s' = kmem s /\ free_list s' = free_list s /\ heap_end s' = heap_end s /\
    exists H', H ⊆ H' /\ heap_vm R H' (base + len) (hp_vm s') /\ vm_step R (hp_vm s) (hp_vm s')).
Proof.
  intros Hv Hlen. unfold map_pages. wp_step.
  replace (Z.to_nat (len / PAGE_SIZE)) with n by (unfold PAGE_SIZE; zlia).
  set (I := fun (k : nat) s' =>
    kmem s' = kmem s /\ free_list s' = free_list s /\ heap_end s' = heap_end s /\
    exists H', H ⊆ H' /\ heap_vm R H' (base + 4096 * Z.of_nat k) (hp_vm s') /\ vm_step R (hp_vm s) (hp_vm s')).
  apply (wp_for_n _ I).
  - split_and!; [done..|]. exists H. split_and!; [done| |done]. by rewrite Z.mul_0_r, Z.add_0_r.
  - intros k s1 Hk (Hm & Hf & He & H1 & Hsub & Hv1 & Hst). wp_step. apply wp_zoom, wp_zoom.
    apply wp_pmm_alloc; [apply (hv_pt _ _ _ _ Hv1)|done|]. intros f p' _ Hal.
    destruct (allocated_page _ _ _ (pt_pmm _ _ _ (hv_pt _ _ _ _ Hv1)) Hal) as ((_ & ? & _) & _).
    replace (f =? 0) with false by blia. wp_step. apply wp_zoom.
    destruct (heap_vm_range _ _ _ _ Hv1) as [Hr _]. pose proof HEAP_TOP_bound. pose proof HEAP_BASE_pos.
    replace (u64 (base + (0 + Z.of_nat k * PAGE_SIZE))) with (base + 4096 * Z.of_nat k)
      by (unfold PAGE_SIZE; rewrite u64_small; lia).
    change (Z.lor VMM_FLAG_PRESENT VMM_FLAG_WRITE) with 3.
    eapply wp_mono; [apply (map_heap_page_ok R H1 _ (hp_vm s1) f p' Hv1 Hal)|].
    intros _ v' [Hv' Hst']. wp_step. split_and!; [done..|]. exists ({[f / 4096]} ∪ H1). cbn.
    split_and!; [by apply union_subseteq_r'|by replace (base + 4096 * Z.of_nat (S k)) with (base + 4096 * Z.of_nat k + 4096) by lia|by etrans].
  - intros s1 (Hm & Hf & He & H1 & Hsub & Hv1 & Hst). wp_step. split_and!; [done..|].
    exists H1. rewrite Hlen. by split_and!.
Qed.

(** The block behind the old end: where heap_expand() leaves the heap. *)
Lemma expand_core B fl s len v :
  heap_core B fl s -> 48 <= len -> len mod 8 = 0 -> heap_end s + len <= HEAP_BASE + 2^39 ->
  forall E (Q : unit -> heap -> Prop),
  (forall s', heap_core (<[heap_end s := (len, false)]> B) (heap_end s :: fl) s' ->
     B !! heap_end s = None -> keeps B (kmem s) (kmem s') -> hp_vm s' = v ->
     heap_end s' = heap_end s + len -> Q tt s') ->
  wp E (set_size (heap_end s) len false;;
        hwr (next_field (heap_end s)) 0;;
        hwr (prev_field (heap_end s)) 0;;
        modify (fun s' => set_heap_end (u64 (heap_end s' + len)) s');;
        free_list_insert (heap_end s)) (Heap v (kmem s) (free_list s) (heap_end s)) Q.
Proof.
  intros [Hb Hc Hhd Hall Hm] Hlen H8 Htop E Q HQ. set (h := heap_end s) in *.
  destruct (bo_top _ _ _ Hb) as [? ?]. pose proof HEAP_TOP_bound. pose proof HEAP_BASE_pos.
  destruct (blocks_grow Hb len Hlen H8 Htop) as [Hb1 Hnone].
  set (B1 := <[h := (len, false)]> B) in *. set (m1 := sized (kmem s) h len false) in *.
  assert (B1 !! h = Some (len, false)) as Hh by apply lookup_insert_eq.
  assert (forall x sx u, B !! x = Some (sx, u) -> B1 !! x = Some (sx, u)) as Hold.
  { intros x sx u Hx. unfold B1. rewrite lookup_insert_ne; [done|]. intros ->. congruence. }
  wp_step. apply set_size_ok; [lia|lia|lia|done|]. cbn [set_kmem kmem hp_vm free_list heap_end]. fold m1.
  wp_step. unfold next_field. apply hwr_ok; [apply in_heap_true; lia|].
  wp_step. unfold prev_field. apply hwr_ok; [apply in_heap_true; lia|].
  wp_step. wp_step. cbn [set_kmem set_heap_end kmem hp_vm free_list heap_end].
  rewrite u64_small by lia. set (m2 := store64 (store64 m1 (h + 16) 0) (h + 8) 0).
  assert (forall x, x < h -> m2 x = kmem s x) as Hlow.
  { intros x Hx. unfold m2, m1. rewrite !store64_other, sized_other by lia. done. }
  assert (blocks_ok m2 B1 (h + len)) as Hb2.
  { apply (blocks_ok_frame m1); [done|]. intros x Hx. pose proof (Hx h len Hh). unfold m2.
    rewrite !store64_other by lia. done. }
  assert (chain_ok m2 B1 fl) as Hc2.
  { apply (chain_ok_frame (kmem s) _ B); [done|]. intros x Hx. destruct (co_free _ _ _ Hc x Hx) as [sx Hsx].
    destruct (bo_range _ _ _ Hb x sx false Hsx) as (_ & ? & ? & _).
    split; [intros a Ha; symmetry; apply Hlow; lia|]. exists sx. by apply Hold. }
  assert (h ∉ fl) as Hnew by (intros Hin; destruct (co_free _ _ _ Hc h Hin); congruence).
  apply (free_list_insert_ok (e := h + len) Hb2 Hc2 Hh Hnew); [done|done|].
  pose proof (inserted_other Hb2 Hc2 Hh Hnew) as Hf3.
  apply HQ; [|done| |done|done].
  - split; [exact (blocks_ok_frame _ _ _ _ Hb2 Hf3)|exact (inserted_chain Hb2 Hc2 Hh Hnew)|done| |].
    + intros a sz. unfold B1. destruct (decide (a = h)) as [->|Hne]; [by left|].
      rewrite lookup_insert_ne by done. intros Ha. right. by apply (Hall a sz).
    + apply mem_ok_inserted, mem_ok_store64, mem_ok_store64, mem_ok_sized, Hm.
  - intros a sz Ha x Hx. cbn [kmem]. symmetry. apply used_Some in Ha.
    destruct (bo_range _ _ _ Hb a sz true Ha) as (_ & ? & ? & _).
    rewrite Hf3; [apply Hlow; lia|]. eapply (no_links_used B1); [exact Hb2| |exact Hx].
    apply used_Some. by apply Hold.
Qed.

Lemma heap_expand_ok R H B fl s extra :
  heap_inv R H B fl s -> 0 < extra <= 2^64 - 4096 ->
  safe (heap_expand extra) s (fun _ s' => exists H' len,
    extra <= len /\ B !! heap_end s = None /\
    heap_inv R H' (<[heap_end s := (len, false)]> B) (heap_end s :: fl) s' /\ H ⊆ H' /\
    keeps B (kmem s) (kmem s') /\ vm_step R (hp_vm s) (hp_vm s')).
Proof.
  intros [Hv Hcore] Hex. pose proof (ALIGN_UP_page_bounds extra ltac:(lia)) as Hal.
  assert (ALIGN_UP extra PAGE_SIZE mod 4096 = 0) as Hmod by (rewrite ALIGN_UP_page; zlia).
  unfold heap_expand. do 2 wp_step. set (len := ALIGN_UP extra PAGE_SIZE) in *. wp_step.
  eapply wp_mono; [apply (map_pages_ok R H s (heap_end s) _ (Z.to_nat (len / 4096)) len Hv); zlia|].
  intros _ [v m f e] (Hm & Hf & He & H' & Hsub & Hv' & Hst). cbn in Hm, Hf, He, Hv', Hst. subst m f e.
  destruct (heap_vm_range _ _ _ _ Hv') as [Hr _]. pose proof HEAP_BASE_pos.
  apply (expand_core B fl s len v Hcore); [zlia|zlia|lia|].
  intros s' Hc' Hnone Hk Hhv He. exists H', len. split_and!; [lia|done| |done|done|by rewrite Hhv].
  split; [by rewrite He, Hhv|done].
Qed.

(** ** kmalloc *)

Lemma block_size_bounds size :
  0 <= size <= 2^63 -> 48 <= block_size size <= size + 48 /\ size + 32 <= block_size size /\ block_size size mod 8 = 0.
Proof.
  intros Hs. unfold block_size, ALIGN8, SIZEOF_HEADER, SIZEOF_FOOTER. change MIN_BLOCK with 48.
  rewrite ALIGN_UP_8, (u64_small (size + 24 + 8)), u64_small by lia.
  destruct (Z.ltb_spec ((size + 24 + 8 + 7) / 8 * 8) 48); zlia.
Qed.

(** What an allocation of [size] bytes at [p] does. *)
Definition allocates (R H : gset Z) (B : blocks) (s : heap) (size p : Z) (s' : heap) : Prop :=
  exists h n H' B' fl', p = h + 24 /\ size + 32 <= n /\ used B h = None /\
    heap_inv R H' B' fl' s' /\ H ⊆ H' /\
    (forall a, used B' a = if decide (a = h) then Some n else used B a) /\
    keeps B (kmem s) (kmem s') /\ vm_step R (hp_vm s) (hp_vm s').

Lemma kmalloc_n_ok k R H B fl s size :
  heap_inv R H B fl s -> 0 < size -> size + 48 * Z.of_nat k <= 2^62 + 48 ->
  (k = O -> exists a sz, B !! a = Some (sz, false) /\ block_size size <= sz) ->
  safe (kmalloc_n k size) s (allocates R H B s size).
Proof.
  revert H B fl s size. induction k as [|k IH]; intros H B fl s size Hinv Hpos Hsize Hfit;
    pose proof Hinv as [Hv Hcore]; destruct (block_size_bounds size ltac:(lia)) as (Hbs & Hbs2 & Hbs8).
  all: cbn [kmalloc_n]; replace (size =? 0) with false by blia; cbn zeta.
  all: wp_step; apply (first_fit_ok _ B fl s (block_size size) _ Hcore); [lia|done| |].
  1, 3: intros h sz B' fl' n s' Hh Hc' Hn Hu Hk Hhv He; wp_step; exists h, n, H, B', fl';
    split_and!; [done|lia|by unfold used; rewrite Hh|split; [by rewrite He, Hhv|done]|done|done|done|by rewrite Hhv].
  - intros Hno. destruct (Hfit eq_refl) as (a & sz & Ha & Hle). specialize (Hno a sz Ha). lia.
  - intros _. wp_step. rewrite u64_small by (unfold PAGE_SIZE; lia).
    eapply wp_mono; [apply (heap_expand_ok R H B fl s); [done|unfold PAGE_SIZE; lia]|].
    intros _ s1 (H1 & len & Hlen & Hnone & Hinv1 & Hsub1 & Hk1 & Hst1). unfold PAGE_SIZE in Hlen.
    destruct (block_size_bounds (block_size size) ltac:(lia)) as (Hc1 & Hc2 & _).
    assert (forall a, used (<[heap_end s := (len, false)]> B) a = used B a) as Hused.
    { intros a. unfold used. destruct (decide (a = heap_end s)) as [->|Hne].
      - by rewrite lookup_insert_eq, Hnone.
      - by rewrite lookup_insert_ne by done. }
    eapply wp_mono; [eapply (IH H1 _ _ s1 (block_size size) Hinv1); [lia|lia|]|].
    + intros _. exists (heap_end s), len. rewrite lookup_insert_eq. split; [done|lia].
    + intros p s2 (h & n & H2 & B2 & fl2 & -> & Hn & Hu & Hinv2 & Hsub2 & Hused2 & Hk2 & Hst2).
      exists h, n, H2, B2, fl2. split_and!; [done|lia|by rewrite <- Hused|done|by etrans| | |by etrans].
      * intros a. by rewrite Hused2, Hused.
      * eapply keeps_trans; [done|]. intros a sz Ha. apply Hk2. by rewrite Hused.
Qed.

Lemma kmalloc_ok R H B fl s size :
  heap_inv R H B fl s -> 0 < size <= 2^62 -> safe (kmalloc size) s (allocates R H B s size).
Proof. intros Hinv Hs. by eapply (kmalloc_n_ok 1); [done|lia|lia|]. Qed.

(** ** kfree *)

(** [h] is a free block that is not on the free list; every other free block is. *)
Record off_list (B : blocks) (fl : list Z) (h sz : Z) (s : heap) : Prop := {
  ol_blocks : blocks_ok (kmem s) B (heap_end s);
  ol_chain : chain_ok (kmem s) B fl;
  ol_head : free_list s = hd 0 fl;
  ol_mem : mem_ok (kmem s);
  ol_free : B !! h = Some (sz, false);
  ol_new : h ∉ fl;
  ol_all : forall a s1, B !! a = Some (s1, false) -> a <> h -> a ∈ fl
}.

(** Putting it back. *)
Lemma free_insert E B fl h sz s (Q : unit -> heap -> Prop) :
  off_list B fl h sz s ->
  (forall s', heap_core B (h :: fl) s' -> keeps B (kmem s) (kmem s') ->
     hp_vm s' = hp_vm s -> heap_end s' = heap_end s -> Q tt s') ->
  wp E (free_list_insert h) s Q.
Proof.
  intros [Hb Hc Hhd Hm Hh Hnh Hall] HQ. apply (free_list_insert_ok Hb Hc Hh Hnh); [done|done|].
  pose proof (inserted_other Hb Hc Hh Hnh) as Hf. apply HQ; [| |done|done].
  - split; [exact (blocks_ok_frame _ _ _ _ Hb Hf)|exact (inserted_chain Hb Hc Hh Hnh)|done| |by apply mem_ok_inserted].
    intros a s1 Ha. destruct (decide (a = h)) as [->|Hne]; [by left|right]. by apply (Hall a s1).
  - by eapply keeps_links.
Qed.

(** A block in use is marked free. *)
Lemma free_mark B fl h sz s :
  heap_core B fl s -> used B h = Some sz ->
  let s' := set_kmem (sized (kmem s) h sz false) s in
  off_list (<[h := (sz, false)]> B) fl h sz s' /\
  keeps (<[h := (sz, false)]> B) (kmem s) (kmem s') /\
  (forall a, used (<[h := (sz, false)]> B) a = if decide (a = h) then None else used B a).
Proof.
  intros [Hb Hc Hhd Hall Hm] Hh s'. apply used_Some in Hh. set (B1 := <[h := (sz, false)]> B).
  destruct (bo_range _ _ _ Hb h sz true Hh) as (_ & _ & Hsz & _).
  assert (h ∉ fl) as Hnew by (intros Hin; destruct (co_free _ _ _ Hc h Hin); congruence).
  assert (forall a, a <> h -> B1 !! a = B !! a) as Hlk by (intros a Ha; by apply lookup_insert_ne).
  assert (forall a, used B1 a = if decide (a = h) then None else used B a) as Hused.
  { intros a. unfold used. case_decide as Hd; [subst; unfold B1; by rewrite lookup_insert_eq|by rewrite Hlk]. }
  split_and!; [|  |done].
  - split; [by eapply blocks_retag| |done|by apply mem_ok_sized|apply lookup_insert_eq|done|].
    + apply (chain_ok_frame (kmem s) _ B); [done|]. intros x Hx. assert (x <> h) as Hne by (by intros ->).
      destruct (co_free _ _ _ Hc x Hx) as [sx Hsx]. split; [|exists sx; by rewrite Hlk].
      eapply (sized_links B); [done|done|lia|by eexists|done].
    + intros a s1 Ha Hne. rewrite Hlk in Ha by done. by apply (Hall a s1).
  - intros a s1 Ha. rewrite Hused in Ha. case_decide; [done|].
    intros x Hx. symmetry. apply sized_other; [lia|]. apply used_Some in Ha.
    destruct (bo_range _ _ _ Hb a s1 true Ha) as (_ & _ & ? & _).
    destruct (bo_disj _ _ _ Hb a h _ _ _ _ Ha Hh); [done|lia|lia].
Qed.

(** Its free successor is joined to it. *)
Section merge.
Context {B : blocks} {fl : list Z} {h sz s2 : Z} {s : heap}.
Hypothesis Hol : off_list B fl h sz s.
Hypothesis Hn : B !! (h + sz) = Some (s2, false).

Let B2 : blocks := <[h := (sz + s2, false)]> (delete (h + sz) B).

Lemma merge_range :
  HEAP_BASE <= h /\ h + (sz + s2) <= HEAP_BASE + 2^39 /\ 48 <= sz /\ 48 <= s2 /\
  sz mod 8 = 0 /\ s2 mod 8 = 0 /\ HEAP_BASE + 2^39 < 2^64 /\ 0 < HEAP_BASE.
Proof.
  pose proof (ol_blocks _ _ _ _ _ Hol) as Hb.
  destruct (bo_range _ _ _ Hb h sz false (ol_free _ _ _ _ _ Hol)) as (? & ? & ? & ? & ?).
  destruct (bo_range _ _ _ Hb _ s2 false Hn) as (_ & ? & ? & _ & ?).
  destruct (bo_top _ _ _ Hb) as [? _]. pose proof HEAP_TOP_bound. pose proof HEAP_BASE_pos. lia.
Qed.

Lemma merge_apart x sx u :
  B !! x = Some (sx, u) -> x <> h -> x <> h + sz -> 48 <= sx /\ (x + sx <= h \/ h + (sz + s2) <= x).
Proof.
  intros Hx Hxh Hxn. pose proof (ol_blocks _ _ _ _ _ Hol) as Hb.
  destruct (bo_range _ _ _ Hb x sx u Hx) as (_ & _ & ? & _).
  pose proof (bo_disj _ _ _ Hb x h sx u sz false Hx (ol_free _ _ _ _ _ Hol) Hxh).
  pose proof (bo_disj _ _ _ Hb x _ sx u s2 false Hx Hn Hxn). lia.
Qed.

Lemma merge_lookup a : a <> h -> a <> h + sz -> B2 !! a = B !! a.
Proof. intros Ha Ha'. unfold B2. by rewrite lookup_insert_ne, lookup_delete_ne by done. Qed.
Lemma merge_gone : B2 !! (h + sz) = None.
Proof.
  pose proof merge_range. unfold B2. rewrite lookup_insert_ne by lia. apply lookup_delete_eq.
Qed.
Lemma merge_used a : used B2 a = used B a.
Proof.
  unfold used. destruct (decide (a = h)) as [->|Hh].
  { unfold B2. by rewrite lookup_insert_eq, (ol_free _ _ _ _ _ Hol). }
  destruct (decide (a = h + sz)) as [->|Hnx]; [by rewrite merge_gone, Hn|by rewrite merge_lookup].
Qed.

(** After the successor left the list and the sizes were added. *)
Lemma merge_off_list l1 l2 :
  fl = l1 ++ (h + sz) :: l2 ->
  let m2 := sized (unlinked (kmem s) l1 l2 (h + sz)) h (sz + s2) false in
  let s' := Heap (hp_vm s) m2 (hd 0 (l1 ++ l2)) (heap_end s) in
  off_list B2 (l1 ++ l2) h (sz + s2) s' /\ keeps B2 (kmem s) m2.
Proof.
  intros Hfl m2 s'. pose proof merge_range. pose proof Hol as [Hb Hc Hhd Hm Hh Hnh Hall].
  rewrite Hfl in Hc, Hhd, Hnh, Hall.
  pose proof (unlinked_chain Hb Hc) as Hc1. pose proof (unlinked_other Hb Hc) as Hf1.
  pose proof (blocks_ok_frame _ _ _ _ Hb Hf1) as Hb1.
  set (m1 := unlinked (kmem s) l1 l2 (h + sz)) in *.
  assert (forall x, x ∈ l1 ++ l2 -> x <> h + sz /\ x <> h) as Hne1.
  { intros x Hx. split; [by apply (chain_elem Hc)|]. intros ->. apply Hnh.
    apply elem_of_app in Hx as [?|?]; apply elem_of_app; [by left|right; by right]. }
  split; [split; [exact (blocks_merge Hb1 h sz false s2 false Hh Hn)| |done| |apply lookup_insert_eq| |]|].
  - apply (chain_ok_frame m1 _ B); [done|]. intros x Hx. destruct (Hne1 x Hx) as [Hxn Hxh].
    destruct (co_free _ _ _ Hc1 x Hx) as [sx Hsx]. destruct (merge_apart x sx false Hsx Hxh Hxn).
    split; [intros a Ha; symmetry; apply sized_other; lia|]. exists sx. by rewrite merge_lookup.
  - by apply mem_ok_sized, mem_ok_unlinked.
  - intros Hin. by destruct (Hne1 h Hin).
  - intros a s1 Ha Hah. destruct (decide (a = h + sz)) as [->|Han]; [by rewrite merge_gone in Ha|].
    rewrite merge_lookup in Ha by done. pose proof (Hall a s1 Ha Hah) as Hin.
    rewrite elem_of_app, elem_of_cons in Hin. apply elem_of_app. tauto.
  - intros a s1 Ha x Hx. rewrite merge_used in Ha. symmetry.
    assert (no_links B x) as Hnl by by eapply no_links_used. apply used_Some in Ha.
    destruct (merge_apart a s1 true Ha); [intros ->; congruence..|].
    unfold m2. rewrite sized_other by lia. by apply Hf1.
Qed.

Lemma free_merge E (Q : unit -> heap -> Prop) :
  (forall B' fl' s', heap_core B' fl' s' -> (forall a, used B' a = used B a) ->
     keeps B' (kmem s) (kmem s') -> hp_vm s' = hp_vm s -> heap_end s' = heap_end s -> Q tt s') ->
  wp E (free_list_remove (h + sz);;
        sz1 ← blk_size h;
        sz2 ← blk_size (h + sz);
        set_size h (u64 (sz1 + sz2)) false) s (fun _ s' => wp E (free_list_insert h) s' Q).
Proof.
  intros HQ. pose proof merge_range. pose proof Hol as [Hb Hc Hhd Hm Hh Hnh Hall].
  assert (exists l1 l2, fl = l1 ++ (h + sz) :: l2) as (l1 & l2 & Hfl)
    by (apply list_elem_of_split, (Hall _ s2 Hn); lia).
  rewrite Hfl in Hc, Hhd. wp_step. apply (free_list_remove_ok Hb Hc); [done|done|].
  pose proof (blocks_ok_frame _ _ _ _ Hb (unlinked_other Hb Hc)) as Hb1.
  destruct (merge_off_list l1 l2 Hfl) as [Hol2 Hk2].
  set (m1 := unlinked (kmem s) l1 l2 (h + sz)) in *.
  wp_step. apply (block_size_ok E m1 B (heap_end s) h sz false); [done..|].
  wp_step. apply (block_size_ok E m1 B (heap_end s) (h + sz) s2 false); [done..|].
  rewrite u64_small by lia. apply set_size_ok; [lia|lia|lia|zlia|].
  eapply free_insert; [exact Hol2|]. intros s' Hcore Hk Hv He.
  apply (HQ B2 (h :: l1 ++ l2) s'); [done|apply merge_used| |done|done]. by eapply keeps_trans.
Qed.
End merge.

Lemma kfree_null s : kfree 0 s = Done (tt, s).
Proof. done. Qed.

Lemma kfree_ok E R H B fl s h n :
  heap_inv R H B fl s -> used B h = Some n ->
  wp E (kfree (h + 24)) s (fun _ s' => exists B' fl',
    heap_inv R H B' fl' s' /\ (forall a, used B' a = if decide (a = h) then None else used B a) /\
    keeps B' (kmem s) (kmem s') /\ hp_vm s' = hp_vm s).
Proof.
  intros [Hv Hcore] Hh. pose proof Hcore as [Hb _ _ _ _]. pose proof Hh as Hh'. apply used_Some in Hh'.
  destruct (bo_range _ _ _ Hb h n true Hh') as (? & ? & ? & _ & ?). destruct (bo_top _ _ _ Hb) as [? _].
  pose proof HEAP_TOP_bound. pose proof HEAP_BASE_pos.
  unfold kfree. replace (h + 24 =? 0) with false by blia. unfold SIZEOF_HEADER.
  replace (h + 24 - 24) with h by lia. wp_step.
  apply (blk_used_ok E h n true); [apply in_heap_true; lia|by apply (bo_words _ _ _ Hb)|lia|done|]. cbn [negb].
  wp_step. apply (block_size_ok E (kmem s) B (heap_end s) h n true); [done..|].
  wp_step. apply set_size_ok; [lia..|].
  destruct (free_mark B fl h n s Hcore Hh) as (Hol & Hk & Hused).
  set (B1 := <[h := (n, false)]> B) in *. set (s1 := set_kmem _ s) in *.
  pose proof (ol_blocks _ _ _ _ _ Hol) as Hb1.
  wp_step. unfold next_block. wp_step. apply (block_size_ok E (kmem s1) B1 (heap_end s) h n false);
    [done|done|apply lookup_insert_eq|]. do 2 wp_step. wp_step.
  assert (forall Q' : unit -> heap -> Prop, (forall B' fl' s', heap_core B' fl' s' ->
     (forall a, used B' a = used B1 a) ->
     keeps B' (kmem s1) (kmem s') -> hp_vm s' = hp_vm s1 -> heap_end s' = heap_end s1 -> Q' tt s') ->
     wp E (free_list_insert h) s1 Q') as Hins.
  { intros Q' HQ'. eapply free_insert; [exact Hol|]. intros s' ????. by eapply HQ'. }
  assert (forall B' fl' s', heap_core B' fl' s' -> (forall a, used B' a = used B1 a) ->
     keeps B' (kmem s1) (kmem s') -> hp_vm s' = hp_vm s1 -> heap_end s' = heap_end s1 ->
     exists B' fl', heap_inv R H B' fl' s' /\
       (forall a, used B' a = if decide (a = h) then None else used B a) /\
       keeps B' (kmem s) (kmem s') /\ hp_vm s' = hp_vm s) as Hend.
  { intros B' fl' s' Hc' Hu' Hk' Hv' He'. exists B', fl'. split_and!; [|intros a; by rewrite Hu'| |done].
    - split; [by rewrite Hv', He'|done].
    - eapply keeps_trans; [|done]. intros a sz Ha. apply Hk. by rewrite <- Hu'. }
  wp_step. change (heap_end s1) with (heap_end s) in *. destruct (Z.ltb_spec (h + n) (heap_end s)) as [Hlt|]; [|by wp_step; apply Hins].
  destruct (bo_next _ _ _ Hb1 h n false (lookup_insert_eq _ _ _)) as [Heq|[[s2 u2] Hn2]];
    [lia|]. destruct (bo_range _ _ _ Hb1 _ _ _ Hn2) as (? & ? & ? & _ & ?).
  wp_step. apply (blk_used_ok E (h + n) s2 u2); [apply in_heap_true; lia|by apply (bo_words _ _ _ Hb1)|lia|done|].
  destruct u2; cbn [negb]; [by wp_step; apply Hins|].
  by apply (free_merge Hol Hn2).
Qed.

(** ** Clients write inside their blocks *)

Lemma heap_write R H B fl s h n m' :
  heap_inv R H B fl s -> used B h = Some n -> mem_ok m' ->
  (forall a, ~ (h + 24 <= a < h + n - 8) -> m' a = kmem s a) ->
  heap_inv R H B fl (set_kmem m' s).
Proof.
  intros [Hv [Hb Hc Hhd Hall Hm]] Hh Hok Hs. apply used_Some in Hh. split; [done|].
  destruct (bo_range _ _ _ Hb h n true Hh) as (_ & _ & ? & _).
  assert (forall a sz u x, B !! a = Some (sz, u) -> a <> h -> a <= x < a + sz -> m' x = kmem s x) as Hother.
  { intros a sz u x Ha Hne Hx. apply Hs. destruct (bo_disj _ _ _ Hb a h _ _ _ _ Ha Hh Hne); lia. }
  split; cbn; [|  |done..].
  - split; try apply Hb. intros a sz u Ha. destruct (bo_words _ _ _ Hb a sz u Ha) as [H1 H2].
    destruct (bo_range _ _ _ Hb a sz u Ha) as (_ & _ & ? & _).
    rewrite <- H1 at 1. rewrite <- H2. destruct (decide (a = h)) as [->|Hne].
    + rewrite Hh in Ha. injection Ha as <- <-. split; apply load64_same; intros x Hx; apply Hs; lia.
    + split; apply load64_same; intros x Hx; eapply Hother; [done|done|lia|done|done|lia].
  - apply (chain_ok_frame (kmem s) _ B); [done|]. intros x Hx. destruct (co_free _ _ _ Hc x Hx) as [sx Hsx].
    destruct (bo_range _ _ _ Hb x sx false Hsx) as (_ & _ & ? & _). split; [|by eexists].
    intros a Ha. symmetry. apply (Hother x sx false a); [done| |lia]. intros ->. congruence.
Qed.

(** ** The interface to the rest of the kernel

    A client sees the live pointers with their capacities, may write inside
    them, and relies on the laws below; it never sees a block header. *)

Class Allocator (St : Type) := {
  a_mem : St -> mem;
  a_put : mem -> St -> St;
  a_malloc : Z -> M St Z;
  a_free : Z -> M St unit;
  a_realloc : Z -> Z -> M St Z
}.

Abbreviation live := (gmap Z Z) (only parsing).

(** The contents of the live blocks are the same in both memories. *)
Definition keeps_live (L : live) (m m' : mem) : Prop :=
  forall p n, L !! p = Some n -> same_on p (p + n) m m'.

Class AllocatorLaws (St : Type) `{Allocator St} := {
  a_inv : live -> St -> Prop;
  a_range : forall L s p n, a_inv L s -> L !! p = Some n -> 0 < p /\ 0 <= n /\ p + n < 2^64;
  a_disj : forall L s p q n k, a_inv L s -> L !! p = Some n -> L !! q = Some k -> p <> q ->
    p + n <= q \/ q + k <= p;
  a_mem_ok : forall L s, a_inv L s -> mem_ok (a_mem s);
  a_mem_put : forall m s, a_mem (a_put m s) = m;
  a_write : forall L s p n m', a_inv L s -> L !! p = Some n -> mem_ok m' ->
    (forall a, ~ (p <= a < p + n) -> m' a = a_mem s a) -> a_inv L (a_put m' s);
  a_malloc_law : forall L s n, a_inv L s -> 0 < n <= 2^62 ->
    safe (a_malloc n) s (fun p s' => 0 < p /\ L !! p = None /\
      exists c, n <= c /\ a_inv (<[p := c]> L) s' /\ keeps_live L (a_mem s) (a_mem s'));
  a_malloc_zero : forall s, a_malloc 0 s = Done (0, s);
  a_free_law : forall L s p n, a_inv L s -> L !! p = Some n ->
    returns (a_free p) s (fun _ s' => a_inv (delete p L) s' /\ keeps_live (delete p L) (a_mem s) (a_mem s'));
  a_free_null : forall s, a_free 0 s = Done (tt, s);
  a_realloc_null : forall s n, a_realloc 0 n s = a_malloc n s;
  a_realloc_law : forall L s p c n, a_inv L s -> L !! p = Some c -> 0 < n <= 2^62 ->
    safe (a_realloc p n) s (fun q s' => 0 < q /\ L !! q = None /\
      exists c', n <= c' /\ a_inv (<[q := c']> (delete p L)) s' /\
        keeps_live (delete p L) (a_mem s) (a_mem s') /\
        (forall i, 0 <= i < Z.min c n -> a_mem s' (q + i) = a_mem s (p + i)))
}.

#[export] Instance heap_allocator : Allocator heap := {|
  a_mem := kmem; a_put := set_kmem; a_malloc := kmalloc; a_free := kfree; a_realloc := krealloc |}.

(** The live pointers of a heap. *)
Definition heap_live (R : gset Z) (L : live) (s : heap) : Prop :=
  exists H B fl, heap_inv R H B fl s /\
    forall p, L !! p = (fun n => n - 32) <$> used B (p - 24).

Lemma live_used (B : blocks) (L : live) p n :
  (forall p, L !! p = (fun n => n - 32) <$> used B (p - 24)) ->
  L !! p = Some n -> used B (p - 24) = Some (n + 32).
Proof.
  intros HL Hp. rewrite HL in Hp. destruct (used B (p - 24)) as [k|]; [|done]. injection Hp as <-.
  f_equal. lia.
Qed.

Lemma keeps_live_used (B : blocks) (L : live) m m' :
  (forall p, L !! p = (fun n => n - 32) <$> used B (p - 24)) -> keeps B m m' -> keeps_live L m m'.
Proof.
  intros HL Hk p n Hp x Hx. pose proof (live_used B L p n HL Hp) as Hu.
  apply (Hk _ _ Hu). lia.
Qed.

Lemma malloc_live R L s n :
  heap_live R L s -> 0 < n <= 2^62 ->
  safe (kmalloc n) s (fun p s' => 0 < p /\ L !! p = None /\
    exists c, n <= c /\ heap_live R (<[p := c]> L) s' /\ keeps_live L (kmem s) (kmem s')).
Proof.
  intros (H & B & fl & Hinv & HL) Hn. eapply wp_mono; [by apply (kmalloc_ok R H B fl)|].
  intros p s' (h & k & H' & B' & fl' & -> & Hk & Hu & Hinv' & _ & Hused & Hkeep & _).
  assert (h + 24 - 24 = h) as Hh by lia.
  assert (L !! (h + 24) = None) as HLn by (rewrite HL, Hh, Hu; done).
  assert (used B' h = Some k) as Hu' by (rewrite Hused; by rewrite decide_True).
  apply used_Some in Hu' as Hb'. destruct Hinv' as [Hv' Hc'].
  destruct (bo_range _ _ _ (hc_blocks _ _ _ Hc') h k true Hb') as (? & _). pose proof HEAP_BASE_pos.
  split_and!; [lia|done|]. exists (k - 32). split_and!; [lia| |by eapply keeps_live_used].
  exists H', B', fl'. split; [done|]. intros p. rewrite Hused.
  destruct (decide (p - 24 = h)) as [Hp|Hp].
  - replace p with (h + 24) by lia. by rewrite lookup_insert_eq.
  - rewrite lookup_insert_ne by lia. apply HL.
Qed.

Lemma free_live R L s p n :
  heap_live R L s -> L !! p = Some n ->
  returns (kfree p) s (fun _ s' => heap_live R (delete p L) s' /\ keeps_live (delete p L) (kmem s) (kmem s')).
Proof.
  intros (H & B & fl & Hinv & HL) Hp. pose proof (live_used B L p n HL Hp) as Hu.
  pose proof (kfree_ok (fun _ => False) R H B fl s (p - 24) (n + 32) Hinv Hu) as Hw.
  replace (p - 24 + 24) with p in Hw by lia. eapply wp_mono; [exact Hw|].
  intros _ s' (B' & fl' & Hinv' & Hused & Hk & _).
  assert (forall q, delete p L !! q = (fun n => n - 32) <$> used B' (q - 24)) as HL'.
  { intros q. rewrite Hused. destruct (decide (q - 24 = p - 24)) as [Hq|Hq].
    - replace q with p by lia. by rewrite lookup_delete_eq.
    - rewrite lookup_delete_ne by lia. apply HL. }
  split; [by exists H, B', fl'|by eapply keeps_live_used].
Qed.

Lemma write_live R L s p n m' :
  heap_live R L s -> L !! p = Some n -> mem_ok m' ->
  (forall a, ~ (p <= a < p + n) -> m' a = kmem s a) -> heap_live R L (set_kmem m' s).
Proof.
  intros (H & B & fl & Hinv & HL) Hp Hm Hs. exists H, B, fl. split; [|done].
  pose proof (live_used B L p n HL Hp) as Hu. eapply heap_write; [done|done|done|].
  intros a Ha. apply Hs. lia.
Qed.

Lemma range_live R L s p n : heap_live R L s -> L !! p = Some n -> 0 < p /\ 0 <= n /\ p + n < 2^64.
Proof.
  intros (H & B & fl & [_ Hc] & HL) Hp. pose proof (live_used B L p n HL Hp) as Hu. apply used_Some in Hu.
  destruct (bo_range _ _ _ (hc_blocks _ _ _ Hc) _ _ _ Hu) as (? & ? & ? & _).
  destruct (bo_top _ _ _ (hc_blocks _ _ _ Hc)). pose proof HEAP_TOP_bound. pose proof HEAP_BASE_pos. lia.
Qed.

Lemma disj_live R L s p q n k :
  heap_live R L s -> L !! p = Some n -> L !! q = Some k -> p <> q -> p + n <= q \/ q + k <= p.
Proof.
  intros (H & B & fl & [_ Hc] & HL) Hp Hq Hne.
  pose proof (live_used B L p n HL Hp) as Hu. pose proof (live_used B L q k HL Hq) as Hw.
  apply used_Some in Hu, Hw.
  destruct (bo_disj _ _ _ (hc_blocks _ _ _ Hc) _ _ _ _ _ _ Hu Hw); lia.
Qed.

Lemma realloc_live R L s p c n :
  heap_live R L s -> L !! p = Some c -> 0 < n <= 2^62 ->
  safe (krealloc p n) s (fun q s' => 0 < q /\ L !! q = None /\
    exists c', n <= c' /\ heap_live R (<[q := c']> (delete p L)) s' /\
      keeps_live (delete p L) (kmem s) (kmem s') /\
      (forall i, 0 <= i < Z.min c n -> kmem s' (q + i) = kmem s (p + i))).
Proof.
  intros Hlive Hp Hn. destruct (range_live R L s p c Hlive Hp) as (Hp0 & Hc0 & Hp64).
  pose proof Hlive as (H & B & fl & [_ Hcore] & HL). pose proof (live_used B L p c HL Hp) as Hu.
  apply used_Some in Hu. pose proof (hc_blocks _ _ _ Hcore) as Hb.
  destruct (bo_range _ _ _ Hb _ _ _ Hu) as (? & ? & ? & ? & ?).
  destruct (bo_top _ _ _ Hb). pose proof HEAP_TOP_bound. pose proof HEAP_BASE_pos.
  unfold krealloc. replace (p =? 0) with false by blia. unfold SIZEOF_HEADER, SIZEOF_FOOTER.
  wp_step. apply (block_size_ok _ (kmem s) B (heap_end s) _ (c + 32) true); [done..|].
  rewrite u64_small by lia. replace (c + 32 - 24 - 8) with c by lia.
  wp_step. eapply wp_mono; [by apply (malloc_live R L s n)|].
  intros q s1 (Hq0 & HLq & c' & Hc' & Hlive1 & Hk1). replace (q =? 0) with false by blia.
  assert (p <> q) as Hpq by congruence.
  assert (<[q := c']> L !! p = Some c) as Hp1 by by rewrite lookup_insert_ne.
  pose proof (disj_live R _ s1 p q c c' Hlive1 Hp1 (lookup_insert_eq _ _ _) Hpq) as Hdis.
  set (k := if c <? n then c else n). assert (k = Z.min c n) as Hk by (unfold k; destruct (Z.ltb_spec c n); lia).
  do 2 wp_step. set (m2 := memcpy (kmem s1) q p (Z.to_nat k)).
  assert (forall x, m2 x = if (q <=? x) && (x <? q + k) then u8 (kmem s1 (p + (x - q))) else kmem s1 x) as Hm2.
  { intros x. unfold m2. rewrite memcpy_at, Z2Nat.id by lia. done. }
  assert (mem_ok (kmem s1)) as Hok1 by (destruct Hlive1 as (? & ? & ? & [_ Hc1] & _); apply (hc_mem _ _ _ Hc1)).
  assert (heap_live R (<[q := c']> L) (set_kmem m2 s1)) as Hlive2.
  { eapply (write_live R _ s1 q c'); [done|apply lookup_insert_eq| |].
    - intros x. rewrite Hm2. destruct (_ && _); [apply u8_range|apply Hok1].
    - intros x Hx. rewrite Hm2. replace (_ && _) with false; [done|]. symmetry. apply andb_false_iff.
      destruct (Z.leb_spec q x); [right; apply Z.ltb_ge; lia|by left]. }
  wp_step. apply (wp_weaken (fun _ => False)); [done|].
  eapply wp_mono; [by apply (free_live R _ _ p c Hlive2)|]. intros _ s3 [Hlive3 Hk3]. wp_step.
  rewrite (delete_insert_ne L p q c') in Hlive3, Hk3 by done.
  split_and!; [done|done|]. exists c'. split_and!; [lia|done| |].
  - intros r nr Hr x Hx. assert (r <> q) as Hrq.
    { intros ->. apply lookup_delete_Some in Hr as [_ Hr]. congruence. }
    assert (<[q := c']> (delete p L) !! r = Some nr) as Hr' by by rewrite lookup_insert_ne.
    rewrite <- (Hk3 r nr Hr' x Hx). cbn [set_kmem kmem]. rewrite Hm2.
    apply lookup_delete_Some in Hr as [Hrp Hr]. rewrite (Hk1 r nr Hr x Hx).
    assert (<[q := c']> L !! r = Some nr) as Hr1 by by rewrite lookup_insert_ne.
    destruct (disj_live R _ s1 r q nr c' Hlive1 Hr1 (lookup_insert_eq _ _ _) Hrq);
      (replace (_ && _) with false; [done|]); symmetry; apply andb_false_iff;
      [left; apply Z.leb_gt; lia|right; apply Z.ltb_ge; lia].
  - intros i Hi. rewrite <- (Hk3 q c' (lookup_insert_eq _ _ _) (q + i) ltac:(lia)). cbn [set_kmem kmem].
    rewrite Hm2. replace (_ && _) with true by (symmetry; apply andb_true_iff; split; [apply Z.leb_le|apply Z.ltb_lt]; lia).
    replace (p + (q + i - q)) with (p + i) by lia. rewrite u8_small by apply Hok1.
    symmetry. apply (Hk1 p c Hp). lia.
Qed.

(** The heap keeps the interface's promises, for any set of page-table roots. *)
Definition heap_allocator_laws (R : gset Z) : AllocatorLaws heap := {|
  a_inv := heap_live R;
  a_range := range_live R;
  a_disj := disj_live R;
  a_mem_ok := fun L s '(ex_intro _ _ (ex_intro _ _ (ex_intro _ _ (conj (conj _ Hc) _)))) => hc_mem _ _ _ Hc;
  a_mem_put := fun _ _ => eq_refl;
  a_write := write_live R;
  a_malloc_law := malloc_live R;
  a_malloc_zero := fun _ => eq_refl;
  a_free_law := free_live R;
  a_free_null := fun _ => eq_refl;
  a_realloc_null := fun _ _ => eq_refl;
  a_realloc_law := realloc_live R
|}.

(** ** Boot *)

Lemma heap_init_ok R s size :
  heap_vm R ∅ HEAP_BASE (hp_vm s) -> mem_ok (kmem s) -> 0 < size <= 2^63 ->
  safe (heap_init HEAP_BASE size) s (fun _ s' => exists H,
    heap_inv R H {[HEAP_BASE := (ALIGN_UP size PAGE_SIZE, false)]} [HEAP_BASE] s' /\
    heap_end s' = HEAP_BASE + ALIGN_UP size PAGE_SIZE).
Proof.
  intros Hv Hm Hs. pose proof (ALIGN_UP_page_bounds size ltac:(lia)) as Hal.
  assert (ALIGN_UP size PAGE_SIZE mod 4096 = 0) as Hmod by (rewrite ALIGN_UP_page; zlia).
  unfold heap_init. set (len := ALIGN_UP size PAGE_SIZE) in *. do 2 wp_step. wp_step.
  eapply wp_mono; [apply (map_pages_ok R ∅ (set_heap_end HEAP_BASE s) HEAP_BASE _ (Z.to_nat (len / 4096)) len Hv); zlia|].
  intros _ [v m f e] (Hkm & _ & _ & H & _ & Hv' & _). cbn in Hkm, Hv'. subst m.
  destruct (heap_vm_range _ _ _ _ Hv') as [Hr _]. pose proof HEAP_BASE_pos. pose proof HEAP_TOP_bound.
  assert (blocks_ok (kmem s) ∅ HEAP_BASE) as Hb0 by (split; [done..|split; [lia|done]]).
  destruct (blocks_grow Hb0 len ltac:(zlia) ltac:(zlia) ltac:(lia)) as [Hb1 _].
  rewrite insert_empty in Hb1.
  wp_step. apply set_size_ok; [lia|lia|zlia|zlia|]. cbn [set_kmem kmem hp_vm free_list heap_end].
  set (m1 := sized _ _ _ _) in *.
  wp_step. unfold next_field. apply hwr_ok; [apply in_heap_true; lia|].
  wp_step. unfold prev_field. apply hwr_ok; [apply in_heap_true; lia|].
  do 3 wp_step. cbn [set_kmem set_free_list set_heap_end kmem hp_vm free_list heap_end].
  rewrite u64_small by lia. exists H. split; [|done]. split; [done|].
  set (m2 := store64 (store64 m1 (HEAP_BASE + 16) 0) (HEAP_BASE + 8) 0).
  change (heap_core {[HEAP_BASE := (len, false)]} [HEAP_BASE] (Heap v m2 HEAP_BASE (HEAP_BASE + len))).
  split; cbn [kmem free_list heap_end].
  - apply (blocks_ok_frame m1); [done|]. intros x Hx.
    pose proof (Hx HEAP_BASE len (lookup_singleton_eq _ _)). unfold m2. rewrite !store64_other by lia. done.
  - split.
    + apply NoDup_singleton.
    + intros x ->%list_elem_of_singleton. exists len. apply lookup_singleton_eq.
    + split_and!; [|unfold m2; rewrite load64_store64_other by lia|done]; by apply load64_store64.
  - done.
  - intros a sz Ha. apply lookup_singleton_Some in Ha as [<- _]. by left.
  - by apply mem_ok_store64, mem_ok_store64, mem_ok_sized.
Qed.

Lemma heap_init_live R s size :
  heap_vm R ∅ HEAP_BASE (hp_vm s) -> mem_ok (kmem s) -> 0 < size <= 2^63 ->
  safe (heap_init HEAP_BASE size) s (fun _ s' =>
    heap_live R ∅ s' /\ heap_end s' = HEAP_BASE + ALIGN_UP size PAGE_SIZE /\
    exists H, heap_vm R H (heap_end s') (hp_vm s')).
Proof.
  intros Hv Hm Hs. eapply wp_mono; [by apply (heap_init_ok R)|]. intros _ s' (H & Hinv & He).
  split_and!; [|done|exists H; apply Hinv].
  exists H, {[HEAP_BASE := (ALIGN_UP size PAGE_SIZE, false)]}, [HEAP_BASE]. split; [done|]. intros p.
  unfold used. destruct (decide (p - 24 = HEAP_BASE)) as [->|].
  - by rewrite lookup_singleton_eq.
  - by rewrite lookup_singleton_ne.
Qed.

(** ** Properties *)

(** C5: kmalloc() of a positive size, in any heap whose invariant holds, ends and
    gives a block disjoint from every live one and at least as large as asked;
    the live blocks keep their contents. It panics only when memory runs out. *)
Theorem kmalloc_allocates R L s n :
  heap_live R L s -> 0 < n <= 2^62 ->
  safe (kmalloc n) s (fun p s' => exists c,
    n <= c /\ 0 < p /\ heap_live R (<[p := c]> L) s' /\
    (forall q k, L !! q = Some k -> q <> p /\ (p + c <= q \/ q + k <= p)) /\
    keeps_live L (kmem s) (kmem s')).
Proof.
  intros Hl Hn. eapply wp_mono; [by apply (malloc_live R L)|].
  intros p s' (Hp & HLp & c & Hc & Hl' & Hk). exists c. split_and!; [done..| |done]. intros q k Hq.
  assert (q <> p) as Hne by congruence. split; [done|].
  apply (disj_live R _ s' p q c k Hl'); [apply lookup_insert_eq|by rewrite lookup_insert_ne|done].
Qed.

(** C6: kfree() of a live block always succeeds, forgets exactly that block and
    keeps the contents of the others; kfree(NULL) does nothing. *)
Theorem kfree_releases R L s p n :
  heap_live R L s -> L !! p = Some n ->
  returns (kfree p) s (fun _ s' =>
    heap_live R (delete p L) s' /\ keeps_live (delete p L) (kmem s) (kmem s')) /\
  kfree 0 s = Done (tt, s).
Proof. intros Hl Hp. split; [by apply (free_live R L s p n)|done]. Qed.

(** C25: krealloc() moves a live block to one of at least the new size, keeps the
    common prefix of its contents and every other live block, and frees the old one. *)
Theorem krealloc_moves R L s p c n :
  heap_live R L s -> L !! p = Some c -> 0 < n <= 2^62 ->
  safe (krealloc p n) s (fun q s' => exists c',
    n <= c' /\ heap_live R (<[q := c']> (delete p L)) s' /\
    keeps_live (delete p L) (kmem s) (kmem s') /\
    load_bytes (kmem s') q (Z.to_nat (Z.min c n)) = load_bytes (kmem s) p (Z.to_nat (Z.min c n))).
Proof.
  intros Hl Hp Hn. eapply wp_mono; [by apply (realloc_live R L s p c n)|].
  intros q s' (_ & _ & c' & Hc & Hl' & Hk & Hcopy). exists c'. split_and!; [done..|].
  apply list_eq. intros i. rewrite !lookup_load_bytes. case_decide; [|done]. f_equal. apply Hcopy. lia.
Qed.

(** Heap_init() backs the first pages of the heap region with frames and
    leaves one free block that covers them; nothing is live. *)
Theorem heap_init_establishes R s size :
  heap_vm R ∅ HEAP_BASE (hp_vm s) -> mem_ok (kmem s) -> 0 < size <= 2^63 ->
  safe (heap_init HEAP_BASE size) s (fun _ s' =>
    heap_live R ∅ s' /\ size <= heap_end s' - HEAP_BASE /\
    (forall a, HEAP_BASE <= a < heap_end s' ->
       translate (ram (hp_vm s')) (current_pml4 (hp_vm s')) a <> 0)).
Proof.
  intros Hv Hm Hs. pose proof (ALIGN_UP_page_bounds size ltac:(lia)) as Hal.
  eapply wp_mono; [by apply (heap_init_live R)|]. intros _ s' (Hl & He & H & Hvm).
  split_and!; [done|lia|]. intros a Ha. apply (hv_mapped _ _ _ _ Hvm). lia.
Qed.

(** the size computation of kmalloc() wraps: a request within 32 bytes of the
    top of the 64-bit range is served exactly like a request for one byte. *)
Theorem kmalloc_size_wraps n s : 2^64 - 32 <= n < 2^64 -> kmalloc n s = kmalloc 1 s.
Proof.
  intros Hn. unfold kmalloc. cbn [kmalloc_n].
  replace (n =? 0) with false by blia. simpl (1 =? 0). cbn iota.
  assert (block_size n = 48) as ->; [|done].
  unfold block_size, ALIGN8, SIZEOF_HEADER, SIZEOF_FOOTER. change MIN_BLOCK with 48.
  assert (u64 (n + 24 + 8) = n + 32 - 2^64) as -> by (unfold u64; zlia).
  rewrite ALIGN_UP_8, u64_small by lia. destruct (Z.ltb_spec ((n + 32 - 2^64 + 7) / 8 * 8) 48); zlia.
Qed.

(** ** Witnesses *)

Definition heap_zero : heap := Heap vm_sample (fun _ => 0) 0 HEAP_BASE.

Lemma heap_zero_vm : heap_vm {[0x1000]} ∅ HEAP_BASE (hp_vm heap_zero).
Proof.
  split; [apply vm_sample_inv|apply vm_sample_root|intros; apply vm_sample_no_huge| |done|lia].
  by intros f Hf%not_elem_of_empty.
Qed.
Lemma heap_zero_mem : mem_ok (kmem heap_zero).
Proof. intros a. cbn. lia. Qed.

(** A heap of one page after boot, and with one block in use. *)
Definition heap_boot : heap :=
  match heap_init HEAP_BASE 0x1000 heap_zero with Done (_, s) => s | _ => heap_zero end.
Definition heap_one : heap := match kmalloc 100 heap_boot with Done (_, s) => s | _ => heap_boot end.

Lemma heap_boot_live : heap_live {[0x1000]} ∅ heap_boot.
Proof.
  pose proof (heap_init_live {[0x1000]} heap_zero 0x1000 heap_zero_vm heap_zero_mem ltac:(lia)) as H.
  assert (is_done (heap_init HEAP_BASE 0x1000 heap_zero) = true) as Hd by by vm_compute.
  unfold heap_boot, wp in *. destruct (heap_init _ _ _) as [[]| | | |]; [apply H|done..].
Qed.

Lemma heap_one_live :
  exists c, 100 <= c /\ kmalloc 100 heap_boot = Done (HEAP_BASE + 24, heap_one) /\
    heap_live {[0x1000]} {[HEAP_BASE + 24 := c]} heap_one.
Proof.
  pose proof (malloc_live {[0x1000]} ∅ heap_boot 100 heap_boot_live ltac:(lia)) as H.
  assert (match kmalloc 100 heap_boot with Done (p, _) => p =? HEAP_BASE + 24 | _ => false end = true) as Hd
    by by vm_compute.
  unfold heap_one, wp in *. destruct (kmalloc 100 heap_boot) as [[p s]| | | |]; try done.
  apply Z.eqb_eq in Hd as ->. destruct H as (_ & _ & c & Hc & Hl & _). exists c.
  rewrite insert_empty in Hl. by split_and!.
Qed.

Lemma heap_init_establishes_witness :
  is_done (heap_init HEAP_BASE 0x1000 heap_zero) = true /\
  safe (heap_init HEAP_BASE 0x1000) heap_zero (fun _ s' => heap_live {[0x1000]} ∅ s').
Proof.
  split; [by vm_compute|].
  refine (wp_mono _ _ _ _ _ (heap_init_establishes {[0x1000]} heap_zero 0x1000 heap_zero_vm heap_zero_mem _) _);
    [lia|]. intros _ s' (H & _). exact H.
Defined.

Lemma kmalloc_allocates_witness :
  is_done (kmalloc 100 heap_boot) = true /\
  safe (kmalloc 100) heap_boot (fun p _ => 0 < p).
Proof.
  split; [by vm_compute|].
  refine (wp_mono _ _ _ _ _ (kmalloc_allocates {[0x1000]} ∅ heap_boot 100 heap_boot_live _) _); [lia|].
  intros p s' (c & _ & H & _). exact H.
Defined.

Lemma kfree_releases_witness :
  returns (kfree (HEAP_BASE + 24)) heap_one (fun _ s' => heap_live {[0x1000]} ∅ s').
Proof.
  destruct heap_one_live as (c & _ & _ & Hl).
  refine (wp_mono _ _ _ _ _ (proj1 (kfree_releases {[0x1000]} _ heap_one (HEAP_BASE + 24) c Hl _)) _).
  - apply lookup_singleton_eq.
  - intros _ s' [H _]. by rewrite delete_singleton_eq in H.
Defined.

Lemma krealloc_moves_witness :
  is_done (krealloc (HEAP_BASE + 24) 200 heap_one) = true /\
  safe (krealloc (HEAP_BASE + 24) 200) heap_one (fun q s' => mem_ok (kmem s')).
Proof.
  split; [by vm_compute|]. destruct heap_one_live as (c & _ & _ & Hl).
  refine (wp_mono _ _ _ _ _ (krealloc_moves {[0x1000]} _ heap_one (HEAP_BASE + 24) c 200 Hl _ _) _).
  - apply lookup_singleton_eq.
  - lia.
  - intros q s' (c' & _ & (? & ? & ? & [_ Hc] & _) & _). apply (hc_mem _ _ _ Hc).
Defined.

Lemma kmalloc_size_wraps_witness : kmalloc (2^64 - 1) heap_boot = kmalloc 1 heap_boot.
Proof. apply kmalloc_size_wraps. lia. Defined.
