(* ===== verification/Cpu.v ===== *)
(** * Processor tables, ports and the timer
    (src/src/cpu/gdt.c, idt.c, irq.c, drivers/timer.c, serial.c)

    A device answers port reads with whatever it likes: [oracle n] is the byte
    of the [n]-th read of the run, so a statement about every oracle is a
    statement about every device. Writes are recorded in order. *)

From S2P Require Import Prelude.

(** ** Ports *)

Inductive port_event : Type :=
| In (port value : Z)
| Out (port value : Z).

Record ports := Ports {
  oracle : nat -> Z;
  reads : nat;
  trace : list port_event
}.

Definition inb (port : Z) : M ports Z := fun d =>
  let v := u8 (oracle d (reads d)) in
  Done (v, Ports (oracle d) (S (reads d)) (trace d ++ [In port v])).
Definition outb (port v : Z) : M ports unit := fun d =>
  Done (tt, Ports (oracle d) (reads d) (trace d ++ [Out port (u8 v)])).

(** ** gdt.c *)

(** A descriptor of eight bytes (include/gdt.h). *)
Record GDTEntry := {
  limit_low : Z;
  base_low : Z;
  base_mid : Z;
  access : Z;
  granularity : Z;
  base_high : Z
}.
Definition GDT_ENTRIES : Z := 7.
Definition GDT_TSS : Z := 0x28.

(** The upper half of a system descriptor overlays the next entry: the four
    bytes [hi\[0\]] and four zero bytes. *)
Definition entry_of_words (hi0 hi1 : Z) : GDTEntry := {|
  limit_low := Z.land hi0 0xFFFF;
  base_low := Z.land (Z.shiftr hi0 16) 0xFFFF;
  base_mid := Z.land hi1 0xFF;
  access := Z.land (Z.shiftr hi1 8) 0xFF;
  granularity := Z.land (Z.shiftr hi1 16) 0xFF;
  base_high := Z.land (Z.shiftr hi1 24) 0xFF
|}.

Definition gdt_entry (base limit acc gran : Z) : GDTEntry := {|
  base_low := Z.land base 0xFFFF;
  base_mid := Z.land (Z.shiftr base 16) 0xFF;
  base_high := Z.land (Z.shiftr base 24) 0xFF;
  limit_low := Z.land limit 0xFFFF;
  granularity := Z.lor (Z.land (Z.shiftr limit 16) 0x0F) (Z.land gran 0xF0);
  access := acc
|}.

(** ** idt.c *)

Definition IDT_ENTRIES : Z := 256.

Record IDTEntry := {
  offset_low : Z;
  selector : Z;
  ist : Z;
  type_attr : Z;
  offset_mid : Z;
  offset_high : Z;
  reserved : Z
}.
Definition idt_entry_zero : IDTEntry := Build_IDTEntry 0 0 0 0 0 0 0.

(** The static variables of the four files. A handler is the address of its
    function, 0 for none. *)
Record cpu := Cpu {
  c_ports : ports;
  gdt : Z -> GDTEntry;
  gdt_limit : Z;
  tss_rsp0 : Z;
  tss_iopb : Z;
  idt : Z -> IDTEntry;
  idt_limit : Z;
  handlers : Z -> Z;
  tick_count : Z
}.

#[export] Instance c_ports_lens : Lens cpu ports :=
  {| view := c_ports;
     over p c := Cpu p (gdt c) (gdt_limit c) (tss_rsp0 c) (tss_iopb c) (idt c) (idt_limit c)
                     (handlers c) (tick_count c) |}.
#[export] Instance c_ports_laws : LensLaws cpu ports.
Proof. split; [done|by intros []|done]. Qed.

Definition set_gdt (g : Z -> GDTEntry) (c : cpu) : cpu :=
  Cpu (c_ports c) g (gdt_limit c) (tss_rsp0 c) (tss_iopb c) (idt c) (idt_limit c) (handlers c) (tick_count c).
Definition set_gdt_limit (l : Z) (c : cpu) : cpu :=
  Cpu (c_ports c) (gdt c) l (tss_rsp0 c) (tss_iopb c) (idt c) (idt_limit c) (handlers c) (tick_count c).
Definition set_tss (rsp0 iopb : Z) (c : cpu) : cpu :=
  Cpu (c_ports c) (gdt c) (gdt_limit c) rsp0 iopb (idt c) (idt_limit c) (handlers c) (tick_count c).
Definition set_idt (i : Z -> IDTEntry) (c : cpu) : cpu :=
  Cpu (c_ports c) (gdt c) (gdt_limit c) (tss_rsp0 c) (tss_iopb c) i (idt_limit c) (handlers c) (tick_count c).
Definition set_idt_limit (l : Z) (c : cpu) : cpu :=
  Cpu (c_ports c) (gdt c) (gdt_limit c) (tss_rsp0 c) (tss_iopb c) (idt c) l (handlers c) (tick_count c).
Definition set_handlers (h : Z -> Z) (c : cpu) : cpu :=
  Cpu (c_ports c) (gdt c) (gdt_limit c) (tss_rsp0 c) (tss_iopb c) (idt c) (idt_limit c) h (tick_count c).
Definition set_tick_count (t : Z) (c : cpu) : cpu :=
  Cpu (c_ports c) (gdt c) (gdt_limit c) (tss_rsp0 c) (tss_iopb c) (idt c) (idt_limit c) (handlers c) t.

Definition in_gdt (i : Z) : bool := (0 <=? i) && (i <? GDT_ENTRIES).

Definition gdt_set_entry (idx base limit acc gran : Z) : M cpu unit :=
  if in_gdt idx then modify (fun c => set_gdt (<[idx := gdt_entry base limit acc gran]> (gdt c)) c)
  else ub.

Definition gdt_set_tss (idx base limit : Z) : M cpu unit :=
  if in_gdt idx && in_gdt (idx + 1) then
    modify (fun c => set_gdt (<[idx := {|
      limit_low := Z.land limit 0xFFFF;
      base_low := Z.land base 0xFFFF;
      base_mid := Z.land (Z.shiftr base 16) 0xFF;
      access := 0x89;
      granularity := Z.land (Z.shiftr limit 16) 0x0F;
      base_high := Z.land (Z.shiftr base 24) 0xFF |}]> (gdt c)) c);;
    modify (fun c => set_gdt (<[idx + 1 := entry_of_words (u32 (Z.shiftr base 32)) 0]> (gdt c)) c)
  else ub.

(** sizeof(TSS): 4 + 24 + 8 + 56 + 8 + 2 + 2 packed bytes. *)
Definition SIZEOF_TSS : Z := 104.

(** [tss_addr] is the address of the static TSS, [boot_stack_top] the symbol of boot.asm. *)
Definition gdt_init (tss_addr boot_stack_top : Z) : M cpu unit :=
  gdt_set_entry 0 0 0 0 0;;
  gdt_set_entry 1 0 0xFFFFF 0x9A 0xA0;;
  gdt_set_entry 2 0 0xFFFFF 0x92 0xC0;;
  gdt_set_entry 3 0 0xFFFFF 0xFA 0xA0;;
  gdt_set_entry 4 0 0xFFFFF 0xF2 0xC0;;
  modify (set_tss boot_stack_top SIZEOF_TSS);;
  gdt_set_tss 5 tss_addr (SIZEOF_TSS - 1);;
  modify (set_gdt_limit (8 * GDT_ENTRIES - 1)).

Definition tss_set_rsp0 (rsp0 : Z) : M cpu unit := modify (fun c => set_tss rsp0 (tss_iopb c) c).

Definition idt_gate (handler ist dpl : Z) : IDTEntry := {|
  offset_low := Z.land handler 0xFFFF;
  selector := 0x08;
  ist := Z.land ist 0x07;
  type_attr := u8 (Z.lor 0x8E (Z.shiftl (Z.land dpl 3) 5));
  offset_mid := Z.land (Z.shiftr handler 16) 0xFFFF;
  offset_high := Z.land (Z.shiftr handler 32) 0xFFFFFFFF;
  reserved := 0
|}.
(** [vec] is a uint8_t: every vector is inside the table. *)
Definition idt_set_gate (vec handler ist dpl : Z) : M cpu unit :=
  modify (fun c => set_idt (<[u8 vec := idt_gate handler ist dpl]> (idt c)) c).

Definition idt_set_handler (vec fn : Z) : M cpu unit :=
  modify (fun c => set_handlers (<[u8 vec := fn]> (handlers c)) c).
Definition idt_set_raw_handler (vec addr : Z) : M cpu unit := idt_set_gate vec addr 0 0.

Definition set_type_attr (a : Z) (e : IDTEntry) : IDTEntry :=
  Build_IDTEntry (offset_low e) (selector e) (ist e) a (offset_mid e) (offset_high e) (reserved e).
Definition idt_set_interrupt_dpl (vec dpl : Z) : M cpu unit :=
  modify (fun c =>
    let e := idt c (u8 vec) in
    let a := type_attr e in
    set_idt (<[u8 vec := set_type_attr
      (u8 (Z.lor (Z.land a (u8 (Z.lnot (Z.shiftl 3 5)))) (u8 (Z.shiftl (Z.land dpl 3) 5)))) e]> (idt c)) c).

(** What isr_handler() does with an interrupt: a registered handler is called,
    an exception without one stops the machine, the rest is ignored. *)
Inductive isr_action : Type :=
| Call (handler : Z)
| Ignore.
Definition isr_handler (int_no : Z) : M cpu isr_action :=
  if (0 <=? int_no) && (int_no <? IDT_ENTRIES) then
    h ← gets (fun c => handlers c int_no);
    if nonzero h then mret (Call h)
    else if int_no <? 32 then block
    else mret Ignore
  else ub.

(** [isr_stub_table] is the table the assembler generates. *)
Definition idt_init (isr_stub_table : Z -> Z) : M cpu unit :=
  modify (set_idt (fun _ => idt_entry_zero));;
  modify (set_handlers (fun _ => 0));;
  for_n 256 0 1 (fun i => idt_set_gate i (isr_stub_table i) 0 0;; mret (None (A := unit)));;
  idt_set_gate 8 (isr_stub_table 8) 1 0;;
  modify (set_idt_limit (16 * IDT_ENTRIES - 1)).

(** ** irq.c *)

Definition PIC1_CMD : Z := 0x20.
Definition PIC1_DATA : Z := 0x21.
Definition PIC2_CMD : Z := 0xA0.
Definition PIC2_DATA : Z := 0xA1.
Definition PIC_EOI : Z := 0x20.

(** io_wait() of cpu.asm writes to an unused port; the byte does not matter and is recorded as 0. *)
Definition io_wait : M ports unit := outb 0x80 0.
Definition irq_init : M ports unit :=
  outb PIC1_CMD 0x11;; io_wait;;
  outb PIC2_CMD 0x11;; io_wait;;
  outb PIC1_DATA 0x20;; io_wait;;
  outb PIC2_DATA 0x28;; io_wait;;
  outb PIC1_DATA 0x04;; io_wait;;
  outb PIC2_DATA 0x02;; io_wait;;
  outb PIC1_DATA 0x01;; io_wait;;
  outb PIC2_DATA 0x01;; io_wait;;
  outb PIC1_DATA 0x00;;
  outb PIC2_DATA 0x00.
Definition irq_eoi (irq : Z) : M ports unit :=
  (if 8 <=? irq then outb PIC2_CMD PIC_EOI else mret tt);;
  outb PIC1_CMD PIC_EOI.
Definition irq_mask (irq : Z) : M ports unit :=
  let port := if irq <? 8 then PIC1_DATA else PIC2_DATA in
  m ← inb port;
  outb port (u8 (Z.lor m (Z.shiftl 1 (Z.land irq 7)))).
Definition irq_unmask (irq : Z) : M ports unit :=
  let port := if irq <? 8 then PIC1_DATA else PIC2_DATA in
  m ← inb port;
  outb port (u8 (Z.land m (Z.lnot (Z.shiftl 1 (Z.land irq 7))))).

(** ** timer.c *)

Definition PIT_CH0 : Z := 0x40.
Definition PIT_CMD : Z := 0x43.
Definition PIT_BASE : Z := 1193182.

Definition timer_irq : M cpu unit :=
  modify (fun c => set_tick_count (u64 (tick_count c + 1)) c);;
  zoom (outb 0x20 0x20).
(** [timer_irq_addr] is the address of timer_irq; a zero rate divides by zero. *)
Definition timer_init (timer_irq_addr hz : Z) : M cpu unit :=
  if hz =? 0 then ub
  else
    let divisor := u32 (PIT_BASE / hz) in
    zoom (outb PIT_CMD 0x36);;
    zoom (outb PIT_CH0 (u8 (Z.land divisor 0xFF)));;
    zoom (outb PIT_CH0 (u8 (Z.shiftr divisor 8)));;
    idt_set_handler 32 timer_irq_addr.
Definition timer_ticks : M cpu Z := gets tick_count.
(** The wait ends at once when the ticks are there; otherwise an interrupt must come. *)
Definition timer_sleep (ms : Z) : M cpu unit :=
  c ← get;
  let end_ := u64 (tick_count c + ms) in
  if tick_count c <? end_ then block else mret tt.

(** ** serial.c *)

Definition COM1 : Z := 0x3F8.
Definition serial_init : M ports unit :=
  outb (COM1 + 1) 0x00;; outb (COM1 + 3) 0x80;; outb (COM1 + 0) 0x03;; outb (COM1 + 1) 0x00;;
  outb (COM1 + 3) 0x03;; outb (COM1 + 2) 0xC7;; outb (COM1 + 4) 0x0B.
Definition serial_received : M ports Z := st ← inb (COM1 + 5); mret (Z.land st 1).
(** Busy waits spin on the device: [fuel] reads of the status port. *)
Definition serial_getchar (fuel : nat) : M ports Z :=
  iter fuel (fun _ : unit =>
    r ← serial_received; mret (if nonzero r then inr tt else inl tt)) tt;;
  inb COM1.
Definition serial_tx_empty : M ports Z := st ← inb (COM1 + 5); mret (Z.land st 0x20).
Definition serial_wait (fuel : nat) : M ports unit :=
  iter fuel (fun _ : unit =>
    r ← serial_tx_empty; mret (if nonzero r then inr tt else inl tt)) tt.
Definition serial_putchar (fuel : nat) (c : Z) : M ports unit :=
  serial_wait fuel;;
  (if c =? 10 then outb COM1 13;; serial_wait fuel else mret tt);;
  outb COM1 (u8 c).
Fixpoint serial_puts (fuel : nat) (s : list Z) : M ports unit :=
  match s with
  | [] => mret tt
  | c :: s' => serial_putchar fuel c;; serial_puts fuel s'
  end.

(** ** Decoding what the processor reads *)

Definition gdt_base (e : GDTEntry) : Z :=
  base_low e + base_mid e * 2^16 + base_high e * 2^24.
Definition gdt_limit_of (e : GDTEntry) : Z :=
  limit_low e + Z.land (granularity e) 0x0F * 2^16.
Definition idt_offset (e : IDTEntry) : Z :=
  offset_low e + offset_mid e * 2^16 + offset_high e * 2^32.
Definition idt_dpl (e : IDTEntry) : Z := Z.land (Z.shiftr (type_attr e) 5) 3.

Lemma land_ones_shift z k n : 0 <= k -> 0 <= n -> Z.land (Z.shiftr z k) (2^n - 1) = z / 2^k mod 2^n.
Proof. intros. by rewrite Z.shiftr_div_pow2, land_ones_mod. Qed.

Lemma split16_32 z : 0 <= z < 2^32 ->
  Z.land z 0xFFFF + Z.land (Z.shiftr z 16) 0xFF * 2^16 + Z.land (Z.shiftr z 24) 0xFF * 2^24 = z.
Proof.
  intros Hz. change 0xFFFF with (2^16 - 1). change 0xFF with (2^8 - 1).
  rewrite land_ones_mod, !land_ones_shift by lia. zlia.
Qed.

(** Descriptors round-trip: the processor reads back from a segment, a task
    state or a gate descriptor the base, limit, handler address and privilege
    level they were built from. *)
Theorem descriptors_roundtrip base limit acc gran handler i dpl :
  0 <= base < 2^32 -> 0 <= limit < 2^20 -> 0 <= handler < 2^64 -> 0 <= dpl < 4 ->
  gdt_base (gdt_entry base limit acc gran) = base /\
  gdt_limit_of (gdt_entry base limit acc gran) = limit /\
  idt_offset (idt_gate handler i dpl) = handler /\ idt_dpl (idt_gate handler i dpl) = dpl.
Proof.
  intros Hb Hl Hh Hd. split_and!.
  - by apply split16_32.
  - unfold gdt_limit_of, gdt_entry. cbn [limit_low granularity].
    rewrite Z.land_lor_distr_l, <- !Z.land_assoc. change (Z.land 0xF0 0x0F) with 0.
    rewrite Z.land_0_r, Z.lor_0_r. change (Z.land 0x0F 0x0F) with (2^4 - 1). change 0xFFFF with (2^16 - 1).
    rewrite land_ones_mod, land_ones_shift by lia. zlia.
  - unfold idt_offset, idt_gate. cbn [offset_low offset_mid offset_high].
    change 0xFFFF with (2^16 - 1). change 0xFFFFFFFF with (2^32 - 1).
    rewrite land_ones_mod, !land_ones_shift by lia. zlia.
  - assert (dpl = 0 \/ dpl = 1 \/ dpl = 2 \/ dpl = 3) as [->|[->|[->| ->]]] by lia; reflexivity.
Qed.

Lemma descriptors_roundtrip_witness :
  gdt_base (gdt_entry 0x12345678 0xABCDE 0x9A 0xA0) = 0x12345678 /\
  idt_offset (idt_gate 0xFFFFFFFF80123456 1 3) = 0xFFFFFFFF80123456.
Proof.
  destruct (descriptors_roundtrip 0x12345678 0xABCDE 0x9A 0xA0 0xFFFFFFFF80123456 1 3)
    as (H1 & _ & H2 & _); [lia..|]. by split.
Defined.
