(* ===== verification/Sched.v ===== *)
(** * Scheduler (src/src/kernel/sched.c)

    The task table with round-robin selection, the timer and yield entry
    points, creation, sleeping and exit. Kernel stacks come from an allocator
    seen through its interface (see Heap), so the module is proved for any
    allocator that keeps the interface's laws. *)

From Stdlib Require Import FunctionalExtensionality.
From S2P Require Import Prelude Pmm Mem Strings Vmm Heap Cpu.

Definition MAX_TASKS : Z := 16.
Definition TASK_STACK_SZ : Z := 8 * 4096.

Inductive TaskState : Type := TASK_RUNNING | TASK_READY | TASK_SLEEPING | TASK_DEAD.
#[export] Instance TaskState_eq_dec : EqDecision TaskState.
Proof. solve_decision. Defined.

Record Task := {
  t_rsp : Z;
  t_stack_base : Z;
  t_cr3_phys : Z;
  t_state : TaskState;
  t_pid : Z;
  t_sleep_until : Z;
  t_name : string;
  t_brk_start : Z;
  t_brk_end : Z;
  t_mmap_next : Z
}.

Definition with_rsp (r : Z) (t : Task) : Task :=
  Build_Task r (t_stack_base t) (t_cr3_phys t) (t_state t) (t_pid t) (t_sleep_until t) (t_name t)
    (t_brk_start t) (t_brk_end t) (t_mmap_next t).
Definition with_state (s : TaskState) (t : Task) : Task :=
  Build_Task (t_rsp t) (t_stack_base t) (t_cr3_phys t) s (t_pid t) (t_sleep_until t) (t_name t)
    (t_brk_start t) (t_brk_end t) (t_mmap_next t).
Definition with_sleep (u : Z) (t : Task) : Task :=
  Build_Task (t_rsp t) (t_stack_base t) (t_cr3_phys t) (t_state t) (t_pid t) u (t_name t)
    (t_brk_start t) (t_brk_end t) (t_mmap_next t).

(** All bits zero: the state of a zeroed slot is TASK_RUNNING. *)
Definition task_zero : Task := Build_Task 0 0 0 TASK_RUNNING 0 0 "" 0 0 0.

Record sched (St : Type) := Sched {
  s_mem : St;
  s_cpu : cpu;
  tasks : Z -> Task;
  num_tasks : Z;
  current_idx : Z;
  next_pid : Z;
  sched_pending_cr3 : Z
}.
Arguments Sched {St}.
Arguments s_mem {St}.
Arguments s_cpu {St}.
Arguments tasks {St}.
Arguments num_tasks {St}.
Arguments current_idx {St}.
Arguments next_pid {St}.
Arguments sched_pending_cr3 {St}.

#[export] Instance s_mem_lens St : Lens (sched St) St :=
  {| view := s_mem;
     over m s := Sched m (s_cpu s) (tasks s) (num_tasks s) (current_idx s) (next_pid s) (sched_pending_cr3 s) |}.
#[export] Instance s_cpu_lens St : Lens (sched St) cpu :=
  {| view := s_cpu;
     over c s := Sched (s_mem s) c (tasks s) (num_tasks s) (current_idx s) (next_pid s) (sched_pending_cr3 s) |}.

Section sched.
Context {St : Type} `{Allocator St}.
(** Symbols of the assembler files. *)
Context (boot_stack_top sched_timer_stub sched_yield_stub : Z).

Definition set_tasks (f : (Z -> Task) -> Z -> Task) (s : sched St) : sched St :=
  Sched (s_mem s) (s_cpu s) (f (tasks s)) (num_tasks s) (current_idx s) (next_pid s) (sched_pending_cr3 s).
Definition set_task (i : Z) (f : Task -> Task) : sched St -> sched St :=
  set_tasks (fun ts => <[i := f (ts i)]> ts).
Definition set_num_tasks (n : Z) (s : sched St) : sched St :=
  Sched (s_mem s) (s_cpu s) (tasks s) n (current_idx s) (next_pid s) (sched_pending_cr3 s).
Definition set_current (i : Z) (s : sched St) : sched St :=
  Sched (s_mem s) (s_cpu s) (tasks s) (num_tasks s) i (next_pid s) (sched_pending_cr3 s).
Definition set_next_pid (p : Z) (s : sched St) : sched St :=
  Sched (s_mem s) (s_cpu s) (tasks s) (num_tasks s) (current_idx s) p (sched_pending_cr3 s).
Definition set_pending_cr3 (c : Z) (s : sched St) : sched St :=
  Sched (s_mem s) (s_cpu s) (tasks s) (num_tasks s) (current_idx s) (next_pid s) c.

(** ** Initial frames *)

Definition FRAME_WORDS : nat := 26.

(** The words of a frame, stored from the frame's address up. *)
Fixpoint store_words (m : mem) (a : Z) (ws : list Z) : mem :=
  match ws with
  | [] => m
  | w :: ws' => store_words (store64 m a (u64 w)) (a + 8) ws'
  end.

Definition frame_words (seg rip cs rsp : Z) : list Z :=
  [seg; seg; seg; seg; 0; 0; 0; 0; 0; 0; 0; 0; 0; 0; 0; 0; 0; 0; 0; 0; 0; rip; cs; 0x202; rsp; seg].

(** The frame for a kernel thread and for a user task: the stack memory with
    the frame below [stack_top], and the frame's address. *)
Definition build_fake_frame (m : mem) (stack_top entry : Z) : mem * Z :=
  let frame := stack_top - 8 * Z.of_nat FRAME_WORDS in
  (store_words m frame (frame_words 0x10 entry 0x08 stack_top), frame).
Definition build_user_frame (m : mem) (stack_top rip rsp3 : Z) : mem * Z :=
  let frame := stack_top - 8 * Z.of_nat FRAME_WORDS in
  (store_words m frame (frame_words 0x23 rip 0x1B rsp3), frame).

(** ** Switching *)

Definition ready (t : Task) : bool := bool_decide (t_state t = TASK_READY).

(** [for (i = 1; i <= num_tasks; i++) idx = (current_idx + i) % num_tasks]. *)
Definition find_next (s : sched St) : option Z :=
  i ← scan (Z.to_nat (num_tasks s)) 1 (fun i =>
        ready (tasks s ((current_idx s + i) mod num_tasks s)));
  Some ((current_idx s + i) mod num_tasks s).

Definition do_switch (cur_rsp : Z) : M (sched St) Z :=
  cur ← gets current_idx;
  modify (set_task cur (with_rsp cur_rsp));;
  modify (set_task cur (fun t =>
    if bool_decide (t_state t = TASK_RUNNING) then with_state TASK_READY t else t));;
  next ← gets find_next;
  match next with
  | None =>
      modify (set_task cur (fun t => if ready t then with_state TASK_RUNNING t else t));;
      mret 0
  | Some next =>
      modify (set_task next (with_state TASK_RUNNING));;
      modify (set_current next);;
      t ← gets (fun s => tasks s next);
      modify (set_pending_cr3 (t_cr3_phys t));;
      let ktop := if nonzero (t_stack_base t) then t_stack_base t + TASK_STACK_SZ else boot_stack_top in
      zoom (tss_set_rsp0 ktop);;
      mret (t_rsp t)
  end.

Definition wake (now : Z) (t : Task) : Task :=
  if bool_decide (t_state t = TASK_SLEEPING) && (t_sleep_until t <=? now) then with_state TASK_READY t else t.

(** [r] is the address of the interrupted task's registers. *)
Definition sched_timer_c (r : Z) : M (sched St) Z :=
  zoom (modify (fun c => set_tick_count (u64 (tick_count c + 1)) c));;
  zoom (T := cpu) (zoom (outb 0x20 0x20));;
  now ← gets (fun s => tick_count (s_cpu s));
  n ← gets num_tasks;
  for_n (Z.to_nat n) 0 1 (fun i => modify (set_task i (wake now));; mret (None (A := unit)));;
  do_switch r.
Definition sched_yield_c (r : Z) : M (sched St) Z := do_switch r.

(** ** The public operations *)

Definition name31 (s : string) : string := String.substring 0 31 s.

Definition sched_init (cr3 : Z) : M (sched St) unit :=
  modify (set_tasks (fun _ _ => task_zero));;
  pid ← gets next_pid;
  modify (set_next_pid (u32 (pid + 1)));;
  modify (set_task 0 (fun _ => {|
    t_rsp := 0; t_stack_base := 0; t_cr3_phys := cr3; t_state := TASK_RUNNING; t_pid := pid;
    t_sleep_until := 0; t_name := name31 "kernel"; t_brk_start := 0; t_brk_end := 0;
    t_mmap_next := 0x40000000 |}));;
  modify (set_num_tasks 1);;
  modify (set_current 0);;
  zoom (idt_set_raw_handler 32 sched_timer_stub);;
  zoom (idt_set_raw_handler 0x81 sched_yield_stub).

(** What task_create() and task_create_user() share: the slot is filled with
    [mk stack pid], whose frame [build] puts on the new stack. *)
Definition new_task (build : mem -> Z -> mem * Z) (mk : Z -> Z -> Z -> Task) : M (sched St) Z :=
  n ← gets num_tasks;
  if MAX_TASKS <=? n then mret (-1)
  else
    stack ← zoom (a_malloc TASK_STACK_SZ);
    if stack =? 0 then mret (-1)
    else
      pid ← gets next_pid;
      modify (set_next_pid (u32 (pid + 1)));;
      mm ← gets (fun s => a_mem (s_mem s));
      let '(mm', frame) := build mm (stack + TASK_STACK_SZ) in
      zoom (modify (a_put mm'));;
      modify (set_task n (fun _ => mk stack pid frame));;
      modify (set_num_tasks (n + 1));;
      mret (s32 pid).

Definition task_create (name : string) (entry : Z) : M (sched St) Z :=
  cr3_0 ← gets (fun s => t_cr3_phys (tasks s 0));
  new_task (fun m top => build_fake_frame m top entry) (fun stack pid frame => {|
    t_rsp := frame; t_stack_base := stack; t_cr3_phys := cr3_0; t_state := TASK_READY; t_pid := pid;
    t_sleep_until := 0; t_name := name31 name; t_brk_start := 0; t_brk_end := 0; t_mmap_next := 0 |}).

Definition task_create_user (name : string) (cr3_phys rip user_rsp brk_start brk_end : Z) : M (sched St) Z :=
  new_task (fun m top => build_user_frame m top rip user_rsp) (fun stack pid frame => {|
    t_rsp := frame; t_stack_base := stack; t_cr3_phys := cr3_phys; t_state := TASK_READY; t_pid := pid;
    t_sleep_until := 0; t_name := name31 name; t_brk_start := brk_start; t_brk_end := brk_end;
    t_mmap_next := 0x40000000 |}).

Definition sched_pid_alive (pid : Z) : M (sched St) bool :=
  s ← get;
  match scan (Z.to_nat (num_tasks s)) 0 (fun i => t_pid (tasks s i) =? pid) with
  | Some i => mret (negb (bool_decide (t_state (tasks s i) = TASK_DEAD)))
  | None => mret false
  end.

(** The loop of sched_wait_pid() goes on only when other tasks run in between. *)
Definition sched_wait_pid (pid : Z) : M (sched St) unit :=
  alive ← sched_pid_alive pid;
  if alive : bool then block else mret tt.

(** The task gives up the processor with its registers at [r]: the result is
    the stack to continue on, 0 when the caller itself goes on. *)
Definition task_exit (r : Z) : M (sched St) Z :=
  cur ← gets current_idx;
  modify (set_task cur (with_state TASK_DEAD));;
  next ← sched_yield_c r;
  if next =? 0 then block else mret next.

Definition task_sleep (ms r : Z) : M (sched St) Z :=
  cur ← gets current_idx;
  now ← gets (fun s => tick_count (s_cpu s));
  modify (set_task cur (fun t => with_sleep (u64 (now + ms)) (with_state TASK_SLEEPING t)));;
  sched_yield_c r.

Definition sched_yield (r : Z) : M (sched St) Z := sched_yield_c r.
Definition sched_current : M (sched St) Task := gets (fun s => tasks s (current_idx s)).
(** [None] is the NULL result; a negative index is not checked. *)
Definition sched_get_task (idx : Z) : M (sched St) (option Task) :=
  s ← get;
  if idx <? num_tasks s then (if idx <? 0 then ub else mret (Some (tasks s idx))) else mret None.
Definition sched_task_count : M (sched St) Z := gets num_tasks.

(** ** The invariant *)

(** A slot is never reused: the process number is the slot plus one. Only the
    current task can be running. *)
Record sched_wf (s : sched St) : Prop := {
  sw_num : 1 <= num_tasks s <= MAX_TASKS;
  sw_cur : 0 <= current_idx s < num_tasks s;
  sw_run : forall i, 0 <= i < num_tasks s -> t_state (tasks s i) = TASK_RUNNING -> i = current_idx s;
  sw_pid : forall i, 0 <= i < num_tasks s -> t_pid (tasks s i) = i + 1;
  sw_next : next_pid s = num_tasks s + 1
}.

(** The current task as do_switch() saves it. *)
Definition saved (r : Z) (t : Task) : Task :=
  if bool_decide (t_state t = TASK_RUNNING) then with_state TASK_READY (with_rsp r t) else with_rsp r t.

Lemma saved_state r t :
  t_state (saved r t) = if bool_decide (t_state t = TASK_RUNNING) then TASK_READY else t_state t.
Proof. unfold saved. by case_bool_decide. Qed.
Lemma saved_pid r t : t_pid (saved r t) = t_pid t.
Proof. unfold saved. by case_bool_decide. Qed.

Definition save_current (r : Z) (s : sched St) : sched St := set_task (current_idx s) (saved r) s.

Lemma save_tasks r s i :
  tasks (save_current r s) i = if i =? current_idx s then saved r (tasks s (current_idx s)) else tasks s i.
Proof. apply upd_case. Qed.

(** The task picked: the first ready one after the current, in cyclic order. *)
Definition picks (s : sched St) (next : Z) : Prop :=
  exists i, 1 <= i <= num_tasks s /\ next = (current_idx s + i) mod num_tasks s /\
    ready (tasks s next) = true /\
    forall j, 1 <= j < i -> ready (tasks s ((current_idx s + j) mod num_tasks s)) = false.

Lemma find_next_Some s next : find_next s = Some next <-> picks s next.
Proof.
  unfold find_next, picks. split.
  - destruct (scan _ _ _) as [i|] eqn:Hs; [|done]. intros [= <-].
    apply scan_Some in Hs as (Hi & Hr & Hall). exists i. split_and!; [lia|lia|done|done|done].
  - intros (i & Hi & -> & Hr & Hall).
    replace (scan _ _ _) with (Some i); [done|]. symmetry. apply scan_Some. split; [lia|]. by split.
Qed.

Lemma find_next_None s :
  sched_wf s \/ (1 <= num_tasks s /\ 0 <= current_idx s < num_tasks s) ->
  find_next s = None -> forall i, 0 <= i < num_tasks s -> ready (tasks s i) = false.
Proof.
  intros Hn. assert (1 <= num_tasks s /\ 0 <= current_idx s < num_tasks s) as [Hn1 Hc].
  { destruct Hn as [[? ? _ _ _]|]; tauto. }
  unfold find_next. destruct (scan _ _ _) as [i|] eqn:Hs; [done|]. intros _ i Hi.
  pose proof (proj1 (scan_None _ _ _) Hs) as Hall.
  destruct (decide (i = current_idx s)) as [->|Hne].
  - specialize (Hall (num_tasks s) ltac:(lia)). cbn beta in Hall.
    replace (current_idx s + num_tasks s) with (current_idx s + 1 * num_tasks s) in Hall by lia.
    by rewrite Z_mod_plus_full, Z.mod_small in Hall by lia.
  - specialize (Hall ((i - current_idx s) mod num_tasks s)). cbn beta in Hall.
    assert ((current_idx s + (i - current_idx s) mod num_tasks s) mod num_tasks s = i) as Heq.
    { rewrite Zplus_mod_idemp_r. replace (current_idx s + (i - current_idx s)) with i by lia.
      by apply Z.mod_small. }
    rewrite Heq in Hall. apply Hall.
    pose proof (Z.mod_pos_bound (i - current_idx s) (num_tasks s) ltac:(lia)).
    assert ((i - current_idx s) mod num_tasks s <> 0); [|lia].
    intros Hz. pose proof (Z.div_mod (i - current_idx s) (num_tasks s) ltac:(lia)) as Hdm.
    rewrite Hz in Hdm. generalize dependent ((i - current_idx s) / num_tasks s). intros q Hq.
    clear -Hq Hi Hc Hne Hn1. assert (q = 0 \/ 1 <= q \/ q <= -1) as [->|[?|?]] by lia; nia.
Qed.

Lemma set_task_twice i f g s : set_task i g (set_task i f s) = set_task i (fun t => g (f t)) s.
Proof.
  unfold set_task, set_tasks. destruct s. cbn. f_equal. apply functional_extensionality. intros j.
  rewrite !upd_case. by destruct (j =? i); rewrite ?Z.eqb_refl.
Qed.

(** The state after a switch to [next]. *)
Definition switched (next r : Z) (s : sched St) : sched St :=
  let s1 := save_current r s in
  let t := with_state TASK_RUNNING (tasks s1 next) in
  Sched (s_mem s)
    (set_tss (if nonzero (t_stack_base t) then t_stack_base t + TASK_STACK_SZ else boot_stack_top)
       (tss_iopb (s_cpu s)) (s_cpu s))
    (<[next := t]> (tasks s1)) (num_tasks s) next (next_pid s) (t_cr3_phys t).

Lemma do_switch_eq r s :
  let s1 := save_current r s in
  do_switch r s =
  match find_next s1 with
  | Some next => Done (t_rsp (tasks s1 next), switched next r s)
  | None => Done (0, set_task (current_idx s) (fun t => if ready t then with_state TASK_RUNNING t else t) s1)
  end.
Proof.
  intros s1. unfold do_switch.
  rewrite (bind_Done _ _ s (current_idx s) s) by done.
  rewrite (bind_Done _ _ s tt (set_task (current_idx s) (with_rsp r) s)) by done.
  rewrite (bind_Done _ _ _ tt s1); [|by unfold modify; rewrite set_task_twice].
  rewrite (bind_Done _ _ s1 (find_next s1) s1) by done.
  destruct (find_next s1) as [next|]; [|done].
  set (s2 := set_task next (with_state TASK_RUNNING) s1).
  rewrite (bind_Done _ _ s1 tt s2) by done.
  rewrite (bind_Done _ _ s2 tt (set_current next s2)) by done.
  rewrite (bind_Done _ _ (set_current next s2) (with_state TASK_RUNNING (tasks s1 next)) (set_current next s2)).
  2: { unfold gets. do 2 f_equal. apply upd_same. }
  done.
Qed.

(** ** The operations keep the invariant *)

Lemma wf_same_shape s s' :
  sched_wf s -> num_tasks s' = num_tasks s -> current_idx s' = current_idx s -> next_pid s' = next_pid s ->
  (forall i, 0 <= i < num_tasks s -> t_pid (tasks s' i) = t_pid (tasks s i)) ->
  (forall i, 0 <= i < num_tasks s -> i <> current_idx s -> t_state (tasks s' i) = TASK_RUNNING ->
     t_state (tasks s i) = TASK_RUNNING) -> sched_wf s'.
Proof.
  intros [H1 H2 H3 H4 H5] Hn Hc Hp Hpid Hst. split; rewrite ?Hn, ?Hc, ?Hp; [done|done| | |done].
  - intros i Hi Hr. destruct (decide (i = current_idx s)); [done|]. apply H3; [done|]. by apply Hst.
  - intros i Hi. rewrite Hpid by done. by apply H4.
Qed.

Lemma save_wf r s : sched_wf s -> sched_wf (save_current r s).
Proof.
  intros Hwf. apply (wf_same_shape s); [done..| |]; intros i Hi.
  - rewrite save_tasks. destruct (Z.eqb_spec i (current_idx s)) as [->|]; [apply saved_pid|done].
  - intros Hne. rewrite save_tasks. by apply Z.eqb_neq in Hne as ->.
Qed.

Lemma picks_range s next : sched_wf s -> picks s next -> 0 <= next < num_tasks s.
Proof.
  intros Hwf (i & _ & -> & _). apply Z.mod_pos_bound. pose proof (sw_num s Hwf). lia.
Qed.

Lemma switched_wf next r s : sched_wf s -> picks (save_current r s) next -> sched_wf (switched next r s).
Proof.
  intros Hwf Hpick. pose proof (save_wf r s Hwf) as Hwf1.
  pose proof (picks_range _ _ Hwf1 Hpick) as Hr. change (num_tasks (save_current r s)) with (num_tasks s) in Hr.
  destruct Hwf1 as [H1 H2 H3 H4 H5]. split; [done|done| | |done].
  - intros i Hi. cbn [switched tasks current_idx]. rewrite upd_case.
    destruct (Z.eqb_spec i next); [done|]. intros Hrun. exfalso.
    rewrite save_tasks in Hrun. destruct (Z.eqb_spec i (current_idx s)) as [->|Hne].
    + rewrite saved_state in Hrun. by case_bool_decide.
    + apply Hne, (sw_run s Hwf); done.
  - intros i Hi. cbn [switched tasks]. rewrite upd_case.
    destruct (Z.eqb_spec i next) as [->|]; by apply H4.
Qed.

Lemma do_switch_wf r s : sched_wf s -> returns (do_switch r) s (fun _ s' => sched_wf s' /\ num_tasks s' = num_tasks s).
Proof.
  intros Hwf. unfold wp. rewrite do_switch_eq. destruct (find_next _) as [next|] eqn:Hf.
  - apply find_next_Some in Hf. split; [by apply switched_wf|done].
  - split; [|done]. pose proof (save_wf r s Hwf) as Hwf1. apply (wf_same_shape (save_current r s)); [done..| |]; intros i Hi.
    + unfold set_task. cbn [set_tasks tasks]. rewrite upd_case.
      destruct (Z.eqb_spec i (current_idx s)) as [->|]; [|done]. by destruct (ready _).
    + intros Hne. change (current_idx (save_current r s)) with (current_idx s) in Hne.
      unfold set_task. cbn [set_tasks tasks]. rewrite upd_case. by apply Z.eqb_neq in Hne as ->.
Qed.

(** The state in which sched_timer_c() switches. *)
Definition ticked (s : sched St) : sched St :=
  let now := u64 (tick_count (s_cpu s) + 1) in
  Sched (s_mem s)
    (let p := c_ports (s_cpu s) in
     over (Ports (oracle p) (reads p) (trace p ++ [Out 0x20 0x20])) (set_tick_count now (s_cpu s)))
    (fun i => if (0 <=? i) && (i <? num_tasks s) then wake now (tasks s i) else tasks s i)
    (num_tasks s) (current_idx s) (next_pid s) (sched_pending_cr3 s).

Lemma wake_loop now n s :
  for_n n 0 1 (fun i => modify (set_task i (wake now));; mret (None (A := unit))) s =
  Done (None, set_tasks (fun ts i => if (0 <=? i) && (i <? Z.of_nat n) then wake now (ts i) else ts i) s).
Proof.
  assert (forall k s, 0 <= k -> for_n n k 1 (fun i => modify (set_task i (wake now));; mret (None (A := unit))) s =
    Done (None, set_tasks (fun ts i => if (k <=? i) && (i <? k + Z.of_nat n) then wake now (ts i) else ts i) s)) as Hg;
    [|by rewrite (Hg 0)].
  induction n as [|n IH]; intros k s' Hk.
  - cbn. unfold mret, M_ret. do 2 f_equal. unfold set_tasks. destruct s'. cbn. f_equal.
    apply functional_extensionality. intros i. by replace (_ && _) with false by blia.
  - cbn [for_n]. rewrite (bind_Done _ _ s' None (set_task k (wake now) s')) by done. cbn iota.
    rewrite IH by lia. do 2 f_equal. unfold set_task, set_tasks. cbn. f_equal.
    apply functional_extensionality. intros i. rewrite upd_case.
    destruct (Z.eqb_spec i k) as [->|]; [blia|].
    replace ((k + 1 <=? i) && (i <? k + 1 + Z.of_nat n)) with ((k <=? i) && (i <? k + Z.of_nat (S n))); [done|blia].
Qed.

Lemma sched_timer_eq r s : 0 <= num_tasks s -> sched_timer_c r s = do_switch r (ticked s).
Proof.
  intros Hn. unfold sched_timer_c.
  rewrite (bind_Done _ _ s tt (over (set_tick_count (u64 (tick_count (s_cpu s) + 1)) (s_cpu s)) s)) by done.
  match goal with |- (zoom ?m ≫= ?f) ?s1 = _ => rewrite (bind_Done (zoom m) f s1 tt
    (over (over (Ports (oracle (c_ports (s_cpu s))) (reads (c_ports (s_cpu s)))
      (trace (c_ports (s_cpu s)) ++ [Out 0x20 0x20])) (set_tick_count (u64 (tick_count (s_cpu s) + 1)) (s_cpu s))) s)) by done end.
  set (s2 := over _ s). rewrite (bind_Done _ _ s2 (u64 (tick_count (s_cpu s) + 1)) s2) by done.
  rewrite (bind_Done _ _ s2 (num_tasks s) s2) by done.
  rewrite (bind_Done _ _ _ _ _ (wake_loop _ _ s2)), Z2Nat.id by done. done.
Qed.

Lemma wake_pid now t : t_pid (wake now t) = t_pid t.
Proof. unfold wake. by destruct (_ && _). Qed.
Lemma ticked_wf s : sched_wf s -> sched_wf (ticked s).
Proof.
  intros Hwf. apply (wf_same_shape s); [done..| |]; intros i Hi; cbn [ticked tasks].
  - destruct (_ && _); [apply wake_pid|done].
  - intros _. destruct (_ && _); [|done]. unfold wake. by destruct (_ && _).
Qed.

Definition sleeping (ms : Z) (s : sched St) : sched St :=
  set_task (current_idx s) (fun t =>
    with_sleep (u64 (tick_count (s_cpu s) + ms)) (with_state TASK_SLEEPING t)) s.
Definition exiting (s : sched St) : sched St := set_task (current_idx s) (with_state TASK_DEAD) s.

Lemma task_sleep_eq ms r s : task_sleep ms r s = do_switch r (sleeping ms s).
Proof. done. Qed.

(** Stopping the current task keeps the invariant. *)
Lemma stop_wf f s :
  sched_wf s -> (forall t, t_pid (f t) = t_pid t) -> sched_wf (set_task (current_idx s) f s).
Proof.
  intros Hwf Hp. apply (wf_same_shape s); [done..| |]; intros i Hi;
    unfold set_task; cbn [set_tasks tasks]; rewrite upd_case.
  - destruct (Z.eqb_spec i (current_idx s)) as [->|]; [apply Hp|done].
  - by intros ->%Z.eqb_neq.
Qed.

Lemma task_exit_cases r s :
  task_exit r s = match do_switch r (exiting s) with
                  | Done (0, _) => Blocked
                  | o => o
                  end.
Proof.
  unfold task_exit. rewrite (bind_Done _ _ s (current_idx s) s) by done.
  rewrite (bind_Done _ _ s tt (exiting s)) by done. unfold sched_yield_c, mbind, M_bind.
  destruct (do_switch r (exiting s)) as [[x s']| | | |]; [|done..]. by destruct x.
Qed.

(** A new task in the next slot. *)
Lemma new_task_ok `{!AllocatorLaws St} build mk L s :
  (forall m top, (build m top).2 = top - 208) ->
  (forall m top x, x < top - 208 \/ top <= x -> (build m top).1 x = m x) ->
  (forall m top, mem_ok m -> mem_ok (build m top).1) ->
  (forall stack pid frame, t_pid (mk stack pid frame) = pid /\ t_state (mk stack pid frame) = TASK_READY) ->
  sched_wf s -> a_inv L (s_mem s) -> num_tasks s < MAX_TASKS ->
  safe (new_task build mk) s (fun pid s' =>
    sched_wf s' /\ pid = num_tasks s + 1 /\ num_tasks s' = num_tasks s + 1 /\ current_idx s' = current_idx s /\
    exists stack m0, tasks s' = <[num_tasks s := mk stack pid (stack + TASK_STACK_SZ - 208)]> (tasks s) /\
      a_mem (s_mem s') = (build m0 (stack + TASK_STACK_SZ)).1 /\ L !! stack = None /\
      exists c, TASK_STACK_SZ <= c /\ a_inv (<[stack := c]> L) (s_mem s')).
Proof.
  intros Hb2 Hbm Hbok Hmk Hwf HL Hn. pose proof Hwf as [H1 H2 H3 H4 H5]. unfold MAX_TASKS in *.
  unfold new_task, MAX_TASKS. do 2 wp_step. replace (16 <=? num_tasks s) with false by blia. wp_step. apply wp_zoom.
  eapply wp_mono; [apply (a_malloc_law L); [done|unfold TASK_STACK_SZ; lia]|].
  intros stack st' (Hpos & Hnone & c & Hc & Hinv & Hkeep). replace (stack =? 0) with false by blia.
  do 2 wp_step. do 2 wp_step. do 2 wp_step. cbn.
  destruct (build (a_mem st') (stack + TASK_STACK_SZ)) as [m' frame] eqn:Hbld.
  pose proof (Hb2 (a_mem st') (stack + TASK_STACK_SZ)) as Hfr. rewrite Hbld in Hfr. cbn in Hfr. subst frame.
  pose proof (Hbm (a_mem st') (stack + TASK_STACK_SZ)) as Hsame. rewrite Hbld in Hsame. cbn in Hsame.
  pose proof (Hbok _ (stack + TASK_STACK_SZ) (a_mem_ok _ _ Hinv)) as Hok. rewrite Hbld in Hok. cbn in Hok.
  wp_step. apply wp_zoom. wp_step. do 2 wp_step. do 2 wp_step. wp_step. rewrite H5 in *. rewrite s32_small by lia.
  split_and!; [|done..|].
  - destruct (Hmk stack (num_tasks s + 1) (stack + TASK_STACK_SZ - 208)) as [Hpid Hst]. split; cbn.
    + unfold MAX_TASKS. lia.
    + lia.
    + intros i Hi. rewrite upd_case. destruct (Z.eqb_spec i (num_tasks s)); [congruence|]. apply H3. lia.
    + intros i Hi. rewrite upd_case. destruct (Z.eqb_spec i (num_tasks s)) as [->|]; [done|]. apply H4. lia.
    + rewrite u32_small; lia.
  - exists stack, (a_mem st'). split_and!; [done| |done|].
    + cbn. by rewrite a_mem_put, Hbld.
    + exists c. split; [done|]. apply (a_write _ st' stack c); [done|apply lookup_insert_eq|done|].
      intros a Ha. apply Hsame. unfold TASK_STACK_SZ in *. lia.
Qed.

Lemma store_words_other m a ws x : x < a \/ a + 8 * Z.of_nat (length ws) <= x -> store_words m a ws x = m x.
Proof.
  revert m a. induction ws as [|w ws IH]; intros m a Hx; cbn [store_words length] in *; [done|].
  rewrite IH by lia. apply store64_other. lia.
Qed.
Lemma store_words_at m a ws i w :
  ws !! i = Some w -> load64 (store_words m a ws) (a + 8 * Z.of_nat i) = u64 w.
Proof.
  revert m a i. induction ws as [|v ws IH]; intros m a [|i] Hw; cbn [store_words] in *; [done|done| |].
  - injection Hw as ->. rewrite Z.mul_0_r, Z.add_0_r.
    transitivity (load64 (store64 m a (u64 w)) a); [|apply load64_store64, u64_range].
    apply load_le_ext. intros x Hx. apply store_words_other. lia.
  - replace (a + 8 * Z.of_nat (S i)) with (a + 8 + 8 * Z.of_nat i) by lia. by apply IH.
Qed.
Lemma mem_ok_store_words m a ws : mem_ok m -> mem_ok (store_words m a ws).
Proof.
  revert m a. induction ws as [|w ws IH]; intros m a Hm; cbn; [done|]. apply IH. apply (mem_ok_store_le 8 m a (u64 w)), Hm.
Qed.

(** ** Operations as steps *)

Inductive switch_op : Type := Timer (r : Z) | Yield (r : Z) | Sleep (ms r : Z) | Exit (r : Z).
Definition run_switch (op : switch_op) : M (sched St) Z :=
  match op with
  | Timer r => sched_timer_c r
  | Yield r => sched_yield r
  | Sleep ms r => task_sleep ms r
  | Exit r => task_exit r
  end.

(** The state in which each of them switches, and the stack pointer saved. *)
Definition before (op : switch_op) (s : sched St) : sched St :=
  match op with
  | Timer _ => ticked s
  | Yield _ => s
  | Sleep ms _ => sleeping ms s
  | Exit _ => exiting s
  end.
Definition op_rsp (op : switch_op) : Z :=
  match op with Timer r | Yield r | Sleep _ r | Exit r => r end.

Lemma run_switch_eq op s :
  sched_wf s ->
  run_switch op s = match op, do_switch (op_rsp op) (before op s) with
                    | Exit _, Done (0, _) => Blocked
                    | _, o => o
                    end.
Proof.
  intros Hwf. destruct op; cbn [run_switch op_rsp before].
  - apply sched_timer_eq. pose proof (sw_num s Hwf). lia.
  - done.
  - apply task_sleep_eq.
  - apply task_exit_cases.
Qed.

Lemma before_wf op s : sched_wf s -> sched_wf (before op s).
Proof.
  intros Hwf. destruct op; cbn [before]; [by apply ticked_wf|done|by apply stop_wf..].
Qed.
Lemma before_shape op s :
  num_tasks (before op s) = num_tasks s /\ current_idx (before op s) = current_idx s /\
  s_mem (before op s) = s_mem s /\
  (forall i, t_stack_base (tasks (before op s) i) = t_stack_base (tasks s i)) /\
  (forall i, i <> current_idx s -> ready (tasks s i) = true -> tasks (before op s) i = tasks s i).
Proof.
  destruct op; cbn [before]; split_and!; try done; intros i.
  - cbn. destruct (_ && _); [|done]. unfold wake. by destruct (_ && _).
  - intros _ Hr. cbn. destruct (_ && _); [|done]. unfold wake, ready in *.
    apply bool_decide_eq_true in Hr. by rewrite Hr.
  - unfold sleeping, set_task. cbn. rewrite upd_case. by destruct (Z.eqb_spec i (current_idx s)) as [->|].
  - intros Hi _. unfold sleeping, set_task. cbn. by rewrite upd_other.
  - unfold exiting, set_task. cbn. rewrite upd_case. by destruct (Z.eqb_spec i (current_idx s)) as [->|].
  - intros Hi _. unfold exiting, set_task. cbn. by rewrite upd_other.
Qed.

(** ** Fairness *)

(** How many slots after [c] the slot [k] comes in cyclic order. *)
Definition ahead (n c k : Z) : Z := (k - c) mod n.

Lemma ahead_pos n c k : 0 <= c < n -> 0 <= k < n -> k <> c -> 0 < ahead n c k < n.
Proof.
  intros. unfold ahead. destruct (decide (c < k)).
  - rewrite Z.mod_small; lia.
  - rewrite <- (Z_mod_plus_full _ 1), Z.mod_small; lia.
Qed.
Lemma ahead_reach n c k : 0 <= c < n -> 0 <= k < n -> (c + ahead n c k) mod n = k.
Proof.
  intros. unfold ahead. rewrite Zplus_mod_idemp_r. replace (c + (k - c)) with k by lia.
  by apply Z.mod_small.
Qed.
Lemma ahead_step n c k i :
  0 <= c < n -> 0 <= k < n -> 1 <= i <= ahead n c k -> ahead n ((c + i) mod n) k = ahead n c k - i.
Proof.
  intros Hc Hk Hi. unfold ahead in *. rewrite Zminus_mod_idemp_r.
  replace (k - (c + i)) with (k - c - i) by lia. rewrite <- Zminus_mod_idemp_l.
  apply Z.mod_small. pose proof (Z.mod_pos_bound (k - c) n). lia.
Qed.

(** With a ready task [k] waiting, a switch goes to [k] or nearer to it. *)
Lemma switch_towards r s k :
  sched_wf s -> 0 <= k < num_tasks s -> k <> current_idx s -> ready (tasks s k) = true ->
  exists next, picks (save_current r s) next /\
    do_switch r s = Done (t_rsp (tasks (save_current r s) next), switched next r s) /\
    (next <> k -> ready (tasks (switched next r s) k) = true /\
       ahead (num_tasks s) next k < ahead (num_tasks s) (current_idx s) k).
Proof.
  intros Hwf Hk Hne Hr. pose proof (save_wf r s Hwf) as Hwf1. pose proof (sw_cur s Hwf) as Hc.
  assert (tasks (save_current r s) k = tasks s k) as Hsk by (rewrite save_tasks; by apply Z.eqb_neq in Hne as ->).
  rewrite do_switch_eq. destruct (find_next _) as [next|] eqn:Hf.
  - apply find_next_Some in Hf. exists next. split; [done|]. split; [done|]. intros Hnk.
    split; [unfold switched; cbn [tasks]; by rewrite upd_other, Hsk|].
    destruct Hf as (i & Hi & Hnext & _ & Hall).
    change (num_tasks (save_current r s)) with (num_tasks s) in *.
    change (current_idx (save_current r s)) with (current_idx s) in *.
    pose proof (ahead_pos _ _ _ Hc Hk Hne) as Hpos. pose proof (ahead_reach _ _ _ Hc Hk) as Hreach.
    destruct (decide (ahead (num_tasks s) (current_idx s) k < i)) as [Hlt|Hge].
    + specialize (Hall (ahead (num_tasks s) (current_idx s) k) ltac:(lia)). rewrite Hreach, Hsk in Hall.
      by rewrite Hr in Hall.
    + rewrite Hnext, ahead_step by lia. lia.
  - exfalso. pose proof (find_next_None _ (or_introl Hwf1) Hf k Hk) as Hno. rewrite Hsk in Hno. congruence.
Qed.

(** A sequence of [n] switching operations that never goes to [k]. *)
Inductive starved (k : Z) : nat -> sched St -> sched St -> Prop :=
| starved_O s : starved k O s s
| starved_S n op s x s1 s2 :
    run_switch op s = Done (x, s1) -> current_idx s1 <> k -> starved k n s1 s2 -> starved k (S n) s s2.

Lemma switch_op_towards op s k :
  sched_wf s -> 0 <= k < num_tasks s -> k <> current_idx s -> ready (tasks s k) = true ->
  exists next, picks (save_current (op_rsp op) (before op s)) next /\
    do_switch (op_rsp op) (before op s) =
      Done (t_rsp (tasks (save_current (op_rsp op) (before op s)) next), switched next (op_rsp op) (before op s)) /\
    (next <> k -> ready (tasks (switched next (op_rsp op) (before op s)) k) = true /\
       ahead (num_tasks s) next k < ahead (num_tasks s) (current_idx s) k).
Proof.
  intros Hwf Hk Hne Hr. destruct (before_shape op s) as (Hn & Hc & _ & _ & Hsame).
  pose proof (switch_towards (op_rsp op) (before op s) k (before_wf op s Hwf)) as Ht.
  rewrite Hn, Hc, Hsame in Ht by done. by apply Ht.
Qed.
Lemma starved_bound k n s s' :
  starved k n s s' -> sched_wf s -> 0 <= k < num_tasks s -> k <> current_idx s ->
  ready (tasks s k) = true -> Z.of_nat n < ahead (num_tasks s) (current_idx s) k.
Proof.
  intros Hst. induction Hst as [s|n op s x s1 s2 Hrun Hne1 Hst IH]; intros Hwf Hk Hne Hr.
  - pose proof (ahead_pos (num_tasks s) (current_idx s) k (sw_cur s Hwf) Hk Hne). lia.
  - destruct (switch_op_towards op s k Hwf Hk Hne Hr) as (next & Hp & Hsw & Hnext).
    assert (s1 = switched next (op_rsp op) (before op s)) as ->.
    { rewrite run_switch_eq in Hrun by done. destruct op; cbn iota in Hrun; rewrite Hsw in Hrun; try congruence.
      destruct (t_rsp _) in Hrun; congruence. }
    pose proof (switched_wf _ _ _ (before_wf op s Hwf) Hp) as Hwf'.
    destruct (before_shape op s) as (Hn & _). cbn [current_idx switched] in Hne1.
    destruct (Hnext Hne1) as [Hr' Hlt]. specialize (IH Hwf').
    cbn [num_tasks current_idx switched] in IH. rewrite Hn in IH.
    specialize (IH Hk ltac:(congruence) Hr'). lia.
Qed.

(** ** The invariant with the stacks *)

(** Every task but the boot task owns a live kernel stack of its own. *)
Definition stacks_ok (L : live) (s : sched St) : Prop :=
  (forall i, 1 <= i < num_tasks s -> exists c, L !! t_stack_base (tasks s i) = Some c /\ TASK_STACK_SZ <= c) /\
  (forall i j, 1 <= i < num_tasks s -> 1 <= j < num_tasks s -> i <> j ->
     t_stack_base (tasks s i) <> t_stack_base (tasks s j)).

Definition sched_inv `{!AllocatorLaws St} (L : live) (s : sched St) : Prop :=
  sched_wf s /\ a_inv L (s_mem s) /\ stacks_ok L s.

Lemma stacks_same_shape L s s' :
  num_tasks s' = num_tasks s -> (forall i, t_stack_base (tasks s' i) = t_stack_base (tasks s i)) ->
  stacks_ok L s -> stacks_ok L s'.
Proof.
  intros Hn Hb [H1 H2]. split; intros i; rewrite Hn, Hb; [apply H1|].
  intros j. rewrite Hb. apply H2.
Qed.
Lemma saved_stack r t : t_stack_base (saved r t) = t_stack_base t.
Proof. unfold saved. by case_bool_decide. Qed.
Lemma save_stack r s i : t_stack_base (tasks (save_current r s) i) = t_stack_base (tasks s i).
Proof. rewrite save_tasks. destruct (Z.eqb_spec i (current_idx s)) as [->|]; [apply saved_stack|done]. Qed.

Lemma do_switch_inv `{!AllocatorLaws St} L r s :
  sched_inv L s -> returns (do_switch r) s (fun _ s' => sched_inv L s' /\ num_tasks s' = num_tasks s).
Proof.
  intros (Hwf & Ha & Hst). pose proof (do_switch_wf r s Hwf) as Hw. unfold wp in *. rewrite do_switch_eq in *.
  destruct (find_next _) as [next|]; destruct Hw as [Hw Hn]; split; try done; (split; [done|]); split; try done.
  - apply (stacks_same_shape L s); [done| |done]. intros i. unfold switched. cbn [tasks]. rewrite upd_case.
    destruct (Z.eqb_spec i next) as [->|]; apply (save_stack r s).
  - apply (stacks_same_shape L s); [done| |done]. intros i. unfold set_task, set_tasks. cbn [tasks]. rewrite upd_case.
    destruct (Z.eqb_spec i (current_idx s)) as [->|]; [destruct (ready _)|]; apply (save_stack r s).
Qed.

Lemma new_task_inv `{!AllocatorLaws St} build mk L s :
  (forall m top, (build m top).2 = top - 208) ->
  (forall m top x, x < top - 208 \/ top <= x -> (build m top).1 x = m x) ->
  (forall m top, mem_ok m -> mem_ok (build m top).1) ->
  (forall stack pid frame, t_pid (mk stack pid frame) = pid /\ t_state (mk stack pid frame) = TASK_READY) ->
  (forall stack pid frame, t_stack_base (mk stack pid frame) = stack) ->
  sched_inv L s ->
  safe (new_task build mk) s (fun _ s' => (exists L', L ⊆ L' /\ sched_inv L' s') /\ num_tasks s <= num_tasks s').
Proof.
  intros Hb2 Hbm Hbok Hmk Hms (Hwf & HL & Hst). destruct (decide (num_tasks s < MAX_TASKS)) as [Hn|Hn].
  - eapply wp_mono; [by apply (new_task_ok build mk L)|]. cbn beta.
    intros pid s' (Hwf' & -> & Hn' & _ & stack & m0 & Ht & _ & Hnone & c & Hc & Hinv'). split; [|lia].
    exists (<[stack := c]> L). split; [by apply insert_subseteq|]. split; [done|]. split; [done|].
    destruct Hst as [Hst1 Hst2].
    assert (forall i, 1 <= i < num_tasks s -> t_stack_base (tasks s i) <> stack) as Hnew.
    { intros i Hi Heq. destruct (Hst1 i Hi) as (c' & Hc' & _). rewrite Heq, Hnone in Hc'. done. }
    split; intros i; rewrite Hn', Ht, upd_case.
    + intros Hi. destruct (Z.eqb_spec i (num_tasks s)) as [->|].
      * exists c. rewrite Hms. split; [apply lookup_insert_eq|done].
      * destruct (Hst1 i) as (c' & Hc' & Hle); [lia|]. exists c'. split; [|done].
        rewrite lookup_insert_ne; [done|]. intros Heq. apply (Hnew i); [lia|done].
    + intros j Hi Hj Hij. rewrite upd_case.
      destruct (Z.eqb_spec i (num_tasks s)) as [->|]; destruct (Z.eqb_spec j (num_tasks s)) as [->|];
        rewrite ?Hms; [lia|intros Heq; apply (Hnew j); [lia|done]|apply Hnew; lia|apply Hst2; lia].
  - unfold new_task, MAX_TASKS in *. do 2 wp_step. replace (16 <=? num_tasks s) with true by blia. wp_step.
    split; [|lia]. by exists L.
Qed.

Lemma frame_build_ok seg rip cs rsp m top :
  let a := top - 8 * Z.of_nat FRAME_WORDS in
  let m' := store_words m a (frame_words seg rip cs rsp) in
  a = top - 208 /\ (forall x, x < top - 208 \/ top <= x -> m' x = m x) /\ (mem_ok m -> mem_ok m') /\
  (forall i w, frame_words seg rip cs rsp !! i = Some w -> load64 m' (a + 8 * Z.of_nat i) = u64 w).
Proof.
  cbn zeta. assert (top - 8 * Z.of_nat FRAME_WORDS = top - 208) as -> by (unfold FRAME_WORDS; lia).
  split_and!; [done| |apply mem_ok_store_words|intros; by apply store_words_at].
  intros x Hx. apply store_words_other. change (length (frame_words seg rip cs rsp)) with 26%nat. lia.
Qed.

Inductive sched_op : Type :=
| Switch (op : switch_op)
| Create (name : string) (entry : Z)
| CreateUser (name : string) (cr3 rip rsp3 brk_start brk_end : Z).
Definition run_op (op : sched_op) : M (sched St) Z :=
  match op with
  | Switch op => run_switch op
  | Create name entry => task_create name entry
  | CreateUser name cr3 rip rsp3 b e => task_create_user name cr3 rip rsp3 b e
  end.

(** ** Properties *)

(** C10: Timer ticks, yields, sleeps, exits and both kinds of task creation keep the scheduler's
    invariant: at least one task, at most one running and that the current one, process number slot
    plus one, and a live kernel stack of its own for every task but the first. A slot is never given
    back: the number of tasks never goes down. The only other outcomes are the heap's panic and a
    last task that exits and halts. *)
Theorem operations_keep_invariant `{!AllocatorLaws St} op L s :
  sched_inv L s ->
  match run_op op s with
  | Done (_, s') => (exists L', L ⊆ L' /\ sched_inv L' s') /\ num_tasks s <= num_tasks s'
  | Panicked _ | Blocked => True
  | Undefined | OutOfFuel => False
  end.
Proof.
  intros Hinv. destruct op as [op|name entry|name cr3 rip rsp3 b e]; cbn [run_op].
  - assert (sched_inv L (before op s)) as Hb.
    { destruct Hinv as (Hwf & Ha & Hst). destruct (before_shape op s) as (Hn & _ & Hm & Hs & _).
      split_and!; [by apply before_wf|by rewrite Hm|by apply (stacks_same_shape L s)]. }
    pose proof (do_switch_inv L (op_rsp op) (before op s) Hb) as Hw. destruct (before_shape op s) as (Hn & _).
    rewrite run_switch_eq by apply Hinv. unfold wp in Hw.
    assert (forall s', sched_inv L s' /\ num_tasks s' = num_tasks (before op s) ->
      (exists L', L ⊆ L' /\ sched_inv L' s') /\ num_tasks s <= num_tasks s') as Hdone.
    { intros s' [Hs' Hn']. split; [by exists L|lia]. }
    destruct op; cbn iota; destruct (do_switch _ _) as [[x s']| | | |]; try done; try by apply Hdone.
    destruct x; [done|by apply Hdone..].
  - apply safe_match, (new_task_inv _ _ L s); try done; intros m top; apply (frame_build_ok 0x10 entry 0x08 top m top).
  - apply safe_match, (new_task_inv _ _ L s); try done; intros m top; apply (frame_build_ok 0x23 rip 0x1B rsp3 m top).
Qed.

(** A switch saves the interrupted stack pointer, picks the first ready task after the current
    one in cyclic order (the current one last), marks it running, and makes its address space, its
    kernel stack and its saved stack pointer the next ones; when no task is ready nothing is switched
    and the caller goes on. *)
Theorem do_switch_picks r s :
  sched_wf s ->
  exists x s', do_switch r s = Done (x, s') /\ s_mem s' = s_mem s /\ num_tasks s' = num_tasks s /\
  ( (exists next, picks (save_current r s) next /\ current_idx s' = next /\
      t_state (tasks s' next) = TASK_RUNNING /\ x = t_rsp (tasks s' next) /\
      sched_pending_cr3 s' = t_cr3_phys (tasks s' next) /\
      tss_rsp0 (s_cpu s') = (if t_stack_base (tasks s' next) =? 0 then boot_stack_top
                             else t_stack_base (tasks s' next) + TASK_STACK_SZ) /\
      (forall i, i <> next -> tasks s' i = tasks (save_current r s) i)) \/
    ((forall i, 0 <= i < num_tasks s -> ready (tasks (save_current r s) i) = false) /\
      x = 0 /\ current_idx s' = current_idx s /\ s_cpu s' = s_cpu s /\
      forall i, tasks s' i = tasks (save_current r s) i)).
Proof.
  intros Hwf. pose proof (save_wf r s Hwf) as Hwf1. rewrite do_switch_eq. destruct (find_next _) as [next|] eqn:Hf.
  - apply find_next_Some in Hf. eexists _, _. split; [done|]. split; [done|]. split; [done|]. left. exists next.
    unfold switched. cbn [current_idx tasks sched_pending_cr3 s_cpu]. rewrite upd_same.
    split_and!; try done; [cbn; unfold nonzero; by destruct (_ =? 0)|]. intros i Hi. by rewrite upd_other.
  - pose proof (find_next_None _ (or_introl Hwf1) Hf) as Hno. eexists _, _. split; [done|]. split; [done|].
    split; [done|]. right. split_and!; try done. intros i. unfold set_task, set_tasks. cbn [tasks].
    rewrite upd_case. destruct (Z.eqb_spec i (current_idx s)) as [->|]; [|done].
    by rewrite (Hno (current_idx s) (sw_cur s Hwf)).
Qed.

(** C11: No starvation. While another task [k] is ready, timer ticks, yields, sleeps and exits of the
    running tasks go to [k] within the number of tasks, whatever registers and sleep times they have:
    a sequence of [n] such operations that never goes to [k] has [n] below the number of tasks. *)
Theorem no_starvation k n s s' :
  sched_wf s -> 0 <= k < num_tasks s -> k <> current_idx s -> ready (tasks s k) = true ->
  starved k n s s' -> Z.of_nat n < num_tasks s - 1.
Proof.
  intros Hwf Hk Hne Hr Hst. pose proof (starved_bound k n s s' Hst Hwf Hk Hne Hr).
  pose proof (ahead_pos (num_tasks s) (current_idx s) k (sw_cur s Hwf) Hk Hne). lia.
Qed.

(** Creating a user task takes the next slot: the task is ready, its process number is the slot
    plus one, it has a new kernel stack, and the frame its saved stack pointer points at makes the
    first return go to the entry point in user mode, on the user stack and with interrupts on. No
    other task changes. With a full table both kinds of creation fail and change nothing. *)
Theorem task_create_user_frame `{!AllocatorLaws St} L s name cr3 rip rsp3 b e :
  sched_inv L s ->
  if num_tasks s <? MAX_TASKS then
    safe (task_create_user name cr3 rip rsp3 b e) s (fun pid s' =>
      pid = num_tasks s + 1 /\ num_tasks s' = num_tasks s + 1 /\ current_idx s' = current_idx s /\
      (forall i, i <> num_tasks s -> tasks s' i = tasks s i) /\
      let t := tasks s' (num_tasks s) in
      t_state t = TASK_READY /\ t_pid t = pid /\ t_cr3_phys t = cr3 /\ t_brk_start t = b /\ t_brk_end t = e /\
      L !! t_stack_base t = None /\ t_rsp t = t_stack_base t + TASK_STACK_SZ - 208 /\
      (forall i w, frame_words 0x23 rip 0x1B rsp3 !! i = Some w ->
         load64 (a_mem (s_mem s')) (t_rsp t + 8 * Z.of_nat i) = u64 w))
  else task_create_user name cr3 rip rsp3 b e s = Done (-1, s) /\
       forall entry, task_create name entry s = Done (-1, s).
Proof.
  intros (Hwf & HL & Hst). destruct (Z.ltb_spec (num_tasks s) MAX_TASKS) as [Hn|Hn].
  - pose proof (frame_build_ok 0x23 rip 0x1B rsp3) as Hf.
    eapply wp_mono; [apply (new_task_ok _ _ L); try done; intros m top; apply (Hf m top)|]. cbn beta.
    intros pid s' (_ & -> & Hn' & Hc & stack & m0 & Ht & Hm & Hnone & _). split_and!; try done.
    { intros i Hi. rewrite Ht. by apply upd_other. }
    rewrite Ht, upd_same. cbn zeta. cbn [t_state t_pid t_cr3_phys t_brk_start t_brk_end t_stack_base t_rsp].
    split_and!; try done. intros i w Hw. rewrite Hm.
    destruct (Hf m0 (stack + TASK_STACK_SZ)) as (Ha & _ & _ & Hl). rewrite <- Ha. by apply Hl.
  - unfold task_create_user, task_create, new_task, mbind, M_bind, gets, mret, M_ret. split; [|intros entry];
      by replace (MAX_TASKS <=? num_tasks s) with true by blia.
Qed.

(** A task that sleeps while no other task is ready is not put to sleep: the call returns at
    once, the task goes on running marked as sleeping, and the clock has not moved. *)
Theorem sleep_alone_returns ms r s :
  sched_wf s -> (forall i, 0 <= i < num_tasks s -> i <> current_idx s -> ready (tasks s i) = false) ->
  exists s', task_sleep ms r s = Done (0, s') /\ current_idx s' = current_idx s /\ s_cpu s' = s_cpu s /\
    t_state (tasks s' (current_idx s)) = TASK_SLEEPING.
Proof.
  intros Hwf Hno. rewrite task_sleep_eq, do_switch_eq. pose proof (before_wf (Sleep ms r) s Hwf) as Hwf1.
  cbn [before] in Hwf1. pose proof (save_wf r _ Hwf1) as Hwf2.
  set (s1 := save_current r (sleeping ms s)) in *.
  assert (t_state (tasks s1 (current_idx s)) = TASK_SLEEPING) as Hcur.
  { unfold s1. rewrite save_tasks. change (current_idx (sleeping ms s)) with (current_idx s).
    rewrite Z.eqb_refl, saved_state. unfold sleeping, set_task, set_tasks. cbn [tasks]. by rewrite upd_same. }
  destruct (find_next s1) as [next|] eqn:Hf.
  - exfalso. apply find_next_Some in Hf. pose proof (picks_range _ _ Hwf2 Hf) as Hr.
    destruct Hf as (_ & _ & _ & Hrd & _). unfold ready in *.
    destruct (decide (next = current_idx s)) as [->|Hne]; [by rewrite Hcur in Hrd|].
    unfold s1 in Hrd. rewrite save_tasks in Hrd. change (current_idx (sleeping ms s)) with (current_idx s) in Hrd.
    rewrite (proj2 (Z.eqb_neq _ _) Hne) in Hrd. unfold sleeping, set_task, set_tasks in Hrd. cbn [tasks] in Hrd.
    rewrite upd_other in Hrd by done. specialize (Hno next Hr Hne). congruence.
  - eexists. split; [done|]. split; [done|]. split; [done|]. unfold set_task, set_tasks. cbn [tasks].
    change (current_idx (sleeping ms s)) with (current_idx s). rewrite upd_same. unfold ready. by rewrite Hcur.
Qed.
End sched.

(** ** Samples *)

Definition cpu_zero : cpu :=
  Cpu (Ports (fun _ => 0) 0 []) (fun _ => Build_GDTEntry 0 0 0 0 0 0) 0 0 0
    (fun _ => Build_IDTEntry 0 0 0 0 0 0 0) 0 (fun _ => 0) 0.

(** After boot, and with three tasks of which the first runs. *)
Definition sched_boot : sched heap :=
  match sched_init 0x100 0x200 0x1000 (Sched heap_boot cpu_zero (fun _ => task_zero) 0 0 1 0) with
  | Done (_, s) => s
  | _ => Sched heap_boot cpu_zero (fun _ => task_zero) 0 0 1 0
  end.
Definition sched_three : sched heap :=
  Sched heap_boot cpu_zero
    (fun i => Build_Task 0 0 0x1000 (if i =? 0 then TASK_RUNNING else TASK_READY) (i + 1) 0 "t" 0 0 0) 3 0 4 0.

Lemma sched_boot_wf : sched_wf sched_boot.
Proof.
  split; change (num_tasks sched_boot) with 1; change (current_idx sched_boot) with 0; [done|done| | |done];
    intros i Hi; by replace i with 0 by lia.
Qed.
Lemma sched_boot_inv : sched_inv (AllocatorLaws0 := heap_allocator_laws {[0x1000]}) ∅ sched_boot.
Proof. split; [apply sched_boot_wf|]. split; [apply heap_boot_live|].
  split; intros i; change (num_tasks sched_boot) with 1; lia. Qed.
Lemma sched_three_wf : sched_wf sched_three.
Proof.
  split; cbn; [unfold MAX_TASKS; lia|lia| |done|done]. intros i Hi. by destruct (Z.eqb_spec i 0).
Qed.

Lemma operations_keep_invariant_witness :
  match task_create "idle" 0x5000 sched_boot with
  | Done (_, s') => 1 <= num_tasks s'
  | Panicked _ | Blocked => True
  | Undefined | OutOfFuel => False
  end.
Proof.
  pose proof (operations_keep_invariant 0 (AllocatorLaws0 := heap_allocator_laws {[0x1000]})
    (Create "idle" 0x5000) ∅ sched_boot sched_boot_inv) as H. cbn [run_op] in H.
  destruct (task_create _ _ _) as [[x s']| | | |]; try exact H. exact (proj2 H).
Defined.

Lemma do_switch_picks_witness :
  exists x s', do_switch 0x300 0x8000 sched_three = Done (x, s') /\ current_idx s' = 1.
Proof.
  destruct (do_switch_picks 0x300 0x8000 sched_three sched_three_wf) as (x & s' & H & _).
  exists x, s'. split; [exact H|].
  assert (match do_switch 0x300 0x8000 sched_three with Done (_, s) => current_idx s =? 1 | _ => false end = true)
    as Hd by by vm_compute.
  rewrite H in Hd. by apply Z.eqb_eq.
Defined.

Lemma no_starvation_witness :
  is_done (sched_yield 0x300 0x8000 sched_three) = true /\
  exists s', starved 0x300 2 1 sched_three s' /\ (Z.of_nat 1 < num_tasks sched_three - 1).
Proof.
  assert (match sched_yield 0x300 0x8000 sched_three with Done (_, s) => current_idx s =? 1 | _ => false end = true)
    as Hd by by vm_compute.
  split; [by vm_compute|].
  destruct (sched_yield 0x300 0x8000 sched_three) as [[x s']| | | |] eqn:Hy; [|done..].
  exists s'. assert (starved 0x300 2 1 sched_three s') as Hst.
  { apply (starved_S 0x300 2 0 (Yield 0x8000) sched_three x s' s'); [exact Hy| |constructor].
    apply Z.eqb_eq in Hd. by rewrite Hd. }
  split; [exact Hst|].
  apply (no_starvation 0x300 2 1 sched_three s' sched_three_wf); [cbn; lia|done|by vm_compute|exact Hst].
Defined.

Lemma task_create_user_frame_witness :
  safe (task_create_user "sh" 0x2000 0x400000 0x7ff000 0 0) sched_boot (fun pid s' => pid = 2 /\ num_tasks s' = 2).
Proof.
  pose proof (task_create_user_frame (AllocatorLaws0 := heap_allocator_laws {[0x1000]}) ∅ sched_boot
    "sh" 0x2000 0x400000 0x7ff000 0 0 sched_boot_inv) as H.
  change (num_tasks sched_boot <? MAX_TASKS) with true in H. cbn iota in H.
  refine (wp_mono _ _ _ _ _ H _). intros pid s' (Hp & Hn & _). split; [exact Hp|exact Hn].
Defined.

Lemma sleep_alone_returns_witness :
  exists s', task_sleep 0x300 1000 0x8000 sched_boot = Done (0, s') /\
    t_state (tasks s' 0) = TASK_SLEEPING.
Proof.
  destruct (sleep_alone_returns 0x300 1000 0x8000 sched_boot sched_boot_wf) as (s' & H & _ & _ & Hs).
  - intros i. change (num_tasks sched_boot) with 1. change (current_idx sched_boot) with 0. lia.
  - exists s'. split; [exact H|exact Hs].
Defined.
