(* ===== verification/Input.v ===== *)
(** * Keyboard and mouse (src/src/drivers/keyboard.c, mouse.c)

    Three ring buffers filled by interrupt handlers and emptied by polling, the
    scan-code translation and the assembly of mouse packets. A ring is shown to
    be a bounded queue once, for the three of them. *)

From S2P Require Import Prelude Cpu.

(** ** Ring buffers *)

(** A static array with its head and tail indices: written at the head, read
    at the tail, empty when they are equal. *)
Record ring (A : Type) := Ring { r_buf : Z -> A; r_head : Z; r_tail : Z }.
Arguments Ring {A}.
Arguments r_buf {A}.
Arguments r_head {A}.
Arguments r_tail {A}.

Section ring.
Context {A : Type} (size : Z).

Definition ring_push (x : A) (r : ring A) : ring A :=
  let next := (r_head r + 1) mod size in
  if next =? r_tail r then r else Ring (<[r_head r := x]> (r_buf r)) next (r_tail r).
Definition ring_pop (r : ring A) : option (A * ring A) :=
  if r_head r =? r_tail r then None
  else Some (r_buf r (r_tail r), Ring (r_buf r) (r_head r) ((r_tail r + 1) mod size)).

(** The ring holds the queue [l], oldest element first. *)
Definition ring_rel (l : list A) (r : ring A) : Prop :=
  0 <= r_tail r < size /\ Z.of_nat (length l) < size /\
  r_head r = (r_tail r + Z.of_nat (length l)) mod size /\
  forall i x, l !! i = Some x -> r_buf r ((r_tail r + Z.of_nat i) mod size) = x.

(** A push into a queue that is full is lost. *)
Definition queue_push (x : A) (l : list A) : list A :=
  if Z.of_nat (length l) + 1 <? size then l ++ [x] else l.

Lemma mod_apart a b : 0 < size -> 0 <= b - a < size -> a mod size = b mod size -> a = b.
Proof.
  intros Hs Hab Heq. pose proof (Z.div_mod a size ltac:(lia)) as Ha. pose proof (Z.div_mod b size ltac:(lia)) as Hb.
  rewrite Heq in Ha. generalize dependent (a / size). generalize dependent (b / size). intros q Hq q' Hq'.
  assert (b - a = size * (q - q')) as Hd by lia. assert (q - q' = 0); nia.
Qed.

Lemma ring_push_rel x l r : ring_rel l r -> ring_rel (queue_push x l) (ring_push x r).
Proof.
  intros (Ht & Hl & Hh & Hb). unfold queue_push, ring_push.
  assert (((r_head r + 1) mod size =? r_tail r) = negb (Z.of_nat (length l) + 1 <? size)) as ->.
  { rewrite Hh, Zplus_mod_idemp_l. destruct (Z.ltb_spec (Z.of_nat (length l) + 1) size) as [Hlt|Hge].
    - apply Z.eqb_neq. rewrite <- (Z.mod_small (r_tail r) size) at 2 by done. intros Heq.
      symmetry in Heq. apply mod_apart in Heq; lia.
    - apply Z.eqb_eq. replace (r_tail r + Z.of_nat (length l) + 1) with (r_tail r + 1 * size) by lia.
      by rewrite Z_mod_plus_full, Z.mod_small. }
  destruct (Z.ltb_spec (Z.of_nat (length l) + 1) size) as [Hlt|Hge]; [|done]. cbn [negb].
  split; [done|]. rewrite length_app. cbn [length r_tail r_head r_buf]. split; [lia|]. split.
  { rewrite Hh, Zplus_mod_idemp_l. f_equal. lia. }
  intros i y Hy. rewrite upd_case, Hh.
  destruct (Z.eqb_spec ((r_tail r + Z.of_nat i) mod size) ((r_tail r + Z.of_nat (length l)) mod size)) as [Heq|Hne].
  - pose proof (lookup_lt_Some _ _ _ Hy) as Hi. rewrite length_app in Hi. cbn in Hi.
    apply mod_apart in Heq; [|lia..]. replace i with (length l) in Hy by lia.
    rewrite list_lookup_middle in Hy by done. congruence.
  - apply lookup_app_Some in Hy as [Hy|[Hge Hy]]; [by apply Hb|].
    apply list_lookup_singleton_Some in Hy as [Hi _]. exfalso. apply Hne. do 2 f_equal. lia.
Qed.

Lemma ring_pop_rel l r : ring_rel l r ->
  match l with
  | [] => ring_pop r = None
  | x :: l' => exists r', ring_pop r = Some (x, r') /\ ring_rel l' r'
  end.
Proof.
  intros (Ht & Hl & Hh & Hb). unfold ring_pop. destruct l as [|x l].
  - cbn in Hh. rewrite Z.add_0_r, Z.mod_small in Hh by done. by rewrite Hh, Z.eqb_refl.
  - cbn [length] in Hl, Hh. replace (r_head r =? r_tail r) with false.
    2: { symmetry. apply Z.eqb_neq. rewrite Hh. rewrite <- (Z.mod_small (r_tail r) size) at 2 by done.
         intros Heq. symmetry in Heq. apply mod_apart in Heq; lia. }
    eexists. split.
    { do 2 f_equal. specialize (Hb O x eq_refl). rewrite Z.add_0_r, Z.mod_small in Hb by done. done. }
    split; [apply Z.mod_pos_bound; cbn; lia|]. cbn [r_tail r_head r_buf]. split; [lia|]. split.
    + rewrite Hh, Zplus_mod_idemp_l. f_equal. lia.
    + intros i y Hy. rewrite Zplus_mod_idemp_l. rewrite <- (Hb (S i) y Hy). do 2 f_equal. lia.
Qed.

Lemma ring_length l r : ring_rel l r -> Z.of_nat (length l) < size.
Proof. by intros (_ & ? & _). Qed.
Lemma ring_empty_rel b i : 0 <= i < size -> ring_rel [] (Ring b i i).
Proof.
  intros Hi. split; [done|]. cbn. split; [lia|]. split; [|done]. by rewrite Z.add_0_r, Z.mod_small.
Qed.
End ring.

(** ** State *)

Definition KBD_DATA : Z := 0x60.
Definition KBD_STATUS : Z := 0x64.
Definition KBC_DATA : Z := 0x60.
Definition KBC_STATUS : Z := 0x64.
Definition KBC_CMD : Z := 0x64.
Definition KBD_BUF_SIZE : Z := 256.
Definition MOUSE_QUEUE : Z := 64.
Definition KBC_IO_TRIES : Z := 400000.

Record packet := { p_dx : Z; p_dy : Z; p_buttons : Z }.

Record input := Input {
  i_cpu : cpu;
  kbd_buf : ring Z;
  kbd_raw_buf : ring Z;
  shift_held : bool;
  caps_lock : bool;
  e0_pending : bool;
  s_q : ring packet;
  s_pkt : Z -> Z;
  s_pkt_len : Z;
  s_mouse_ready : bool
}.

#[export] Instance i_cpu_lens : Lens input cpu :=
  {| view := i_cpu;
     over c s := Input c (kbd_buf s) (kbd_raw_buf s) (shift_held s) (caps_lock s) (e0_pending s)
                   (s_q s) (s_pkt s) (s_pkt_len s) (s_mouse_ready s) |}.
#[export] Instance i_cpu_laws : LensLaws input cpu.
Proof. split; [done|by intros []|done]. Qed.

Definition set_kbd_buf (b : ring Z) (s : input) : input :=
  Input (i_cpu s) b (kbd_raw_buf s) (shift_held s) (caps_lock s) (e0_pending s)
    (s_q s) (s_pkt s) (s_pkt_len s) (s_mouse_ready s).
Definition set_kbd_raw_buf (b : ring Z) (s : input) : input :=
  Input (i_cpu s) (kbd_buf s) b (shift_held s) (caps_lock s) (e0_pending s)
    (s_q s) (s_pkt s) (s_pkt_len s) (s_mouse_ready s).
Definition set_kbd_modes (shift caps e0 : bool) (s : input) : input :=
  Input (i_cpu s) (kbd_buf s) (kbd_raw_buf s) shift caps e0 (s_q s) (s_pkt s) (s_pkt_len s) (s_mouse_ready s).
Definition set_mouse (q : ring packet) (pkt : Z -> Z) (len : Z) (rdy : bool) (s : input) : input :=
  Input (i_cpu s) (kbd_buf s) (kbd_raw_buf s) (shift_held s) (caps_lock s) (e0_pending s) q pkt len rdy.

Definition in_port (p : Z) : M input Z := zoom (T := cpu) (zoom (inb p)).
Definition out_port (p v : Z) : M input unit := zoom (T := cpu) (zoom (outb p v)).

(** ** keyboard.c *)

Definition sc_lower : list Z :=
  [0; 27; 49; 50; 51; 52; 53; 54; 55; 56; 57; 48; 45; 61; 8;
   9; 113; 119; 101; 114; 116; 121; 117; 105; 111; 112; 91; 93; 10;
   0; 97; 115; 100; 102; 103; 104; 106; 107; 108; 59; 39; 96;
   0; 92; 122; 120; 99; 118; 98; 110; 109; 44; 46; 47; 0;
   42; 0; 32].
Definition sc_upper : list Z :=
  [0; 27; 33; 64; 35; 36; 37; 94; 38; 42; 40; 41; 95; 43; 8;
   9; 81; 87; 69; 82; 84; 89; 85; 73; 79; 80; 123; 125; 10;
   0; 65; 83; 68; 70; 71; 72; 74; 75; 76; 58; 34; 126;
   0; 124; 90; 88; 67; 86; 66; 78; 77; 60; 62; 63; 0;
   42; 0; 32].
(** The rest of each table of 128 is zero. *)
Definition sc_at (t : list Z) (sc : Z) : Z := default 0 (t !! Z.to_nat sc).

Definition KEY_UP : Z := 0x80.
Definition KEY_DOWN : Z := 0x81.
Definition KEY_LEFT : Z := 0x82.
Definition KEY_RIGHT : Z := 0x83.
Definition KEY_HOME : Z := 0x84.
Definition KEY_END : Z := 0x85.
Definition KEY_DEL : Z := 0x86.
Definition KEY_PGUP : Z := 0x87.
Definition KEY_PGDN : Z := 0x88.

Definition kbd_push (c : Z) : M input unit :=
  modify (fun s => set_kbd_buf (ring_push KBD_BUF_SIZE c (kbd_buf s)) s).
Definition kbd_push_raw (sc : Z) : M input unit :=
  modify (fun s => set_kbd_raw_buf (ring_push KBD_BUF_SIZE sc (kbd_raw_buf s)) s).

Definition ext_key (sc : Z) : Z :=
  if sc =? 0x48 then KEY_UP else if sc =? 0x50 then KEY_DOWN
  else if sc =? 0x4B then KEY_LEFT else if sc =? 0x4D then KEY_RIGHT
  else if sc =? 0x47 then KEY_HOME else if sc =? 0x4F then KEY_END
  else if sc =? 0x53 then KEY_DEL else if sc =? 0x49 then KEY_PGUP
  else if sc =? 0x51 then KEY_PGDN else 0.

Definition plain_key (shift caps : bool) (sc : Z) : Z :=
  if shift then sc_at sc_upper sc
  else
    let c := sc_at sc_lower sc in
    if caps && (97 <=? c) && (c <=? 122) then s8 (c - 97 + 65) else c.

Definition kbd_handle_byte (sc : Z) : M input unit :=
  s ← get;
  if sc =? 0xE0 then modify (set_kbd_modes (shift_held s) (caps_lock s) true)
  else
    let released := nonzero (Z.land sc 0x80) in
    let sc := Z.land sc 0x7F in
    if e0_pending s then
      modify (set_kbd_modes (shift_held s) (caps_lock s) false);;
      if negb released then
        let ext := ext_key sc in
        if nonzero ext then kbd_push ext else mret tt
      else mret tt
    else if (sc =? 0x2A) || (sc =? 0x36) then modify (set_kbd_modes (negb released) (caps_lock s) (e0_pending s))
    else if negb released && (sc =? 0x3A) then modify (set_kbd_modes (shift_held s) (negb (caps_lock s)) (e0_pending s))
    else if negb released && (sc <? 128) then
      let c := plain_key (shift_held s) (caps_lock s) sc in
      if nonzero c then kbd_push (u8 c) else mret tt
    else mret tt.

(** At most 32 bytes an interrupt; bytes of the mouse are dropped. *)
Definition keyboard_irq : M input unit :=
  for_n 32 0 1 (fun _ =>
    st ← in_port KBD_STATUS;
    if negb (nonzero (Z.land st 0x01)) then mret (Some tt)
    else
      data ← in_port KBD_DATA;
      if nonzero (Z.land st 0x20) then mret None
      else
        kbd_push_raw data;;
        kbd_handle_byte data;;
        mret None);;
  out_port 0x20 0x20.

Definition keyboard_init (keyboard_irq_addr : Z) : M input unit :=
  zoom (idt_set_handler 33 keyboard_irq_addr).

Definition keyboard_poll : M input Z :=
  s ← get;
  match ring_pop KBD_BUF_SIZE (kbd_buf s) with
  | None => mret (-1)
  | Some (c, b) => modify (set_kbd_buf b);; mret c
  end.
Definition keyboard_poll_raw : M input Z :=
  s ← get;
  match ring_pop KBD_BUF_SIZE (kbd_raw_buf s) with
  | None => mret (-1)
  | Some (c, b) => modify (set_kbd_raw_buf b);; mret c
  end.

(** With no key queued the processor halts until an interrupt. *)
Definition keyboard_getkey : M input Z :=
  c ← keyboard_poll;
  if c <? 0 then block else mret c.
(** Special keys are skipped; the queue bounds the number of turns. *)
Definition keyboard_getchar : M input Z :=
  iter (Z.to_nat KBD_BUF_SIZE) (fun _ : unit =>
    c ← keyboard_getkey;
    mret (if KEY_UP <=? c then inl tt else inr (s8 c))) tt.

(** ** mouse.c *)

(** [None] goes on waiting, at most [KBC_IO_TRIES] times. *)
Definition kbc_wait_write : M input unit :=
  for_n (Z.to_nat KBC_IO_TRIES) 0 1 (fun _ =>
    st ← in_port KBC_STATUS;
    mret (if negb (nonzero (Z.land st 0x02)) then Some tt else None));;
  mret tt.
Definition kbc_try_read : M input (option Z) :=
  for_n (Z.to_nat KBC_IO_TRIES) 0 1 (fun _ =>
    st ← in_port KBC_STATUS;
    if nonzero (Z.land st 0x01) then b ← in_port KBC_DATA; mret (Some b) else mret None).
Definition kbc_write_cfg (cfg : Z) : M input bool :=
  kbc_wait_write;;
  out_port KBC_CMD 0x60;;
  kbc_wait_write;;
  out_port KBC_DATA cfg;;
  mret true.
Definition mouse_write_cmd (cmd : Z) : M input bool :=
  kbc_wait_write;;
  out_port KBC_CMD 0xD4;;
  kbc_wait_write;;
  out_port KBC_DATA cmd;;
  ack ← kbc_try_read;
  mret (match ack with Some a => a =? 0xFA | None => false end).

(** One byte [b] of the controller, read with the status [st]. *)
Definition mouse_byte (st b : Z) : M input unit :=
  s ← get;
  if negb (nonzero (Z.land st 0x20)) then mret tt
  else if (s_pkt_len s =? 0) && negb (nonzero (Z.land b 0x08)) then mret tt
  else if negb ((0 <=? s_pkt_len s) && (s_pkt_len s <? 3)) then ub
  else
    modify (fun s => set_mouse (s_q s) (<[s_pkt_len s := b]> (s_pkt s)) (u32 (s_pkt_len s + 1)) (s_mouse_ready s) s);;
    s ← get;
    if s_pkt_len s <? 3 then mret tt
    else
      let p := {| p_dx := s8 (s_pkt s 1); p_dy := s8 (s_pkt s 2); p_buttons := Z.land (s_pkt s 0) 7 |} in
      modify (fun s => set_mouse (ring_push MOUSE_QUEUE p (s_q s)) (s_pkt s) 0 (s_mouse_ready s) s).

(** The handler empties the controller: [fuel] bounds the bytes it has. *)
Definition mouse_turn (_ : unit) : M input (unit + unit) :=
  st ← in_port KBC_STATUS;
  if negb (nonzero (Z.land st 0x01)) then mret (inr tt)
  else
    st ← in_port KBC_STATUS;
    b ← in_port KBC_DATA;
    mouse_byte st b;;
    mret (inl tt).
Definition mouse_irq (fuel : nat) : M input unit :=
  s ← get;
  (if negb (s_mouse_ready s) then mret tt else iter fuel mouse_turn tt);;
  zoom (T := cpu) (zoom (irq_eoi 12)).

Definition mouse_flush : M input unit :=
  modify (fun s => set_mouse (Ring (r_buf (s_q s)) 0 0) (s_pkt s) 0 (s_mouse_ready s) s);;
  for_n 64 0 1 (fun _ =>
    st ← in_port KBC_STATUS;
    if nonzero (Z.land st 0x01) then in_port KBC_DATA;; mret None else mret (Some tt));;
  mret tt.

(** [None] is the false result. *)
Definition mouse_poll : M input (option packet) :=
  s ← get;
  match ring_pop MOUSE_QUEUE (s_q s) with
  | None => mret None
  | Some (p, q) => modify (set_mouse q (s_pkt s) (s_pkt_len s) (s_mouse_ready s));; mret (Some p)
  end.

Definition mouse_init (mouse_irq_addr : Z) : M input unit :=
  zoom (T := cpu) (zoom (irq_mask 12));;
  modify (fun s => set_mouse (Ring (r_buf (s_q s)) 0 0) (s_pkt s) 0 false s);;
  mouse_flush;;
  kbc_wait_write;;
  out_port KBC_CMD 0x20;;
  cfg_orig ← kbc_try_read;
  match cfg_orig with
  | None => mret tt
  | Some cfg_orig =>
      kbc_wait_write;;
      out_port KBC_CMD 0xA8;;
      let cfg := Z.land (Z.lor cfg_orig 0x02) (u8 (Z.lnot 0x20)) in
      mouse_flush;;
      ok ← kbc_write_cfg cfg;
      if negb ok then mret tt
      else
        mouse_flush;;
        a ← mouse_write_cmd 0xF6;
        b ← (if a : bool then mouse_write_cmd 0xF4 else mret false);
        if negb b then kbc_write_cfg cfg_orig;; mret tt
        else
          modify (fun s => set_mouse (s_q s) (s_pkt s) (s_pkt_len s) true s);;
          zoom (idt_set_handler 44 mouse_irq_addr);;
          zoom (T := cpu) (zoom (irq_unmask 12))
  end.

(** ** Translation of scan codes *)

(** The modes (shift, caps lock, extended prefix) after a byte, and the key it
    gives, 0 for none. *)
Abbreviation modes := (bool * bool * bool)%type.
Definition decode (m : modes) (sc : Z) : modes * Z :=
  let '(shift, caps, e0) := m in
  if sc =? 0xE0 then ((shift, caps, true), 0)
  else
    let released := nonzero (Z.land sc 0x80) in
    let sc := Z.land sc 0x7F in
    if e0 then ((shift, caps, false), if released then 0 else ext_key sc)
    else if (sc =? 0x2A) || (sc =? 0x36) then ((negb released, caps, false), 0)
    else if negb released && (sc =? 0x3A) then ((shift, negb caps, false), 0)
    else ((shift, caps, false), if negb released && (sc <? 128) then plain_key shift caps sc else 0).

Definition kbd_modes (s : input) : modes := (shift_held s, caps_lock s, e0_pending s).
Definition with_modes (m : modes) (s : input) : input := let '(a, b, c) := m in set_kbd_modes a b c s.

(** The key's byte is what the tables hold: nothing is lost in the conversions. *)
Lemma plain_key_byte shift caps sc : 0 <= sc < 128 -> 0 <= plain_key shift caps sc < 128.
Proof.
  intros Hsc. assert (forallb (fun n => let k := plain_key shift caps (Z.of_nat n) in (0 <=? k) && (k <? 128))
    (seq 0 128) = true) as Hall by (destruct shift, caps; by vm_compute).
  rewrite forallb_forall in Hall. specialize (Hall (Z.to_nat sc)). rewrite Z2Nat.id in Hall by lia.
  assert (List.In (Z.to_nat sc) (seq 0 128)) as Hin by (apply in_seq; lia). specialize (Hall Hin).
  cbn zeta in Hall. to_prop. lia.
Qed.

Lemma handle_byte_eq sc s :
  kbd_handle_byte sc s =
  Done (tt, with_modes (decode (kbd_modes s) sc).1
              (let k := (decode (kbd_modes s) sc).2 in
               if nonzero k then set_kbd_buf (ring_push KBD_BUF_SIZE k (kbd_buf s)) s else s)).
Proof.
  unfold kbd_handle_byte, decode, kbd_modes. destruct s as [cpu b rb sh ca e0 q p l rdy].
  unfold get, mbind, M_bind. cbn [shift_held caps_lock e0_pending].
  destruct (sc =? 0xE0); [done|].
  assert (0 <= Z.land sc 0x7F < 128) as Hsc.
  { rewrite Z.land_comm. apply (land_bound 0x7F sc 7); lia. }
  destruct e0.
  { unfold modify. destruct (nonzero (Z.land sc 0x80)); [done|]. cbn [negb].
    by destruct (nonzero (ext_key (Z.land sc 0x7F))) eqn:He; cbn; rewrite He. }
  destruct ((_ =? 0x2A) || _) eqn:Hshift; [done|]. destruct (negb _ && _) eqn:Hcaps; [done|].
  destruct (negb _ && (_ <? 128)); [|done]. cbn [fst snd].
  pose proof (plain_key_byte sh ca _ Hsc). destruct (nonzero (plain_key _ _ _)); [|done].
  unfold kbd_push, modify. by rewrite u8_small by lia.
Qed.

Fixpoint handle_bytes (bs : list Z) : M input unit :=
  match bs with [] => mret tt | b :: bs' => kbd_handle_byte b;; handle_bytes bs' end.
(** The keys of a sequence of bytes. *)
Fixpoint decodes (m : modes) (bs : list Z) : modes * list Z :=
  match bs with
  | [] => (m, [])
  | b :: bs' =>
      let '(m1, k) := decode m b in
      let '(m2, ks) := decodes m1 bs' in (m2, if nonzero k then k :: ks else ks)
  end.

Definition queue_pushes (size : Z) {A} (xs l : list A) : list A := foldl (fun l x => queue_push size x l) l xs.

Lemma handle_bytes_ok bs s l :
  ring_rel KBD_BUF_SIZE l (kbd_buf s) ->
  exists s', handle_bytes bs s = Done (tt, s') /\ kbd_modes s' = (decodes (kbd_modes s) bs).1 /\
    ring_rel KBD_BUF_SIZE (queue_pushes KBD_BUF_SIZE (decodes (kbd_modes s) bs).2 l) (kbd_buf s').
Proof.
  revert s l. induction bs as [|b bs IH]; intros s l Hl; [by exists s|]. cbn [handle_bytes decodes].
  rewrite (bind_Done _ _ _ _ _ (handle_byte_eq b s)). cbn zeta.
  destruct (decode (kbd_modes s) b) as [m1 k]. cbn [fst snd].
  set (s1 := if nonzero k then _ else s).
  assert (kbd_modes (with_modes m1 s1) = m1) as Hm1 by by destruct m1 as [[] ?].
  assert (kbd_buf (with_modes m1 s1) = kbd_buf s1) as Hb1 by by destruct m1 as [[] ?].
  destruct (IH (with_modes m1 s1) (if nonzero k then queue_push KBD_BUF_SIZE k l else l)) as (s' & Hs' & Hm' & Hr').
  { rewrite Hb1. unfold s1. destruct (nonzero k); [by apply ring_push_rel|done]. }
  exists s'. rewrite Hm1 in *. destruct (decodes m1 bs) as [m2 ks]. cbn [fst snd] in *. split; [done|]. split; [done|].
  by destruct (nonzero k).
Qed.

(** The make and break codes that type [c]: with shift held if needed. *)
Definition keystroke (c : Z) : list Z :=
  match list_find (fun x => x = c) sc_lower with
  | Some (i, _) => [Z.of_nat i; Z.of_nat i + 0x80]
  | None =>
      match list_find (fun x => x = c) sc_upper with
      | Some (i, _) => [0x2A; Z.of_nat i; Z.of_nat i + 0x80; 0xAA]
      | None => []
      end
  end.
(** Backspace, tab, newline and the printable characters. *)
Definition typable (c : Z) : bool := (c =? 8) || (c =? 9) || (c =? 10) || ((32 <=? c) && (c <=? 126)).

Lemma keystroke_decodes c :
  typable c = true -> decodes (false, false, false) (keystroke c) = ((false, false, false), [c]).
Proof.
  intros Hc. assert (forallb (fun n => let c := Z.of_nat n in
    negb (typable c) || bool_decide (decodes (false, false, false) (keystroke c) = ((false, false, false), [c])))
    (seq 0 127) = true) as Hall by by vm_compute.
  rewrite forallb_forall in Hall. unfold typable in Hc. specialize (Hall (Z.to_nat c)).
  assert (0 <= c <= 126) as Hr by (to_prop; destruct Hc as [Hc|Hc]; to_prop; lia).
  rewrite Z2Nat.id in Hall by lia. specialize (Hall ltac:(apply in_seq; lia)). unfold typable in Hall.
  rewrite Hc in Hall. by apply bool_decide_eq_true in Hall.
Qed.
Lemma decodes_app m bs bs' :
  decodes m (bs ++ bs') = ((decodes (decodes m bs).1 bs').1, (decodes m bs).2 ++ (decodes (decodes m bs).1 bs').2).
Proof.
  revert m. induction bs as [|b bs IH]; intros m; cbn [decodes app].
  - cbn [fst snd]. by destruct (decodes m bs') as [m' ks].
  - destruct (decode m b) as [m1 k]. rewrite IH. destruct (decodes m1 bs) as [m2 ks]. cbn [fst snd].
    destruct (decodes m2 bs') as [m3 ks']. by destruct (nonzero k).
Qed.
Lemma text_decodes text :
  Forall (fun c => typable c = true) text ->
  decodes (false, false, false) (text ≫= keystroke) = ((false, false, false), text).
Proof.
  induction 1 as [|c text Hc _ IH]; [done|]. rewrite bind_cons, decodes_app, keystroke_decodes by done. cbn [fst snd].
  by rewrite IH.
Qed.
Lemma queue_pushes_fit {A} size (xs l : list A) :
  Z.of_nat (length l + length xs) < size -> queue_pushes size xs l = l ++ xs.
Proof.
  revert l. induction xs as [|x xs IH]; intros l Hl; cbn [length] in *; [by rewrite app_nil_r|].
  change (queue_pushes size (x :: xs) l) with (queue_pushes size xs (queue_push size x l)).
  unfold queue_push. replace (Z.of_nat (length l) + 1 <? size) with true by blia.
  rewrite IH by (rewrite length_app; cbn; lia). by rewrite <- app_assoc.
Qed.

Fixpoint polls (n : nat) : M input (list Z) :=
  match n with O => mret [] | S n' => c ← keyboard_poll; cs ← polls n'; mret (c :: cs) end.

Lemma polls_ok l s :
  ring_rel KBD_BUF_SIZE l (kbd_buf s) ->
  exists s', polls (length l) s = Done (l, s') /\ ring_rel KBD_BUF_SIZE [] (kbd_buf s').
Proof.
  revert s. induction l as [|c l IH]; intros s Hl; [by exists s|]. cbn [length polls].
  destruct (ring_pop_rel _ _ _ Hl) as (b & Hp & Hb).
  rewrite (bind_Done _ _ s c (set_kbd_buf b s)).
  2: { unfold keyboard_poll, get, mbind, M_bind. by rewrite Hp. }
  destruct (IH (set_kbd_buf b s) Hb) as (s' & Hs' & Hr). exists s'. split; [|done].
  by rewrite (bind_Done _ _ _ _ _ Hs').
Qed.
Lemma poll_empty s : ring_rel KBD_BUF_SIZE [] (kbd_buf s) -> keyboard_poll s = Done (-1, s).
Proof. intros H%ring_pop_rel. unfold keyboard_poll, get, mbind, M_bind. by rewrite H. Qed.

(** C34: Every printable character, and backspace, tab and newline, can be typed, and typed text is
    read back in order: when the keys of a text that fits the queue are pressed and released, with
    shift where it is needed, polling returns what was queued before, then the text, then nothing. *)
Theorem typed_text_is_read text l s :
  ring_rel KBD_BUF_SIZE l (kbd_buf s) -> kbd_modes s = (false, false, false) ->
  Forall (fun c => typable c = true) text -> Z.of_nat (length l + length text) < KBD_BUF_SIZE ->
  exists s1 s2, handle_bytes (text ≫= keystroke) s = Done (tt, s1) /\ kbd_modes s1 = (false, false, false) /\
    polls (length l + length text) s1 = Done (l ++ text, s2) /\ keyboard_poll s2 = Done (-1, s2).
Proof.
  intros Hl Hm Ht Hfit. destruct (handle_bytes_ok (text ≫= keystroke) s l Hl) as (s1 & Hs1 & Hm1 & Hr1).
  rewrite Hm, text_decodes in * by done. cbn [fst snd] in *. rewrite queue_pushes_fit in Hr1 by done.
  destruct (polls_ok _ _ Hr1) as (s2 & Hs2 & Hr2). rewrite length_app in Hs2. exists s1, s2.
  split_and!; [done..|]. by apply poll_empty.
Qed.

(** ** Mouse packets *)

(** The three bytes of a packet, and what the driver makes of them. *)
Definition packet_of (w : Z * Z * Z) : packet :=
  let '(f, x, y) := w in {| p_dx := s8 x; p_dy := s8 y; p_buttons := Z.land f 7 |}.
Definition packet_bytes (w : Z * Z * Z) : list Z := let '(f, x, y) := w in [f; x; y].
Definition aligned (w : Z * Z * Z) : Prop := let '(f, _, _) := w in nonzero (Z.land f 0x08) = true.

Definition from_mouse (e : Z * Z) : bool := nonzero (Z.land e.1 0x20).
Fixpoint mouse_bytes (evs : list (Z * Z)) : M input unit :=
  match evs with [] => mret tt | (st, b) :: evs' => mouse_byte st b;; mouse_bytes evs' end.

Lemma mouse_byte_other st b s : from_mouse (st, b) = false -> mouse_byte st b s = Done (tt, s).
Proof. unfold from_mouse, mouse_byte, get, mbind, M_bind. cbn [fst]. by intros ->. Qed.
Lemma mouse_byte_step st b s :
  from_mouse (st, b) = true -> 0 <= s_pkt_len s < 2 -> (s_pkt_len s = 0 -> nonzero (Z.land b 0x08) = true) ->
  mouse_byte st b s =
  Done (tt, set_mouse (s_q s) (<[s_pkt_len s := b]> (s_pkt s)) (s_pkt_len s + 1) (s_mouse_ready s) s).
Proof.
  unfold from_mouse, mouse_byte, get, mbind, M_bind. cbn [fst]. intros -> Hl H0. cbn [negb].
  replace ((s_pkt_len s =? 0) && negb (nonzero (Z.land b 8))) with false.
  2: { destruct (Z.eqb_spec (s_pkt_len s) 0) as [Hz|]; [|done]. by rewrite H0. }
  replace ((0 <=? s_pkt_len s) && (s_pkt_len s <? 3)) with true by blia. cbn [negb]. unfold modify.
  cbn [s_pkt_len set_mouse]. rewrite u32_small by lia. by replace (s_pkt_len s + 1 <? 3) with true by blia.
Qed.
Lemma mouse_byte_last st b s :
  from_mouse (st, b) = true -> s_pkt_len s = 2 ->
  exists pkt, mouse_byte st b s =
  Done (tt, set_mouse (ring_push MOUSE_QUEUE (packet_of (s_pkt s 0, s_pkt s 1, b)) (s_q s)) pkt 0 (s_mouse_ready s) s).
Proof.
  unfold from_mouse, mouse_byte, get, mbind, M_bind. cbn [fst]. intros -> Hl. rewrite Hl. cbn [negb].
  unfold modify. cbn - [packet_of Z.land]. rewrite Hl, upd_same, !upd_other by lia. by eexists.
Qed.

(** The bytes of the rest of a packet and of whole packets, whatever comes between them. *)
Definition pending (s : input) : list Z := (fun i => s_pkt s (Z.of_nat i)) <$> seq 0 (Z.to_nat (s_pkt_len s)).

(** Name the state in which the rest of the bytes is handled. *)
Ltac next_state s1 :=
  match goal with |- context [mouse_bytes _ ?s] => set (s1 := s) end.

Lemma mouse_bytes_ok evs ws s l :
  0 <= s_pkt_len s < 3 -> ring_rel MOUSE_QUEUE l (s_q s) -> Forall aligned ws ->
  pending s ++ (snd <$> base.filter (fun e => from_mouse e = true) evs) = ws ≫= packet_bytes ->
  exists s', mouse_bytes evs s = Done (tt, s') /\ s_pkt_len s' = 0 /\ s_mouse_ready s' = s_mouse_ready s /\
    i_cpu s' = i_cpu s /\ ring_rel MOUSE_QUEUE (queue_pushes MOUSE_QUEUE (packet_of <$> ws) l) (s_q s').
Proof.
  revert ws s l. induction evs as [|[st b] evs IH]; intros ws s l Hlen Hl Hal Hbytes; cbn [mouse_bytes].
  - rewrite filter_nil, fmap_nil, app_nil_r in Hbytes. destruct ws as [|[[f x] y] ws].
    + exists s. split_and!; try done. apply (f_equal length) in Hbytes. unfold pending in Hbytes.
      rewrite length_fmap, length_seq in Hbytes. cbn in Hbytes. lia.
    + apply (f_equal length) in Hbytes. unfold pending in Hbytes. rewrite length_fmap, length_seq in Hbytes.
      rewrite bind_cons, length_app in Hbytes. cbn in Hbytes. lia.
  - destruct (from_mouse (st, b)) eqn:Hm.
    2: { rewrite (bind_Done _ _ _ _ _ (mouse_byte_other st b s Hm)). apply (IH ws); try done.
         rewrite filter_cons_False in Hbytes by congruence. done. }
    rewrite filter_cons_True, fmap_cons in Hbytes by done. cbn [snd] in Hbytes.
    destruct ws as [|[[f x] y] ws]; [by destruct (pending s)|]. rewrite bind_cons in Hbytes.
    unfold pending in Hbytes. assert (s_pkt_len s = 0 \/ s_pkt_len s = 1 \/ s_pkt_len s = 2) as Hcase by lia.
    apply Forall_cons_iff in Hal as [Hal1 Hal]. cbn in Hal1.
    destruct Hcase as [Hz|[Hz|Hz]]; rewrite Hz in Hbytes; cbn in Hbytes; injection Hbytes as.
    + subst b. rewrite (bind_Done _ _ _ _ _ (mouse_byte_step st f s Hm ltac:(lia) ltac:(done))).
      next_state s1. destruct (IH ((f, x, y) :: ws) s1 l) as (s' & Hs'); [cbn; lia|done|by constructor| |by exists s'].
      unfold pending, s1. cbn [s_pkt_len set_mouse s_pkt]. rewrite Hz.
      change (seq 0 (Z.to_nat (0 + 1))) with [0%nat]. cbn [fmap list_fmap app]. by rewrite upd_same, H0.
    + subst b. rewrite (bind_Done _ _ _ _ _ (mouse_byte_step st x s Hm ltac:(lia) ltac:(lia))).
      next_state s1. destruct (IH ((f, x, y) :: ws) s1 l) as (s' & Hs'); [cbn; lia|done|by constructor| |by exists s'].
      unfold pending, s1. cbn [s_pkt_len set_mouse s_pkt]. rewrite Hz.
      change (seq 0 (Z.to_nat (1 + 1))) with [0%nat; 1%nat]. cbn [fmap list_fmap app].
      by rewrite upd_same, upd_other, H, H1.
    + destruct (mouse_byte_last st b s Hm Hz) as (pkt & Hs). rewrite (bind_Done _ _ _ _ _ Hs). subst b.
      change (s_pkt s 0 = f) in H. change (s_pkt s 1 = x) in H0. rewrite H, H0.
      next_state s1. by destruct (IH ws s1 _ ltac:(cbn; lia) (ring_push_rel _ _ _ _ Hl) Hal H2) as (s' & Hs'); [exists s'].
Qed.

(** The controller answers the handler's reads with the events [evs] and then has no more:
    each event is a byte with the status it is read under. *)
Fixpoint offers (o : nat -> Z) (n : nat) (evs : list (Z * Z)) : Prop :=
  match evs with
  | [] => nonzero (Z.land (u8 (o n)) 0x01) = false
  | (st, b) :: evs' =>
      nonzero (Z.land (u8 (o n)) 0x01) = true /\ u8 (o (S n)) = st /\ u8 (o (S (S n))) = b /\
      offers o (S (S (S n))) evs'
  end.

Lemma in_port_eq p s :
  exists c, in_port p s = Done (u8 (oracle (c_ports (i_cpu s)) (reads (c_ports (i_cpu s)))), over c s) /\
    oracle (c_ports c) = oracle (c_ports (i_cpu s)) /\ reads (c_ports c) = S (reads (c_ports (i_cpu s))).
Proof. eexists. split; [done|]. by split. Qed.
Lemma mouse_byte_cpu st b c s s' :
  mouse_byte st b s = Done (tt, s') -> mouse_byte st b (over c s) = Done (tt, over c s').
Proof.
  unfold mouse_byte, get, mbind, M_bind, modify, ub, mret, M_ret. cbn.
  destruct (negb _); [by intros [= <-]|]. destruct (_ && _); [by intros [= <-]|].
  destruct (negb _); [done|]. cbn. destruct (_ <? 3); by intros [= <-].
Qed.
Lemma over_over_input (c c' : cpu) (s : input) : over c (over c' s) = over c s.
Proof. done. Qed.
Lemma over_view_input c s : i_cpu (over c s) = c.
Proof. done. Qed.

Lemma mouse_loop_ok evs fuel s s' :
  (length evs < fuel)%nat -> offers (oracle (c_ports (i_cpu s))) (reads (c_ports (i_cpu s))) evs ->
  mouse_bytes evs s = Done (tt, s') ->
  exists c, iter fuel mouse_turn tt s = Done (tt, over c s').
Proof.
  revert fuel s s'. induction evs as [|[st b] evs IH]; intros [|fuel] s s' Hf Ho Hb; cbn [length] in Hf; try lia;
    cbn [iter offers mouse_bytes] in *; destruct (in_port_eq KBC_STATUS s) as (c1 & H1 & Ho1 & Hr1).
  - injection Hb as <-. exists c1. rewrite (bind_Done _ _ s (inr tt) (over c1 s)); [done|].
    unfold mouse_turn. by rewrite (bind_Done _ _ _ _ _ H1), Ho.
  - destruct Ho as (Hbit & <- & <- & Ho). apply bind_inv in Hb as ([] & s1 & Hb1 & Hb).
    destruct (in_port_eq KBC_STATUS (over c1 s)) as (c2 & H2 & Ho2 & Hr2). rewrite over_view_input in *.
    destruct (in_port_eq KBC_DATA (over c2 s)) as (c3 & H3 & Ho3 & Hr3). rewrite over_view_input in *.
    rewrite !over_over_input in *. rewrite Hr1, Ho1 in *. rewrite Hr2, Ho2 in *.
    pose proof (mouse_byte_cpu _ _ c3 _ _ Hb1) as Hb3.
    rewrite (bind_Done (mouse_turn tt) _ s (inl tt) (over c3 s1)).
    2: { unfold mouse_turn. rewrite (bind_Done _ _ _ _ _ H1), Hbit. cbn [negb]. rewrite (bind_Done _ _ _ _ _ H2), (bind_Done _ _ _ _ _ H3).
         by rewrite (bind_Done _ _ _ _ _ Hb3). }
    assert (forall evs s s' c, mouse_bytes evs s = Done (tt, s') -> mouse_bytes evs (over c s) = Done (tt, over c s')) as Hall.
    { clear. induction evs as [|[st b] evs IH]; intros s s' c; cbn [mouse_bytes]; [by intros [= <-]|].
      intros ([] & s1 & Hb1 & Hb)%bind_inv. rewrite (bind_Done _ _ _ _ _ (mouse_byte_cpu _ _ c _ _ Hb1)). by apply IH. }
    destruct (IH fuel (over c3 s1) (over c3 s')) as (c & Hc); [lia| |by apply Hall|by exists c].
    rewrite over_view_input, Hr3, Ho3. done.
Qed.

(** The mouse handler assembles packets: when the controller offers the rest of a begun packet
    and further packets (their first byte has bit 3 set), with any keyboard bytes between them, every
    packet is queued in order with its signed movements and its three buttons, until 63 are queued;
    nothing of an unfinished packet remains and the handler ends. *)
Theorem mouse_irq_queues fuel evs ws s l :
  s_mouse_ready s = true -> 0 <= s_pkt_len s < 3 -> ring_rel MOUSE_QUEUE l (s_q s) -> Forall aligned ws ->
  pending s ++ (snd <$> base.filter (fun e => from_mouse e = true) evs) = ws ≫= packet_bytes ->
  offers (oracle (c_ports (i_cpu s))) (reads (c_ports (i_cpu s))) evs -> (length evs < fuel)%nat ->
  exists s', mouse_irq fuel s = Done (tt, s') /\ s_pkt_len s' = 0 /\
    ring_rel MOUSE_QUEUE (queue_pushes MOUSE_QUEUE (packet_of <$> ws) l) (s_q s').
Proof.
  intros Hr Hlen Hl Hal Hb Ho Hf. destruct (mouse_bytes_ok evs ws s l Hlen Hl Hal Hb) as (s1 & Hs1 & Hl1 & _ & _ & Hq).
  destruct (mouse_loop_ok evs fuel s s1 Hf Ho Hs1) as (c & Hc). unfold mouse_irq.
  rewrite (bind_Done _ _ s s s) by done. rewrite Hr. cbn [negb]. rewrite (bind_Done _ _ _ _ _ Hc).
  eexists. split; [done|]. done.
Qed.

(** ** Samples *)

Definition input_zero : input :=
  Input (Cpu (Ports (fun n => default 0 ([1; 0x21; 0x09; 1; 0x01; 0x1E; 1; 0x21; 0xFF; 1; 0x21; 5; 0] !! n)) 0 [])
           (fun _ => Build_GDTEntry 0 0 0 0 0 0) 0 0 0 (fun _ => idt_entry_zero) 0 (fun _ => 0) 0)
    (Ring (fun _ => 0) 0 0) (Ring (fun _ => 0) 0 0) false false false
    (Ring (fun _ => Build_packet 0 0 0) 0 0) (fun _ => 0) 0 true.

Lemma typed_text_is_read_witness :
  exists s1 s2, handle_bytes ([72; 105; 33; 10] ≫= keystroke) input_zero = Done (tt, s1) /\
    polls 4 s1 = Done ([72; 105; 33; 10], s2).
Proof.
  destruct (typed_text_is_read [72; 105; 33; 10] [] input_zero) as (s1 & s2 & H1 & _ & H2 & _).
  - apply ring_empty_rel. unfold KBD_BUF_SIZE. lia.
  - reflexivity.
  - by repeat constructor.
  - cbn. unfold KBD_BUF_SIZE. lia.
  - exists s1, s2. split; [exact H1|exact H2].
Defined.

Lemma mouse_irq_queues_witness :
  exists s', mouse_irq 10 input_zero = Done (tt, s') /\
    ring_rel MOUSE_QUEUE [Build_packet (-1) 5 1] (s_q s').
Proof.
  destruct (mouse_irq_queues 10 [(0x21, 0x09); (0x01, 0x1E); (0x21, 0xFF); (0x21, 5)] [(0x09, 0xFF, 5)] input_zero [])
    as (s' & H1 & _ & H2).
  - reflexivity.
  - cbn. lia.
  - apply ring_empty_rel. unfold MOUSE_QUEUE. lia.
  - by repeat constructor.
  - reflexivity.
  - by repeat split.
  - cbn. lia.
  - exists s'. split; [exact H1|exact H2].
Defined.
