(* ===== verification/Fonts.v ===== *)
(** * The screen font (src/src/lib/fonts.c)

    The glyph bitmaps, eight rows of eight pixels each, and the glyph of a
    character. *)

From S2P Require Import Prelude.

Definition GLYPH_NUM : Z := 128.

(** The initialised glyphs; the rest of the table is zero. *)
Definition g_vnl_fonts : list (list Z) := [
  [0; 0; 0; 0; 0; 0; 0; 0];
  [60; 102; 102; 102; 102; 102; 60; 0];
  [24; 56; 24; 24; 24; 24; 60; 0];
  [60; 102; 6; 12; 24; 48; 126; 0];
  [60; 102; 6; 28; 6; 102; 60; 0];
  [12; 28; 60; 108; 126; 12; 12; 0];
  [126; 96; 124; 6; 6; 102; 60; 0];
  [60; 102; 96; 124; 102; 102; 60; 0];
  [126; 6; 12; 24; 24; 24; 24; 0];
  [60; 102; 102; 60; 102; 102; 60; 0];
  [60; 102; 102; 62; 6; 102; 60; 0];
  [24; 60; 102; 102; 126; 102; 102; 0];
  [124; 102; 102; 124; 102; 102; 124; 0];
  [60; 102; 96; 96; 96; 102; 60; 0];
  [120; 108; 102; 102; 102; 108; 120; 0];
  [126; 96; 96; 124; 96; 96; 126; 0];
  [126; 96; 96; 124; 96; 96; 96; 0];
  [60; 102; 96; 110; 102; 102; 60; 0];
  [102; 102; 102; 126; 102; 102; 102; 0];
  [60; 24; 24; 24; 24; 24; 60; 0];
  [30; 12; 12; 12; 76; 120; 48; 0];
  [102; 108; 120; 112; 120; 108; 102; 0];
  [96; 96; 96; 96; 96; 96; 126; 0];
  [99; 119; 127; 107; 99; 99; 99; 0];
  [102; 118; 126; 126; 110; 102; 102; 0];
  [60; 102; 102; 102; 102; 102; 60; 0];
  [124; 102; 102; 124; 96; 96; 96; 0];
  [60; 102; 102; 106; 108; 56; 14; 0];
  [124; 102; 102; 124; 108; 102; 102; 0];
  [60; 102; 96; 60; 6; 102; 60; 0];
  [126; 24; 24; 24; 24; 24; 24; 0];
  [102; 102; 102; 102; 102; 102; 60; 0];
  [102; 102; 102; 102; 60; 60; 24; 0];
  [99; 99; 99; 107; 119; 99; 99; 0];
  [102; 102; 60; 24; 60; 102; 102; 0];
  [102; 102; 102; 60; 24; 24; 24; 0];
  [126; 6; 12; 24; 48; 96; 126; 0];
  [24; 24; 24; 24; 0; 24; 24; 0];
  [60; 66; 90; 90; 66; 60; 0; 0];
  [36; 36; 126; 36; 126; 36; 36; 0];
  [28; 62; 96; 60; 6; 124; 56; 0];
  [98; 102; 12; 24; 48; 102; 70; 0];
  [60; 102; 60; 56; 108; 102; 59; 0];
  [60; 102; 102; 60; 106; 102; 59; 0];
  [24; 60; 126; 60; 24; 0; 0; 0];
  [0; 0; 126; 0; 0; 126; 0; 0];
  [0; 0; 0; 126; 0; 0; 0; 0];
  [24; 24; 126; 24; 24; 0; 0; 0];
  [0; 0; 0; 0; 0; 0; 0; 126];
  [48; 24; 12; 6; 12; 24; 48; 0];
  [6; 12; 24; 48; 24; 12; 6; 0];
  [12; 24; 48; 48; 48; 24; 12; 0];
  [48; 24; 12; 12; 12; 24; 48; 0];
  [14; 24; 24; 112; 24; 24; 14; 0];
  [112; 24; 24; 14; 24; 24; 112; 0];
  [60; 96; 96; 96; 96; 96; 60; 0];
  [60; 6; 6; 6; 6; 6; 60; 0];
  [0; 24; 24; 0; 24; 24; 0; 0];
  [0; 24; 24; 0; 24; 24; 8; 0];
  [0; 0; 0; 24; 24; 0; 0; 0];
  [0; 0; 0; 24; 24; 8; 0; 0];
  [24; 24; 0; 0; 0; 0; 0; 0];
  [54; 54; 0; 0; 0; 0; 0; 0];
  [12; 24; 48; 96; 0; 0; 0; 0];
  [96; 48; 24; 12; 0; 0; 0; 0];
  [24; 24; 24; 24; 24; 24; 24; 24];
  [0; 0; 59; 110; 0; 0; 0; 0];
  [60; 66; 2; 4; 8; 0; 8; 0]
].
Definition font_row (idx row : Z) : Z :=
  default 0 (default [] (g_vnl_fonts !! Z.to_nat idx) !! Z.to_nat row).

(** [ch] is a signed char. *)
Definition glyph_index (ch : Z) : Z :=
  if ch =? 32 then 0
  else if (48 <=? ch) && (ch <=? 57) then 1 + (ch - 48)
  else if (65 <=? ch) && (ch <=? 90) then 11 + (ch - 65)
  else if (97 <=? ch) && (ch <=? 122) then 11 + (ch - 97)
  else if ch =? 33 then 37
  else if ch =? 64 then 38
  else if ch =? 35 then 39
  else if ch =? 36 then 40
  else if ch =? 37 then 41
  else if ch =? 94 then 42
  else if ch =? 38 then 43
  else if ch =? 42 then 44
  else if ch =? 61 then 45
  else if ch =? 45 then 46
  else if ch =? 43 then 47
  else if ch =? 95 then 48
  else if ch =? 60 then 49
  else if ch =? 62 then 50
  else if ch =? 40 then 51
  else if ch =? 41 then 52
  else if ch =? 123 then 53
  else if ch =? 125 then 54
  else if ch =? 91 then 55
  else if ch =? 93 then 56
  else if ch =? 58 then 57
  else if ch =? 59 then 58
  else if ch =? 46 then 59
  else if ch =? 44 then 60
  else if ch =? 39 then 61
  else if ch =? 34 then 62
  else if ch =? 47 then 63
  else if ch =? 92 then 64
  else if ch =? 124 then 65
  else if ch =? 126 then 66
  else if ch =? 63 then 67
  else 0.

