(* ===== verification/Console.v ===== *)
(** * Text console, framebuffer and mouse cursor
    (src/src/drivers/vga.c, fb.c and the cursor and button of kernel/gui.c)

    The VGA text buffer and its cursor, the linear framebuffer with its mirror
    of the text console, and the cursor drawn over it. The framebuffer is a byte
    memory of its own at the address the boot loader gave. *)

From Stdlib Require Import Ascii.
From S2P Require Import Prelude Pmm Mem Strings Cpu Fonts.

(** ** State *)

Definition VGA_WIDTH : Z := 80.
Definition VGA_HEIGHT : Z := 25.
Definition VGA_CTRL : Z := 0x3D4.
Definition VGA_DATA : Z := 0x3D5.
Definition VGA_BLACK : Z := 0.
Definition VGA_LGREEN : Z := 10.
Definition VGA_YELLOW : Z := 14.

(** A call of the hook the desktop installs, with its arguments. *)
Inductive vga_event : Type :=
| VGA_EVENT_PUTCHAR (x y c color : Z)
| VGA_EVENT_CLEAR (color : Z)
| VGA_EVENT_CURSOR (x y color : Z).

Record vgast := Vga {
  v_ports : ports;
  vram : Z -> Z;
  cur_row : Z;
  cur_col : Z;
  cur_color : Z;
  s_vga_hook : Z;
  hook_calls : list vga_event
}.

Record FBInfo := {
  fi_addr : Z;
  fi_pitch : Z;
  fi_width : Z;
  fi_height : Z;
  fi_bpp : Z;
  fi_type : Z
}.

Record fbst := Fb {
  s_fb_ok : bool;
  s_fb : FBInfo;
  s_fb_virt : Z;
  fbmem : mem;
  fb_m_row : Z;
  fb_m_col : Z
}.

Record cursor := Cursor {
  s_saved_bg : Z -> Z -> Z;
  s_cursor_visible : bool;
  s_cur_x : Z;
  s_cur_y : Z
}.

Record screen := Screen { sc_vga : vgast; sc_fb : fbst; sc_cursor : cursor; sc_pmm : pmm }.

Definition set_vga (f : vgast -> vgast) (s : screen) : screen :=
  Screen (f (sc_vga s)) (sc_fb s) (sc_cursor s) (sc_pmm s).
Definition set_fb (f : fbst -> fbst) (s : screen) : screen :=
  Screen (sc_vga s) (f (sc_fb s)) (sc_cursor s) (sc_pmm s).
Definition set_cursor (f : cursor -> cursor) (s : screen) : screen :=
  Screen (sc_vga s) (sc_fb s) (f (sc_cursor s)) (sc_pmm s).

#[export] Instance v_ports_lens : Lens screen ports :=
  {| view s := v_ports (sc_vga s);
     over p := set_vga (fun v => Vga p (vram v) (cur_row v) (cur_col v) (cur_color v) (s_vga_hook v) (hook_calls v)) |}.
#[export] Instance sc_pmm_lens : Lens screen pmm :=
  {| view := sc_pmm; over p s := Screen (sc_vga s) (sc_fb s) (sc_cursor s) p |}.

Definition set_cell (i e : Z) (v : vgast) : vgast :=
  Vga (v_ports v) (<[i := e]> (vram v)) (cur_row v) (cur_col v) (cur_color v) (s_vga_hook v) (hook_calls v).
Definition set_pos (row col : Z) (v : vgast) : vgast :=
  Vga (v_ports v) (vram v) row col (cur_color v) (s_vga_hook v) (hook_calls v).
Definition set_attr (c : Z) (v : vgast) : vgast :=
  Vga (v_ports v) (vram v) (cur_row v) (cur_col v) c (s_vga_hook v) (hook_calls v).
Definition set_hook (h : Z) (v : vgast) : vgast :=
  Vga (v_ports v) (vram v) (cur_row v) (cur_col v) (cur_color v) h (hook_calls v).
Definition call_hook (e : vga_event) (v : vgast) : vgast :=
  if nonzero (s_vga_hook v)
  then Vga (v_ports v) (vram v) (cur_row v) (cur_col v) (cur_color v) (s_vga_hook v) (hook_calls v ++ [e])
  else v.

Definition set_fbmem (m : mem) (b : fbst) : fbst := Fb (s_fb_ok b) (s_fb b) (s_fb_virt b) m (fb_m_row b) (fb_m_col b).
Definition set_mirror (row col : Z) (b : fbst) : fbst := Fb (s_fb_ok b) (s_fb b) (s_fb_virt b) (fbmem b) row col.
Definition set_dev (ok : bool) (i : FBInfo) (virt : Z) (b : fbst) : fbst :=
  Fb ok i virt (fbmem b) (fb_m_row b) (fb_m_col b).

(** ** fb.c: drawing *)

Definition fb_is_available : M screen bool := gets (fun s => s_fb_ok (sc_fb s)).
Definition fb_get_info : M screen FBInfo := gets (fun s => s_fb (sc_fb s)).
(** The region, its length, and the four numbers of the mode; [None] is false. *)
Definition fb_get_mmap_region : M screen (option (Z * Z * Z * Z * Z * Z)) :=
  b ← gets sc_fb;
  let i := s_fb b in
  mret (if s_fb_ok b
        then Some (fi_addr i, u64 (fi_pitch i * fi_height i), fi_pitch i, fi_width i, fi_height i, fi_bpp i)
        else None).

(** The address of a pixel: the offset is a 32-bit product and a 32-bit term. *)
Definition pixel (b : fbst) (x y : Z) : Z := s_fb_virt b + u32 (y * fi_pitch (s_fb b)) + u32 (x * 4).
Definition put_pixel (a c : Z) : M screen unit := modify (set_fb (fun b => set_fbmem (store32 (fbmem b) a c) b)).

Definition off_screen (b : fbst) (x y : Z) : bool :=
  negb (s_fb_ok b) || (fi_width (s_fb b) <=? x) || (fi_height (s_fb b) <=? y).
Definition fb_plot (x y c : Z) : M screen unit :=
  b ← gets sc_fb;
  if off_screen b x y then mret tt else put_pixel (pixel b x y) c.
Definition fb_get_pixel (x y : Z) : M screen Z :=
  b ← gets sc_fb;
  if off_screen b x y then mret 0 else mret (load32 (fbmem b) (pixel b x y)).

(** The part of a rectangle that is drawn: its width and height clipped. The sums are 32-bit. *)
Definition clip_rect (b : fbst) (x y w h : Z) : option (Z * Z) :=
  if negb (s_fb_ok b) || (w =? 0) || (h =? 0) then None
  else if (fi_width (s_fb b) <=? x) || (fi_height (s_fb b) <=? y) then None
  else
    Some (if fi_width (s_fb b) <? u32 (x + w) then u32 (fi_width (s_fb b) - x) else w,
          if fi_height (s_fb b) <? u32 (y + h) then u32 (fi_height (s_fb b) - y) else h).

Definition fill_row (b : fbst) (x y w c : Z) : M screen unit :=
  for_n (Z.to_nat w) 0 1 (fun col =>
    put_pixel (pixel b x y + 4 * col) c;; mret (None (A := unit)));;
  mret tt.
Definition fb_fill_rect (x y w h c : Z) : M screen unit :=
  b ← gets sc_fb;
  match clip_rect b x y w h with
  | None => mret tt
  | Some (w, h) =>
      for_n (Z.to_nat h) 0 1 (fun row => fill_row b x (u32 (y + row)) w c;; mret (None (A := unit)));;
      mret tt
  end.

Definition channel (c k : Z) : Z := Z.land (Z.shiftr c k) 0xFF.
(** One channel of a gradient; the division truncates. *)
Definition blend (c1 c2 row h : Z) : Z := s32 (c1 + Z.quot (s32 ((c2 - c1) * s32 row)) (s32 h)).
Definition rgb (r g b : Z) : Z :=
  Z.lor (Z.lor (Z.lor 0xFF000000 (u32 (Z.shiftl (u32 r) 16))) (u32 (Z.shiftl (u32 g) 8))) (u32 b).
Definition gradient_row (c1 c2 row h : Z) : Z :=
  rgb (blend (channel c1 16) (channel c2 16) row h) (blend (channel c1 8) (channel c2 8) row h)
      (blend (channel c1 0) (channel c2 0) row h).
Definition fb_fill_gradient (x y w h c1 c2 : Z) : M screen unit :=
  b ← gets sc_fb;
  match clip_rect b x y w h with
  | None => mret tt
  | Some (w, h) =>
      for_n (Z.to_nat h) 0 1 (fun row =>
        fill_row b x (u32 (y + row)) w (gradient_row c1 c2 row h);; mret (None (A := unit)));;
      mret tt
  end.

Definition glyph_blit (x y idx fg bg : Z) : M screen unit :=
  if (idx <? 0) || (GLYPH_NUM <=? idx) then mret tt
  else
    for_n 8 0 1 (fun yy =>
      for_n 8 0 1 (fun xx =>
        fb_plot (u32 (x + xx)) (u32 (y + yy))
          (if nonzero (Z.land (font_row idx yy) (Z.shiftl 1 (7 - xx))) then fg else bg);;
        mret (None (A := unit))));;
    mret tt.

(** The strings of fb_draw_string() are lists of signed characters. *)
Fixpoint fb_draw_chars (x y : Z) (s : list Z) (fg bg : Z) : M screen unit :=
  match s with
  | [] => mret tt
  | ch :: s' => glyph_blit x y (glyph_index ch) fg bg;; fb_draw_chars (u32 (x + 8)) y s' fg bg
  end.
Definition fb_draw_string (x y : Z) (s : list Z) (fg bg : Z) : M screen unit :=
  ok ← fb_is_available;
  if ok : bool then fb_draw_chars x y s fg bg else mret tt.

(** ** fb.c: the mirror of the text console *)

Definition FB_MIRROR_COLS : Z := 80.
Definition FB_MIRROR_ROWS : Z := 25.

Definition fb_vga16_rgb (idx : Z) : Z :=
  let idx := Z.land idx 15 in
  if idx =? 0 then rgb 0 0 0 else if idx =? 1 then rgb 0 0 170
  else if idx =? 2 then rgb 0 170 0 else if idx =? 3 then rgb 0 170 170
  else if idx =? 4 then rgb 170 0 0 else if idx =? 5 then rgb 170 0 170
  else if idx =? 6 then rgb 170 85 0 else if idx =? 7 then rgb 170 170 170
  else if idx =? 8 then rgb 85 85 85 else if idx =? 9 then rgb 85 85 255
  else if idx =? 10 then rgb 85 255 85 else if idx =? 11 then rgb 85 255 255
  else if idx =? 12 then rgb 255 85 85 else if idx =? 13 then rgb 255 85 255
  else if idx =? 14 then rgb 255 255 85 else rgb 255 255 255.
Definition fb_attr_to_colors (attr : Z) : Z * Z :=
  (fb_vga16_rgb (Z.land attr 0x0F), fb_vga16_rgb (Z.land (Z.shiftr attr 4) 0x0F)).
Definition fb_mirror_cur_colors : M screen (Z * Z) :=
  a ← gets (fun s => cur_color (sc_vga s));
  mret (fb_attr_to_colors a).
Definition fb_draw_gchar (px py ch fg bg : Z) : M screen unit := glyph_blit px py (glyph_index ch) fg bg.

Definition fb_console_scroll_gfx_one_line : M screen unit :=
  b ← gets sc_fb;
  if negb (s_fb_ok b) then mret tt
  else
    let width := fi_width (s_fb b) in
    let text_w := if width <? FB_MIRROR_COLS * 8 then width else FB_MIRROR_COLS * 8 in
    let bot := if fi_height (s_fb b) <? FB_MIRROR_ROWS * 8 then fi_height (s_fb b) else FB_MIRROR_ROWS * 8 in
    if bot <=? 8 then mret tt
    else
      for_n (Z.to_nat (bot - 8)) 0 1 (fun r =>
        modify (set_fb (fun b => set_fbmem
          (memmove (fbmem b) (s_fb_virt b + r * fi_pitch (s_fb b))
             (s_fb_virt b + (r + 8) * fi_pitch (s_fb b)) (Z.to_nat (text_w * 4))) b));;
        mret (None (A := unit)));;
      '(_, bg) ← fb_mirror_cur_colors;
      fb_fill_rect 0 (bot - 8) text_w 8 bg.

Definition clamp (n hi : Z) : Z := if n <? 0 then 0 else if hi <=? n then hi - 1 else n.
Definition fb_console_mirror_cursor (row col : Z) : M screen unit :=
  b ← gets sc_fb;
  if negb (s_fb_ok b) then mret tt
  else modify (set_fb (set_mirror (clamp row FB_MIRROR_ROWS) (clamp col FB_MIRROR_COLS))).

Definition fb_console_reset : M screen unit :=
  modify (set_fb (set_mirror 0 0));;
  b ← gets sc_fb;
  if negb (s_fb_ok b) then mret tt
  else
    '(_, bg) ← fb_mirror_cur_colors;
    if 0 <? fi_height (s_fb b) then fb_fill_rect 0 0 (fi_width (s_fb b)) (fi_height (s_fb b)) bg else mret tt.

(** A character of a text cell: its low byte as a signed char. *)
Definition cell_char (cell : Z) : Z := s8 (Z.land cell 0xFF).
Definition fb_console_import_vga_buffer (vr : Z -> Z) (cursor_row cursor_col : Z) : M screen unit :=
  b ← gets sc_fb;
  if negb (s_fb_ok b) then mret tt
  else
    modify (set_fb (set_mirror (clamp cursor_row FB_MIRROR_ROWS) (clamp cursor_col FB_MIRROR_COLS)));;
    for_n 25 0 1 (fun r =>
      for_n 80 0 1 (fun c =>
        let cell := vr (r * FB_MIRROR_COLS + c) in
        let '(fg, bg) := fb_attr_to_colors (u8 (Z.shiftr cell 8)) in
        fb_draw_gchar (c * 8) (r * 8) (cell_char cell) fg bg;;
        mret (None (A := unit))));;
    mret tt.

(** Where the cursor goes after [c], before scrolling; the VGA console moves the same way. *)
Definition advance (row col c : Z) : Z * Z :=
  if c =? 10 then (row + 1, 0)
  else if c =? 13 then (row, 0)
  else if c =? 9 then
    let col := Z.land (col + 8) (Z.lnot 7) in if VGA_WIDTH <=? col then (row + 1, 0) else (row, col)
  else if c =? 8 then (row, if 0 <? col then col - 1 else col)
  else if VGA_WIDTH <=? col + 1 then (row + 1, 0) else (row, col + 1).

Definition fb_console_putchar (c : Z) : M screen unit :=
  b ← gets sc_fb;
  if negb (s_fb_ok b) then mret tt
  else
    '(fg, bg) ← fb_mirror_cur_colors;
    let '(row, col) := advance (fb_m_row b) (fb_m_col b) c in
    (if (c =? 10) || (c =? 13) || (c =? 9) then mret tt
     else if c =? 8 then
       if 0 <? fb_m_col b then fb_draw_gchar (u32 ((fb_m_col b - 1) * 8)) (u32 (fb_m_row b * 8)) 32 fg bg else mret tt
     else fb_draw_gchar (u32 (fb_m_col b * 8)) (u32 (fb_m_row b * 8)) c fg bg);;
    modify (set_fb (set_mirror row col));;
    for_n (Z.to_nat (row - (FB_MIRROR_ROWS - 1))) 0 1 (fun _ =>
      fb_console_scroll_gfx_one_line;;
      modify (set_fb (fun b => set_mirror (fb_m_row b - 1) (fb_m_col b) b));;
      mret (None (A := unit)));;
    mret tt.

(** ** fb.c: the boot loader's description *)

Definition MB2_TAG_END : Z := 0.
Definition MB2_TAG_FB : Z := 8.
Definition SIZEOF_MB2TagFB : Z := 31.

(** The walk over the tags of the boot information at [mb]; a tag of size 0 never ends it. *)
Definition parse_fb_tag (fuel : nat) (m : mem) (mb_phys : Z) : M screen (option FBInfo) :=
  let stop := mb_phys + load32 m mb_phys in
  iter fuel (fun ptr =>
    if stop <=? ptr then mret (inr None)
    else
      let type := load32 m ptr in
      let sz := load32 m (ptr + 4) in
      if type =? MB2_TAG_END then mret (inr None)
      else if (type =? MB2_TAG_FB) && (SIZEOF_MB2TagFB <=? sz) then
        let i := {| fi_addr := load64 m (ptr + 8); fi_pitch := load32 m (ptr + 16); fi_width := load32 m (ptr + 20);
                    fi_height := load32 m (ptr + 24); fi_bpp := m (ptr + 28); fi_type := m (ptr + 29) |} in
        mret (inr (Some i))
      else mret (inl (ptr + Z.land (u32 (sz + 7)) (Z.lnot 7)))) (mb_phys + 8).
Definition tag_usable (i : FBInfo) : bool :=
  (0 <? fi_width i) && (0 <? fi_height i) && (0 <? fi_pitch i) && nonzero (fi_addr i).

(** [m] is the memory with the boot information, [magic] the value the boot code saved. *)
Definition fb_multiboot_init (fuel : nat) (m : mem) (magic mb_info_phys : Z) : M screen bool :=
  modify (set_fb (fun b => set_dev false (s_fb b) 0 b));;
  if mb_info_phys =? 0 then mret false
  else
    found ← (if magic =? 0x2BADB002 then
               if Z.land (load32 m mb_info_phys) (Z.shiftl 1 12) =? 0 then mret None
               else mret (Some (true, {|
                 fi_addr := load64 m (mb_info_phys + 88); fi_pitch := load32 m (mb_info_phys + 96);
                 fi_width := load32 m (mb_info_phys + 100); fi_height := load32 m (mb_info_phys + 104);
                 fi_bpp := m (mb_info_phys + 108); fi_type := m (mb_info_phys + 109) |}))
             else
               t ← parse_fb_tag fuel m mb_info_phys;
               mret (match t with Some i => Some (tag_usable i, i) | None => None end));
    match found with
    | None => mret false
    | Some (ok, i) =>
        modify (set_fb (fun b => set_dev false i 0 b));;
        if negb ok then mret false
        else if negb (fi_type i =? 1) then mret false
        else if negb (fi_bpp i =? 32) then mret false
        else
          let nbytes := u64 (fi_pitch i * fi_height i) in
          let p0 := ALIGN_DOWN (fi_addr i) PAGE_SIZE in
          let p1 := ALIGN_UP (u64 (fi_addr i + nbytes)) PAGE_SIZE in
          if (0xFFFFFFFF <? fi_addr i) || (Z.shiftl 1 32 <? p1) then mret false
          else
            zoom (pmm_reserve p0 (u64 (p1 - p0)));;
            modify (set_fb (fun b => set_dev true i (fi_addr i) b));;
            mret true
    end.

(** ** vga.c *)

Definition vga_set_hook (hook : Z) : M screen unit := modify (set_vga (set_hook hook)).

(** [c] is a signed char: its sign spreads over the attribute byte. *)
Definition make_entry (c color : Z) : Z := Z.lor (u16 c) (Z.shiftl color 8).

Definition update_hw_cursor : M screen unit :=
  v ← gets sc_vga;
  let pos := u16 (cur_row v * VGA_WIDTH + cur_col v) in
  zoom (outb VGA_CTRL 0x0F);;
  zoom (outb VGA_DATA (Z.land pos 0xFF));;
  zoom (outb VGA_CTRL 0x0E);;
  zoom (outb VGA_DATA (Z.shiftr pos 8)).

Definition vga_set_color (fg bg : Z) : M screen unit :=
  modify (set_vga (set_attr (u8 (Z.lor (Z.shiftl bg 4) (Z.land fg 0x0F))))).
Definition vga_get_attr : M screen Z := gets (fun s => cur_color (sc_vga s)).

Definition vga_set_cursor (row col : Z) : M screen unit :=
  let row := clamp row VGA_HEIGHT in
  let col := clamp col VGA_WIDTH in
  modify (set_vga (set_pos row col));;
  update_hw_cursor;;
  fb_console_mirror_cursor row col;;
  modify (set_vga (fun v => call_hook (VGA_EVENT_CURSOR col row (cur_color v)) v)).
Definition vga_get_cursor : M screen (Z * Z) := gets (fun s => (cur_row (sc_vga s), cur_col (sc_vga s))).
Definition vga_get_row : M screen Z := gets (fun s => cur_row (sc_vga s)).
Definition vga_get_col : M screen Z := gets (fun s => cur_col (sc_vga s)).

Definition VGA_CELLS : Z := VGA_WIDTH * VGA_HEIGHT.
(** A store to the text buffer; a cell outside it is another part of memory. *)
Definition vga_put (i e : Z) : M screen unit :=
  if (0 <=? i) && (i <? VGA_CELLS) then modify (set_vga (set_cell i e)) else ub.

Definition vga_clear : M screen unit :=
  for_n 2000 0 1 (fun i =>
    color ← vga_get_attr;
    vga_put i (make_entry 32 color);; mret (None (A := unit)));;
  modify (set_vga (set_pos 0 0));;
  update_hw_cursor;;
  fb_console_reset;;
  modify (set_vga (fun v => call_hook (VGA_EVENT_CLEAR (cur_color v)) v)).

Definition scroll : M screen unit :=
  for_n 24 0 1 (fun r =>
    for_n 80 0 1 (fun c =>
      v ← gets sc_vga;
      vga_put (r * VGA_WIDTH + c) (vram v ((r + 1) * VGA_WIDTH + c));; mret (None (A := unit))));;
  for_n 80 0 1 (fun c =>
    color ← vga_get_attr;
    vga_put ((VGA_HEIGHT - 1) * VGA_WIDTH + c) (make_entry 32 color);; mret (None (A := unit)));;
  modify (set_vga (fun v => set_pos (VGA_HEIGHT - 1) (cur_col v) v)).

Definition vga_putchar (c : Z) : M screen unit :=
  v ← gets sc_vga;
  modify (set_vga (call_hook (VGA_EVENT_PUTCHAR (cur_col v) (cur_row v) c (cur_color v))));;
  (if c =? 10 then modify (set_vga (set_pos (cur_row v + 1) 0))
   else if c =? 13 then modify (set_vga (set_pos (cur_row v) 0))
   else if c =? 9 then
     let col := Z.land (cur_col v + 8) (Z.lnot 7) in
     modify (set_vga (if VGA_WIDTH <=? col then set_pos (cur_row v + 1) 0 else set_pos (cur_row v) col))
   else if c =? 8 then
     if 0 <? cur_col v then
       modify (set_vga (set_pos (cur_row v) (cur_col v - 1)));;
       vga_put (cur_row v * VGA_WIDTH + (cur_col v - 1)) (make_entry 32 (cur_color v))
     else mret tt
   else
     vga_put (cur_row v * VGA_WIDTH + cur_col v) (make_entry c (cur_color v));;
     modify (set_vga (if VGA_WIDTH <=? cur_col v + 1 then set_pos (cur_row v + 1) 0
                      else set_pos (cur_row v) (cur_col v + 1))));;
  row ← vga_get_row;
  (if VGA_HEIGHT <=? row then scroll else mret tt);;
  update_hw_cursor;;
  fb_console_putchar c.

Fixpoint vga_puts (s : list Z) : M screen unit :=
  match s with
  | [] => mret tt
  | c :: s' => vga_putchar c;; vga_puts s'
  end.

Definition vga_init : M screen unit :=
  modify (set_vga (set_attr 0));;
  vga_set_color VGA_LGREEN VGA_BLACK;;
  vga_clear.

(** ** gui.c: the mouse cursor and the buttons *)

Definition CURSOR_W : Z := 12.
Definition CURSOR_H : Z := 19.
Definition cursor_shape : list string := [
  "B"; "BWB"; "BWWB"; "BWWWB"; "BWWWWB"; "BWWWWWB"; "BWWWWWWB"; "BWWWWWWWB"; "BWWWWWWWWB"; "BWWWWWWWWWB";
  "BWWWWWBBBBB"; "BWWBWWB"; "BWB BWWB"; "BB  BWWB"; "     BWWB"; "     BWWB"; "      BWB"; "      BB"; "       B"].
(** The character at column [c] of row [r]; [None] at and after the end of the row. *)
Definition shape_at (r c : Z) : option Ascii.ascii := String.get (Z.to_nat c) (default EmptyString (cursor_shape !! Z.to_nat r)).

Definition in_fb (fb : FBInfo) (px py : Z) : bool :=
  (0 <=? px) && (px <? s32 (fi_width fb)) && (0 <=? py) && (py <? s32 (fi_height fb)).

(** [for r, for c] over the cursor's cells. *)
Definition each_cell (body : Z -> Z -> M screen unit) : M screen unit :=
  for_n 19 0 1 (fun r =>
    for_n 12 0 1 (fun c => body r c;; mret (None (A := unit))));;
  mret tt.

Definition hide_cursor : M screen unit :=
  cur ← gets sc_cursor;
  if negb (s_cursor_visible cur) then mret tt
  else
    fb ← fb_get_info;
    each_cell (fun r c =>
      let px := s_cur_x cur + c in
      let py := s_cur_y cur + r in
      if in_fb fb px py then fb_plot px py (s_saved_bg cur r c) else mret tt);;
    modify (set_cursor (fun k => Cursor (s_saved_bg k) false (s_cur_x k) (s_cur_y k))).

Definition save_cell (r c v : Z) (k : cursor) : cursor :=
  Cursor (<[r := <[c := v]> (s_saved_bg k r)]> (s_saved_bg k)) (s_cursor_visible k) (s_cur_x k) (s_cur_y k).

Definition show_cursor (x y : Z) : M screen unit :=
  hide_cursor;;
  fb ← fb_get_info;
  modify (set_cursor (fun k => Cursor (s_saved_bg k) (s_cursor_visible k) x y));;
  each_cell (fun r c =>
    let px := x + c in
    let py := y + r in
    v ← (if in_fb fb px py then fb_get_pixel px py else mret 0);
    modify (set_cursor (save_cell r c v)));;
  each_cell (fun r c =>
    match shape_at r c with
    | None => mret tt
    | Some ch =>
        if Ascii.eqb ch " "%char then mret tt
        else
          let color := if Ascii.eqb ch "W"%char then 0xFFFFFFFF else 0xFF000000 in
          let px := x + c in
          let py := y + r in
          if in_fb fb px py then fb_plot px py color else mret tt
    end);;
  modify (set_cursor (fun k => Cursor (s_saved_bg k) true (s_cur_x k) (s_cur_y k))).

(** [None] is a button without a label. *)
Definition draw_ui_button (x y w h : Z) (label : option (list Z)) (hovered pressed : bool) : M screen unit :=
  let bg_color := if pressed then 0xFF353550 else if hovered then 0xFF65658C else 0xFF505075 in
  let border := if pressed then 0xFF202035 else 0xFF353550 in
  let text_col := if hovered then 0xFFFFFFFF else 0xFFE8E8F5 in
  fb_fill_rect x y w h border;;
  fb_fill_rect (u32 (x + 1)) (u32 (y + 1)) (u32 (w - 2)) (u32 (h - 2)) bg_color;;
  match label with
  | None => mret tt
  | Some l =>
      let slen := u32 (Z.of_nat (length l)) in
      fb_draw_string (u32 (x + u32 (w - slen * 8) / 2)) (u32 (y + u32 (h - 8) / 2)) l text_col bg_color
  end.

(** ** Drawing stays in the framebuffer *)

(** A mode the offsets of which fit 32 bits. *)
Definition fb_valid (b : fbst) : Prop :=
  0 < fi_width (s_fb b) /\ 0 < fi_height (s_fb b) /\ 4 * fi_width (s_fb b) <= fi_pitch (s_fb b) /\
  fi_pitch (s_fb b) * fi_height (s_fb b) < 2^31.
Definition fb_bytes (b : fbst) : Z := fi_pitch (s_fb b) * fi_height (s_fb b).

(** Only bytes of the framebuffer differ. *)
Record draws (s s' : screen) : Prop := {
  dr_vga : sc_vga s' = sc_vga s;
  dr_cursor : sc_cursor s' = sc_cursor s;
  dr_pmm : sc_pmm s' = sc_pmm s;
  dr_fb : sc_fb s' = set_fbmem (fbmem (sc_fb s')) (sc_fb s);
  dr_mem : forall a, ~ (s_fb_virt (sc_fb s) <= a < s_fb_virt (sc_fb s) + fb_bytes (sc_fb s)) ->
    fbmem (sc_fb s') a = fbmem (sc_fb s) a
}.
#[export] Instance draws_preorder : PreOrder draws.
Proof.
  split.
  - intros s. split; try done. by destruct s as [? []].
  - intros s1 s2 s3 [V1 K1 P1 F1 M1] [V2 K2 P2 F2 M2].
    assert (s_fb_virt (sc_fb s2) = s_fb_virt (sc_fb s1) /\ fb_bytes (sc_fb s2) = fb_bytes (sc_fb s1)) as [Hv Hb].
    { rewrite F1. done. }
    split; try congruence.
    + rewrite F2 at 1. rewrite F1 at 1. done.
    + intros a Ha. rewrite M2 by by rewrite Hv, Hb. by apply M1.
Qed.
Lemma draws_dev s s' :
  draws s s' -> s_fb_ok (sc_fb s') = s_fb_ok (sc_fb s) /\ s_fb (sc_fb s') = s_fb (sc_fb s) /\
    s_fb_virt (sc_fb s') = s_fb_virt (sc_fb s) /\ fb_m_row (sc_fb s') = fb_m_row (sc_fb s) /\
    fb_m_col (sc_fb s') = fb_m_col (sc_fb s).
Proof. intros [_ _ _ -> _]. done. Qed.
Lemma draws_valid s s' : draws s s' -> fb_valid (sc_fb s) -> fb_valid (sc_fb s').
Proof. intros (_ & Hi & _)%draws_dev. unfold fb_valid. by rewrite Hi. Qed.

Lemma draws_store s a n m' :
  s_fb_virt (sc_fb s) <= a -> a + n <= s_fb_virt (sc_fb s) + fb_bytes (sc_fb s) ->
  (forall x, x < a \/ a + n <= x -> m' x = fbmem (sc_fb s) x) ->
  draws s (set_fb (set_fbmem m') s).
Proof. intros H1 H2 Hm. split; try done. intros x Hx. apply Hm. lia. Qed.

(** A loop of drawing steps is a drawing step. *)
Lemma draws_for_n E n i step (body : Z -> M screen (option unit)) s :
  (forall k s', (k < n)%nat -> draws s s' ->
     wp E (body (i + Z.of_nat k * step)) s' (fun r s'' => r = None /\ draws s' s'')) ->
  wp E (for_n n i step body) s (fun r s' => r = None /\ draws s s').
Proof.
  intros Hb. apply (wp_for_n E (fun _ s' => draws s s')); [done| |by split].
  intros k s' Hk Hd. eapply wp_mono; [by apply Hb|]. cbn. intros r s'' [-> Hd']. by etrans.
Qed.

Lemma pixel_bounds b x y :
  fb_valid b -> 0 <= x < fi_width (s_fb b) -> 0 <= y < fi_height (s_fb b) ->
  pixel b x y = s_fb_virt b + y * fi_pitch (s_fb b) + x * 4 /\
  y * fi_pitch (s_fb b) + x * 4 + 4 <= fb_bytes b.
Proof.
  intros (Hw & Hh & Hp & Hf) Hx Hy. unfold pixel, fb_bytes.
  assert (y * fi_pitch (s_fb b) + x * 4 + 4 <= fi_pitch (s_fb b) * fi_height (s_fb b)) as Hb by nia.
  rewrite !u32_small by nia. lia.
Qed.

Lemma put_pixel_draws E s a c :
  s_fb_virt (sc_fb s) <= a -> a + 4 <= s_fb_virt (sc_fb s) + fb_bytes (sc_fb s) ->
  wp E (put_pixel a c) s (fun _ s' => draws s s').
Proof.
  intros H1 H2. apply wp_modify. apply (draws_store s a 4); [done|done|].
  intros x Hx. by apply (store_le_other 4).
Qed.

Lemma off_screen_false b x y :
  off_screen b x y = false -> s_fb_ok b = true /\ x < fi_width (s_fb b) /\ y < fi_height (s_fb b).
Proof. unfold off_screen. intros H. to_prop. split_and!; [done|lia|lia]. Qed.

Lemma fb_plot_draws E s x y c :
  fb_valid (sc_fb s) -> 0 <= x -> 0 <= y -> wp E (fb_plot x y c) s (fun _ s' => draws s s').
Proof.
  intros Hv Hx Hy. unfold fb_plot. do 2 wp_step. destruct (off_screen _ _ _) eqn:Ho; [by apply wp_ret|].
  apply off_screen_false in Ho as (_ & Hw & Hh).
  destruct (pixel_bounds (sc_fb s) x y Hv) as [-> Hb]; [lia|lia|].
  destruct Hv as (? & ? & ? & ?). apply put_pixel_draws; [nia|lia].
Qed.

Lemma fill_row_draws E s x y w c :
  fb_valid (sc_fb s) -> 0 <= x -> 0 <= w -> x + w <= fi_width (s_fb (sc_fb s)) ->
  0 <= y < fi_height (s_fb (sc_fb s)) -> wp E (fill_row (sc_fb s) x y w c) s (fun _ s' => draws s s').
Proof.
  intros Hv Hx Hw0 Hw Hy. unfold fill_row. wp_step. eapply wp_mono; [apply draws_for_n|].
  - intros k s' Hk Hd. wp_step. replace (4 * (0 + Z.of_nat k * 1)) with (4 * Z.of_nat k) by lia.
    destruct (pixel_bounds (sc_fb s) x y Hv) as [-> Hb]; [lia|lia|].
    destruct (draws_dev _ _ Hd) as (_ & Hi & Hvi & _). pose proof Hv as (? & ? & ? & ?).
    eapply wp_mono; [apply put_pixel_draws; unfold fb_bytes; rewrite ?Hi, Hvi; nia|]. cbn. intros _ s'' Hd'. by apply wp_ret.
  - cbn. intros r s' [_ Hd]. by apply wp_ret.
Qed.

Lemma clip_rect_ok b x y w h w' h' :
  fb_valid b -> 0 <= x -> 0 <= y -> 0 <= w -> 0 <= h -> x + w < 2^32 -> y + h < 2^32 ->
  clip_rect b x y w h = Some (w', h') ->
  0 <= w' /\ x + w' <= fi_width (s_fb b) /\ 0 <= h' /\ y + h' <= fi_height (s_fb b).
Proof.
  intros (Hw & Hh & Hp & Hf) Hx Hy Hw0 Hh0 Hxw Hyh. unfold clip_rect.
  destruct (negb (s_fb_ok b) || _ || _); [done|]. destruct (_ || _) eqn:Ho; [done|]. to_prop.
  assert (fi_width (s_fb b) < 2^32 /\ fi_height (s_fb b) < 2^32) as [? ?] by nia.
  rewrite !(u32_small (_ + _)), !(u32_small (_ - _)) by lia. intros [= <- <-].
  destruct (Z.ltb_spec (fi_width (s_fb b)) (x + w)), (Z.ltb_spec (fi_height (s_fb b)) (y + h)); lia.
Qed.

(** A rectangle whose corners fit 32 bits stays inside the framebuffer; see [rows]. *)
Lemma fb_fill_rect_draws E s x y w h c :
  fb_valid (sc_fb s) -> 0 <= x -> 0 <= y -> 0 <= w -> 0 <= h -> x + w < 2^32 -> y + h < 2^32 ->
  wp E (fb_fill_rect x y w h c) s (fun _ s' => draws s s').
Proof.
  intros Hv Hx Hy Hw Hh Hxw Hyh. unfold fb_fill_rect. do 2 wp_step.
  destruct (clip_rect _ _ _ _ _) as [[w' h']|] eqn:Hc; [|by apply wp_ret].
  pose proof (clip_rect_ok _ _ _ _ _ _ _ Hv Hx Hy Hw Hh Hxw Hyh Hc) as (? & ? & ? & ?).
  pose proof Hv as (? & ? & ? & ?). wp_step. eapply wp_mono; [apply draws_for_n|].
  - intros k s' Hk Hd. wp_step. rewrite u32_small by nia. destruct (draws_dev _ _ Hd) as (Hok & Hi & Hvi & _).
    assert (forall E0 Q, wp E0 (fill_row (sc_fb s') x (y + (0 + Z.of_nat k * 1)) w' c) s' Q ->
      wp E0 (fill_row (sc_fb s) x (y + (0 + Z.of_nat k * 1)) w' c) s' Q) as Hsame.
    { intros E0 Q. unfold fill_row, pixel. by rewrite Hi, Hvi. }
    apply Hsame. eapply wp_mono; [apply fill_row_draws; rewrite ?Hi; [by eapply draws_valid|lia..]|].
    cbn. intros _ s'' Hd'. by apply wp_ret.
  - cbn. intros r s' [_ Hd]. by apply wp_ret.
Qed.

Lemma glyph_blit_draws E s x y idx fg bg :
  fb_valid (sc_fb s) -> wp E (glyph_blit x y idx fg bg) s (fun _ s' => draws s s').
Proof.
  intros Hv. unfold glyph_blit. wp_step; [by apply wp_ret|]. wp_step. eapply wp_mono; [apply draws_for_n|].
  - intros k s1 Hk Hd1. apply draws_for_n. intros j s2 Hj Hd2. wp_step.
    eapply wp_mono; [apply fb_plot_draws; [by eapply draws_valid, draws_valid|apply u32_range..]|].
    cbn. intros _ s3 Hd3. by apply wp_ret.
  - cbn. intros r s' [_ Hd]. by apply wp_ret.
Qed.

(** ** The text console *)

Lemma scroll_gfx_draws E s :
  fb_valid (sc_fb s) -> wp E fb_console_scroll_gfx_one_line s (fun _ s' => draws s s').
Proof.
  intros Hv. pose proof Hv as (? & ? & ? & ?). unfold fb_console_scroll_gfx_one_line, fb_mirror_cur_colors, FB_MIRROR_COLS, FB_MIRROR_ROWS.
  do 2 wp_step. wp_step; [by apply wp_ret|]. cbn zeta.
  set (w := if fi_width _ <? 80 * 8 then _ else _). set (bot := if fi_height _ <? 25 * 8 then _ else _).
  assert (0 <= w <= fi_width (s_fb (sc_fb s)) /\ w <= 640) as [Hw Hw'].
  { unfold w. destruct (Z.ltb_spec (fi_width (s_fb (sc_fb s))) (80 * 8)); lia. }
  assert (0 <= bot <= fi_height (s_fb (sc_fb s)) /\ bot <= 200) as [Hbot Hbot'].
  { unfold bot. destruct (Z.ltb_spec (fi_height (s_fb (sc_fb s))) (25 * 8)); lia. }
  clearbody w bot. wp_step; [by apply wp_ret|]. to_prop. wp_step. eapply wp_mono; [apply draws_for_n|].
  - intros k s1 Hk Hd. do 2 wp_step. apply wp_ret. split; [done|]. destruct (draws_dev _ _ Hd) as (_ & Hi & Hvi & _).
    apply (draws_store s1 (s_fb_virt (sc_fb s1) + (0 + Z.of_nat k * 1) * fi_pitch (s_fb (sc_fb s1))) (w * 4)).
    + rewrite Hi. nia.
    + unfold fb_bytes. rewrite Hi. nia.
    + intros x Hx. rewrite memmove_at. by replace (_ && _) with false by blia.
  - cbn. intros r s1 [_ Hd]. do 2 wp_step. do 2 wp_step. eapply wp_mono.
    + apply fb_fill_rect_draws; [by eapply draws_valid|lia..].
    + cbn. intros _ s2 Hd'. by etrans.
Qed.

(** The mirror has the cursor of the text console whenever there is a framebuffer. *)
Definition mirrored (s : screen) : Prop :=
  s_fb_ok (sc_fb s) = true -> fb_m_row (sc_fb s) = cur_row (sc_vga s) /\ fb_m_col (sc_fb s) = cur_col (sc_vga s).
Record con_inv (s : screen) : Prop := {
  ci_row : 0 <= cur_row (sc_vga s) < VGA_HEIGHT;
  ci_col : 0 <= cur_col (sc_vga s) < VGA_WIDTH;
  ci_fb : fb_valid (sc_fb s);
  ci_mirror : mirrored s
}.

Lemma advance_range row col c :
  0 <= row < VGA_HEIGHT -> 0 <= col < VGA_WIDTH ->
  0 <= (advance row col c).1 <= VGA_HEIGHT /\ 0 <= (advance row col c).2 < VGA_WIDTH.
Proof.
  unfold VGA_HEIGHT, VGA_WIDTH, advance. intros Hr Hc. change (Z.lnot 7) with (Z.lnot (2^3 - 1)).
  rewrite land_lnot_ones by lia. unfold VGA_WIDTH.
  repeat case_test; cbn [fst snd]; to_prop; split; zlia.
Qed.

(** What a character does to the text buffer before scrolling. *)
Definition put_cell (color : Z) (vr : Z -> Z) (row col c : Z) : Z -> Z :=
  if (c =? 10) || (c =? 13) || (c =? 9) then vr
  else if c =? 8 then
    if 0 <? col then <[row * VGA_WIDTH + (col - 1) := make_entry 32 color]> vr else vr
  else <[row * VGA_WIDTH + col := make_entry c color]> vr.
(** The buffer one line up, the last line blank. *)
Definition scrolled (color : Z) (vr : Z -> Z) : Z -> Z := fun i =>
  if (0 <=? i) && (i <? 1920) then vr (i + 80)
  else if (1920 <=? i) && (i <? 2000) then make_entry 32 color
  else vr i.

(** Only the text buffer, by [f], the position and the ports of the VGA state differ. *)
Definition vga_upd (vr : Z -> Z) (row col : Z) (s s' : screen) : Prop :=
  sc_fb s' = sc_fb s /\ sc_cursor s' = sc_cursor s /\ sc_pmm s' = sc_pmm s /\
  (forall i, 0 <= i < VGA_CELLS -> vram (sc_vga s') i = vr i) /\
  cur_row (sc_vga s') = row /\ cur_col (sc_vga s') = col /\
  cur_color (sc_vga s') = cur_color (sc_vga s) /\ s_vga_hook (sc_vga s') = s_vga_hook (sc_vga s).

Lemma vga_put_wp E i e s (Q : unit -> screen -> Prop) :
  0 <= i < VGA_CELLS -> Q tt (set_vga (set_cell i e) s) -> wp E (vga_put i e) s Q.
Proof. intros Hi HQ. unfold vga_put. replace (_ && _) with true by blia. by apply wp_modify. Qed.

Lemma hw_cursor_wp E s (Q : unit -> screen -> Prop) :
  (forall p, Q tt (over (p : ports) s)) -> wp E update_hw_cursor s Q.
Proof.
  intros HQ. unfold update_hw_cursor. do 2 wp_step. cbn zeta.
  do 3 (wp_step; apply wp_zoom; apply (wp_Done _ _ _ tt _ _ eq_refl)). apply wp_zoom.
  apply (wp_Done _ _ _ tt _ _ eq_refl). apply (HQ _).
Qed.

Definition with_vram (vr : Z -> Z) : screen -> screen :=
  set_vga (fun v => Vga (v_ports v) vr (cur_row v) (cur_col v) (cur_color v) (s_vga_hook v) (hook_calls v)).

(** A loop that writes cells one after the other. *)
Lemma vga_fill E n base (f : Z -> vgast -> Z) (body : Z -> M screen (option unit)) (s : screen) :
  (forall c s, body c s = (v ← gets sc_vga; vga_put (base + c) (f (base + c) v);; mret None) s) -> 0 <= base -> base + Z.of_nat n <= VGA_CELLS ->
  (forall j v i e, base <= i < j -> f j (set_cell i e v) = f j v) ->
  wp E (for_n n 0 1 body) s
    (fun r s' => r = None /\ exists vr, s' = with_vram vr s /\
      forall i, vr i = if (base <=? i) && (i <? base + Z.of_nat n) then f i (sc_vga s) else vram (sc_vga s) i).
Proof.
  intros Hbody Hb0 Hb Hf. eapply (wp_for_n E (fun k s' => exists vr, s' = with_vram vr s /\
      (forall i, vr i = if (base <=? i) && (i <? base + Z.of_nat k) then f i (sc_vga s) else vram (sc_vga s) i) /\
      (forall j, base + Z.of_nat k <= j -> f j (sc_vga s') = f j (sc_vga s)))).
  - exists (vram (sc_vga s)). split_and!; [by destruct s as [[]]| |done]. intros i.
    by replace (_ && _) with false by blia.
  - intros k s' Hk (vr & -> & Hvr & Hfj). eapply wp_same; [apply Hbody|].
    do 2 wp_step. wp_step. replace (0 + Z.of_nat k * 1) with (Z.of_nat k) by lia.
    apply vga_put_wp; [lia|]. apply wp_ret. exists (<[base + Z.of_nat k := f (base + Z.of_nat k) (sc_vga s)]> vr).
    split_and!.
    + unfold with_vram, set_vga, set_cell. cbn. by rewrite <- (Hfj (base + Z.of_nat k)) by lia.
    + intros i. rewrite upd_case, Hvr. destruct (Z.eqb_spec i (base + Z.of_nat k)) as [->|]; blia.
    + intros j Hj. cbn [set_vga sc_vga]. rewrite Hf by lia. apply Hfj. lia.
  - intros s' (vr & Hs & Hvr & _). split; [done|]. by exists vr.
Qed.

Lemma scroll_wp E s :
  wp E scroll s (fun _ s' => vga_upd (scrolled (cur_color (sc_vga s)) (vram (sc_vga s))) 24 (cur_col (sc_vga s)) s s').
Proof.
  unfold scroll. wp_step. eapply wp_mono; [apply (wp_for_n E (fun k s' => exists vr, s' = with_vram vr s /\
    forall i, vr i = if (0 <=? i) && (i <? 80 * Z.of_nat k) then vram (sc_vga s) (i + 80) else vram (sc_vga s) i)
    (fun r s' => r = None /\ exists vr, s' = with_vram vr s /\
      forall i, vr i = if (0 <=? i) && (i <? 1920) then vram (sc_vga s) (i + 80) else vram (sc_vga s) i))|].
  - exists (vram (sc_vga s)). split; [by destruct s as [[]]|]. intros i. by replace (_ && _) with false by blia.
  - intros k s' Hk (vr & -> & Hvr). eapply wp_mono.
    + apply (vga_fill E 80 (80 * Z.of_nat k) (fun j v => vram v (j + 80))); [|lia|unfold VGA_CELLS, VGA_WIDTH, VGA_HEIGHT; lia|].
      * intros c s'. unfold VGA_WIDTH. replace ((0 + Z.of_nat k * 1) * 80 + c) with (80 * Z.of_nat k + c) by lia.
        by replace ((0 + Z.of_nat k * 1 + 1) * 80 + c) with (80 * Z.of_nat k + c + 80) by lia.
      * intros j v i e Hi. apply upd_other. lia.
    + cbn beta. intros r s' (-> & vr' & -> & Hvr'). exists vr'. split; [done|]. intros i. rewrite Hvr'. cbn [with_vram set_vga sc_vga vram].
      rewrite !Hvr. blia.
  - intros s' (vr & -> & Hvr). split; [done|]. exists vr. by split.
  - cbn beta. intros r s1 (-> & vr & -> & Hvr). wp_step. eapply wp_mono.
    + apply (vga_fill E 80 1920 (fun _ v => make_entry 32 (cur_color v))); [done|lia|unfold VGA_CELLS, VGA_WIDTH, VGA_HEIGHT; lia|done].
    + cbn beta. intros r s1 (_ & vr' & -> & Hvr'). wp_step. split_and!; try done.
      intros i Hi. cbn. rewrite Hvr'. cbn. rewrite Hvr. unfold scrolled, VGA_CELLS, VGA_WIDTH, VGA_HEIGHT in *. blia.
Qed.

Lemma vga_upd_ports vr row col s s' p : vga_upd vr row col s s' -> vga_upd vr row col s (over (p : ports) s').
Proof. done. Qed.

(** A character's effect on the text buffer and the cursor. *)
Definition con_step (color : Z) (st : (Z -> Z) * Z * Z) (c : Z) : (Z -> Z) * Z * Z :=
  let '(vr, row, col) := st in
  let vr1 := put_cell color vr row col c in
  let '(row1, col1) := advance row col c in
  if VGA_HEIGHT <=? row1 then (scrolled color vr1, VGA_HEIGHT - 1, col1) else (vr1, row1, col1).
Definition con_state (s : screen) : (Z -> Z) * Z * Z := (vram (sc_vga s), cur_row (sc_vga s), cur_col (sc_vga s)).
Definition after_char (s : screen) (c : Z) : (Z -> Z) * Z * Z := con_step (cur_color (sc_vga s)) (con_state s) c.

Ltac vga_same := unfold vga_upd; cbn; split_and!; intros; congruence.

Lemma vga_putchar_wp E c s (Q : unit -> screen -> Prop) :
  0 <= cur_row (sc_vga s) < VGA_HEIGHT -> 0 <= cur_col (sc_vga s) < VGA_WIDTH ->
  (forall s', (let '(vr, row, col) := after_char s c in vga_upd vr row col s s') -> wp E (fb_console_putchar c) s' Q) ->
  wp E (vga_putchar c) s Q.
Proof.
  intros Hr Hc HQ. unfold vga_putchar, vga_get_row. do 2 wp_step. do 2 wp_step. wp_step.
  set (s1 := set_vga (call_hook _) s).
  assert (sc_fb s1 = sc_fb s /\ sc_cursor s1 = sc_cursor s /\ sc_pmm s1 = sc_pmm s /\ vram (sc_vga s1) = vram (sc_vga s) /\
    cur_row (sc_vga s1) = cur_row (sc_vga s) /\ cur_col (sc_vga s1) = cur_col (sc_vga s) /\
    cur_color (sc_vga s1) = cur_color (sc_vga s) /\ s_vga_hook (sc_vga s1) = s_vga_hook (sc_vga s)) as Hs1.
  { unfold s1, set_vga, call_hook. by destruct (nonzero _). }
  apply (wp_mono E _ s1 (fun _ s' => let '(row, col) := advance (cur_row (sc_vga s)) (cur_col (sc_vga s)) c in
    vga_upd (put_cell (cur_color (sc_vga s)) (vram (sc_vga s)) (cur_row (sc_vga s)) (cur_col (sc_vga s)) c) row col s s')).
  - clearbody s1. destruct Hs1 as (? & ? & ? & ? & ? & ? & ? & ?). unfold advance, put_cell.
    destruct (Z.eqb_spec c 10) as [->|]; [apply wp_modify; vga_same|].
    destruct (Z.eqb_spec c 13) as [->|]; [apply wp_modify; vga_same|].
    destruct (Z.eqb_spec c 9) as [->|]; [cbn zeta; apply wp_modify; destruct (VGA_WIDTH <=? _); vga_same|].
    destruct (Z.eqb_spec c 8) as [->|]; cbn [orb].
    + destruct (Z.ltb_spec 0 (cur_col (sc_vga s))); [|apply wp_ret; vga_same]. do 2 wp_step.
      apply vga_put_wp; [unfold VGA_CELLS, VGA_WIDTH, VGA_HEIGHT in *; lia|]. vga_same.
    + wp_step. apply vga_put_wp; [unfold VGA_CELLS, VGA_WIDTH, VGA_HEIGHT in *; lia|]. apply wp_modify.
      destruct (VGA_WIDTH <=? _); vga_same.
  - intros _ s2. destruct (advance _ _ c) as [row col] eqn:Hadv. unfold after_char, con_step, con_state in HQ. rewrite Hadv in HQ.
    intros (F & K & P & V & R & C & A & H). do 2 wp_step. rewrite R. wp_step.
    destruct (VGA_HEIGHT <=? row) eqn:Hrow.
    + eapply wp_mono; [apply scroll_wp|]. cbn beta. intros _ s3 (F' & K' & P' & V' & R' & C' & A' & H').
      wp_step. apply hw_cursor_wp. intros p. apply HQ, vga_upd_ports. split_and!; try congruence; try done.
      intros i Hi. rewrite V' by done. unfold scrolled, VGA_CELLS, VGA_WIDTH, VGA_HEIGHT in *. rewrite A.
      destruct (_ && _) eqn:?; to_prop; [apply V; lia|]. destruct (_ && _); [done|by apply V].
    + apply wp_ret. wp_step. apply hw_cursor_wp. intros p. apply HQ, vga_upd_ports. by split_and!.
Qed.

(** The mirror follows the same character. *)
Lemma fb_putchar_wp E c s row col :
  fb_valid (sc_fb s) -> 0 <= fb_m_row (sc_fb s) < VGA_HEIGHT -> 0 <= fb_m_col (sc_fb s) < VGA_WIDTH ->
  advance (fb_m_row (sc_fb s)) (fb_m_col (sc_fb s)) c = (row, col) ->
  wp E (fb_console_putchar c) s (fun _ s' => sc_vga s' = sc_vga s /\ fb_valid (sc_fb s') /\
    s_fb_ok (sc_fb s') = s_fb_ok (sc_fb s) /\
    (s_fb_ok (sc_fb s) = true -> fb_m_row (sc_fb s') = Z.min row 24 /\ fb_m_col (sc_fb s') = col)).
Proof.
  intros Hv Hr Hc Hadv. unfold fb_console_putchar, fb_mirror_cur_colors. do 2 wp_step.
  destruct (s_fb_ok (sc_fb s)) eqn:Hok; cbn [negb]; [|by apply wp_ret].
  do 2 wp_step. do 2 wp_step. destruct (fb_attr_to_colors _) as [fg bg]. rewrite Hadv. wp_step.
  pose proof (advance_range _ _ c Hr Hc) as [Hr' Hc']. rewrite Hadv in Hr', Hc'. cbn [fst snd] in *.
  apply (wp_mono E _ s (fun _ s' => draws s s')).
  { unfold fb_draw_gchar. wp_step; [by apply wp_ret|]. wp_step; [wp_step|]; try by apply glyph_blit_draws. by apply wp_ret. }
  intros _ s1 Hd. pose proof (draws_valid _ _ Hd Hv) as Hv1. destruct (draws_dev _ _ Hd) as (Hok1 & _ & _).
  pose proof (dr_vga _ _ Hd) as Hvga. do 2 wp_step. wp_step. set (s2 := set_fb (set_mirror row col) s1).
  unfold VGA_HEIGHT, FB_MIRROR_ROWS in *. destruct (decide (row = 25)) as [->|Hne].
  - change (Z.to_nat (25 - (25 - 1))) with 1%nat. cbn [for_n]. wp_step. wp_step.
    eapply wp_mono; [apply scroll_gfx_draws; exact Hv1|]. cbn beta. intros _ s3 Hd3.
    do 3 wp_step. cbn iota. do 2 wp_step. destruct (draws_dev _ _ Hd3) as (Hok3 & Hi3 & _ & Hr3 & Hc3).
    cbn [set_fb sc_vga sc_fb set_mirror s_fb_ok fb_m_row fb_m_col]. split_and!.
    + by rewrite (dr_vga _ _ Hd3).
    + unfold fb_valid in *. cbn. by rewrite Hi3.
    + rewrite Hok3. cbn. congruence.
    + intros _. rewrite Hr3, Hc3. done.
  - replace (Z.to_nat (row - (25 - 1))) with O by lia. cbn [for_n]. apply wp_ret. apply wp_ret.
    split_and!; cbn; try done; [congruence|]. intros _. split; [lia|done].
Qed.

Lemma vga_putchar_ok c s :
  con_inv s ->
  returns (vga_putchar c) s (fun _ s' => con_inv s' /\
    let '(vr, row, col) := after_char s c in
    (forall i, 0 <= i < VGA_CELLS -> vram (sc_vga s') i = vr i) /\
    cur_row (sc_vga s') = row /\ cur_col (sc_vga s') = col /\ cur_color (sc_vga s') = cur_color (sc_vga s)).
Proof.
  intros [Hr Hc Hfb Hm]. apply vga_putchar_wp; [done|done|]. unfold after_char, con_step, con_state.
  destruct (advance _ _ c) as [row col] eqn:Hadv.
  pose proof (advance_range _ _ c Hr Hc) as [Hr' Hc']. rewrite Hadv in Hr', Hc'. cbn [fst snd] in *.
  intros s1 Hup. assert (exists vr row', vga_upd vr row' col s s1 /\ row' = Z.min row 24 /\
    (if VGA_HEIGHT <=? row then (scrolled (cur_color (sc_vga s)) (put_cell (cur_color (sc_vga s)) (vram (sc_vga s)) (cur_row (sc_vga s)) (cur_col (sc_vga s)) c), VGA_HEIGHT - 1, col)
     else (put_cell (cur_color (sc_vga s)) (vram (sc_vga s)) (cur_row (sc_vga s)) (cur_col (sc_vga s)) c, row, col)) = (vr, row', col)) as (vr & row' & (F & _ & _ & V & R & C & A & _) & Hrow' & ->).
  { unfold VGA_HEIGHT in *. destruct (Z.leb_spec 25 row); eexists _, _; (split; [exact Hup|]; split; [lia|done]). }
  destruct (s_fb_ok (sc_fb s)) eqn:Hok.
  - destruct (Hm Hok) as [Hmr Hmc].
    eapply wp_mono; [apply (fb_putchar_wp _ c s1 row col); rewrite ?F; rewrite ?Hmr, ?Hmc; done|]. cbn beta.
    intros _ s2 (Hvga & Hv2 & Hok2 & Hpos). rewrite F in *. specialize (Hpos Hok) as [Hp1 Hp2].
    split; [|rewrite Hvga; done]. split; rewrite ?Hvga; unfold VGA_HEIGHT in *; [lia|lia|done|].
    intros _. rewrite Hvga. split; [lia|congruence].
  - unfold fb_console_putchar. do 2 wp_step. rewrite F, Hok. cbn [negb]. apply wp_ret.
    split; [|done]. split; unfold VGA_HEIGHT in *; [lia|lia|by rewrite F|]. unfold mirrored. rewrite F, Hok. done.
Qed.

(** The same text on the visible screen, and the same cursor. *)
Definition con_eq (a b : (Z -> Z) * Z * Z) : Prop :=
  (forall i, 0 <= i < VGA_CELLS -> a.1.1 i = b.1.1 i) /\ a.1.2 = b.1.2 /\ a.2 = b.2.

Lemma con_step_eq color a b c : con_eq a b -> con_eq (con_step color a c) (con_step color b c).
Proof.
  destruct a as [[vr row] col], b as [[vr' row'] col']. intros (Hvr & Hr & Hc). cbn in Hvr, Hr, Hc. subst row' col'.
  unfold con_step. assert (forall i, 0 <= i < VGA_CELLS -> put_cell color vr row col c i = put_cell color vr' row col c i) as Hp.
  { intros i Hi. unfold put_cell. destruct (_ || _); [by apply Hvr|]. destruct (c =? 8); [destruct (0 <? col)|];
      rewrite ?upd_case; try destruct (_ =? _); auto. }
  destruct (advance row col c) as [row1 col1]. destruct (VGA_HEIGHT <=? row1); (split; [cbn|done]); [|by apply Hp].
  intros i Hi. unfold scrolled, VGA_CELLS, VGA_WIDTH, VGA_HEIGHT in *.
  destruct (_ && _) eqn:?; to_prop; [apply Hp; lia|]. destruct (_ && _); [done|by apply Hp].
Qed.
Lemma con_steps_eq color a b cs : con_eq a b -> con_eq (foldl (con_step color) a cs) (foldl (con_step color) b cs).
Proof. revert a b. induction cs as [|c cs IH]; intros a b H; cbn; [done|]. apply IH. by apply con_step_eq. Qed.
#[export] Instance con_eq_equivalence : Equivalence con_eq.
Proof.
  split; unfold con_eq.
  - intros a. done.
  - intros a b (H1 & H2 & H3). split_and!; try done. intros i Hi. by rewrite H1.
  - intros a b c (H1 & H2 & H3) (H4 & H5 & H6). split_and!; try congruence. intros i Hi. by rewrite H1, H4.
Qed.

Lemma vga_putchar_con c s :
  con_inv s ->
  returns (vga_putchar c) s (fun _ s' => con_inv s' /\ con_eq (con_state s') (after_char s c) /\
    cur_color (sc_vga s') = cur_color (sc_vga s)).
Proof.
  intros Hi. eapply wp_mono; [by apply vga_putchar_ok|]. cbn beta. intros _ s' [Hi' H]. split; [done|].
  destruct (after_char s c) as [[vr row] col]. destruct H as (H1 & H2 & H3 & H4). by split_and!.
Qed.

(** C35: Printing text to the console is exactly the reference terminal run over its characters:
    cells are written at the cursor with the current attribute, control characters move it, a full
    line wraps and a full screen scrolls one line up. The cursor stays on the screen, no store leaves
    the text buffer, and the mirror on the framebuffer keeps the same cursor. *)
Theorem vga_puts_prints text s :
  con_inv s ->
  returns (vga_puts text) s (fun _ s' => con_inv s' /\
    con_eq (con_state s') (foldl (con_step (cur_color (sc_vga s))) (con_state s) text)).
Proof.
  intros Hi. assert (forall text s, con_inv s -> returns (vga_puts text) s (fun _ s' => con_inv s' /\
    con_eq (con_state s') (foldl (con_step (cur_color (sc_vga s))) (con_state s) text))) as Hgen; [|by apply Hgen].
  clear. induction text as [|c text IH]; intros s Hi; cbn [vga_puts foldl]; [by apply wp_ret|]. wp_step.
  eapply wp_mono; [by apply vga_putchar_con|]. cbn beta. intros _ s1 (Hi1 & Heq & Hcol).
  eapply wp_mono; [by apply IH|]. cbn beta. intros _ s2 [Hi2 Heq2]. split; [done|]. rewrite Hcol in Heq2.
  etrans; [exact Heq2|]. by apply con_steps_eq.
Qed.

(** A character above 127 loses the attribute: its sign fills the high byte of the cell, so it is
    printed bright white on white, blinking, whatever the current colours are. *)
Theorem high_characters_lose_colour c color :
  -128 <= c < 0 -> 0 <= color < 256 -> make_entry c color = 0xFF00 + c + 256.
Proof.
  intros Hc Hcolor. assert (forallb (fun n => forallb (fun k =>
    let c := Z.of_nat n - 128 in make_entry c (Z.of_nat k) =? 0xFF00 + c + 256) (seq 0 256)) (seq 0 128) = true) as Hall
    by by vm_compute.
  rewrite forallb_forall in Hall. specialize (Hall (Z.to_nat (c + 128)) ltac:(apply in_seq; lia)).
  rewrite forallb_forall in Hall. specialize (Hall (Z.to_nat color) ltac:(apply in_seq; lia)). cbn zeta in Hall.
  apply Z.eqb_eq in Hall. by replace (Z.of_nat (Z.to_nat (c + 128)) - 128) with c in Hall by lia; rewrite Z2Nat.id in Hall by lia.
Qed.

(** ** The mouse cursor *)

Lemma each_cell_wp E (I : Z -> Z -> screen -> Prop) body s (Q : unit -> screen -> Prop) :
  I 0 0 s ->
  (forall r c s, 0 <= r < 19 -> 0 <= c < 12 -> I r c s -> wp E (body r c) s (fun _ s' => I r (c + 1) s')) ->
  (forall r s, I r 12 s -> I (r + 1) 0 s) -> (forall s, I 19 0 s -> Q tt s) -> wp E (each_cell body) s Q.
Proof.
  intros H0 Hb Hr HQ. unfold each_cell. wp_step.
  apply (wp_for_n E (fun k => I (Z.of_nat k) 0)); [done| |intros s' Hs; by apply wp_ret, HQ].
  intros k s1 Hk HI. apply (wp_for_n E (fun j => I (Z.of_nat k) (Z.of_nat j))); [done| |].
  - intros j s2 Hj HI2. wp_step. eapply wp_mono; [apply Hb; [lia|lia|]|].
    + by replace (0 + Z.of_nat j * 1) with (Z.of_nat j) by lia; replace (0 + Z.of_nat k * 1) with (Z.of_nat k) by lia.
    + cbn beta. intros _ s3 HI3. apply wp_ret.
      replace (Z.of_nat (S j)) with (0 + Z.of_nat j * 1 + 1) by lia.
      by replace (Z.of_nat k) with (0 + Z.of_nat k * 1) by lia.
  - intros s2 HI2. replace (Z.of_nat (S k)) with (Z.of_nat k + 1) by lia. by apply Hr.
Qed.

Lemma in_fb_screen b px py :
  fb_valid b -> in_fb (s_fb b) px py = true ->
  0 <= px < fi_width (s_fb b) /\ 0 <= py < fi_height (s_fb b).
Proof. intros (? & ? & ? & ?). unfold in_fb. rewrite !s32_small by nia. intros Hin. to_prop. lia. Qed.

(** The bytes of the pixel under the cell at row [r], column [c] of a cursor at [x], [y]. *)
Definition cell_bytes (b : fbst) (x y r c a : Z) : Prop :=
  s_fb_ok b = true /\ in_fb (s_fb b) (x + c) (y + r) = true /\ 0 <= r < 19 /\ 0 <= c < 12 /\
  pixel b (x + c) (y + r) <= a < pixel b (x + c) (y + r) + 4.

Lemma fb_plot_eq px py c s :
  fb_valid (sc_fb s) -> in_fb (s_fb (sc_fb s)) px py = true ->
  fb_plot px py c s =
  Done (tt, if s_fb_ok (sc_fb s)
            then set_fb (fun b => set_fbmem (store32 (fbmem b) (pixel (sc_fb s) px py) c) b) s else s).
Proof.
  intros Hv Hin. destruct (in_fb_screen _ _ _ Hv Hin) as [Hx Hy]. unfold fb_plot, off_screen.
  rewrite (bind_Done _ _ s (sc_fb s) s) by done. destruct (s_fb_ok (sc_fb s)); [|done].
  replace (fi_width _ <=? px) with false by blia. by replace (fi_height _ <=? py) with false by blia.
Qed.
Lemma fb_get_pixel_eq px py s :
  fb_valid (sc_fb s) -> in_fb (s_fb (sc_fb s)) px py = true ->
  fb_get_pixel px py s =
  Done (if s_fb_ok (sc_fb s) then load32 (fbmem (sc_fb s)) (pixel (sc_fb s) px py) else 0, s).
Proof.
  intros Hv Hin. destruct (in_fb_screen _ _ _ Hv Hin) as [Hx Hy]. unfold fb_get_pixel, off_screen.
  rewrite (bind_Done _ _ s (sc_fb s) s) by done. destruct (s_fb_ok (sc_fb s)); [|done].
  replace (fi_width _ <=? px) with false by blia. by replace (fi_height _ <=? py) with false by blia.
Qed.

(** What the cursor saved: the pixels of [m0] under its cells. *)
Definition saves (b0 : fbst) (x y : Z) (r c : Z) (saved : Z -> Z -> Z) : Prop :=
  forall r' c', 0 <= r' < 19 -> 0 <= c' < 12 -> r' < r \/ (r' = r /\ c' < c) ->
    s_fb_ok b0 = true -> in_fb (s_fb b0) (x + c') (y + r') = true ->
    saved r' c' = load32 (fbmem b0) (pixel b0 (x + c') (y + r')).

(** The framebuffer state is that of [b0] but for the memory, which agrees outside [P]. *)
Definition fb_but (b0 : fbst) (P : Z -> Prop) (s : screen) : Prop :=
  sc_fb s = set_fbmem (fbmem (sc_fb s)) b0 /\ forall a, ~ P a -> fbmem (sc_fb s) a = fbmem b0 a.
Lemma fb_but_dev b0 P s :
  fb_but b0 P s -> s_fb_ok (sc_fb s) = s_fb_ok b0 /\ s_fb (sc_fb s) = s_fb b0 /\
    (forall x y, pixel (sc_fb s) x y = pixel b0 x y) /\ (fb_valid b0 -> fb_valid (sc_fb s)).
Proof. intros [H _]. rewrite H. done. Qed.

(** Hiding a visible cursor writes back what it saved. *)
Lemma hide_cursor_wp E b0 s :
  fb_valid b0 -> mem_ok (fbmem b0) -> s_cursor_visible (sc_cursor s) = true ->
  let x := s_cur_x (sc_cursor s) in let y := s_cur_y (sc_cursor s) in
  saves b0 x y 19 0 (s_saved_bg (sc_cursor s)) ->
  fb_but b0 (fun a => exists r c, cell_bytes b0 x y r c a) s ->
  wp E hide_cursor s (fun _ s' => s_cursor_visible (sc_cursor s') = false /\ fb_but b0 (fun _ => False) s').
Proof.
  intros Hv Hm Hvis x y Hsaved Hbut. unfold hide_cursor, fb_get_info. do 2 wp_step. rewrite Hvis. cbn [negb].
  do 2 wp_step. wp_step.
  apply (each_cell_wp E (fun r c s' => sc_cursor s' = sc_cursor s /\
    fb_but b0 (fun a => exists r' c', cell_bytes b0 x y r' c' a /\ ~ (r' < r \/ (r' = r /\ c' < c))) s')).
  - split; [done|]. destruct Hbut as [H1 H2]. split; [done|]. intros a Ha. apply H2. intros (r & c & Hc).
    apply Ha. exists r, c. split; [done|]. destruct Hc as (_ & _ & ? & ? & _). lia.
  - intros r c s1 Hr Hc [Hk Hb1]. destruct (fb_but_dev _ _ _ Hbut) as (_ & Hi & _).
    destruct (fb_but_dev _ _ _ Hb1) as (Hok1 & Hi1 & Hp1 & Hv1). rewrite Hi.
    destruct (in_fb (s_fb b0) (x + c) (y + r)) eqn:Hin.
    + fold x y. rewrite Hin. eapply wp_Done; [apply fb_plot_eq; rewrite ?Hi1; auto|]. cbn beta. rewrite Hok1, Hp1.
      destruct (s_fb_ok b0) eqn:Hok; (split; [done|]); destruct Hb1 as [H1 H2]; split.
      * cbn [set_fb sc_fb set_fbmem fbmem]. rewrite H1. reflexivity.
      * intros a Ha. cbn [set_fb sc_fb set_fbmem fbmem]. rewrite Hsaved by first [done|lia]. unfold load32, store32. rewrite store_load_at by done.
        destruct (_ && _) eqn:Ha'; [done|]. apply H2. intros (r' & c' & Hcb & Hlt). apply Ha. exists r', c'.
        split; [done|]. intros [?|[-> ?]]; [lia|]. destruct (decide (c' = c)) as [->|]; [|lia].
        destruct Hcb as (_ & _ & _ & _ & Hpx).
        apply andb_false_iff in Ha' as [?%Z.leb_gt|?%Z.ltb_ge]; lia.
      * done.
      * intros a Ha. apply H2. intros (r' & c' & (Hf & _) & _). congruence.
    + fold x y. rewrite Hin. apply wp_ret. split; [done|]. destruct Hb1 as [H1 H2]. split; [done|]. intros a Ha. apply H2.
      intros (r' & c' & Hcb & Hlt). apply Ha. exists r', c'. split; [done|]. intros [?|[-> ?]]; [lia|].
      destruct (decide (c' = c)) as [->|]; [|lia]. destruct Hcb as (_ & Hf & _). congruence.
  - intros r s1 [Hk [H1 H2]]. split; [done|]. split; [done|]. intros a Ha. apply H2. intros (r' & c' & Hcb & Hlt).
    apply Ha. exists r', c'. split; [done|]. destruct Hcb as (_ & _ & ? & ? & _). lia.
  - intros s1 [Hk [H1 H2]]. apply wp_modify. split; [done|]. split; [done|]. intros a _. apply H2.
    intros (r' & c' & Hcb & Hlt). destruct Hcb as (_ & _ & ? & ? & _). lia.
Qed.

(** Showing the cursor saves what is under it and changes nothing else. *)
Lemma show_cursor_wp E x y s :
  fb_valid (sc_fb s) -> s_cursor_visible (sc_cursor s) = false ->
  wp E (show_cursor x y) s (fun _ s' =>
    s_cursor_visible (sc_cursor s') = true /\ s_cur_x (sc_cursor s') = x /\ s_cur_y (sc_cursor s') = y /\
    saves (sc_fb s) x y 19 0 (s_saved_bg (sc_cursor s')) /\
    fb_but (sc_fb s) (fun a => exists r c, cell_bytes (sc_fb s) x y r c a) s').
Proof.
  intros Hv Hvis. set (b0 := sc_fb s). unfold show_cursor, hide_cursor, fb_get_info. wp_step. do 2 wp_step. rewrite Hvis.
  cbn [negb]. wp_step. do 2 wp_step. do 2 wp_step. wp_step.
  apply (each_cell_wp E (fun r c s' => sc_fb s' = b0 /\ s_cur_x (sc_cursor s') = x /\ s_cur_y (sc_cursor s') = y /\
    saves b0 x y r c (s_saved_bg (sc_cursor s')))).
  - split_and!; [done..|]. intros r' c'. lia.
  - intros r c s1 Hr Hc (Hf & Hx & Hy & Hs). change (sc_fb s) with b0. wp_step.
    destruct (in_fb (s_fb b0) (x + c) (y + r)) eqn:Hin.
    + eapply wp_Done; [apply fb_get_pixel_eq; rewrite Hf; done|]. cbn beta. apply wp_modify. split_and!; [done..|].
      intros r' c' Hr' Hc' Hlt Hok Hin'. cbn [set_cursor sc_cursor save_cell s_saved_bg]. rewrite upd_case. rewrite Hf, Hok.
      destruct (Z.eqb_spec r' r) as [->|]; [|apply Hs; lia || done]. rewrite upd_case.
      destruct (Z.eqb_spec c' c) as [->|]; [done|apply Hs; lia || done].
    + apply wp_ret, wp_modify. split_and!; [done..|].
      intros r' c' Hr' Hc' Hlt Hok Hin'. cbn [set_cursor sc_cursor save_cell s_saved_bg]. rewrite upd_case.
      destruct (Z.eqb_spec r' r) as [->|]; [|apply Hs; lia || done]. rewrite upd_case.
      destruct (Z.eqb_spec c' c) as [->|]; [congruence|apply Hs; lia || done].
  - intros r s1 (Hf & Hx & Hy & Hs). split_and!; [done..|]. intros r' c' Hr' Hc' Hlt. apply Hs; lia.
  - intros s1 (Hf1 & Hx1 & Hy1 & Hs1). wp_step.
    apply (each_cell_wp E (fun _ _ s' => sc_cursor s' = sc_cursor s1 /\
      fb_but b0 (fun a => exists r c, cell_bytes b0 x y r c a) s')).
    + split; [done|]. split; [rewrite Hf1; by destruct b0|]. intros a _. by rewrite Hf1.
    + intros r c s2 Hr Hc [Hk Hb]. fold b0.
      destruct (shape_at r c) as [ch|]; [|by apply wp_ret]. wp_step; [by apply wp_ret|]. cbn zeta.
      destruct (in_fb (s_fb b0) (x + c) (y + r)) eqn:Hin; [|by apply wp_ret].
      destruct (fb_but_dev _ _ _ Hb) as (Hok2 & Hi2 & Hp2 & Hv2).
      eapply wp_Done; [apply fb_plot_eq; rewrite ?Hi2; auto|]. cbn beta. rewrite Hok2, Hp2.
      destruct (s_fb_ok b0) eqn:Hok; (split; [done|]); [|done]. destruct Hb as [H1 H2].
      split; [cbn [set_fb sc_fb set_fbmem fbmem]; rewrite H1; reflexivity|].
      intros a Ha. cbn [set_fb sc_fb set_fbmem fbmem]. unfold store32. rewrite (store_le_other 4); [by apply H2|].
      destruct (decide (a < pixel b0 (x + c) (y + r))); [by left|]. right.
      destruct (decide (pixel b0 (x + c) (y + r) + 4 <= a)); [done|]. exfalso. apply Ha. exists r, c.
      split_and!; try done; lia.
    + done.
    + intros s2 [Hk Hb]. apply wp_modify. cbn [set_cursor sc_cursor s_cursor_visible s_cur_x s_cur_y s_saved_bg sc_fb].
      rewrite Hk. split_and!; done.
Qed.

(** The mouse cursor leaves no trace: wherever it is shown, also partly or wholly off the screen,
    hiding it again gives every byte of the framebuffer back, and neither touches the text console. *)
Theorem cursor_leaves_no_trace x y s :
  fb_valid (sc_fb s) -> mem_ok (fbmem (sc_fb s)) -> s_cursor_visible (sc_cursor s) = false ->
  returns (show_cursor x y;; hide_cursor) s (fun _ s' =>
    s_cursor_visible (sc_cursor s') = false /\ forall a, fbmem (sc_fb s') a = fbmem (sc_fb s) a).
Proof.
  intros Hv Hm Hvis. wp_step. eapply wp_mono; [by apply show_cursor_wp|]. cbn beta.
  intros _ s1 (Hvis1 & Hx & Hy & Hs & Hb). pose proof (hide_cursor_wp (fun _ => False) (sc_fb s) s1 Hv Hm Hvis1) as H.
  cbn zeta in H. rewrite Hx, Hy in H. eapply wp_mono; [exact (H Hs Hb)|]. cbn beta.
  intros _ s2 [Hvis2 [_ H2]]. split; [done|]. intros a. apply H2. tauto.
Qed.

(** ** Samples *)

Definition screen_zero : screen :=
  Screen (Vga (Ports (fun _ => 0) 0 []) (fun _ => 0) 0 0 10 0 [])
    (Fb true (Build_FBInfo 0xE0000000 2560 640 480 32 1) 0xE0000000 (fun _ => 0) 0 0)
    (Cursor (fun _ _ => 0) false 0 0) (Pmm (fun _ => 0) 0 0).

Lemma screen_zero_inv : con_inv screen_zero.
Proof. split; cbn; [unfold VGA_HEIGHT; lia|unfold VGA_WIDTH; lia|unfold fb_valid; cbn; lia|done]. Qed.

Lemma vga_puts_prints_witness :
  returns (vga_puts [72; 105; 10]) screen_zero (fun _ s' =>
    cur_row (sc_vga s') = 1 /\ cur_col (sc_vga s') = 0 /\
    vram (sc_vga s') 0 = 0x0A48 /\ vram (sc_vga s') 1 = 0x0A69).
Proof.
  refine (wp_mono _ _ _ _ _ (vga_puts_prints [72; 105; 10] screen_zero screen_zero_inv) _).
  intros _ s' (_ & Hv & Hr & Hc). cbn in Hr, Hc. split; [exact Hr|]. split; [exact Hc|].
  split; [exact (Hv 0 ltac:(unfold VGA_CELLS, VGA_WIDTH, VGA_HEIGHT; lia))|
          exact (Hv 1 ltac:(unfold VGA_CELLS, VGA_WIDTH, VGA_HEIGHT; lia))].
Defined.

Lemma high_characters_lose_colour_witness : make_entry (-30) 0x0A = 0xFFE2.
Proof. apply (high_characters_lose_colour (-30) 0x0A); lia. Defined.

Lemma cursor_leaves_no_trace_witness :
  returns (show_cursor 635 100;; hide_cursor) screen_zero (fun _ s' =>
    s_cursor_visible (sc_cursor s') = false /\ forall a, fbmem (sc_fb s') a = 0).
Proof.
  refine (cursor_leaves_no_trace 635 100 screen_zero _ _ eq_refl).
  - unfold fb_valid. cbn. lia.
  - intros a. cbn. lia.
Defined.
