(* ===== verification/Shm.v ===== *)
(** * Shared memory objects (src/src/kernel/shm.c)

    A table of named objects, each a list of physical frames that grows and
    shrinks a page at a time. Kernel buffers are lists of bytes. *)

From S2P Require Import Prelude Pmm Mem Strings Vmm.

Definition SHM_MAX_OBJECTS : Z := 32.
Definition SHM_NAME_MAX : Z := 64.
Definition SHM_MAX_PAGES : Z := 1024.

Record ShmObject := {
  sh_used : bool;
  sh_name : string;
  sh_pages : Z -> Z;
  sh_size : Z
}.
Definition shm_zero : ShmObject := Build_ShmObject false "" (fun _ => 0) 0.

Record shm := Shm { sh_vm : vm; shm_objs : Z -> ShmObject }.
#[export] Instance sh_vm_lens : Lens shm vm := {| view := sh_vm; over v s := Shm v (shm_objs s) |}.

Definition set_obj (i : Z) (f : ShmObject -> ShmObject) (s : shm) : shm :=
  Shm (sh_vm s) (<[i := f (shm_objs s i)]> (shm_objs s)).
Definition set_page (k a : Z) (o : ShmObject) : ShmObject :=
  Build_ShmObject (sh_used o) (sh_name o) (<[k := a]> (sh_pages o)) (sh_size o).
Definition set_size (n : Z) (o : ShmObject) : ShmObject := Build_ShmObject (sh_used o) (sh_name o) (sh_pages o) n.

Definition shm_init : M shm unit := modify (fun s => Shm (sh_vm s) (fun _ => shm_zero)).

(** The stored name is cut to 63 characters; the name compared is the whole one. *)
Definition shm_open_object (name : string) (flags : Z) : M shm Z :=
  s ← get;
  match scan 32 0 (fun i => sh_used (shm_objs s i) && String.eqb (sh_name (shm_objs s i)) name) with
  | Some i => mret i
  | None =>
      match scan 32 0 (fun i => negb (sh_used (shm_objs s i))) with
      | Some i =>
          modify (set_obj i (fun _ => Build_ShmObject true (String.substring 0 63 name) (fun _ => 0) 0));;
          mret i
      | None => mret (- ENOMEM)
      end
  end.

(** [idx < 0 || idx >= SHM_MAX_OBJECTS || !shm_objs[idx].used] *)
Definition shm_bad (s : shm) (idx : Z) : bool :=
  (idx <? 0) || (SHM_MAX_OBJECTS <=? idx) || negb (sh_used (shm_objs s idx)).

Definition page_count (size : Z) : Z := u64 (size + PAGE_SIZE - 1) / PAGE_SIZE.

Definition free_page (idx i : Z) : M shm unit :=
  a ← gets (fun s => sh_pages (shm_objs s idx) i);
  zoom (T := vm) (zoom (pmm_free a));;
  modify (set_obj idx (set_page i 0)).
Definition free_page_if_set (idx i : Z) : M shm unit :=
  a ← gets (fun s => sh_pages (shm_objs s idx) i);
  if nonzero a then free_page idx i else mret tt.

(** One page more at [i]; on failure the pages from [old_pages] on are given back. *)
Definition grow_page (idx old_pages i : Z) : M shm (option Z) :=
  frame ← zoom (T := vm) (zoom pmm_alloc);
  if frame =? 0 then
    for_n (Z.to_nat (i - old_pages)) old_pages 1 (fun j => free_page idx j;; mret (None (A := unit)));;
    mret (Some (- ENOMEM))
  else
    zoom (modify (fun v => set_ram (memset (ram v) frame 0 4096) v));;
    modify (set_obj idx (set_page i frame));;
    mret None.

Definition shm_truncate (idx length : Z) : M shm Z :=
  s ← get;
  if shm_bad s idx then mret (- EINVAL)
  else
    let old_pages := page_count (sh_size (shm_objs s idx)) in
    let new_pages := page_count length in
    if SHM_MAX_PAGES <? new_pages then mret (- EFBIG)
    else
      failed ← for_n (Z.to_nat (new_pages - old_pages)) old_pages 1 (grow_page idx old_pages);
      match failed with
      | Some r => mret r
      | None =>
          for_n (Z.to_nat (old_pages - new_pages)) new_pages 1 (fun i =>
            free_page_if_set idx i;; mret (None (A := unit)));;
          modify (set_obj idx (set_size length));;
          mret 0
      end.

(** The frame of a page, [None] beyond the array. *)
Definition page_at (s : shm) (idx k : Z) : option Z :=
  if (0 <=? k) && (k <? SHM_MAX_PAGES) then Some (sh_pages (shm_objs s idx) k) else None.

Definition chunk_of (curr_off left : Z) : Z := Z.min (PAGE_SIZE - curr_off mod PAGE_SIZE) left.

(** Every turn but the last ends a page. *)
Definition copy_fuel (n : Z) : nat := Z.to_nat (n / PAGE_SIZE + 3).

(** The result, the bytes copied out, and the offset afterwards. *)
Definition shm_read (idx len off : Z) : M shm (Z * list Z * Z) :=
  s ← get;
  if shm_bad s idx then mret (- EINVAL, [], off)
  else
    let size := sh_size (shm_objs s idx) in
    if size <=? off then mret (0, [], off)
    else
      let avail := size - off in
      let to_read := if len <? avail then len else avail in
      iter (copy_fuel to_read) (fun '(curr_off, buf) =>
        let copied := Z.of_nat (List.length buf) in
        if negb (copied <? to_read) then mret (inr (s32 copied, buf, curr_off))
        else
          let chunk := chunk_of curr_off (to_read - copied) in
          s ← get;
          match page_at s idx (curr_off / PAGE_SIZE) with
          | None => ub
          | Some phys_page =>
              if phys_page =? 0 then mret (inr (- EFAULT, buf, off))
              else mret (inl (u64 (curr_off + chunk),
                     buf ++ load_bytes (ram (sh_vm s)) (phys_page + curr_off mod PAGE_SIZE) (Z.to_nat chunk)))
          end) (off, []).

(** The result and the offset afterwards. *)
Definition shm_write (idx : Z) (buf : list Z) (off : Z) : M shm (Z * Z) :=
  s ← get;
  if shm_bad s idx then mret (- EINVAL, off)
  else
    let len := Z.of_nat (List.length buf) in
    let new_end := u64 (off + len) in
    r ← (if sh_size (shm_objs s idx) <? new_end then shm_truncate idx new_end else mret 0);
    if r <? 0 then mret (r, off)
    else
      iter (copy_fuel len) (fun '(curr_off, written) =>
        if negb (written <? len) then mret (inr (s32 written, curr_off))
        else
          let chunk := chunk_of curr_off (len - written) in
          s ← get;
          match page_at s idx (curr_off / PAGE_SIZE) with
          | None => ub
          | Some phys_page =>
              if phys_page =? 0 then mret (inr (- EFAULT, off))
              else
                zoom (modify (fun v => set_ram (store_bytes (ram v) (phys_page + curr_off mod PAGE_SIZE)
                        (take (Z.to_nat chunk) (drop (Z.to_nat written) buf))) v));;
                mret (inl (u64 (curr_off + chunk), written + chunk))
          end) (off, 0).

Definition shm_get_page_phys (idx page_offset : Z) : M shm Z :=
  s ← get;
  if shm_bad s idx then mret 0
  else
    let page_idx := page_offset / PAGE_SIZE in
    if SHM_MAX_PAGES <=? page_idx then mret 0 else mret (sh_pages (shm_objs s idx) page_idx).

Definition shm_destroy (idx : Z) : M shm unit :=
  s ← get;
  if shm_bad s idx then mret tt
  else
    for_n (Z.to_nat (page_count (sh_size (shm_objs s idx)))) 0 1 (fun i =>
      free_page_if_set idx i;; mret (None (A := unit)));;
    modify (set_obj idx (fun o => Build_ShmObject false (sh_name o) (sh_pages o) (sh_size o))).

(** ** The invariant *)

Definition is_live (s : shm) (i : Z) : Prop := 0 <= i < SHM_MAX_OBJECTS /\ sh_used (shm_objs s i) = true.
Definition page_of (s : shm) (i k : Z) : Z := sh_pages (shm_objs s i) k.
Definition pages (s : shm) (i : Z) : Z := page_count (sh_size (shm_objs s i)).

Definition in_pages (k : Z) : Prop := 0 <= k < SHM_MAX_PAGES.
Definition has_page (s : shm) (i k : Z) : Prop := is_live s i /\ in_pages k /\ page_of s i k <> 0.

(** Every page of a live object is a used, aligned frame, and no frame serves
    two pages. *)
Record pages_inv (s : shm) : Prop := {
  pi_pmm : pmm_wf (vm_pmm (sh_vm s));
  pi_ram : mem_ok (ram (sh_vm s));
  pi_frame : forall i k, has_page s i k ->
    0 < page_of s i k < total_frames (vm_pmm (sh_vm s)) * PAGE_SIZE /\ page_of s i k mod PAGE_SIZE = 0 /\
    frame_free (vm_pmm (sh_vm s)) (page_of s i k / PAGE_SIZE) = false;
  pi_distinct : forall i k j l, has_page s i k -> has_page s j l -> page_of s i k = page_of s j l -> i = j /\ k = l
}.
(** The pages of an object are those its size needs. *)
Record shm_inv (s : shm) : Prop := {
  si_pages : pages_inv s;
  si_size : forall i, is_live s i -> 0 <= sh_size (shm_objs s i) <= SHM_MAX_PAGES * PAGE_SIZE;
  si_count : forall i k, is_live s i -> in_pages k -> (page_of s i k <> 0 <-> k < pages s i)
}.

(** Byte [o] of object [i]. *)
Definition content (s : shm) (i o : Z) : Z := ram (sh_vm s) (page_of s i (o / PAGE_SIZE) + o mod PAGE_SIZE).

(** ** Page steps *)

(** Only the pages of [idx] and the frame allocator differ. *)
Record shape (idx : Z) (s s' : shm) : Prop := {
  sp_other : forall j, j <> idx -> shm_objs s' j = shm_objs s j;
  sp_used : sh_used (shm_objs s' idx) = sh_used (shm_objs s idx);
  sp_size : sh_size (shm_objs s' idx) = sh_size (shm_objs s idx);
  sp_total : total_frames (vm_pmm (sh_vm s')) = total_frames (vm_pmm (sh_vm s))
}.
#[export] Instance shape_preorder idx : PreOrder (shape idx).
Proof.
  split; [by intros s; split|]. intros s1 s2 s3 [A B C D] [A' B' C' D']. split; try congruence.
  intros j Hj. rewrite A' by done. by apply A.
Qed.
Lemma shape_live idx s s' j : shape idx s s' -> is_live s' j <-> is_live s j.
Proof.
  intros [Ho Hu _ _]. unfold is_live. destruct (decide (j = idx)) as [->|Hj]; [by rewrite Hu|by rewrite Ho].
Qed.
Lemma shape_page idx s s' j k : shape idx s s' -> j <> idx -> page_of s' j k = page_of s j k.
Proof. intros [Ho _ _ _] Hj. unfold page_of. by rewrite Ho. Qed.

Lemma shm_bad_live s idx : is_live s idx -> shm_bad s idx = false.
Proof. intros [? Hu]. unfold shm_bad. rewrite Hu. blia. Qed.

Lemma free_page_wp E idx k s (Q : unit -> shm -> Prop) :
  pages_inv s -> has_page s idx k ->
  (forall s', pages_inv s' -> shape idx s s' -> ram (sh_vm s') = ram (sh_vm s) ->
     (forall l, page_of s' idx l = if l =? k then 0 else page_of s idx l) -> Q tt s') ->
  wp E (free_page idx k) s Q.
Proof.
  intros Hinv Hp HQ. pose proof Hinv as [Hwf Hram Hfr Hdis]. destruct (Hfr idx k Hp) as (Hr & Hmod & Hused).
  unfold free_page. do 2 wp_step. wp_step. apply wp_zoom, wp_zoom. pose proof (wf_total _ Hwf).
  eapply wp_Done.
  { apply (pmm_free_cases _ (page_of s idx k) Hwf). unfold PAGE_SIZE in *. lia. }
  cbn [view sh_vm_lens vm_pmm_lens]. rewrite Hused. cbn beta. wp_step.
  set (f := page_of s idx k / PAGE_SIZE). assert (0 < f < total_frames (vm_pmm (sh_vm s))) as Hf.
  { unfold f, PAGE_SIZE in *. zlia. }
  destruct (mark_free_wf (vm_pmm (sh_vm s)) Hwf f Hf Hused) as [Hwf' _].
  match goal with |- Q tt ?s1 => set (s' := s1) end.
  assert (forall l, page_of s' idx l = if l =? k then 0 else page_of s idx l) as Hpg.
  { intros l. unfold s', page_of. cbn. rewrite upd_same. cbn. apply upd_case. }
  assert (shape idx s s') as Hsh.
  { split; cbn; try done; [|by rewrite upd_same..]. intros j Hj. by apply upd_other. }
  assert (forall j l, has_page s' j l -> has_page s j l /\ page_of s' j l = page_of s j l /\ ~ (j = idx /\ l = k)) as Hback.
  { intros j l (Hl & Hk & Hne). apply (shape_live _ _ _ _ Hsh) in Hl. destruct (decide (j = idx)) as [->|Hj].
    - rewrite Hpg in *. destruct (Z.eqb_spec l k); [done|]. split; [done|]. split; [done|]. lia.
    - rewrite (shape_page _ _ _ _ _ Hsh Hj) in *. split; [done|]. split; [done|]. tauto. }
  apply HQ; [|done|done|done]. split; cbn; [done|done| |].
  - intros j l Hp'. destruct (Hback j l Hp') as (Hp0 & Heq & Hne). rewrite Heq.
    destruct (Hfr j l Hp0) as (Hr0 & Hmod0 & Hused0). split; [done|]. split; [done|].
    fold (mark_free (vm_pmm (sh_vm s)) f). rewrite frame_free_free, Hused0, orb_false_r by (unfold PAGE_SIZE in *; zlia).
    apply Z.eqb_neq. intros Hff. apply Hne. apply (Hdis j l idx k Hp0 Hp). by apply frame_index_inj.
  - intros j l j' l' Hp1 Hp2 Heq. destruct (Hback _ _ Hp1) as (Hp1' & He1 & _). destruct (Hback _ _ Hp2) as (Hp2' & He2 & _).
    rewrite He1, He2 in Heq. by apply (Hdis j l j' l').
Qed.

Lemma free_page_if_set_wp E idx k s (Q : unit -> shm -> Prop) :
  pages_inv s -> is_live s idx -> in_pages k ->
  (forall s', pages_inv s' -> shape idx s s' -> ram (sh_vm s') = ram (sh_vm s) ->
     (forall l, page_of s' idx l = if l =? k then 0 else page_of s idx l) -> Q tt s') ->
  wp E (free_page_if_set idx k) s Q.
Proof.
  intros Hinv Hl Hk HQ. unfold free_page_if_set. do 2 wp_step. fold (page_of s idx k). unfold nonzero.
  destruct (Z.eqb_spec (page_of s idx k) 0) as [Hz|Hnz]; cbn [negb].
  - apply wp_ret, HQ; [done|done|done|]. intros l. by destruct (Z.eqb_spec l k) as [->|].
  - apply free_page_wp; [done|by split_and!|done].
Qed.

(** A loop that frees the pages from [lo] on. *)
Lemma free_range_wp E idx lo n body s :
  pages_inv s -> is_live s idx -> 0 <= lo -> lo + Z.of_nat n <= SHM_MAX_PAGES ->
  (forall i s', lo <= i < lo + Z.of_nat n -> page_of s' idx i = page_of s idx i ->
     body i s' = (free_page_if_set idx i;; mret None) s') ->
  wp E (for_n n lo 1 body) s (fun r s' => r = None (A := unit) /\ pages_inv s' /\ shape idx s s' /\
    ram (sh_vm s') = ram (sh_vm s) /\
    forall l, page_of s' idx l = if (lo <=? l) && (l <? lo + Z.of_nat n) then 0 else page_of s idx l).
Proof.
  intros Hinv Hl Hlo Hn Hbody.
  apply (wp_for_n E (fun k s' => pages_inv s' /\ shape idx s s' /\ ram (sh_vm s') = ram (sh_vm s) /\
    forall l, page_of s' idx l = if (lo <=? l) && (l <? lo + Z.of_nat k) then 0 else page_of s idx l)).
  - split_and!; [done|done|done|]. intros l. by replace (_ && _) with false by blia.
  - intros k s1 Hk (Hinv1 & Hsh1 & Hram1 & Hpg1).
    eapply wp_same; [apply Hbody; [lia|]|].
    { rewrite Hpg1. by replace (_ && _) with false by blia. }
    wp_step. apply free_page_if_set_wp; [done|by apply (shape_live _ _ _ _ Hsh1)|unfold in_pages; lia|].
    intros s2 Hinv2 Hsh2 Hram2 Hpg2. apply wp_ret. split_and!; [done|by etrans|congruence|].
    intros l. rewrite Hpg2, Hpg1. blia.
  - intros s1 (Hinv1 & Hsh1 & Hram1 & Hpg1). by split_and!.
Qed.

(** The bytes of [\[p, p + 4096)] are those of another frame than [q]'s. *)
Lemma frame_apart p q a o :
  p mod PAGE_SIZE = 0 -> q mod PAGE_SIZE = 0 -> p <> q -> p <= a < p + PAGE_SIZE -> a <> q + o mod PAGE_SIZE.
Proof. unfold PAGE_SIZE. zlia. Qed.

Lemma alloc_page_wp E idx i s frame p' :
  pages_inv s -> is_live s idx -> in_pages i -> page_of s idx i = 0 ->
  pmm_wf p' -> allocated (vm_pmm (sh_vm s)) frame p' ->
  wp E (zoom (modify (fun v => set_ram (memset (ram v) frame 0 4096) v));; modify (set_obj idx (set_page i frame)))
    (over (over p' (sh_vm s)) s) (fun _ s' => pages_inv s' /\ shape idx s s' /\
     (forall l, page_of s' idx l = if l =? i then frame else page_of s idx l) /\
     (forall j l, has_page s j l -> forall o, ram (sh_vm s') (page_of s j l + o mod PAGE_SIZE) =
                                         ram (sh_vm s) (page_of s j l + o mod PAGE_SIZE)) /\
     (forall o, 0 <= o < PAGE_SIZE -> ram (sh_vm s') (frame + o) = 0)).
Proof.
  intros Hinv Hl Hi Hz Hwf' Hal. pose proof Hinv as [Hwf Hram Hfr Hdis].
  destruct (allocated_counts _ _ _ Hwf Hal) as (_ & Ht & Hr & Hff). pose proof (al_addr _ _ _ Hal) as (Hpos & Hmod & Hlt).
  pose proof (al_was_free _ _ _ Hal) as Hfree. wp_step. apply wp_zoom. do 2 wp_step.
  match goal with |- pages_inv ?s1 /\ _ => set (s' := s1) end.
  assert (forall l, page_of s' idx l = if l =? i then frame else page_of s idx l) as Hpg.
  { intros l. unfold s', page_of. cbn. rewrite upd_same. cbn. apply upd_case. }
  assert (shape idx s s') as Hsh.
  { split; cbn; try done; [|by rewrite upd_same..]. intros j Hj. by apply upd_other. }
  assert (forall j l, has_page s' j l -> (has_page s j l /\ page_of s' j l = page_of s j l) \/
    (j = idx /\ l = i /\ page_of s' j l = frame)) as Hback.
  { intros j l (Hl' & Hk & Hne). apply (shape_live _ _ _ _ Hsh) in Hl'. destruct (decide (j = idx)) as [->|Hj].
    - rewrite Hpg in *. destruct (Z.eqb_spec l i) as [->|]; [by right|by left].
    - rewrite (shape_page _ _ _ _ _ Hsh Hj) in *. by left. }
  assert (forall j l, has_page s j l -> page_of s j l <> frame) as Hnew.
  { intros j l Hp Heq. destruct (Hfr j l Hp) as (_ & _ & Hu). rewrite Heq in Hu. congruence. }
  split_and!; [|done|done| |].
  - split; cbn [sh_vm s' set_obj]; [done| | |].
    + intros a. cbn. rewrite memset_at. destruct (_ && _); [apply u8_range|apply Hram].
    + intros j l Hp'. cbn. rewrite Ht. destruct (Hback j l Hp') as [[Hp0 ->]|(-> & -> & ->)].
      * destruct (Hfr j l Hp0) as (Hr0 & Hmod0 & Hused0). split; [done|]. split; [done|].
        rewrite Hff, Hused0 by (unfold PAGE_SIZE in *; zlia). apply andb_false_r.
      * split; [lia|]. split; [done|]. rewrite Hff, Z.eqb_refl by lia. done.
    + intros j l j' l' Hp1 Hp2 Heq.
      destruct (Hback _ _ Hp1) as [[Hq1 He1]|(-> & -> & He1)], (Hback _ _ Hp2) as [[Hq2 He2]|(-> & -> & He2)]; rewrite ?He1, ?He2 in Heq.
      * by apply (Hdis j l j' l').
      * by destruct (Hnew j l Hq1).
      * by destruct (Hnew j' l' Hq2).
      * done.
  - intros j l Hp o. cbn. rewrite memset_at. destruct (Hfr j l Hp) as (_ & Hm & _).
    pose proof (frame_apart frame (page_of s j l) (page_of s j l + o mod PAGE_SIZE) o Hmod Hm (fun e => Hnew j l Hp (eq_sym e))).
    destruct (_ && _) eqn:Hin; [|done]. to_prop. unfold PAGE_SIZE in *. lia.
  - intros o Ho. cbn. rewrite memset_at. unfold PAGE_SIZE in Ho. by replace (_ && _) with true by blia.
Qed.

(** The pages that were there keep their frames and contents. *)
Definition keeps_pages (s s' : shm) : Prop :=
  forall j l, has_page s j l -> page_of s' j l = page_of s j l /\
    forall o, ram (sh_vm s') (page_of s j l + o mod PAGE_SIZE) = ram (sh_vm s) (page_of s j l + o mod PAGE_SIZE).
Definition zero_page (s : shm) (idx k : Z) : Prop :=
  forall o, 0 <= o < PAGE_SIZE -> ram (sh_vm s) (page_of s idx k + o) = 0.

(** Growing from [lo] pages: all pages up to [lo + n] are there and zero, or nothing has changed. *)
Lemma grow_wp E idx lo n s :
  pages_inv s -> is_live s idx -> 0 <= lo -> lo + Z.of_nat n <= SHM_MAX_PAGES ->
  (forall l, in_pages l -> (page_of s idx l <> 0 <-> l < lo)) ->
  wp E (for_n n lo 1 (grow_page idx lo)) s (fun r s' =>
    pages_inv s' /\ shape idx s s' /\ keeps_pages s s' /\
    match r with
    | None => (forall l, in_pages l -> (page_of s' idx l <> 0 <-> l < lo + Z.of_nat n)) /\
              forall l, lo <= l < lo + Z.of_nat n -> zero_page s' idx l
    | Some r => r = - ENOMEM /\ forall l, in_pages l -> page_of s' idx l = page_of s idx l
    end).
Proof.
  intros Hinv Hl Hlo Hn Hcnt.
  apply (wp_for_n E (fun k s' => pages_inv s' /\ shape idx s s' /\ keeps_pages s s' /\
    (forall l, in_pages l -> (page_of s' idx l <> 0 <-> l < lo + Z.of_nat k)) /\
    forall l, lo <= l < lo + Z.of_nat k -> zero_page s' idx l)).
  - split_and!; [done|done|done| |lia]. intros l Hp. rewrite Hcnt by done. lia.
  - intros k s1 Hk (Hinv1 & Hsh1 & Hkeep1 & Hcnt1 & Hzero1). replace (lo + Z.of_nat k * 1) with (lo + Z.of_nat k) by lia.
    pose proof (proj2 (shape_live _ _ _ idx Hsh1) Hl) as Hl1. assert (in_pages (lo + Z.of_nat k)) as Hin by (unfold in_pages; lia).
    assert (page_of s1 idx (lo + Z.of_nat k) = 0) as Hz.
    { destruct (decide (page_of s1 idx (lo + Z.of_nat k) = 0)) as [|Hne]; [done|]. apply Hcnt1 in Hne; [lia|done]. }
    unfold grow_page. wp_step. apply wp_zoom, wp_zoom, wp_pmm_alloc; [apply Hinv1| |].
    + intros _. change (0 =? 0) with true. cbn iota. wp_step. replace (over _ s1) with s1 by by destruct s1 as [[]].
      eapply wp_mono; [apply (free_range_wp E idx lo (Z.to_nat (lo + Z.of_nat k - lo)))|]; [done|done|done|lia| |].
      { intros i s2 Hi Hpg. unfold free_page_if_set. assert (page_of s1 idx i <> 0) as Hne by (apply Hcnt1; unfold in_pages; lia).
        assert ((a ← gets (fun s => sh_pages (shm_objs s idx) i); if nonzero a then free_page idx i else mret tt) s2 = free_page idx i s2) as Heq.
        { rewrite (bind_Done _ _ s2 (page_of s2 idx i) s2) by done. unfold nonzero. rewrite Hpg.
          by apply Z.eqb_neq in Hne as ->. }
        unfold mbind at 1 2, M_bind at 1 2. by rewrite Heq. }
      cbn beta. intros r s2 (-> & Hinv2 & Hsh2 & Hram2 & Hpg2). apply wp_ret.
      assert (forall l, in_pages l -> page_of s2 idx l = page_of s idx l) as Hsame.
      { intros l Hlp. rewrite Hpg2. destruct (_ && _) eqn:Hr.
        - to_prop. symmetry. destruct (decide (page_of s idx l = 0)) as [|Hne]; [done|]. apply Hcnt in Hne; [lia|done].
        - destruct (decide (l < lo)).
          + destruct (Hkeep1 idx l) as [? _]; [|done]. split; [done|]. split; [done|]. by apply Hcnt.
          + assert (page_of s idx l = 0) as ->.
            { destruct (decide (page_of s idx l = 0)) as [|Hne]; [done|]. apply Hcnt in Hne; [lia|done]. }
            destruct (decide (page_of s1 idx l = 0)) as [|Hne]; [done|]. apply Hcnt1 in Hne; [|done].
            apply andb_false_iff in Hr as [?%Z.leb_gt|?%Z.ltb_ge]; lia. }
      split_and!; [done|by etrans| |done|done]. intros j l Hp. destruct (Hkeep1 j l Hp) as [H1 H2]. rewrite Hram2. split; [|done].
      destruct (decide (j = idx)) as [->|Hj]; [apply Hsame, Hp|]. by rewrite (shape_page _ _ _ _ _ Hsh2 Hj).
    + intros frame p' Hwf' Hal. pose proof (al_addr _ _ _ Hal) as (Hpos & _). replace (frame =? 0) with false by blia.
      eapply wp_same; [apply bind_assoc|].
      wp_step. eapply wp_mono; [by apply (alloc_page_wp E idx (lo + Z.of_nat k) s1)|]. cbn beta.
      intros _ s2 (Hinv2 & Hsh2 & Hpg2 & Hram2 & Hzero2). apply wp_ret.
      assert (keeps_pages s1 s2) as Hkeep2.
      { intros j l Hp. split; [|by apply Hram2]. destruct (decide (j = idx)) as [->|Hj]; [|by apply (shape_page _ _ _ _ _ Hsh2)].
        rewrite Hpg2. destruct (Z.eqb_spec l (lo + Z.of_nat k)) as [->|]; [|done]. by destruct Hp as (_ & _ & ?). }
      assert (forall l, lo <= l < lo + Z.of_nat k -> has_page s1 idx l) as Hhas.
      { intros l Hlr. split; [done|]. split; [unfold in_pages; lia|]. apply Hcnt1; unfold in_pages; lia. }
      split_and!; [done|by etrans| | |].
      * intros j l Hp. destruct (Hkeep1 j l Hp) as [H1 H2].
        assert (has_page s1 j l) as Hp1.
        { destruct Hp as (Ha & Hb & Hc). split; [by apply (shape_live _ _ _ _ Hsh1)|]. split; [done|]. by rewrite H1. }
        destruct (Hkeep2 j l Hp1) as [H3 H4]. rewrite H1 in *. split; [done|]. intros o. by rewrite H4.
      * intros l Hlp. rewrite Hpg2. destruct (Z.eqb_spec l (lo + Z.of_nat k)) as [->|Hne]; [lia|]. rewrite Hcnt1 by done. lia.
      * intros l Hlr. unfold zero_page. rewrite Hpg2. destruct (Z.eqb_spec l (lo + Z.of_nat k)) as [->|Hne]; [done|].
        intros o Ho. destruct (Hkeep2 idx l (Hhas l ltac:(lia))) as [_ Hk2]. specialize (Hk2 o). rewrite Z.mod_small in Hk2 by done.
        rewrite Hk2. apply Hzero1; [lia|done].
  - intros s1 H. exact H.
Qed.

(** ** Operations *)

Lemma page_count_eq n : 0 <= n <= 2^63 -> page_count n = (n + 4095) / 4096.
Proof. intros. unfold page_count, PAGE_SIZE. rewrite u64_small by lia. f_equal. lia. Qed.
Lemma pages_range s i : shm_inv s -> is_live s i -> 0 <= pages s i <= SHM_MAX_PAGES.
Proof.
  intros Hinv Hl. pose proof (si_size s Hinv i Hl) as Hs. unfold pages, SHM_MAX_PAGES, PAGE_SIZE in *.
  rewrite page_count_eq by lia. zlia.
Qed.

(** What is left of an object's pages and of all the others. *)
Definition truncated (idx new : Z) (r : Z) (s s' : shm) : Prop :=
  forall j k, has_page s j k -> j <> idx \/ r <> 0 \/ k < new ->
    page_of s' j k = page_of s j k /\
    forall o, ram (sh_vm s') (page_of s j k + o mod PAGE_SIZE) = ram (sh_vm s) (page_of s j k + o mod PAGE_SIZE).

Lemma shm_truncate_wp E idx length s :
  shm_inv s -> is_live s idx -> 0 <= length <= SHM_MAX_PAGES * PAGE_SIZE ->
  wp E (shm_truncate idx length) s (fun r s' =>
    shm_inv s' /\ (forall j, j <> idx -> shm_objs s' j = shm_objs s j) /\ is_live s' idx /\
    truncated idx (page_count length) r s s' /\
    (r = - ENOMEM /\ sh_size (shm_objs s' idx) = sh_size (shm_objs s idx) \/
     r = 0 /\ sh_size (shm_objs s' idx) = length /\
       forall k, pages s idx <= k < page_count length -> zero_page s' idx k)).
Proof.
  intros Hinv Hl Hlen. pose proof (pages_range s idx Hinv Hl) as Hold. pose proof (si_pages s Hinv) as Hpi.
  assert (0 <= page_count length <= SHM_MAX_PAGES) as Hnew.
  { unfold SHM_MAX_PAGES, PAGE_SIZE in *. rewrite page_count_eq by lia. zlia. }
  unfold shm_truncate. do 2 wp_step. rewrite shm_bad_live by done. fold (pages s idx). cbn zeta.
  set (old := pages s idx) in *. set (new := page_count length) in *.
  replace (SHM_MAX_PAGES <? new) with false by blia. wp_step. eapply wp_mono.
  { apply (grow_wp E idx old (Z.to_nat (new - old))); [done|done|lia|lia|]. intros l Hlp. by apply si_count. }
  cbn beta. intros r s1 (Hinv1 & Hsh1 & Hkeep1 & Hr). destruct r as [r|].
  - destruct Hr as [-> Hpg]. apply wp_ret. split_and!; [|apply Hsh1|by apply (shape_live _ _ _ _ Hsh1)| |left; split; [done|apply Hsh1]].
    + split; [done| |].
      * intros i Hi%(shape_live _ _ _ _ Hsh1). destruct (decide (i = idx)) as [->|Hne];
          [rewrite (sp_size _ _ _ Hsh1)|rewrite (sp_other _ _ _ Hsh1) by done]; by apply si_size.
      * intros i k Hi%(shape_live _ _ _ _ Hsh1) Hk. unfold pages. destruct (decide (i = idx)) as [->|Hne].
        { rewrite Hpg, (sp_size _ _ _ Hsh1) by done. by apply si_count. }
        { rewrite (shape_page _ _ _ _ _ Hsh1), (sp_other _ _ _ Hsh1) by done. by apply si_count. }
    + intros j k Hp _. by apply Hkeep1.
  - destruct Hr as [Hcnt1 Hzero1]. pose proof (proj2 (shape_live _ _ _ idx Hsh1) Hl) as Hl1. wp_step. eapply wp_mono.
    { apply (free_range_wp E idx new (Z.to_nat (old - new))); [done|done|lia|lia|]. done. }
    cbn beta. intros r s2 (_ & Hinv2 & Hsh2 & Hram2 & Hpg2). do 2 wp_step. apply wp_ret.
    assert (shape idx s s2) as Hsh by by etrans. set (s3 := set_obj idx (set_size length) s2).
    assert (forall j, j <> idx -> shm_objs s3 j = shm_objs s2 j) as Ho3 by (intros j Hj; by apply upd_other).
    assert (forall j k, page_of s3 j k = page_of s2 j k) as Hp3.
    { intros j k. unfold page_of, s3. cbn. rewrite upd_case. by destruct (Z.eqb_spec j idx) as [->|]. }
    assert (forall j, is_live s3 j <-> is_live s j) as Hl3.
    { intros j. rewrite <- (shape_live _ _ _ _ Hsh). unfold is_live, s3. cbn. rewrite upd_case.
      by destruct (Z.eqb_spec j idx) as [->|]. }
    assert (sh_size (shm_objs s3 idx) = length) as Hz3 by (unfold s3; cbn; by rewrite upd_same).
    assert (forall l, in_pages l -> (page_of s2 idx l <> 0 <-> l < new)) as Hcnt2.
    { intros l Hlp. rewrite Hpg2. destruct (_ && _) eqn:Hb; to_prop; [lia|]. rewrite Hcnt1 by done.
      unfold in_pages in *. destruct Hb as [?%Z.leb_gt|?%Z.ltb_ge]; lia. }
    split_and!; [| |by apply Hl3| |right; split_and!; [done|done|]].
    + split.
      * destruct Hinv2 as [A B C D]. assert (forall j k, has_page s3 j k <-> has_page s2 j k) as Hh3.
        { intros j k. unfold has_page. by rewrite Hp3, Hl3, (shape_live _ _ _ _ Hsh). }
        split; [done|done| |]; [intros j k Hh%Hh3; rewrite Hp3; by apply C|].
        intros j k j' k' Hh%Hh3 Hh'%Hh3. rewrite !Hp3. by apply D.
      * intros j Hj%Hl3. destruct (decide (j = idx)) as [->|Hne]; [rewrite Hz3; lia|].
        rewrite Ho3, (sp_other _ _ _ Hsh) by done. by apply si_size.
      * intros j k Hj%Hl3 Hk. rewrite Hp3. unfold pages. destruct (decide (j = idx)) as [->|Hne]; [rewrite Hz3; by apply Hcnt2|].
        rewrite Ho3, (shape_page _ _ _ _ _ Hsh), (sp_other _ _ _ Hsh) by done. by apply si_count.
    + intros j Hj. rewrite Ho3 by done. by apply Hsh.
    + intros j k Hp Hor. rewrite Hp3. destruct (Hkeep1 j k Hp) as [H1 H2].
      cbn [s3 set_obj sh_vm]. rewrite Hram2. split; [|done]. destruct (decide (j = idx)) as [->|Hne].
      * rewrite Hpg2. destruct (_ && _) eqn:Hb; to_prop; [lia|done].
      * by rewrite (shape_page _ _ _ _ _ Hsh2).
    + intros k Hk. unfold zero_page. rewrite Hp3. rewrite Hpg2. destruct (_ && _) eqn:Hb; to_prop; [lia|].
      intros o Ho. cbn [s3 set_obj sh_vm]. rewrite Hram2. apply Hzero1; lia.
Qed.

Lemma size_has_page s i o :
  shm_inv s -> is_live s i -> 0 <= o < sh_size (shm_objs s i) -> has_page s i (o / PAGE_SIZE).
Proof.
  intros Hinv Hl Ho. pose proof (si_size s Hinv i Hl) as Hs. unfold SHM_MAX_PAGES, PAGE_SIZE in Hs.
  assert (in_pages (o / PAGE_SIZE)) as Hk by (unfold in_pages, SHM_MAX_PAGES, PAGE_SIZE; zlia).
  split; [done|]. split; [done|]. apply (si_count s Hinv i _ Hl Hk). unfold pages, PAGE_SIZE.
  rewrite page_count_eq by lia. zlia.
Qed.

(** Bytes stored inside one page show in that page only. *)
Lemma store_page_at s idx k po bs j l o :
  pages_inv s -> has_page s idx k -> has_page s j l -> 0 <= po -> po + Z.of_nat (List.length bs) <= PAGE_SIZE ->
  0 <= o < PAGE_SIZE -> Forall (fun b => 0 <= b < 256) bs ->
  store_bytes (ram (sh_vm s)) (page_of s idx k + po) bs (page_of s j l + o) =
  if bool_decide (j = idx /\ l = k) && (po <=? o) && (o <? po + Z.of_nat (List.length bs))
  then bs !!! Z.to_nat (o - po) else ram (sh_vm s) (page_of s j l + o).
Proof.
  intros [_ _ Hfr Hdis] Hp Hp' Hpo Hlen Ho Hbs. rewrite store_bytes_at.
  destruct (Hfr _ _ Hp) as (_ & Hm & _). destruct (Hfr _ _ Hp') as (_ & Hm' & _).
  destruct (bool_decide (j = idx /\ l = k)) eqn:Hsame; cbn [andb].
  - apply bool_decide_eq_true in Hsame as [-> ->].
    replace (page_of s idx k + o - (page_of s idx k + po)) with (o - po) by lia.
    destruct (Z.leb_spec po o); cbn [andb].
    + replace (page_of s idx k + po <=? page_of s idx k + o) with true by blia.
      destruct (Z.ltb_spec o (po + Z.of_nat (List.length bs))) as [Hlt|Hge].
      * destruct (lookup_lt_is_Some_2 bs (Z.to_nat (o - po))) as [b Hb]; [lia|]. rewrite Hb.
        rewrite (list_lookup_total_correct _ _ _ Hb). apply u8_small. exact (Forall_lookup_1 _ _ _ _ Hbs Hb).
      * by rewrite lookup_ge_None_2 by lia.
    + replace (page_of s idx k + po <=? page_of s idx k + o) with false by blia. by destruct (bs !! _).
  - apply bool_decide_eq_false in Hsame. assert (page_of s j l <> page_of s idx k) as Hne.
    { intros Heq. by apply Hsame, (Hdis j l idx k). }
    destruct (bs !! _) as [b|] eqn:Hb; [|done]. apply lookup_lt_Some in Hb.
    destruct (Z.leb_spec (page_of s idx k + po) (page_of s j l + o)); [|done]. exfalso.
    unfold PAGE_SIZE in *. apply Hne. zlia.
Qed.

Lemma chunk_next off len c w :
  0 <= off -> 0 <= w < len -> c = off + w ->
  let chunk := chunk_of c (len - w) in
  0 < chunk <= len - w /\ c mod PAGE_SIZE + chunk <= PAGE_SIZE /\
  (w + chunk < len -> (c + chunk) / PAGE_SIZE = c / PAGE_SIZE + 1).
Proof. intros Hoff Hw ->. unfold chunk_of, PAGE_SIZE. cbn zeta. zlia. Qed.

(** The turns left: one for each page still to be reached. *)
Definition turns_left (off len c w : Z) : nat :=
  if w <? len then Z.to_nat ((off + len - 1) / PAGE_SIZE - c / PAGE_SIZE + 1) else 0.
Lemma turns_fuel off len : 0 <= off -> 0 <= len -> (turns_left off len off 0 < copy_fuel len)%nat.
Proof.
  intros. unfold turns_left, copy_fuel, PAGE_SIZE. destruct (0 <? len); zlia.
Qed.
Lemma turns_step off len c w chunk :
  0 <= off -> 0 <= w < len -> c = off + w -> chunk = chunk_of c (len - w) ->
  (turns_left off len (c + chunk) (w + chunk) < turns_left off len c w)%nat.
Proof.
  intros Hoff Hw Hc ->. pose proof (chunk_next off len c w Hoff Hw Hc) as (H1 & H2 & H3). cbn zeta in *.
  unfold turns_left. replace (w <? len) with true by blia.
  destruct (Z.ltb_spec (w + chunk_of c (len - w)) len) as [Hlt|Hge]; [rewrite H3 by done|]; unfold PAGE_SIZE in *; zlia.
Qed.

(** The bytes written so far. *)
Definition written_to (idx off : Z) (buf : list Z) (w : Z) (s s' : shm) : Prop :=
  shm_objs s' = shm_objs s /\ vm_pmm (sh_vm s') = vm_pmm (sh_vm s) /\ mem_ok (ram (sh_vm s')) /\
  forall j k o, has_page s j k -> 0 <= o < PAGE_SIZE ->
    ram (sh_vm s') (page_of s j k + o) =
    if bool_decide (j = idx) && (off <=? k * PAGE_SIZE + o) && (k * PAGE_SIZE + o <? off + w)
    then buf !!! Z.to_nat (k * PAGE_SIZE + o - off) else ram (sh_vm s) (page_of s j k + o).

Lemma written_inv idx off buf w s s' : shm_inv s -> written_to idx off buf w s s' -> shm_inv s'.
Proof.
  intros [[A B C D] Hs Hc] (Ho & Hp & Hm & _).
  assert (forall i k, has_page s' i k <-> has_page s i k) as Hh by (intros; unfold has_page, is_live, page_of; by rewrite Ho).
  assert (forall i, is_live s' i <-> is_live s i) as Hl by (intros; unfold is_live; by rewrite Ho).
  assert (forall i k, page_of s' i k = page_of s i k) as Hpg by (intros; unfold page_of; by rewrite Ho).
  split; [split; rewrite ?Hp| |].
  - done.
  - done.
  - intros i k Hik%Hh. rewrite Hpg. by apply C.
  - intros i k j l Hik%Hh Hjl%Hh. rewrite !Hpg. by apply D.
  - intros i Hi%Hl. rewrite Ho. by apply Hs.
  - intros i k Hi%Hl Hk. rewrite Hpg. unfold pages. rewrite Ho. by apply Hc.
Qed.

Lemma written_chunk idx off buf w chunk s s' :
  shm_inv s -> is_live s idx -> 0 <= off -> 0 <= w < Z.of_nat (List.length buf) ->
  off + Z.of_nat (List.length buf) <= sh_size (shm_objs s idx) -> Forall (fun b => 0 <= b < 256) buf ->
  chunk = chunk_of (off + w) (Z.of_nat (List.length buf) - w) -> written_to idx off buf w s s' ->
  written_to idx off buf (w + chunk) s
    (over (set_ram (store_bytes (ram (sh_vm s')) (page_of s idx ((off + w) / PAGE_SIZE) + (off + w) mod PAGE_SIZE)
                      (take (Z.to_nat chunk) (drop (Z.to_nat w) buf))) (sh_vm s')) s').
Proof.
  intros Hinv Hl Hoff Hw Hsize Hbuf Hchunk Hwr. pose proof (written_inv _ _ _ _ _ _ Hinv Hwr) as Hinv'.
  destruct Hwr as (Ho & Hp & Hm & Hat). set (k0 := (off + w) / PAGE_SIZE). set (po := (off + w) mod PAGE_SIZE).
  pose proof (chunk_next off _ (off + w) w Hoff Hw eq_refl) as (Hc1 & Hc2 & _). cbn zeta in *. rewrite <- Hchunk in *. fold po in Hc2.
  assert (has_page s idx k0) as Hp0 by (apply size_has_page; [done|done|lia]).
  assert (forall i k, page_of s' i k = page_of s i k) as Hpg by (intros; unfold page_of; by rewrite Ho).
  assert (forall i k, has_page s' i k <-> has_page s i k) as Hh by (intros; unfold has_page, is_live, page_of; by rewrite Ho).
  split; [done|]. split; [done|]. split; [apply mem_ok_store_bytes, Hm|]. intros j k o Hjk Hor.
  set (bs := take (Z.to_nat chunk) (drop (Z.to_nat w) buf)).
  assert (Z.of_nat (List.length bs) = chunk) as Hbs by (unfold bs; rewrite length_take, length_drop; lia).
  cbn [sh_vm over sh_vm_lens set_ram ram]. rewrite <- !Hpg.
  rewrite (store_page_at s' idx k0 po bs j k o); [|apply Hinv'|by apply Hh|by apply Hh| |lia|done|].
  2: { apply Z.mod_pos_bound. done. }
  2: { unfold bs. apply Forall_take, Forall_drop, Hbuf. }
  rewrite Hbs, Hpg, Hat by done. assert (off + w = k0 * PAGE_SIZE + po) as Hdm by (unfold k0, po, PAGE_SIZE; zlia).
  destruct (decide (j = idx)) as [->|Hj].
  2: { rewrite !(bool_decide_eq_false_2 _ (fun H => Hj (proj1 H))), !(bool_decide_eq_false_2 _ Hj) by done. done. }
  rewrite (bool_decide_eq_true_2 (idx = idx)) by done. cbn [andb].
  assert (0 <= po) by (unfold po; apply Z.mod_pos_bound; done). unfold PAGE_SIZE in *.
  destruct (decide (k = k0)) as [->|Hk].
  - rewrite bool_decide_eq_true_2 by done. cbn [andb].
    destruct (Z.leb_spec po o), (Z.ltb_spec o (po + chunk)); cbn [andb].
    2-4: replace (k0 * 4096 + o <? off + (w + chunk)) with (k0 * 4096 + o <? off + w) by blia; done.
    replace (off <=? k0 * 4096 + o) with true by blia. replace (k0 * 4096 + o <? off + (w + chunk)) with true by blia.
    cbn [andb]. unfold bs. rewrite lookup_total_take_lt by lia. rewrite lookup_total_drop.
    rewrite <- Z2Nat.inj_add by lia. do 2 f_equal. lia.
  - rewrite bool_decide_eq_false_2 by (by intros [_ ?]). cbn [andb].
    replace (k * 4096 + o <? off + (w + chunk)) with (k * 4096 + o <? off + w); [done|].
    destruct (Z.ltb_spec (k * 4096 + o) (off + w)), (Z.ltb_spec (k * 4096 + o) (off + (w + chunk))); try done; lia.
Qed.

Lemma written_page idx off buf w s s' k :
  shm_inv s -> has_page s idx k -> written_to idx off buf w s s' -> page_at s' idx k = Some (page_of s idx k).
Proof.
  intros Hinv (_ & Hk & _) (Ho & _). unfold page_at, page_of, in_pages in *. rewrite Ho.
  by replace (_ && _) with true by blia.
Qed.

(** The loop of shm_write() on an object that is large enough. *)
Lemma write_loop_wp E idx off buf s :
  shm_inv s -> is_live s idx -> 0 <= off -> off + Z.of_nat (List.length buf) <= sh_size (shm_objs s idx) ->
  Forall (fun b => 0 <= b < 256) buf ->
  let len := Z.of_nat (List.length buf) in
  wp E (iter (copy_fuel len) (fun '(curr_off, written) =>
        if negb (written <? len) then mret (inr (s32 written, curr_off))
        else
          let chunk := chunk_of curr_off (len - written) in
          s ← get;
          match page_at s idx (curr_off / PAGE_SIZE) with
          | None => ub
          | Some phys_page =>
              if phys_page =? 0 then mret (inr (- EFAULT, off))
              else
                zoom (modify (fun v => set_ram (store_bytes (ram v) (phys_page + curr_off mod PAGE_SIZE)
                        (take (Z.to_nat chunk) (drop (Z.to_nat written) buf))) v));;
                mret (inl (u64 (curr_off + chunk), written + chunk))
          end) (off, 0)) s (fun r s' => r = (len, off + len) /\ written_to idx off buf len s s').
Proof.
  intros Hinv Hl Hoff Hsize Hbuf len. pose proof (si_size s Hinv idx Hl) as Hsz. unfold SHM_MAX_PAGES, PAGE_SIZE in Hsz.
  apply (wp_iter E (fun x s' => x.1 = off + x.2 /\ 0 <= x.2 <= len /\ written_to idx off buf x.2 s s')
    (fun x _ => turns_left off len x.1 x.2)).
  - intros [c w] s1 (Hc & Hw & Hwr). cbn [fst snd] in *. destruct (Z.ltb_spec w len) as [Hlt|Hge]; cbn [negb].
    + cbn zeta. wp_step. apply wp_get.
      assert (has_page s idx (c / PAGE_SIZE)) as Hp by (apply size_has_page; [done|done|lia]).
      rewrite (written_page _ _ _ _ _ _ _ Hinv Hp Hwr). pose proof Hp as (_ & _ & Hnz). apply Z.eqb_neq in Hnz. rewrite Hnz.
      wp_step. apply wp_zoom. do 2 wp_step. cbn [fst snd].
      pose proof (chunk_next off len c w Hoff ltac:(lia) Hc) as (Hc1 & _). cbn zeta in Hc1. rewrite u64_small by lia.
      split; [|by apply turns_step; [|lia|..]]. split; [lia|]. split; [lia|]. subst c. apply written_chunk; try done; lia.
    + apply wp_ret. assert (w = len) as -> by lia. subst c. split; [|done]. rewrite s32_small by lia. done.
  - cbn [fst snd]. split; [lia|]. split; [lia|]. split; [done|]. split; [done|]. split; [apply Hinv|]. intros j k o _ _.
    rewrite Z.add_0_r. by replace (_ && _ && _) with false by (destruct (bool_decide _); cbn [andb]; blia).
  - apply turns_fuel; cbn [fst]; lia.
Qed.

Lemma content_written idx off buf w s s' i o :
  written_to idx off buf w s s' -> has_page s i (o / PAGE_SIZE) -> 0 <= o ->
  content s' i o = if bool_decide (i = idx) && (off <=? o) && (o <? off + w) then buf !!! Z.to_nat (o - off) else content s i o.
Proof.
  intros (Ho & _ & _ & Hat) Hp Ho0. unfold content. assert (page_of s' i (o / PAGE_SIZE) = page_of s i (o / PAGE_SIZE)) as ->.
  { unfold page_of. by rewrite Ho. }
  rewrite Hat by (done || by apply Z.mod_pos_bound). assert (o / PAGE_SIZE * PAGE_SIZE + o mod PAGE_SIZE = o) as ->; [|done].
  unfold PAGE_SIZE. zlia.
Qed.

(** shm_read() on any range returns the contents, cut at the size. *)
Lemma shm_read_wp E idx len off s :
  shm_inv s -> is_live s idx -> 0 <= off -> 0 <= len ->
  wp E (shm_read idx len off) s (fun r s' => s' = s /\
    let n := Z.max 0 (Z.min len (sh_size (shm_objs s idx) - off)) in
    r = (n, (fun i => content s idx (off + i)) <$> seqZ 0 n, off + n)).
Proof.
  intros Hinv Hl Hoff Hlen. pose proof (si_size s Hinv idx Hl) as Hsz. unfold SHM_MAX_PAGES, PAGE_SIZE in Hsz.
  unfold shm_read. do 2 wp_step. rewrite shm_bad_live by done. destruct (Z.leb_spec (sh_size (shm_objs s idx)) off) as [Hge|Hlt].
  { apply wp_ret. split; [done|]. rewrite Z.max_l by lia. cbn. do 2 f_equal. lia. }
  set (size := sh_size (shm_objs s idx)) in *. set (n := if len <? size - off then len else size - off).
  assert (Z.max 0 (Z.min len (size - off)) = n) as -> by (unfold n; destruct (Z.ltb_spec len (size - off)); lia).
  assert (0 <= n /\ off + n <= size) as [Hn0 Hn] by (unfold n; destruct (Z.ltb_spec len (size - off)); lia).
  clearbody n. set (spec := fun k => (fun i => content s idx (off + i)) <$> seqZ 0 k).
  apply (wp_iter E (fun x s' => s' = s /\ 0 <= Z.of_nat (List.length x.2) <= n /\ x.1 = off + Z.of_nat (List.length x.2) /\
      x.2 = spec (Z.of_nat (List.length x.2)))
    (fun x _ => turns_left off n x.1 (Z.of_nat (List.length x.2)))).
  - intros [c buf] s1 (-> & Hr & Hc & Hbuf). cbn [fst snd] in *. set (w := Z.of_nat (List.length buf)) in *.
    destruct (Z.ltb_spec w n) as [Hlt'|Hge]; cbn [negb].
    + cbn zeta. wp_step. apply wp_get.
      assert (has_page s idx (c / PAGE_SIZE)) as (Hpl & Hpk & Hpn) by (apply size_has_page; [done|done|fold size; lia]).
      assert (page_at s idx (c / PAGE_SIZE) = Some (page_of s idx (c / PAGE_SIZE))) as ->.
      { unfold page_at, in_pages in *. by replace (_ && _) with true by blia. }
      apply Z.eqb_neq in Hpn. rewrite Hpn. apply wp_ret. cbn [fst snd].
      pose proof (chunk_next off n c w Hoff ltac:(lia) Hc) as (Hc1 & Hc2 & _). cbn zeta in *. set (chunk := chunk_of c (n - w)) in *.
      rewrite u64_small by lia. rewrite length_app, length_load_bytes. rewrite Nat2Z.inj_add, Z2Nat.id by lia. fold w.
      split; [|by apply turns_step; [|lia|..]]. split; [done|]. split; [lia|]. split; [lia|].
      rewrite Hbuf at 1. unfold spec. rewrite (seqZ_app 0 w chunk) by lia. rewrite fmap_app. f_equal.
      unfold load_bytes. rewrite Z2Nat.id by lia. rewrite Z.add_0_l.
      assert (seqZ w chunk = Z.add w <$> seqZ 0 chunk) as -> by (rewrite fmap_add_seqZ; f_equal; lia).
      rewrite <- list_fmap_compose. apply list_fmap_ext. intros i j Hj. apply lookup_seqZ in Hj as [-> Hj]. cbn.
      unfold content. rewrite Z.add_0_l. unfold PAGE_SIZE in *.
      assert ((off + (w + Z.of_nat i)) / 4096 = c / 4096) as -> by zlia.
      f_equal. assert ((off + (w + Z.of_nat i)) mod 4096 = c mod 4096 + Z.of_nat i) by zlia. lia.
    + apply wp_ret. split; [done|]. assert (w = n) as Hwn by lia. rewrite s32_small by lia. rewrite Hbuf, Hc, Hwn. done.
  - cbn [fst snd List.length]. split; [done|]. split; [lia|]. split; [lia|]. done.
  - apply turns_fuel; cbn [fst]; lia.
Qed.

(** What shm_write() does before it copies: the object is made large enough. *)
Lemma shm_grow_wp E idx new_end s :
  shm_inv s -> is_live s idx -> 0 <= new_end <= SHM_MAX_PAGES * PAGE_SIZE ->
  wp E (if sh_size (shm_objs s idx) <? new_end then shm_truncate idx new_end else mret 0) s (fun r s' =>
    shm_inv s' /\ is_live s' idx /\ (forall j, j <> idx -> shm_objs s' j = shm_objs s j) /\
    (forall j o, is_live s j -> 0 <= o < sh_size (shm_objs s j) -> content s' j o = content s j o) /\
    (r = - ENOMEM /\ sh_size (shm_objs s' idx) = sh_size (shm_objs s idx) \/
     r = 0 /\ sh_size (shm_objs s' idx) = Z.max (sh_size (shm_objs s idx)) new_end)).
Proof.
  intros Hinv Hl Hend. wp_step; to_prop.
  - eapply wp_mono; [by apply shm_truncate_wp|]. cbn beta. intros r s' (Hinv' & Ho & Hl' & Htr & Hr).
    split_and!; [done..| |].
    + intros j o Hj Hob. pose proof (size_has_page s j o Hinv Hj Hob) as Hp. destruct (Htr j _ Hp) as [H1 H2].
      { destruct (decide (j = idx)) as [->|]; [|by left]. right. right. pose proof (si_size s Hinv idx Hl).
        unfold SHM_MAX_PAGES, PAGE_SIZE in *. rewrite page_count_eq by lia. zlia. }
      unfold content. rewrite H1. apply H2.
    + destruct Hr as [[-> Hs]|(-> & Hs & _)]; [left|right]; split; try done. lia.
  - apply wp_ret. split_and!; try done. right. split; [done|]. lia.
Qed.

Lemma is_live_other s s' idx j :
  (forall k, k <> idx -> shm_objs s' k = shm_objs s k) -> is_live s' idx -> is_live s j -> is_live s' j.
Proof.
  intros Ho Hl Hj. destruct (decide (j = idx)) as [->|Hne]; [done|]. unfold is_live. by rewrite Ho.
Qed.

(** C23: Shared memory holds what is written to it. A write inside the size limit to an open object
    either fails for lack of frames and changes no byte of any object, or writes every byte, grows
    the object to cover them, and changes no other byte of this or any other object; reading the
    range then returns the bytes written. The invariant that no frame serves two pages is kept. *)
Theorem shm_write_then_read idx buf off s :
  shm_inv s -> is_live s idx -> 0 <= off -> off + Z.of_nat (List.length buf) <= SHM_MAX_PAGES * PAGE_SIZE ->
  Forall (fun b => 0 <= b < 256) buf ->
  let len := Z.of_nat (List.length buf) in
  returns (shm_write idx buf off) s (fun r s' => shm_inv s' /\
    (r = (- ENOMEM, off) /\ sh_size (shm_objs s' idx) = sh_size (shm_objs s idx) /\
       (forall j o, is_live s j -> 0 <= o < sh_size (shm_objs s j) -> content s' j o = content s j o) \/
     r = (len, off + len) /\ sh_size (shm_objs s' idx) = Z.max (sh_size (shm_objs s idx)) (off + len) /\
       (forall j o, is_live s j -> 0 <= o < sh_size (shm_objs s j) -> j <> idx \/ o < off \/ off + len <= o ->
          content s' j o = content s j o) /\
       returns (shm_read idx len off) s' (fun r s'' => r = (len, buf, off + len) /\ s'' = s'))).
Proof.
  intros Hinv Hl Hoff Hend Hbuf len. unfold SHM_MAX_PAGES, PAGE_SIZE in Hend.
  unfold shm_write. do 2 wp_step. rewrite shm_bad_live by done. cbn zeta. fold len. rewrite u64_small by lia. wp_step.
  eapply wp_mono; [apply shm_grow_wp; [done|done|unfold SHM_MAX_PAGES, PAGE_SIZE; lia]|]. cbn beta.
  intros r s1 (Hinv1 & Hl1 & Ho1 & Hc1 & [[-> Hs1]|[-> Hs1]]); cbn [Z.ltb Z.compare Z.opp ENOMEM].
  { apply wp_ret. split; [done|]. left. by split_and!. }
  assert (off + len <= sh_size (shm_objs s1 idx)) as Hsz1 by lia.
  eapply wp_mono; [by apply write_loop_wp|]. cbn beta. intros r s2 [-> Hwr].
  pose proof (written_inv _ _ _ _ _ _ Hinv1 Hwr) as Hinv2. pose proof Hwr as (Ho2 & _). split; [done|]. right.
  assert (is_live s2 idx) as Hl2 by (unfold is_live; by rewrite Ho2). split_and!; [done|by rewrite Ho2| |].
  - intros j o Hj Hob Hor. rewrite <- Hc1 by done. assert (is_live s1 j) as Hj1 by by eapply is_live_other.
    rewrite (content_written _ _ _ _ _ _ _ _ Hwr); [|apply size_has_page; [done|done|]|lia].
    + destruct (bool_decide (j = idx)) eqn:Hji; [|done]. apply bool_decide_eq_true in Hji as ->.
      by replace (_ && _ && _) with false by (cbn [andb]; blia).
    + destruct (decide (j = idx)) as [->|]; [lia|by rewrite Ho1].
  - eapply wp_mono; [apply (shm_read_wp _ idx len off); [done|done|done|lia]|]. cbn beta. rewrite Ho2.
    intros r s3 [-> ->]. cbn zeta. rewrite Z.max_r, Z.min_l by lia. split; [|done]. do 2 f_equal.
    apply list_eq. intros i. destruct (decide (i < List.length buf)%nat) as [Hi|Hi].
    + rewrite list_lookup_fmap, lookup_seqZ_lt by lia. cbn. rewrite Z.add_0_l.
      destruct (lookup_lt_is_Some_2 buf i Hi) as [x Hx]. rewrite Hx. f_equal.
      rewrite (content_written _ _ _ _ _ _ _ _ Hwr); [|apply size_has_page; [done|done|lia]|lia].
      rewrite bool_decide_eq_true_2 by done. replace (_ && _ && _) with true by (cbn [andb]; blia).
      replace (Z.to_nat (off + Z.of_nat i - off)) with i by lia. by apply list_lookup_total_correct.
    + rewrite !lookup_ge_None_2; [done|lia|]. rewrite length_fmap, length_seqZ. lia.
Qed.

(** A length within a page of 2^64 passes the size check: truncating to it frees every page,
    records the huge size and reports success, and reading at 4 MiB then indexes past the array. *)
Theorem shm_truncate_wraps idx length s :
  shm_inv s -> is_live s idx -> 2^64 - 4095 <= length < 2^64 ->
  returns (shm_truncate idx length) s (fun r s' =>
    r = 0 /\ sh_size (shm_objs s' idx) = length /\ (forall k, in_pages k -> page_of s' idx k = 0) /\
    shm_read idx 1 (SHM_MAX_PAGES * PAGE_SIZE) s' = Undefined).
Proof.
  intros Hinv Hl Hlen. pose proof (pages_range s idx Hinv Hl) as Hold.
  assert (page_count length = 0) as Hnew.
  { unfold page_count, PAGE_SIZE, u64. replace (length + 4096 - 1) with (length - 2^64 + 4095 + 1 * 2^64) by lia.
    rewrite Z_mod_plus_full. zlia. }
  unfold shm_truncate. do 2 wp_step. rewrite shm_bad_live by done. fold (pages s idx). cbn zeta. rewrite Hnew.
  change (SHM_MAX_PAGES <? 0) with false. cbn iota. replace (Z.to_nat (0 - pages s idx)) with O by lia. cbn [for_n].
  do 2 wp_step. wp_step. eapply wp_mono.
  { apply (free_range_wp _ idx 0 (Z.to_nat (pages s idx - 0)));
      [apply Hinv|done|done|lia|]. done. }
  cbn beta. intros r s1 (_ & Hinv1 & Hsh1 & _ & Hpg1). do 2 wp_step. apply wp_ret.
  assert (is_live (set_obj idx (set_size length) s1) idx) as Hl1.
  { apply (proj2 (shape_live _ _ _ idx Hsh1)) in Hl as [Hi Hu]. split; [done|]. cbn. rewrite upd_same. done. }
  assert (sh_size (shm_objs (set_obj idx (set_size length) s1) idx) = length) as Hs1 by (cbn; by rewrite upd_same).
  split_and!; [done|done| |].
  - intros k Hk. unfold page_of. cbn. rewrite upd_same. cbn. fold (page_of s1 idx k). rewrite Hpg1.
    destruct (_ && _) eqn:Hb; [done|]. destruct (decide (page_of s idx k = 0)) as [|Hne]; [done|].
    apply (si_count s Hinv idx k Hl Hk) in Hne. unfold in_pages in *. apply andb_false_iff in Hb as [?%Z.leb_gt|?%Z.ltb_ge]; lia.
  - unfold shm_read. rewrite (bind_Done _ _ _ _ _ eq_refl). rewrite shm_bad_live, Hs1 by done.
    change (SHM_MAX_PAGES * PAGE_SIZE) with 4194304. replace (length <=? 4194304) with false by blia.
    replace (1 <? length - 4194304) with true by blia. reflexivity.
Qed.

(** ** Samples *)

Definition shm_sample : shm :=
  Shm (Vm pmm_sample (fun _ => 0) 0 0)
    (fun i => if i =? 3 then Build_ShmObject true "wl_shm" (fun _ => 0) 0 else shm_zero).

Lemma shm_sample_live : is_live shm_sample 3.
Proof. split; [unfold SHM_MAX_OBJECTS; lia|done]. Qed.
Lemma shm_sample_inv : shm_inv shm_sample.
Proof.
  assert (forall i, is_live shm_sample i -> i = 3) as Hl.
  { intros i [_ Hu]. cbn in Hu. by destruct (Z.eqb_spec i 3). }
  assert (forall i k, ~ has_page shm_sample i k) as Hnone.
  { intros i k (Hi%Hl & _ & Hne). subst i. done. }
  split; [split| |].
  - apply pmm_sample_wf.
  - intros a. cbn. lia.
  - intros i k Hp. by destruct (Hnone i k).
  - intros i k j l Hp. by destruct (Hnone i k).
  - intros i Hi%Hl. subst i. cbn. unfold SHM_MAX_PAGES, PAGE_SIZE. lia.
  - intros i k Hi%Hl [Hk _]. subst i. change (pages shm_sample 3) with 0. split; [done|lia].
Qed.

Lemma shm_write_then_read_witness :
  is_done (shm_write 3 [1; 2; 3] 4000 shm_sample) = true /\
  returns (shm_write 3 [1; 2; 3] 4000) shm_sample (fun r s' => shm_inv s').
Proof.
  split; [by vm_compute|].
  refine (wp_mono _ _ _ _ _ (shm_write_then_read 3 [1; 2; 3] 4000 shm_sample shm_sample_inv shm_sample_live _ _ _) _).
  - lia.
  - change (Z.of_nat (List.length [1; 2; 3])) with 3. unfold SHM_MAX_PAGES, PAGE_SIZE. lia.
  - repeat constructor; lia.
  - intros r s' [H _]. exact H.
Defined.

Lemma shm_truncate_wraps_witness :
  returns (shm_truncate 3 (2^64 - 1)) shm_sample (fun r s' => r = 0 /\ sh_size (shm_objs s' 3) = 2^64 - 1).
Proof.
  refine (wp_mono _ _ _ _ _ (shm_truncate_wraps 3 (2^64 - 1) shm_sample shm_sample_inv shm_sample_live _) _); [lia|].
  intros r s' (H1 & H2 & _). split; [exact H1|exact H2].
Defined.
