(* ===== verification/Vfs.v ===== *)
(** * Virtual file system (src/src/fs/vfs.c)

    The node table with its tree of names, the descriptor table, and file data
    in memory from an allocator. Devices are reached through the [Devices]
    interface, which Devfs implements. *)

From Stdlib Require Import Ascii.
From S2P Require Import Prelude Pmm Mem Strings Vmm Heap.

Definition VFS_NAME_MAX : Z := 64.
Definition VFS_MAX_NODES : Z := 256.
Definition VFS_MAX_FDS : Z := 64.
Definition VFS_INODE_ROOT : Z := 0.

Inductive VFSNodeType : Type := VFS_FILE | VFS_DIR | VFS_CHR.
#[export] Instance VFSNodeType_eq_dec : EqDecision VFSNodeType.
Proof. solve_decision. Defined.

Definition VFS_O_READ : Z := 1.
Definition VFS_O_WRITE : Z := 2.
Definition VFS_O_CREATE : Z := 4.
Definition VFS_O_TRUNC : Z := 8.
Definition VFS_O_RDWR : Z := 3.
Definition has_flag (flags f : Z) : bool := nonzero (Z.land flags f).

Definition DEV_FB_MAJOR : Z := 29.
Definition DEV_FB0_MINOR : Z := 0.
Definition DEV_NULL_MAJOR : Z := 1.
Definition DEV_NULL_MINOR : Z := 3.
Definition DEV_SHM_MAJOR : Z := 24.
Definition DEV_KEYBOARD_MAJOR : Z := 11.
Definition DEV_MOUSE_MAJOR : Z := 12.
Definition DEV_SERIAL_MAJOR : Z := 4.

Record VFSNode := {
  n_used : bool;
  n_type : VFSNodeType;
  n_inode : Z;
  n_parent : Z;
  n_major : Z;
  n_minor : Z;
  n_name : string;
  n_data : Z;
  n_size : Z;
  n_capacity : Z
}.
Definition node_zero : VFSNode := Build_VFSNode false VFS_FILE 0 0 0 0 "" 0 0 0.
Definition with_data (d size cap : Z) (n : VFSNode) : VFSNode :=
  Build_VFSNode (n_used n) (n_type n) (n_inode n) (n_parent n) (n_major n) (n_minor n) (n_name n) d size cap.

Record FDEntry := {
  f_open : bool;
  f_inode : Z;
  f_offset : Z;
  f_flags : Z
}.
Definition fd_zero : FDEntry := Build_FDEntry false 0 0 0.
Definition with_offset (o : Z) (e : FDEntry) : FDEntry := Build_FDEntry (f_open e) (f_inode e) o (f_flags e).

Record vfs (St : Type) := Vfs {
  v_st : St;
  nodes : Z -> VFSNode;
  next_inode : Z;
  vfs_cwd : Z;
  fds : Z -> FDEntry
}.
Arguments Vfs {St}.
Arguments v_st {St}.
Arguments nodes {St}.
Arguments next_inode {St}.
Arguments vfs_cwd {St}.
Arguments fds {St}.

#[export] Instance v_st_lens St : Lens (vfs St) St :=
  {| view := v_st; over m s := Vfs m (nodes s) (next_inode s) (vfs_cwd s) (fds s) |}.

(** What the character devices and shared memory offer. Reads return the bytes
    and the offset afterwards; an ioctl returns the bytes stored at its argument. *)
Class Devices (St : Type) := {
  d_shm_open : string -> Z -> M St Z;
  d_shm_truncate : Z -> Z -> M St Z;
  d_shm_destroy : Z -> M St unit;
  d_read : Z -> Z -> Z -> Z -> M St (Z * list Z * Z);
  d_write : Z -> Z -> list Z -> Z -> M St (Z * Z);
  d_ioctl : Z -> Z -> Z -> Z -> M St (Z * list Z)
}.

(** ** Names and paths *)

Definition name63 (s : string) : string := String.substring 0 63 s.
Definition slash : ascii := "/".

(** The next component, at most 63 characters, and the rest after its slash. *)
Fixpoint take_component (n : nat) (path : string) : string * string :=
  match n, path with
  | S n', String c p =>
      if Ascii.eqb c slash then (EmptyString, p)
      else let '(comp, rest) := take_component n' p in (String c comp, rest)
  | O, String c p => if Ascii.eqb c slash then (EmptyString, p) else (EmptyString, path)
  | _, EmptyString => (EmptyString, EmptyString)
  end.

(** [strrchr(path, '/')]: what is before the last slash and what is after it. *)
Fixpoint split_last (path : string) : option (string * string) :=
  match path with
  | EmptyString => None
  | String c p =>
      match split_last p with
      | Some (a, b) => Some (String c a, b)
      | None => if Ascii.eqb c slash then Some (EmptyString, p) else None
      end
  end.

Definition node_at (nd : Z -> VFSNode) (inode : Z) : option Z :=
  scan 256 0 (fun i => n_used (nd i) && (n_inode (nd i) =? inode)).
Definition child_at (nd : Z -> VFSNode) (cur : Z) (comp : string) : option Z :=
  scan 256 0 (fun i => n_used (nd i) && (n_parent (nd i) =? cur) && String.eqb (n_name (nd i)) comp).

(** One step of a walk; an unknown inode is its own parent. *)
Definition walk_step (nd : Z -> VFSNode) (cur : Z) (comp : string) : option Z :=
  if String.eqb comp "." then Some cur
  else if String.eqb comp ".." then
    Some (match node_at nd cur with Some i => n_parent (nd i) | None => cur end)
  else
    match child_at nd cur comp with
    | Some i => Some (n_inode (nd i))
    | None => None
    end.

(** The loop of vfs_resolve(): every turn takes at least one character. *)
Fixpoint resolve_loop (fuel : nat) (nd : Z -> VFSNode) (cur : Z) (path : string) : option Z :=
  match path with
  | EmptyString => Some cur
  | _ =>
      match fuel with
      | O => None
      | S fuel' =>
          let '(comp, rest) := take_component 63 path in
          match walk_step nd cur comp with
          | Some cur' => resolve_loop fuel' nd cur' rest
          | None => None
          end
      end
  end.

Section vfs.
Context {St : Type} `{Allocator St} `{Devices St}.

Definition set_nodes (f : (Z -> VFSNode) -> Z -> VFSNode) (s : vfs St) : vfs St :=
  Vfs (v_st s) (f (nodes s)) (next_inode s) (vfs_cwd s) (fds s).
Definition set_node (i : Z) (n : VFSNode) : vfs St -> vfs St := set_nodes <[i := n]>.
Definition set_next (n : Z) (s : vfs St) : vfs St := Vfs (v_st s) (nodes s) n (vfs_cwd s) (fds s).
Definition set_fds (f : (Z -> FDEntry) -> Z -> FDEntry) (s : vfs St) : vfs St :=
  Vfs (v_st s) (nodes s) (next_inode s) (vfs_cwd s) (f (fds s)).
Definition set_fd (i : Z) (e : FDEntry) : vfs St -> vfs St := set_fds <[i := e]>.

Definition vfs_set_cwd (inode : Z) : M (vfs St) unit :=
  modify (fun s => Vfs (v_st s) (nodes s) (next_inode s) inode (fds s)).

(** Inodes are returned as int: -1 is the error. *)
Definition resolve (s : vfs St) (path : string) : Z :=
  match path with
  | EmptyString => s32 (vfs_cwd s)
  | String c p =>
      let '(cur, p) := if Ascii.eqb c slash then (VFS_INODE_ROOT, p) else (vfs_cwd s, path) in
      match resolve_loop (String.length p) (nodes s) cur p with
      | Some i => s32 i
      | None => -1
      end
  end.
Definition vfs_resolve (path : string) : M (vfs St) Z := gets (fun s => resolve s path).

(** The parent's inode and the last name. *)
Definition resolve_parent (path : string) : M (vfs St) (Z * string) :=
  match split_last path with
  | None => cwd ← gets vfs_cwd; mret (s32 cwd, name63 path)
  | Some (before, leaf) =>
      let parent_path := match before with EmptyString => "/"%string | _ => String.substring 0 255 before end in
      p ← vfs_resolve parent_path;
      mret (p, name63 leaf)
  end.

(** A fresh node; [None] when the parent is no directory or the table is full. *)
Definition new_node (parent : Z) (mk : Z -> VFSNode) : M (vfs St) (option Z) :=
  s ← get;
  match node_at (nodes s) (u32 parent) with
  | None => mret None
  | Some pi =>
      if negb (bool_decide (n_type (nodes s pi) = VFS_DIR)) then mret None
      else
        match scan 256 0 (fun i => negb (n_used (nodes s i))) with
        | None => mret None
        | Some i =>
            let inode := next_inode s in
            modify (set_next (u32 (inode + 1)));;
            modify (set_node i (mk inode));;
            mret (Some inode)
        end
  end.

Definition plain_node (t : VFSNodeType) (parent : Z) (name : string) (inode : Z) : VFSNode :=
  Build_VFSNode true t inode (u32 parent) 0 0 name 0 0 0.

Definition vfs_mkdir (path : string) : M (vfs St) Z :=
  r ← vfs_resolve path;
  if 0 <=? r then mret (-1)
  else
    '(parent, leaf) ← resolve_parent path;
    if (parent <? 0) || String.eqb leaf "" then mret (-1)
    else
      n ← new_node parent (plain_node VFS_DIR parent leaf);
      mret (match n with Some _ => 0 | None => -1 end).

(** Major and minor are 16-bit. *)
Definition vfs_mknod_chr (path : string) (major minor : Z) : M (vfs St) Z :=
  r ← vfs_resolve path;
  if 0 <=? r then mret (-1)
  else
    '(parent, leaf) ← resolve_parent path;
    if (parent <? 0) || String.eqb leaf "" then mret (-1)
    else
      n ← new_node parent (fun inode =>
            Build_VFSNode true VFS_CHR inode (u32 parent) (u16 major) (u16 minor) leaf 0 0 0);
      mret (match n with Some _ => 0 | None => -1 end).

Definition vfs_init : M (vfs St) unit :=
  modify (set_nodes (fun _ _ => node_zero));;
  modify (set_fds (fun _ _ => fd_zero));;
  modify (set_next 1);;
  modify (set_node 0 (Build_VFSNode true VFS_DIR VFS_INODE_ROOT VFS_INODE_ROOT 0 0 "/" 0 0 0));;
  vfs_mkdir "/bin";;
  vfs_mkdir "/etc";;
  vfs_mkdir "/tmp";;
  vfs_mkdir "/home";;
  vfs_mkdir "/usr";;
  vfs_mkdir "/usr/bin";;
  vfs_mkdir "/var";;
  vfs_mkdir "/var/cache";;
  mret tt.

(** ** Descriptors *)

Definition fd_ok (s : vfs St) (fd : Z) : bool := (0 <=? fd) && (fd <? VFS_MAX_FDS) && f_open (fds s fd).
Definition free_fd (s : vfs St) : option Z := scan 61 3 (fun i => negb (f_open (fds s i))).
Definition fd_node (s : vfs St) (fd : Z) : option Z := node_at (nodes s) (f_inode (fds s fd)).
Definition openable (n : VFSNode) : bool :=
  bool_decide (n_type n = VFS_FILE) || bool_decide (n_type n = VFS_CHR).

(** What vfs_open() finds or creates at [path]: an inode or an error. *)
Definition open_inode (path : string) (flags : Z) : M (vfs St) (Z + Z) :=
  found ← (if String.prefix "/dev/shm/" path then
             idx ← zoom (d_shm_open (String.substring 9 (String.length path) path) flags);
             if idx <? 0 then mret (inr idx)
             else
               inode ← vfs_resolve path;
               if 0 <=? inode then mret (inl inode)
               else if negb (has_flag flags VFS_O_CREATE) then mret (inr (-1))
               else
                 r ← vfs_mknod_chr path DEV_SHM_MAJOR idx;
                 if r <? 0 then mret (inr (-1)) else inode ← vfs_resolve path; mret (inl inode)
           else inode ← vfs_resolve path; mret (inl inode));
  match found with
  | inr e => mret (inr e)
  | inl inode =>
      if 0 <=? inode then mret (inl inode)
      else if negb (has_flag flags VFS_O_CREATE) then mret (inr (-1))
      else
        '(parent, leaf) ← resolve_parent path;
        if parent <? 0 then mret (inr (-1))
        else
          n ← new_node parent (plain_node VFS_FILE parent leaf);
          mret (match n with Some inode => inl (s32 inode) | None => inr (-1) end)
  end.

Definition vfs_open (path : string) (flags : Z) : M (vfs St) Z :=
  s ← get;
  match free_fd s with
  | None => mret (-1)
  | Some fd =>
      r ← open_inode path flags;
      match r with
      | inr e => mret e
      | inl inode =>
          s ← get;
          match node_at (nodes s) (u32 inode) with
          | None => mret (-1)
          | Some i =>
              if negb (openable (nodes s i)) then mret (-1)
              else
                (if has_flag flags VFS_O_TRUNC && bool_decide (n_type (nodes s i) = VFS_FILE) then
                   zoom (a_free (n_data (nodes s i)));;
                   modify (set_node i (with_data 0 0 0 (nodes s i)))
                 else mret tt);;
                s ← get;
                let off := if has_flag flags VFS_O_WRITE && negb (has_flag flags VFS_O_TRUNC)
                           then n_size (nodes s i) else 0 in
                modify (set_fd fd (Build_FDEntry true (u32 inode) off flags));;
                mret fd
          end
      end
  end.

Definition vfs_open_std (path : string) (flags target_fd : Z) : M (vfs St) Z :=
  s ← get;
  if (target_fd <? 0) || (3 <=? target_fd) then mret (-1)
  else if f_open (fds s target_fd) then mret (-1)
  else
    inode ← vfs_resolve path;
    if inode <? 0 then mret (-1)
    else
      match node_at (nodes s) (u32 inode) with
      | None => mret (-1)
      | Some i =>
          if negb (openable (nodes s i)) then mret (-1)
          else modify (set_fd target_fd (Build_FDEntry true (u32 inode) 0 flags));; mret target_fd
      end.

Definition vfs_close (fd : Z) : M (vfs St) Z :=
  s ← get;
  if negb (fd_ok s fd) then mret (-1)
  else
    let e := fds s fd in
    modify (set_fd fd (Build_FDEntry false (f_inode e) (f_offset e) (f_flags e)));; mret 0.

Definition vfs_dup (oldfd : Z) : M (vfs St) Z :=
  s ← get;
  if negb (fd_ok s oldfd) then mret (- EBADF)
  else
    match free_fd s with
    | None => mret (- EMFILE)
    | Some newfd => modify (set_fd newfd (fds s oldfd));; mret newfd
    end.
Definition vfs_dup2 (oldfd newfd : Z) : M (vfs St) Z :=
  s ← get;
  if negb (fd_ok s oldfd) then mret (- EBADF)
  else if (newfd <? 0) || (VFS_MAX_FDS <=? newfd) then mret (- EBADF)
  else if oldfd =? newfd then mret newfd
  else modify (set_fd newfd (fds s oldfd));; mret newfd.

(** ** Data *)

(** A length of 64 bits, signed in the call and unsigned in the comparison. *)
Definition vfs_ftruncate (fd length : Z) : M (vfs St) Z :=
  s ← get;
  if negb (fd_ok s fd) then mret (- EBADF)
  else
    match fd_node s fd with
    | None => mret (- EBADF)
    | Some i =>
        let n := nodes s i in
        match n_type n with
        | VFS_CHR =>
            if n_major n =? DEV_SHM_MAJOR then zoom (d_shm_truncate (n_minor n) (u64 length)) else mret (- EINVAL)
        | VFS_FILE =>
            if length <? 0 then mret (- EINVAL)
            else if n_capacity n <? length then
              let new_cap := ALIGN_UP (u64 (length + 256)) PAGE_SIZE in
              new_data ← zoom (a_realloc (n_data n) new_cap);
              if new_data =? 0 then mret (- ENOMEM)
              else modify (set_node i (with_data new_data length new_cap n));; mret 0
            else modify (set_node i (with_data (n_data n) length (n_capacity n) n));; mret 0
        | VFS_DIR => mret (- EINVAL)
        end
    end.

(** The result and the bytes read. *)
Definition vfs_read (fd len : Z) : M (vfs St) (Z * list Z) :=
  s ← get;
  if negb (fd_ok s fd) then mret (-1, [])
  else
    let e := fds s fd in
    if negb (has_flag (f_flags e) VFS_O_READ) then mret (-1, [])
    else
      match fd_node s fd with
      | None => mret (-1, [])
      | Some i =>
          let n := nodes s i in
          if bool_decide (n_type n = VFS_CHR) then
            '(r, bs, off) ← zoom (d_read (n_major n) (n_minor n) len (f_offset e));
            modify (set_fd fd (with_offset off e));;
            mret (r, bs)
          else
            let avail := u64 (n_size n - f_offset e) in
            if avail =? 0 then mret (0, [])
            else
              let to_read := if len <? avail then len else avail in
              let bs := load_bytes (a_mem (v_st s)) (n_data n + f_offset e) (Z.to_nat to_read) in
              modify (set_fd fd (with_offset (u64 (f_offset e + to_read)) e));;
              mret (s32 to_read, bs)
      end.

Definition vfs_write (fd : Z) (buf : list Z) : M (vfs St) Z :=
  s ← get;
  if negb (fd_ok s fd) then mret (-1)
  else
    let e := fds s fd in
    let len := Z.of_nat (List.length buf) in
    if negb (has_flag (f_flags e) VFS_O_WRITE) then mret (-1)
    else
      match fd_node s fd with
      | None => mret (-1)
      | Some i =>
          let n := nodes s i in
          match n_type n with
          | VFS_CHR =>
              '(r, off) ← zoom (d_write (n_major n) (n_minor n) buf (f_offset e));
              modify (set_fd fd (with_offset off e));;
              mret r
          | VFS_DIR => mret (-1)
          | VFS_FILE =>
              let new_end := u64 (f_offset e + len) in
              grown ← (if n_capacity n <? new_end then
                         let new_cap := u64 (new_end + 256) in
                         new_data ← zoom (a_realloc (n_data n) new_cap);
                         if new_data =? 0 then mret None
                         else
                           modify (set_node i (with_data new_data (n_size n) new_cap n));;
                           mret (Some new_data)
                       else mret (Some (n_data n)));
              match grown with
              | None => mret (-1)
              | Some data =>
                  zoom (modify (fun m => a_put (store_bytes (a_mem m) (data + f_offset e) buf) m));;
                  modify (set_fd fd (with_offset new_end e));;
                  s ← get;
                  let n := nodes s i in
                  modify (set_node i (if n_size n <? new_end then with_data (n_data n) new_end (n_capacity n) n else n));;
                  mret (s32 len)
              end
          end
      end.

(** ** Directories *)

Definition vfs_unlink (path : string) : M (vfs St) Z :=
  inode ← vfs_resolve path;
  s ← get;
  if inode <? 0 then mret (-1)
  else if u32 inode =? VFS_INODE_ROOT then mret (-1)
  else
    match node_at (nodes s) (u32 inode) with
    | None => mret (-1)
    | Some i =>
        let n := nodes s i in
        let busy := bool_decide (n_type n = VFS_DIR) &&
          match scan 256 0 (fun k => n_used (nodes s k) && (n_parent (nodes s k) =? u32 inode)) with
          | Some _ => true
          | None => false
          end in
        if busy then mret (-1)
        else
          (if bool_decide (n_type n = VFS_CHR) && (n_major n =? DEV_SHM_MAJOR)
           then zoom (d_shm_destroy (n_minor n)) else mret tt);;
          zoom (a_free (n_data n));;
          modify (set_node i node_zero);;
          mret 0
    end.

Definition listed (s : vfs St) (dir i : Z) : bool :=
  n_used (nodes s i) && (n_parent (nodes s i) =? dir) && negb (n_inode (nodes s i) =? dir).
Definition shown_name (n : VFSNode) : string :=
  if bool_decide (n_type n = VFS_DIR) && (Z.of_nat (String.length (n_name n)) <? VFS_NAME_MAX - 1)
  then (n_name n ++ "/")%string else n_name n.

(** The number of entries, and their names. *)
Definition vfs_readdir (path : string) (max : Z) : M (vfs St) (Z * list string) :=
  inode ← vfs_resolve path;
  s ← get;
  if inode <? 0 then mret (-1, [])
  else
    match node_at (nodes s) (u32 inode) with
    | None => mret (-1, [])
    | Some d =>
        if negb (bool_decide (n_type (nodes s d) = VFS_DIR)) then mret (-1, [])
        else
          let names := (fun i => shown_name (nodes s i)) <$>
            take (Z.to_nat max) (base.filter (fun i => listed s (u32 inode) i = true) (seqZ 0 VFS_MAX_NODES)) in
          mret (Z.of_nat (List.length names), names)
    end.

(** The bytes of a name. *)
Definition name_bytes (s : string) : list Z := (fun c => Z.of_nat (Ascii.nat_of_ascii c)) <$> String.list_ascii_of_string s.

(** A directory record, padded to a multiple of 8. *)
Definition dirent (ino next_off type : Z) (name : string) : list Z :=
  let reclen := Z.land (19 + Z.of_nat (String.length name) + 1 + 7) (Z.lnot 7) in
  let bs := le_bytes 8 ino ++ le_bytes 8 next_off ++ le_bytes 2 reclen ++ le_bytes 1 type ++ name_bytes name in
  bs ++ replicate (Z.to_nat reclen - List.length bs) 0.
Definition dirent_type (n : VFSNode) : Z :=
  match n_type n with VFS_DIR => 4 | VFS_CHR => 2 | VFS_FILE => 8 end.

Definition bump_offset (fd : Z) (s : vfs St) : vfs St :=
  set_fd fd (with_offset (u64 (f_offset (fds s fd) + 1)) (fds s fd)) s.

(** The loop over the nodes: [passed] entries were skipped, [buf] is written. *)
Definition dents_step (fd count node_offset : Z) (dir : VFSNode) (i : Z) (st : Z * list Z) :
    M (vfs St) (Z * list Z * bool) :=
  let '(passed, buf) := st in
  s ← get;
  if negb (listed s (n_inode dir) i) then mret (passed, buf, false)
  else if passed <? node_offset then mret (passed + 1, buf, false)
  else
    let n := nodes s i in
    let rec := dirent (n_inode n) (f_offset (fds s fd) + 1) (dirent_type n) (n_name n) in
    if count <? Z.of_nat (List.length buf) + Z.of_nat (List.length rec) then mret (passed, buf, true)
    else modify (bump_offset fd);; mret (passed + 1, buf ++ rec, false).
Fixpoint dents_loop (k : nat) (fd count node_offset : Z) (dir : VFSNode) (i : Z) (st : Z * list Z) : M (vfs St) (list Z) :=
  match k with
  | O => mret st.2
  | S k' =>
      '(passed, buf, stop) ← dents_step fd count node_offset dir i st;
      if stop : bool then mret buf else dents_loop k' fd count node_offset dir (i + 1) (passed, buf)
  end.

(** The records "." and "..": [None] when there is no room. *)
Definition dot_entry (fd count at_index ino : Z) (name : string) (start : Z) (buf : list Z) :
    M (vfs St) (option (Z * list Z)) :=
  if negb (start =? at_index) then mret (Some (start, buf))
  else
    let rec := dirent ino (at_index + 1) 4 name in
    if count <? Z.of_nat (List.length buf) + Z.of_nat (List.length rec) then mret None
    else modify (bump_offset fd);; mret (Some (at_index + 1, buf ++ rec)).

Definition vfs_getdents64 (fd count : Z) : M (vfs St) (Z * list Z) :=
  s ← get;
  if negb (fd_ok s fd) then mret (- EBADF, [])
  else
    match fd_node s fd with
    | None => mret (- ENOTDIR, [])
    | Some d =>
        let dir := nodes s d in
        if negb (bool_decide (n_type dir = VFS_DIR)) then mret (- ENOTDIR, [])
        else
          let start := f_offset (fds s fd) in
          a ← dot_entry fd count 0 (n_inode dir) "." start [];
          match a with
          | None => mret (0, [])
          | Some (start, buf) =>
              b ← dot_entry fd count 1 (n_parent dir) ".." start buf;
              match b with
              | None => mret (s32 (Z.of_nat (List.length buf)), buf)
              | Some (start, buf) =>
                  buf ← dents_loop 256 fd count (u64 (start - 2)) dir 0 (0, buf);
                  mret (s32 (Z.of_nat (List.length buf)), buf)
              end
          end
    end.

(** The result, the type and the size. *)
Definition vfs_stat (path : string) : M (vfs St) (Z * VFSNodeType * Z) :=
  inode ← vfs_resolve path;
  s ← get;
  if inode <? 0 then mret (-1, VFS_FILE, 0)
  else
    match node_at (nodes s) (u32 inode) with
    | None => mret (-1, VFS_FILE, 0)
    | Some i => mret (0, n_type (nodes s i), n_size (nodes s i))
    end.

(** The result and the bytes stored at [arg]. *)
Definition vfs_ioctl (fd request arg : Z) : M (vfs St) (Z * list Z) :=
  s ← get;
  if negb (fd_ok s fd) then mret (- EBADF, [])
  else
    match fd_node s fd with
    | None => mret (- ENOTTY, [])
    | Some i =>
        let n := nodes s i in
        if bool_decide (n_type n = VFS_CHR) then zoom (d_ioctl (n_major n) (n_minor n) request arg)
        else mret (- ENOTTY, [])
    end.

Definition vfs_node_from_fd (fd : Z) : M (vfs St) (option VFSNode) :=
  s ← get;
  mret (if negb (fd_ok s fd) then None else option_map (nodes s) (fd_node s fd)).

(** The path is built backwards in a buffer of 1024: [pos] is the index of its
    first character. A path that does not fit is read from before the buffer. *)
Fixpoint getcwd_loop (fuel : nat) (nd : Z -> VFSNode) (cur pos : Z) (path : string) : outcome string :=
  if cur =? VFS_INODE_ROOT then Done path
  else
    match fuel with
    | O => OutOfFuel
    | S fuel' =>
        match node_at nd cur with
        | None => Done path
        | Some i =>
            let n := nd i in
            let pos := pos - Z.of_nat (String.length (n_name n)) in
            if pos <? 1 then Undefined
            else getcwd_loop fuel' nd (n_parent n) (pos - 1) (String slash (n_name n ++ path))
        end
    end.
(** What is stored in an array of [size] bytes, which must have room for it. *)
Definition store_in (size : Z) (bs : list Z) : M (vfs St) (option (list Z)) :=
  if size <? Z.of_nat (length bs) then ub else mret (Some bs).
(** The bytes stored from [buf] on, in an array of the caller of which [size]
    bytes are left there; [None] is the NULL result. At the root strncpy() stores
    one byte more than [bufsz]. *)
Definition vfs_getcwd (size bufsz : Z) : M (vfs St) (option (list Z)) :=
  s ← get;
  if bufsz =? 0 then mret None
  else if vfs_cwd s =? VFS_INODE_ROOT then store_in size (strncpy_bytes (bytes_of "/") (Z.to_nat bufsz))
  else
    path ← lift (getcwd_loop 1024 (nodes s) (vfs_cwd s) 1023 "");
    let n := Z.to_nat (bufsz - 1) in
    store_in size (take n (strncpy_bytes (bytes_of (if String.eqb path "" then "/" else path)) n) ++ [0]).
(** The text in such an array. *)
Fixpoint c_text (bs : list Z) : list Z :=
  match bs with [] => [] | b :: bs' => if b =? 0 then [] else b :: c_text bs' end.

Definition vfs_lseek (fd offset whence : Z) : M (vfs St) Z :=
  s ← get;
  if negb (fd_ok s fd) then mret (- EBADF)
  else
    match fd_node s fd with
    | None => mret (- EBADF)
    | Some i =>
        let n := nodes s i in
        let e := fds s fd in
        if bool_decide (n_type n = VFS_CHR) then mret 0
        else
          let seek new_offset :=
            if new_offset <? 0 then mret (- EINVAL)
            else modify (set_fd fd (with_offset (u64 new_offset) e));; mret new_offset in
          if whence =? 0 then seek offset
          else if whence =? 1 then seek (s64 (s64 (f_offset e) + offset))
          else if whence =? 2 then seek (s64 (s64 (n_size n) + offset))
          else mret (- EINVAL)
    end.

Definition vfs_fcntl (fd cmd arg : Z) : M (vfs St) Z :=
  s ← get;
  if negb (fd_ok s fd) then mret (- EBADF)
  else
    let e := fds s fd in
    if cmd =? 3 then mret (f_flags e)
    else if cmd =? 4 then modify (set_fd fd (Build_FDEntry true (f_inode e) (f_offset e) (s32 arg)));; mret 0
    else mret (- EINVAL).
End vfs.
