(* ===== verification/Devfs.v ===== *)
(** * Device files (src/src/fs/devfs.c)

    The kernel state that the devices and the file data live in, the device
    dispatch, and the tree of /dev. *)

From S2P Require Import Prelude Pmm Mem Strings Vmm Heap Cpu Input Console Shm Vfs.

(** ** The kernel state *)

(** The heap owns the frames and the memory, the input drivers the ports. *)
Record kstate := Kernel {
  k_heap : heap;
  k_objs : Z -> ShmObject;
  k_input : input;
  k_screen : screen
}.

#[export] Instance k_heap_lens : Lens kstate heap :=
  {| view := k_heap; over h k := Kernel h (k_objs k) (k_input k) (k_screen k) |}.
#[export] Instance k_heap_laws : LensLaws kstate heap.
Proof. split; [done|by intros []|done]. Qed.
#[export] Instance k_shm_lens : Lens kstate shm :=
  {| view k := Shm (hp_vm (k_heap k)) (k_objs k);
     over s k := Kernel (over (sh_vm s) (k_heap k)) (shm_objs s) (k_input k) (k_screen k) |}.
#[export] Instance k_shm_laws : LensLaws kstate shm.
Proof. split; [by intros [] []|by intros [[] ? ? ?]|done]. Qed.
#[export] Instance k_input_lens : Lens kstate input :=
  {| view := k_input; over i k := Kernel (k_heap k) (k_objs k) i (k_screen k) |}.
#[export] Instance k_input_laws : LensLaws kstate input.
Proof. split; [done|by intros []|done]. Qed.
#[export] Instance k_ports_lens : Lens kstate ports :=
  {| view k := c_ports (i_cpu (k_input k));
     over p k := Kernel (k_heap k) (k_objs k) (over (over p (i_cpu (k_input k))) (k_input k)) (k_screen k) |}.
(** The screen shares the ports and the frames. *)
#[export] Instance k_screen_lens : Lens kstate screen :=
  {| view k := over (vm_pmm (hp_vm (k_heap k))) (over (c_ports (i_cpu (k_input k))) (k_screen k));
     over s k := Kernel (over (over (sc_pmm s) (hp_vm (k_heap k))) (k_heap k)) (k_objs k)
                        (over (over (v_ports (sc_vga s)) (i_cpu (k_input k))) (k_input k)) s |}.

(** An allocator inside a larger state is an allocator of that state. *)
Section lift.
Context {S T : Type} `{LensLaws S T} `{Allocator T}.

Definition zoom_allocator : Allocator S := {|
  a_mem s := a_mem (view s);
  a_put m s := over (a_put m (view s)) s;
  a_malloc n := zoom (a_malloc n);
  a_free p := zoom (a_free p);
  a_realloc p n := zoom (a_realloc p n) |}.

Lemma zoom_same {A} (m : M T A) (s : S) a :
  m (view s) = Done (a, view s) -> zoom m s = Done (a, s).
Proof. intros Hm. unfold zoom. by rewrite Hm, over_view. Qed.

Definition zoom_allocator_laws `{!AllocatorLaws T} : @AllocatorLaws S zoom_allocator.
Proof.
  refine {| a_inv L s := a_inv L (view s : T) |}; cbn [a_mem a_put a_malloc a_free a_realloc zoom_allocator].
  - intros L s p n. apply a_range.
  - intros L s p q n k. apply a_disj.
  - intros L s. apply a_mem_ok.
  - intros m s. by rewrite view_over, a_mem_put.
  - intros L s p n m' HL Hp Hok Hm. rewrite view_over. by eapply a_write.
  - intros L s n HL Hn. apply wp_zoom. eapply wp_mono; [by apply a_malloc_law|].
    intros p t. by rewrite view_over.
  - intros s. by apply zoom_same, a_malloc_zero.
  - intros L s p n HL Hp. apply wp_zoom. eapply wp_mono; [by eapply a_free_law|].
    intros [] t. by rewrite view_over.
  - intros s. by apply zoom_same, a_free_null.
  - intros s n. unfold zoom. by rewrite a_realloc_null.
  - intros L s p c n HL Hp Hn. apply wp_zoom. eapply wp_mono; [by eapply a_realloc_law|].
    intros q t. by rewrite view_over.
Defined.
End lift.

#[export] Instance kernel_allocator : Allocator kstate := zoom_allocator (T := heap).
Definition kernel_allocator_laws (R : gset Z) : AllocatorLaws kstate :=
  zoom_allocator_laws (H1 := heap_allocator) (AllocatorLaws0 := heap_allocator_laws R).

(** ** Reads and writes *)

(** [fuel] bounds the polls of the serial line's status. *)
Section devfs.
Context (fuel : nat).

Definition kbd_fuel : nat := Z.to_nat KBD_BUF_SIZE + 1.
Definition mouse_fuel : nat := Z.to_nat MOUSE_QUEUE + 1.

Definition keyboard_turn (len : Z) (buf : list Z) : M kstate (list Z + Z * list Z) :=
  let count := Z.of_nat (List.length buf) in
  if negb (count <? len) then mret (inr (count, buf))
  else
    val ← zoom keyboard_poll_raw;
    mret (if val <? 0 then inr (count, buf) else inl (buf ++ [u8 val])).
Definition read_keyboard (len : Z) : M kstate (Z * list Z) := iter kbd_fuel (keyboard_turn len) [].

(** struct pkt: two signed bytes and the buttons. *)
Definition packet_bytes (p : packet) : list Z := [u8 (p_dx p); u8 (p_dy p); u8 (p_buttons p)].
Definition packets_turn (len : Z) (buf : list Z) : M kstate (list Z + Z * list Z) :=
  let count := Z.of_nat (List.length buf) in
  if negb (count + 3 <=? len) then mret (inr (count, buf))
  else
    p ← zoom mouse_poll;
    mret (match p with None => inr (count, buf) | Some p => inl (buf ++ packet_bytes p) end).
Definition read_mouse (len : Z) : M kstate (Z * list Z) :=
  if len <? 3 then mret (- EINVAL, []) else iter mouse_fuel (packets_turn len) [].

Definition read_serial (len : Z) : M kstate (Z * list Z) :=
  iter (Z.to_nat len + 1) (fun buf =>
    let count := Z.of_nat (List.length buf) in
    if negb (count <? len) then mret (inr (s32 count, buf))
    else
      r ← zoom serial_received;
      if negb (nonzero r) then mret (inr (s32 count, buf))
      else c ← zoom (serial_getchar fuel); mret (inl (buf ++ [c]))) [].

(** The result, the bytes and the offset afterwards; the callers pass the
    numbers of a node they know to be a character device. *)
Definition devfs_chr_read (major minor len off : Z) : M kstate (Z * list Z * Z) :=
  if major =? DEV_NULL_MAJOR then mret (0, [], off)
  else if major =? DEV_FB_MAJOR then mret (0, [], off)
  else if major =? DEV_SHM_MAJOR then zoom (shm_read minor len off)
  else if major =? DEV_KEYBOARD_MAJOR then '(r, bs) ← read_keyboard len; mret (r, bs, off)
  else if major =? DEV_MOUSE_MAJOR then '(r, bs) ← read_mouse len; mret (r, bs, off)
  else if major =? DEV_SERIAL_MAJOR then '(r, bs) ← read_serial len; mret (r, bs, off)
  else mret (- ENODEV, [], off).

Definition devfs_chr_write (major minor : Z) (buf : list Z) (off : Z) : M kstate (Z * Z) :=
  let len := Z.of_nat (List.length buf) in
  if major =? DEV_NULL_MAJOR then mret (s32 len, off)
  else if major =? DEV_FB_MAJOR then mret (- EINVAL, off)
  else if major =? DEV_SHM_MAJOR then zoom (shm_write minor buf off)
  else if major =? DEV_SERIAL_MAJOR then zoom (serial_puts fuel buf);; mret (s32 len, off)
  else mret (- ENODEV, off).

(** ** The framebuffer's ioctls *)

Definition FBIOGET_VSCREENINFO : Z := 0x4600.
Definition FBIOGET_FSCREENINFO : Z := 0x4602.

Definition fb_fix_screeninfo (smem_start smem_len type visual line_length : Z) : list Z :=
  [86; 78; 76; 70; 66] ++ replicate 11 0 ++ le_bytes 8 smem_start ++ le_bytes 4 smem_len ++ le_bytes 4 type ++
  le_bytes 4 0 ++ le_bytes 4 visual ++ replicate 6 0 ++ le_bytes 4 line_length ++ replicate 20 0.
Definition fb_var_screeninfo (w h bpp red_offset green_offset length : Z) : list Z :=
  le_bytes 4 w ++ le_bytes 4 h ++ le_bytes 4 w ++ le_bytes 4 h ++ replicate 8 0 ++ le_bytes 4 bpp ++ le_bytes 4 0 ++
  le_bytes 4 red_offset ++ le_bytes 4 length ++ le_bytes 4 0 ++ le_bytes 4 green_offset ++ le_bytes 4 length ++
  le_bytes 4 0 ++ le_bytes 4 0 ++ le_bytes 4 length ++ le_bytes 4 0 ++ replicate 92 0.

(** Both structures are cleared before the mode is asked for. *)
Definition devfs_chr_ioctl (major minor request arg : Z) : M kstate (Z * list Z) :=
  if arg =? 0 then mret (- EINVAL, [])
  else if negb (major =? DEV_FB_MAJOR) then mret (- ENOTTY, [])
  else if request =? FBIOGET_FSCREENINFO then
    r ← zoom fb_get_mmap_region;
    mret (match r with
          | None => (- ENODEV, fb_fix_screeninfo 0 0 0 0 0)
          | Some (p0, ln, ll, w, h, bpp) =>
              (0, fb_fix_screeninfo p0 (if 0xFFFFFFFF <? ln then 0xFFFFFFFF else u32 ln) 1 2 ll)
          end)
  else if request =? FBIOGET_VSCREENINFO then
    r ← zoom fb_get_mmap_region;
    mret (match r with
          | None => (- ENODEV, fb_var_screeninfo 0 0 0 0 0 0)
          | Some (p0, ln, ll, w, h, bpp) => (0, fb_var_screeninfo w h bpp 16 8 8)
          end)
  else mret (- ENOTTY, []).

Definition kernel_devices : Devices kstate := {|
  d_shm_open name flags := zoom (shm_open_object name flags);
  d_shm_truncate idx len := zoom (shm_truncate idx len);
  d_shm_destroy idx := zoom (shm_destroy idx);
  d_read := devfs_chr_read;
  d_write := devfs_chr_write;
  d_ioctl := devfs_chr_ioctl |}.
End devfs.

Definition devfs_init {St} : M (vfs St) unit :=
  r ← vfs_resolve "/dev";
  (if r <? 0 then vfs_mkdir "/dev" else mret 0);;
  vfs_mkdir "/dev/shm";;
  vfs_mkdir "/dev/input";;
  vfs_mknod_chr "/dev/fb0" DEV_FB_MAJOR DEV_FB0_MINOR;;
  vfs_mknod_chr "/dev/null" DEV_NULL_MAJOR DEV_NULL_MINOR;;
  vfs_mknod_chr "/dev/input/keyboard" DEV_KEYBOARD_MAJOR 0;;
  vfs_mknod_chr "/dev/input/mouse" DEV_MOUSE_MAJOR 0;;
  vfs_mknod_chr "/dev/ttyS0" DEV_SERIAL_MAJOR 0;;
  mret tt.

(** ** Draining a queue into a buffer *)

Section drain.
Context {St X : Type} (w : Z) (enc : X -> list Z) (len : Z).
Context (R : list X -> St -> Prop) (body : list Z -> M St (list Z + Z * list Z)).
Hypothesis Hw : 0 < w.
Hypothesis Henc : forall x, Z.of_nat (List.length (enc x)) = w.

Abbreviation size buf := (Z.of_nat (List.length (buf : list Z))) (only parsing).
Hypothesis Hfull : forall buf k, len < size buf + w -> body buf k = Done (inr (size buf, buf), k).
Hypothesis Hempty : forall buf k, size buf + w <= len -> R [] k -> body buf k = Done (inr (size buf, buf), k).
Hypothesis Hpop : forall buf x l k, size buf + w <= len -> R (x :: l) k ->
  exists k', body buf k = Done (inl (buf ++ enc x), k') /\ R l k'.

(** As many elements as fit, and the rest stays queued. *)
Lemma drain_ok fuel l buf k :
  R l k -> (List.length l < fuel)%nat -> size buf <= len ->
  exists n k', n = Z.to_nat (Z.min (Z.of_nat (List.length l)) ((len - size buf) / w)) /\
    let out := buf ++ concat (enc <$> take n l) in
    iter fuel body buf k = Done ((size out, out), k') /\ R (drop n l) k'.
Proof using All.
  revert l buf k. induction fuel as [|fuel IH]; intros l buf k HR Hf Hb; [lia|].
  assert (len < size buf + w -> (len - size buf) / w = 0) as Hz by (intros; apply Z.div_small; lia).
  cbn [iter]. destruct (decide (len < size buf + w)) as [Hlt|Hge].
  - exists O, k. rewrite Hz by done. split; [lia|]. cbn. rewrite app_nil_r, drop_0.
    rewrite (bind_Done _ _ _ _ _ (Hfull buf k Hlt)). done.
  - destruct l as [|x l].
    + exists O, k. cbn [List.length]. split; [assert (0 <= (len - size buf) / w) by (apply Z.div_pos; lia); lia|].
      cbn. rewrite app_nil_r. rewrite (bind_Done _ _ _ _ _ (Hempty buf k ltac:(lia) HR)). done.
    + destruct (Hpop buf x l k ltac:(lia) HR) as (k1 & Hb1 & HR1).
      assert (size (buf ++ enc x) = size buf + w) as Hsz by (rewrite length_app; rewrite <- (Henc x); lia).
      destruct (IH l (buf ++ enc x) k1 HR1) as (n & k' & Hn & Hrun & HR'); [cbn in Hf; lia|lia|].
      exists (S n), k'. rewrite Hsz in Hn. cbn [List.length] in *. split.
      * replace (len - size buf) with (len - (size buf + w) + 1 * w) by lia. rewrite Z.div_add by lia.
        assert (0 <= (len - (size buf + w)) / w) by (apply Z.div_pos; lia). lia.
      * rewrite (bind_Done _ _ _ _ _ Hb1). cbn [take drop fmap list_fmap concat]. rewrite app_assoc. done.
Qed.
End drain.

(** Only the input drivers' queues differ. *)
Definition same_but_input (k k' : kstate) : Prop :=
  k_heap k' = k_heap k /\ k_objs k' = k_objs k /\ k_screen k' = k_screen k /\
  i_cpu (k_input k') = i_cpu (k_input k) /\ kbd_buf (k_input k') = kbd_buf (k_input k).

Definition kbd_queue (k0 : kstate) (l : list Z) (k : kstate) : Prop :=
  ring_rel KBD_BUF_SIZE l (kbd_raw_buf (k_input k)) /\ Forall (fun c => 0 <= c < 256) l /\
  same_but_input k0 k /\ s_q (k_input k) = s_q (k_input k0).
Definition mouse_queue (k0 : kstate) (l : list packet) (k : kstate) : Prop :=
  ring_rel MOUSE_QUEUE l (s_q (k_input k)) /\
  same_but_input k0 k /\ kbd_raw_buf (k_input k) = kbd_raw_buf (k_input k0).

Lemma zoom_input {A} (m : M input A) k a i :
  m (k_input k) = Done (a, i) -> zoom m k = Done (a, Kernel (k_heap k) (k_objs k) i (k_screen k)).
Proof. intros Hm. unfold zoom. cbn [view k_input_lens]. by rewrite Hm. Qed.

Lemma keyboard_drains k0 len l k : kbd_queue k0 l k -> 0 <= len ->
  exists n k', n = Z.to_nat (Z.min (Z.of_nat (List.length l)) len) /\
    read_keyboard len k = Done ((Z.of_nat n, take n l), k') /\ kbd_queue k0 (drop n l) k'.
Proof.
  intros HR Hlen. pose proof (ring_length _ _ _ (proj1 HR)) as Hl.
  edestruct (drain_ok 1 (fun c => [c]) len (kbd_queue k0) (keyboard_turn len)) with
    (fuel := kbd_fuel) (l := l) (buf := @nil Z) (k := k) as (n & k' & Hn & Hrun & HR').
  - lia.
  - done.
  - intros buf k1 Hb. unfold keyboard_turn. by replace (_ <? len) with false by blia.
  - intros buf k1 Hb (Hq & _). unfold keyboard_turn. replace (_ <? len) with true by blia. cbn [negb].
    assert (zoom keyboard_poll_raw k1 = Done (-1, k1)) as He.
    { apply zoom_same. unfold keyboard_poll_raw, get, mbind, M_bind. cbn [view k_input_lens].
      by rewrite (ring_pop_rel _ _ _ Hq). }
    by rewrite (bind_Done _ _ _ _ _ He).
  - intros buf c l1 k1 Hb (Hq & Hbytes & (Hs1 & Hs2 & Hs3 & Hs4 & Hs5) & Hm).
    apply Forall_cons_iff in Hbytes as [Hc Hbytes].
    destruct (ring_pop_rel _ _ _ Hq) as (b & Hpop & Hb'). unfold keyboard_turn.
    replace (_ <? len) with true by blia. cbn [negb].
    rewrite (bind_Done _ _ _ _ _ (zoom_input keyboard_poll_raw k1 c (set_kbd_raw_buf b (k_input k1)) ltac:(
      unfold keyboard_poll_raw, get, mbind, M_bind; by rewrite Hpop))).
    eexists. unfold mret, M_ret. replace (c <? 0) with false by blia. rewrite u8_small by done.
    split; [done|]. by split_and!.
  - done.
  - unfold kbd_fuel, KBD_BUF_SIZE in *. lia.
  - cbn. lia.
  - exists n, k'. cbn [app List.length Z.of_nat] in *. rewrite Z.sub_0_r, Z.div_1_r in Hn. split; [done|].
    assert (concat ((fun c => [c]) <$> take n l) = take n l) as Hcat.
    { clear. induction (take n l) as [|x xs IH]; [done|]. cbn [fmap list_fmap concat app]. by rewrite IH. }
    rewrite Hcat in Hrun. split; [|done]. unfold read_keyboard. rewrite Hrun. rewrite length_take. do 3 f_equal. lia.
Qed.

Lemma mouse_drains k0 len l k : mouse_queue k0 l k -> 3 <= len ->
  exists n k', n = Z.to_nat (Z.min (Z.of_nat (List.length l)) (len / 3)) /\
    read_mouse len k = Done ((Z.of_nat (3 * n), concat (packet_bytes <$> take n l)), k') /\ mouse_queue k0 (drop n l) k'.
Proof.
  intros HR Hlen. pose proof (ring_length _ _ _ (proj1 HR)) as Hl.
  edestruct (drain_ok 3 packet_bytes len (mouse_queue k0) (packets_turn len)) with
    (fuel := mouse_fuel) (l := l) (buf := @nil Z) (k := k) as (n & k' & Hn & Hrun & HR').
  - lia.
  - done.
  - intros buf k1 Hb. unfold packets_turn. by replace (_ <=? len) with false by blia.
  - intros buf k1 Hb (Hq & _). unfold packets_turn. replace (_ <=? len) with true by blia. cbn [negb].
    assert (zoom mouse_poll k1 = Done (None, k1)) as He.
    { apply zoom_same. unfold mouse_poll, get, mbind, M_bind. cbn [view k_input_lens].
      by rewrite (ring_pop_rel _ _ _ Hq). }
    by rewrite (bind_Done _ _ _ _ _ He).
  - intros buf c l1 k1 Hb (Hq & (Hs1 & Hs2 & Hs3 & Hs4 & Hs5) & Hm).
    destruct (ring_pop_rel _ _ _ Hq) as (b & Hpop & Hb'). unfold packets_turn.
    replace (_ <=? len) with true by blia. cbn [negb].
    rewrite (bind_Done _ _ _ _ _ (zoom_input mouse_poll k1 (Some c)
      (set_mouse b (s_pkt (k_input k1)) (s_pkt_len (k_input k1)) (s_mouse_ready (k_input k1)) (k_input k1)) ltac:(
      unfold mouse_poll, get, mbind, M_bind; by rewrite Hpop))).
    eexists. split; [done|]. by split_and!.
  - done.
  - unfold mouse_fuel, MOUSE_QUEUE in *. lia.
  - cbn. lia.
  - exists n, k'. cbn [app List.length Z.of_nat] in *. rewrite Z.sub_0_r in Hn. split; [done|].
    split; [|done]. unfold read_mouse. replace (len <? 3) with false by blia. rewrite Hrun. do 3 f_equal.
    assert (List.length (take n l) = n) as Ht by (rewrite length_take; lia). rewrite <- Ht at 2. clear.
    induction (take n l) as [|x xs IH]; [done|]. cbn [fmap list_fmap concat]. rewrite length_app.
    cbn [packet_bytes List.length]. lia.
Qed.

Ltac dispatch :=
  unfold devfs_chr_read, DEV_NULL_MAJOR, DEV_FB_MAJOR, DEV_SHM_MAJOR, DEV_KEYBOARD_MAJOR, DEV_MOUSE_MAJOR;
  cbn [Z.eqb Pos.eqb].

(** ** Properties *)

(** Reading /dev/input/keyboard returns the oldest raw scan codes, as many as
    are queued and fit, in order; reading /dev/input/mouse returns whole
    packets of three bytes likewise, and refuses a buffer shorter than one. *)
Theorem input_devices_read fuel k codes packets len off :
  ring_rel KBD_BUF_SIZE codes (kbd_raw_buf (k_input k)) -> Forall (fun c => 0 <= c < 256) codes ->
  ring_rel MOUSE_QUEUE packets (s_q (k_input k)) -> 0 <= len ->
  (exists k' n, n = Z.to_nat (Z.min (Z.of_nat (List.length codes)) len) /\
     devfs_chr_read fuel DEV_KEYBOARD_MAJOR 0 len off k = Done ((Z.of_nat n, take n codes, off), k') /\
     same_but_input k k' /\ ring_rel KBD_BUF_SIZE (drop n codes) (kbd_raw_buf (k_input k')) /\
     s_q (k_input k') = s_q (k_input k)) /\
  (if len <? 3 then devfs_chr_read fuel DEV_MOUSE_MAJOR 0 len off k = Done ((- EINVAL, [], off), k)
   else exists k' n, n = Z.to_nat (Z.min (Z.of_nat (List.length packets)) (len / 3)) /\
     devfs_chr_read fuel DEV_MOUSE_MAJOR 0 len off k =
       Done ((Z.of_nat (3 * n), concat (packet_bytes <$> take n packets), off), k') /\
     same_but_input k k' /\ ring_rel MOUSE_QUEUE (drop n packets) (s_q (k_input k')) /\
     kbd_raw_buf (k_input k') = kbd_raw_buf (k_input k)).
Proof.
  intros Hc Hbytes Hp Hlen. split.
  - destruct (keyboard_drains k len codes k) as (n & k' & Hn & Hrun & Hq & _ & Hs & Hm); [by split_and!|done|].
    exists k', n. split; [done|]. split; [|done]. dispatch.
    by rewrite (bind_Done _ _ _ _ _ Hrun).
  - destruct (Z.ltb_spec len 3) as [Hlt|Hge].
    + dispatch. unfold read_mouse. by replace (len <? 3) with true by blia.
    + destruct (mouse_drains k len packets k) as (n & k' & Hn & Hrun & Hq & Hs & Hm); [by split_and!|done|].
      exists k', n. split; [done|]. split; [|done]. dispatch.
      by rewrite (bind_Done _ _ _ _ _ Hrun).
Qed.

(** ** Samples *)

Definition kernel_boot : kstate := Kernel heap_boot (fun _ => shm_zero) input_zero screen_zero.
(** Two scan codes and one mouse packet are queued. *)
Definition input_queued : input :=
  let r := ring_push KBD_BUF_SIZE 0x9E (ring_push KBD_BUF_SIZE 0x1E (Ring (fun _ => 0) 0 0)) in
  let q := ring_push MOUSE_QUEUE (Build_packet (-1) 5 1) (Ring (fun _ => Build_packet 0 0 0) 0 0) in
  set_mouse q (fun _ => 0) 0 true (set_kbd_raw_buf r input_zero).
Definition kernel_queued : kstate := Kernel heap_boot (fun _ => shm_zero) input_queued screen_zero.

Lemma input_queued_rel :
  ring_rel KBD_BUF_SIZE [0x1E; 0x9E] (kbd_raw_buf input_queued) /\
  ring_rel MOUSE_QUEUE [Build_packet (-1) 5 1] (s_q input_queued).
Proof.
  split.
  - exact (ring_push_rel KBD_BUF_SIZE 0x9E [0x1E] _
      (ring_push_rel KBD_BUF_SIZE 0x1E [] _ (ring_empty_rel KBD_BUF_SIZE (fun _ => 0) 0 ltac:(unfold KBD_BUF_SIZE; lia)))).
  - exact (ring_push_rel MOUSE_QUEUE (Build_packet (-1) 5 1) [] _
      (ring_empty_rel MOUSE_QUEUE (fun _ => Build_packet 0 0 0) 0 ltac:(unfold MOUSE_QUEUE; lia))).
Qed.

Lemma input_devices_read_witness :
  (exists k', devfs_chr_read 10 DEV_KEYBOARD_MAJOR 0 8 0 kernel_queued = Done ((2, [0x1E; 0x9E], 0), k')) /\
  (exists k', devfs_chr_read 10 DEV_MOUSE_MAJOR 0 8 0 kernel_queued = Done ((3, [0xFF; 5; 1], 0), k')).
Proof.
  destruct (input_devices_read 10 kernel_queued [0x1E; 0x9E] [Build_packet (-1) 5 1] 8 0) as
    [(k1 & n1 & -> & H1 & _) H2]; [exact (proj1 input_queued_rel)|by repeat constructor|exact (proj2 input_queued_rel)|lia|].
  split; [by exists k1|]. cbn [Z.ltb Z.compare Pos.compare Pos.compare_cont] in H2.
  destruct H2 as (k2 & n2 & -> & H2 & _). by exists k2.
Defined.
