(* ===== verification/Printf.v ===== *)
(** * The kernel's printf (src/src/lib/printf.c)

    The formatter works in a buffer of its own and its result goes to a caller's
    buffer or to the console, that is to the serial line and the screen, or to
    the buffer that captures the output of a shell pipeline. Arguments are the
    values the caller passes; taking one of another type is undefined, as in C. *)

From S2P Require Import Prelude Pmm Mem Strings Vmm Heap Cpu Input Console Shm Vfs Devfs.

(** ** Formatting *)

(** A variable argument: a word, or a string, which can be null. *)
Inductive arg : Type := Num (v : Z) | Str (s : option (list Z)).

(** char buf[2048] up to pos, and the arguments that are left. *)
Record formatter := Fmt { f_buf : list Z; f_args : list arg }.
Definition BUF_SIZE : Z := 2048.
Definition f_pos (s : formatter) : Z := Z.of_nat (length (f_buf s)).

(** The EMIT macro: a full buffer drops the character. *)
Definition EMIT (c : Z) : M formatter unit :=
  modify (fun s => if f_pos s <? BUF_SIZE - 1 then Fmt (f_buf s ++ [u8 c]) (f_args s) else s).
Fixpoint emit_all (cs : list Z) : M formatter unit :=
  match cs with [] => mret tt | c :: cs' => EMIT c;; emit_all cs' end.
(** Stores without that test. *)
Definition store_all (cs : list Z) : M formatter unit :=
  s ← get;
  if BUF_SIZE <? f_pos s + Z.of_nat (length cs) then ub else put (Fmt (f_buf s ++ cs) (f_args s)).

Definition va_num : M formatter Z :=
  s ← get; match f_args s with Num v :: l => put (Fmt (f_buf s) l);; mret v | _ => ub end.
Definition va_str : M formatter (option (list Z)) :=
  s ← get; match f_args s with Str p :: l => put (Fmt (f_buf s) l);; mret p | _ => ub end.

Definition dig (upper : bool) (d : Z) : Z := if d <? 10 then 48 + d else if upper then 55 + d else 87 + d.
(** The digits, last first. *)
Fixpoint digits_rev (fuel : nat) (upper : bool) (base val : Z) : list Z :=
  match fuel with
  | O => []
  | S k => if val =? 0 then [] else dig upper (val mod base) :: digits_rev k upper base (val / base)
  end.

Definition fmt_uint (val base : Z) (upper : bool) (width pad : Z) (left sign_plus negative : bool) : M formatter unit :=
  let tmp := if val =? 0 then [48] else digits_rev 64 upper base val in
  let prefix := if negative then [45] else if sign_plus then [43] else [] in
  let total := Z.of_nat (length tmp) + Z.of_nat (length prefix) in
  let padding := Z.to_nat (width - total) in
  store_all ((if negb left && (pad =? 32) then replicate padding 32 else []) ++ prefix ++
             (if negb left && (pad =? 48) then replicate padding 48 else []) ++ rev tmp ++
             (if left then replicate padding 32 else [])).

Record flags := Flags { left : bool; sign_plus : bool; pad : Z }.
Definition no_flags : flags := Flags false false 32.
Fixpoint scan_flags (fmt : list Z) (f : flags) : flags * list Z :=
  match fmt with
  | c :: fmt' =>
      if c =? 45 then scan_flags fmt' (Flags true (sign_plus f) (pad f))
      else if c =? 43 then scan_flags fmt' (Flags (left f) true (pad f))
      else if c =? 48 then scan_flags fmt' (Flags (left f) (sign_plus f) 48)
      else if c =? 35 then scan_flags fmt' f
      else (f, fmt)
  | [] => (f, [])
  end.
Fixpoint scan_digits (fmt : list Z) (width : Z) : Z * list Z :=
  match fmt with
  | c :: fmt' => if (48 <=? c) && (c <=? 57) then scan_digits fmt' (s32 (width * 10 + (c - 48))) else (width, fmt)
  | [] => (width, [])
  end.
Definition scan_width (fmt : list Z) : M formatter (Z * list Z) :=
  match fmt with
  | c :: fmt' => if c =? 42 then w ← va_num; mret (s32 w, fmt') else mret (scan_digits fmt 0)
  | [] => mret (0, [])
  end.
(** Whether the argument is 64 bits wide. *)
Definition scan_length (fmt : list Z) : bool * list Z :=
  match fmt with
  | c :: fmt' =>
      if c =? 108 then (true, match fmt' with d :: fmt'' => if d =? 108 then fmt'' else fmt' | [] => [] end)
      else if c =? 122 then (true, fmt')
      else (false, fmt)
  | [] => (false, [])
  end.

Definition null_text : list Z := bytes_of "(null)".
(** The conversion: a minus sign is for the value below zero. *)
Definition signed_arg (long : bool) (v : Z) : Z := if long then s64 v else s32 v.
Definition unsigned_arg (long : bool) (v : Z) : Z := if long then u64 v else u32 v.
Definition convert (spec : Z) (f : flags) (width : Z) (long : bool) : M formatter unit :=
  let number base upper := v ← va_num; fmt_uint (unsigned_arg long v) base upper width (pad f) (left f) false false in
  if spec =? 99 then v ← va_num; EMIT v
  else if spec =? 115 then
    p ← va_str;
    let s := match p with Some s => s | None => null_text end in
    let pad_n := replicate (Z.to_nat (width - Z.of_nat (length s))) 32 in
    (if negb (left f) then emit_all pad_n else mret tt);; emit_all s;; (if left f then emit_all pad_n else mret tt)
  else if (spec =? 100) || (spec =? 105) then
    v ← va_num;
    let v := signed_arg long v in
    fmt_uint (u64 (Z.abs v)) 10 false width (pad f) (left f) (sign_plus f) (v <? 0)
  else if spec =? 117 then number 10 false
  else if (spec =? 120) || (spec =? 88) then number 16 (spec =? 88)
  else if spec =? 111 then number 8 false
  else if spec =? 98 then v ← va_num; fmt_uint (u64 v) 2 false width (pad f) (left f) false false
  else if spec =? 112 then v ← va_num; EMIT 48;; EMIT 120;; fmt_uint (u64 v) 16 false 16 48 false false false
  else if spec =? 37 then EMIT 37
  else if spec =? 110 then mret tt
  else EMIT 37;; EMIT spec.

(** One turn of the loop at a character; the rest of the format. When the format
    ends inside a conversion its terminator is taken for the conversion and the
    reading goes on behind it. *)
Definition format_step (c : Z) (fmt' : list Z) : M formatter (list Z) :=
  if negb (c =? 37) then EMIT c;; mret fmt'
  else
    let '(f, fmt) := scan_flags fmt' no_flags in
    '(width, fmt) ← scan_width fmt;
    let '(long, fmt) := scan_length fmt in
    match fmt with
    | [] => ub
    | spec :: fmt => convert spec f width long;; mret fmt
    end.
(** Every turn takes a character, so [fuel] is the length of the format. *)
Fixpoint format (fuel : nat) (fmt : list Z) : M formatter unit :=
  match fmt with
  | [] => mret tt
  | c :: fmt' =>
      s ← get;
      if BUF_SIZE - 1 <=? f_pos s then mret tt
      else
        match fuel with
        | O => no_fuel
        | S fuel' => rest ← format_step c fmt'; format fuel' rest
        end
  end.

(** The buffer when the loop ends; its terminator must fit. *)
Definition formatted (fmt : list Z) (args : list arg) : outcome (list Z) :=
  match format (length fmt) fmt (Fmt [] args) with
  | Done (_, s) => if BUF_SIZE <=? f_pos s then Undefined else Done (f_buf s)
  | Panicked msg => Panicked msg
  | Undefined => Undefined
  | Blocked => Blocked
  | OutOfFuel => OutOfFuel
  end.

(** ** Output *)

(** The static kout_buf, kout_len and kout_cap; a null buffer is the console. *)
Record kout (St : Type) := Kout { o_kernel : St; kout_buf : Z; kout_len : Z; kout_cap : Z }.
Arguments Kout {_}.
Arguments o_kernel {_}.
Arguments kout_buf {_}.
Arguments kout_len {_}.
Arguments kout_cap {_}.

#[export] Instance o_kernel_lens St : Lens (kout St) St :=
  {| view := o_kernel; over k s := Kout k (kout_buf s) (kout_len s) (kout_cap s) |}.
#[export] Instance o_kernel_laws St : LensLaws (kout St) St.
Proof. split; [done|by intros []|done]. Qed.

Section output.
(** Bound of the polls of the serial line. *)
Context (fuel : nat).
Abbreviation out := (kout kstate) (only parsing).

Definition kout_redirect (buf cap : Z) : M out unit := modify (fun s => Kout (o_kernel s) buf 0 cap).
Definition kout_reset : M out unit := modify (fun s => Kout (o_kernel s) 0 0 0).
Definition kout_written : M out Z := gets kout_len.

Definition store_kernel (a : Z) (bs : list Z) (k : kstate) : kstate :=
  over (set_kmem (store_bytes (kmem (k_heap k)) a bs) (k_heap k)) k.
Definition kputchar (c : Z) : M out unit :=
  s ← get;
  if nonzero (kout_buf s) then
    if u64 (kout_len s + 1) <? kout_cap s then
      put (Kout (store_kernel (kout_buf s + kout_len s) [u8 c; 0] (o_kernel s)) (kout_buf s) (kout_len s + 1) (kout_cap s))
    else mret tt
  else
    zoom (T := kstate) (zoom (T := ports) (serial_putchar fuel c));;
    zoom (T := kstate) (zoom (T := screen) (vga_putchar (s8 c))).
Fixpoint kputs_raw (s : list Z) : M out unit :=
  match s with [] => mret tt | c :: s' => if c =? 0 then mret tt else kputchar c;; kputs_raw s' end.

(** [dst] is the caller's buffer and its size, or null for the console. A
    size of zero wraps: the copy is longer than the buffer. *)
Definition kvsnprintf (dst : option (Z * Z)) (fmt : list Z) (args : list arg) : M out Z :=
  fun s =>
    match formatted fmt args with
    | Done buf =>
        let pos := Z.of_nat (length buf) in
        match dst with
        | None => (kputs_raw buf;; mret pos) s
        | Some (a, size) =>
            let n := if pos <? size then pos else u64 (size - 1) in
            if BUF_SIZE <? n then Undefined
            else (modify (fun s => over (store_kernel a (take (Z.to_nat n) buf ++ [0]) (o_kernel s)) s);; mret pos) s
        end
    | Panicked msg => Panicked msg
    | Undefined => Undefined
    | Blocked => Blocked
    | OutOfFuel => OutOfFuel
    end.
Definition kvprintf (fmt : list Z) (args : list arg) : M out Z := kvsnprintf None fmt args.
Definition kprintf (fmt : list Z) (args : list arg) : M out Z := kvsnprintf None fmt args.
Definition ksprintf (a size : Z) (fmt : list Z) (args : list arg) : M out Z := kvsnprintf (Some (a, size)) fmt args.
Definition kputs (s : list Z) : M out unit := kputs_raw s;; kputchar 10.
End output.

(** ** The reference: directives and what they print *)

Inductive conversion : Type := Signed | Unsigned | Octal | Hex (upper : bool) | Text | Char.
Inductive directive : Type :=
| Literal (c : Z)
| Percent
| Field (is_left is_plus is_zero : bool) (width : Z) (long : bool) (conv : conversion).

(** A number written in a base, first digit first. *)
Fixpoint digits (fuel : nat) (base v : Z) : list Z :=
  match fuel with
  | O => [v]
  | S k => if v <? base then [v] else digits k base (v / base) ++ [v mod base]
  end.
Definition number_text (upper : bool) (base v : Z) : list Z := dig upper <$> digits 64 base v.

(** A directive as it is written in a format. *)
Definition conversion_char (c : conversion) : Z :=
  match c with
  | Signed => 100 | Unsigned => 117 | Octal => 111 | Hex false => 120 | Hex true => 88 | Text => 115 | Char => 99
  end.
Definition write_directive (d : directive) : list Z :=
  match d with
  | Literal c => [c]
  | Percent => [37; 37]
  | Field l p z w long c =>
      [37] ++ (if l then [45] else []) ++ (if p then [43] else []) ++ (if z then [48] else []) ++
      (if w =? 0 then [] else number_text false 10 w) ++ (if long then [108; 108] else []) ++ [conversion_char c]
  end.

(** The text [body] of a field; zeroes go between the sign and the number. *)
Definition fill (l z : bool) (w : Z) (sign body : list Z) : list Z :=
  let room := Z.to_nat (w - Z.of_nat (length sign + length body)) in
  if l then sign ++ body ++ replicate room 32
  else if z then sign ++ replicate room 48 ++ body
  else replicate room 32 ++ sign ++ body.
Definition print_field (l p z : bool) (w : Z) (long : bool) (c : conversion) (a : arg) : list Z :=
  match c, a with
  | Signed, Num v =>
      let v := signed_arg long v in
      fill l z w (if v <? 0 then [45] else if p then [43] else []) (number_text false 10 (Z.abs v))
  | Unsigned, Num v => fill l z w [] (number_text false 10 (unsigned_arg long v))
  | Octal, Num v => fill l z w [] (number_text false 8 (unsigned_arg long v))
  | Hex up, Num v => fill l z w [] (number_text up 16 (unsigned_arg long v))
  | Text, Str s => fill l false w [] (default null_text s)
  | Char, Num v => [u8 v]
  | _, _ => []
  end.

(** The text of a list of directives, each field taking an argument of its kind. *)
Definition takes (c : conversion) (a : arg) : bool :=
  match c, a with Text, Str _ => true | Text, _ => false | _, Num _ => true | _, _ => false end.
Fixpoint render (ds : list directive) (args : list arg) : option (list Z) :=
  match ds with
  | [] => Some []
  | Literal c :: ds => t ← render ds args; Some (c :: t)
  | Percent :: ds => t ← render ds args; Some (37 :: t)
  | Field l p z w long c :: ds =>
      match args with
      | a :: args => if takes c a then t ← render ds args; Some (print_field l p z w long c a ++ t) else None
      | [] => None
      end
  end.
(** ** Numbers and their digits *)

Lemma digits_rev_digits k upper base v : 2 <= base -> 0 < v < base ^ Z.of_nat k ->
  rev (digits_rev k upper base v) = dig upper <$> digits k base v.
Proof.
  intros Hb. revert v. induction k as [|k IH]; intros v Hv; [cbn in Hv; lia|].
  cbn [digits_rev digits]. replace (v =? 0) with false by blia. cbn [rev].
  assert (v = base * (v / base) + v mod base) as Hdm by (apply Z.div_mod; lia).
  pose proof (Z.mod_pos_bound v base ltac:(lia)) as Hm. destruct (Z.ltb_spec v base).
  - rewrite Z.div_small, Z.mod_small by lia. by destruct k.
  - rewrite IH, fmap_app; [done|]. rewrite Nat2Z.inj_succ, Z.pow_succ_r in Hv by lia. split.
    + apply Z.div_str_pos. lia.
    + apply Z.div_lt_upper_bound; lia.
Qed.
Lemma number_rev upper base v : 2 <= base -> 0 <= v < 2^64 ->
  rev (if v =? 0 then [48] else digits_rev 64 upper base v) = number_text upper base v.
Proof.
  intros Hb Hv. unfold number_text. destruct (Z.eqb_spec v 0) as [->|].
  - cbn [digits]. by replace (0 <? base) with true by blia.
  - apply digits_rev_digits; [done|]. split; [lia|]. apply Z.lt_le_trans with (2^64); [lia|].
    change (Z.of_nat 64) with 64. by apply Z.pow_le_mono_l.
Qed.
Lemma length_digits k base v : (1 <= length (digits k base v) <= S k)%nat.
Proof.
  revert v. induction k as [|k IH]; intros v; cbn [digits]; [cbn; lia|].
  destruct (v <? base); [cbn; lia|]. rewrite length_app. cbn. specialize (IH (v / base)). lia.
Qed.
Lemma digits_small k v : 0 <= v < 10 ^ (Z.of_nat k + 1) -> Forall (fun d => 0 <= d < 10) (digits k 10 v).
Proof.
  revert v. induction k as [|k IH]; intros v Hv; cbn [digits].
  - constructor; [|done]. cbn in Hv. lia.
  - destruct (Z.ltb_spec v 10); [constructor; [lia|done]|]. apply Forall_app. split.
    + apply IH. rewrite Nat2Z.inj_succ, <- Z.add_1_r, Z.pow_add_r in Hv by lia.
      split; [apply Z.div_pos; lia|apply Z.div_lt_upper_bound; lia].
    + constructor; [apply Z.mod_pos_bound; lia|done].
Qed.
(** The digits, read back, are the number. *)
Lemma digits_value k base v : 2 <= base -> 0 <= v -> digits_val base (digits k base v) 0 = v.
Proof.
  intros Hb. revert v. induction k as [|k IH]; intros v Hv; cbn [digits].
  - cbn. lia.
  - destruct (v <? base); [cbn; lia|]. unfold digits_val in *. rewrite fold_left_app, IH by (apply Z.div_pos; lia).
    cbn. pose proof (Z.div_mod v base ltac:(lia)). lia.
Qed.
Lemma number_dec v : 0 <= v < 2^64 -> number_text false 10 v = dec_bytes (digits 64 10 v).
Proof.
  intros Hv. unfold number_text, dec_bytes. apply Forall_fmap_ext_1.
  eapply Forall_impl; [|apply digits_small].
  - intros d Hd. cbn beta in Hd. unfold dig. replace (d <? 10) with true by blia. lia.
  - split; [lia|]. apply Z.lt_le_trans with (2^64); [lia|by vm_compute].
Qed.

Lemma scan_digits_number k v rest : 0 <= v < 2^31 -> v < 10 ^ (Z.of_nat k + 1) ->
  scan_digits ((dig false <$> digits k 10 v) ++ rest) 0 = scan_digits rest v.
Proof.
  assert (forall d w rest, 0 <= d < 10 -> 0 <= w * 10 + d < 2^31 ->
    scan_digits (dig false d :: rest) w = scan_digits rest (w * 10 + d)) as Hd.
  { intros d w rest' Hd Hw. unfold dig. cbn [scan_digits]. replace (d <? 10) with true by blia.
    replace (_ && _) with true by blia. rewrite s32_small by lia. f_equal. lia. }
  revert v rest. induction k as [|k IH]; intros v rest Hv Hk; cbn [digits].
  - cbn in Hk. cbn [fmap list_fmap app]. by rewrite Hd by lia.
  - destruct (Z.ltb_spec v 10); [cbn [fmap list_fmap app]; by rewrite Hd by lia|].
    pose proof (Z.div_mod v 10 ltac:(lia)) as Hdm. pose proof (Z.mod_pos_bound v 10 ltac:(lia)).
    rewrite fmap_app, <- app_assoc, IH.
    + cbn [fmap list_fmap app]. rewrite Hd by lia. f_equal. lia.
    + lia.
    + rewrite Nat2Z.inj_succ, <- Z.add_1_r, Z.pow_add_r in Hk by lia. apply Z.div_lt_upper_bound; lia.
Qed.
Lemma scan_digits_stop rest w : no_digit rest -> scan_digits rest w = (w, rest).
Proof. destruct rest as [|c rest]; cbn [scan_digits no_digit]; [done|]. intros. by replace (_ && _) with false by blia. Qed.

Lemma digits_head k v : 0 < v < 10 ^ (Z.of_nat k + 1) -> exists d ds, digits k 10 v = d :: ds /\ 1 <= d < 10.
Proof.
  revert v. induction k as [|k IH]; intros v Hv; cbn [digits].
  - exists v, []. split; [done|]. cbn in Hv. lia.
  - destruct (Z.ltb_spec v 10); [exists v, []; split; [done|lia]|].
    destruct (IH (v / 10)) as (d & ds & -> & Hd).
    + rewrite Nat2Z.inj_succ, <- Z.add_1_r, Z.pow_add_r in Hv by lia.
      split; [apply Z.div_str_pos; lia|apply Z.div_lt_upper_bound; lia].
    + exists d, (ds ++ [v mod 10]). by split.
Qed.

(** ** The parts of a turn *)

Definition byte_ok (c : Z) : Prop := 0 <= c < 256.
Lemma emit_all_run cs out args : Forall byte_ok cs -> Z.of_nat (length (out ++ cs)) < BUF_SIZE ->
  emit_all cs (Fmt out args) = Done (tt, Fmt (out ++ cs) args).
Proof.
  unfold BUF_SIZE. intros Hcs. revert out. induction Hcs as [|c cs Hc Hcs IH]; intros out Hlen; cbn [emit_all]; [by rewrite app_nil_r|].
  rewrite length_app in Hlen. cbn [length] in Hlen.
  assert (EMIT c (Fmt out args) = Done (tt, Fmt (out ++ [c]) args)) as He.
  { unfold EMIT, modify, f_pos, BUF_SIZE. cbn [f_buf f_args]. replace (_ <? _) with true by blia.
    rewrite u8_small by (unfold byte_ok in Hc; lia). done. }
  rewrite (bind_Done _ _ _ _ _ He), IH, <- app_assoc; [done|]. rewrite !length_app. cbn. lia.
Qed.
Lemma EMIT_run c out args : byte_ok c -> Z.of_nat (length out) < BUF_SIZE - 1 ->
  EMIT c (Fmt out args) = Done (tt, Fmt (out ++ [c]) args).
Proof.
  intros Hc Hl. unfold EMIT, modify, f_pos. cbn [f_buf f_args]. replace (_ <? _) with true by blia.
  rewrite u8_small by (unfold byte_ok in Hc; lia). done.
Qed.

Definition pad_char (z : bool) : Z := if z then 48 else 32.
Lemma fmt_uint_run val base upper w z l plus neg out args :
  let sign := if neg : bool then [45] else if plus : bool then [43] else [] in
  let text := fill l z w sign (number_text upper base val) in
  2 <= base -> 0 <= val < 2^64 -> Z.of_nat (length (out ++ text)) < BUF_SIZE ->
  fmt_uint val base upper w (pad_char z) l plus neg (Fmt out args) = Done (tt, Fmt (out ++ text) args).
Proof.
  intros sign text Hb Hv Hl. unfold fmt_uint. cbv zeta. fold sign.
  rewrite <- (length_rev (if val =? 0 then _ else _)), (number_rev upper base val Hb Hv).
  assert (store_all text (Fmt out args) = Done (tt, Fmt (out ++ text) args)) as Hst.
  { unfold store_all, mbind, M_bind, get, f_pos. cbn [f_buf f_args]. rewrite length_app in Hl.
    by replace (_ <? _) with false by blia. }
  rewrite <- Hst. f_equal. unfold text, fill. rewrite <- Nat2Z.inj_add, (Nat.add_comm (length sign)).
  destruct l, z; cbn [negb andb pad_char Z.eqb Pos.eqb app]; by rewrite ?app_nil_r.
Qed.

Definition arg_ok (a : arg) : Prop := match a with Str (Some s) => Forall byte_ok s | _ => True end.
Lemma null_text_ok : Forall byte_ok null_text.
Proof. vm_compute. repeat constructor; discriminate. Qed.

Lemma convert_run c l plus z w long a out args : takes c a = true -> arg_ok a ->
  let text := print_field l plus z w long c a in
  Z.of_nat (length (out ++ text)) < BUF_SIZE ->
  convert (conversion_char c) (Flags l plus (pad_char z)) w long (Fmt out (a :: args)) = Done (tt, Fmt (out ++ text) args).
Proof.
  intros Ht Ha text Hl.
  assert (forall v, a = Num v -> 0 <= unsigned_arg long v < 2^64) as Hu.
  { intros v _. unfold unsigned_arg. destruct long; [apply Z.mod_pos_bound; lia|].
    pose proof (Z.mod_pos_bound v (2^32) ltac:(lia)). unfold u32. lia. }
  destruct c as [| | |up| |]; destruct a as [v|s]; try discriminate Ht; cbn [print_field] in text; unfold text in *.
  - unfold convert. cbn [conversion_char Z.eqb Pos.eqb orb pad left sign_plus]. rewrite (bind_Done va_num _ _ v (Fmt out args)) by done.
    pose proof (fmt_uint_run (Z.abs (signed_arg long v)) 10 false w z l plus (signed_arg long v <? 0) out args) as Hf.
    assert (0 <= Z.abs (signed_arg long v) < 2^64) as Hv.
    { unfold signed_arg, s64, s32. pose proof (Z.mod_pos_bound (v + 2^63) (2^64) ltac:(lia)).
      pose proof (Z.mod_pos_bound (v + 2^31) (2^32) ltac:(lia)). destruct long; lia. }
    rewrite u64_small by done. by apply Hf.
  - apply (fmt_uint_run (unsigned_arg long v) 10 false w z l false false out args); [lia|by apply Hu|done].
  - apply (fmt_uint_run (unsigned_arg long v) 8 false w z l false false out args); [lia|by apply Hu|done].
  - assert (0 <= unsigned_arg long v < 2^64) as Hv by by apply Hu.
    destruct up; [apply (fmt_uint_run (unsigned_arg long v) 16 true w z l false false out args); [lia|done|done]|].
    apply (fmt_uint_run (unsigned_arg long v) 16 false w z l false false out args); [lia|done|done].
  - set (body := default null_text s) in *.
    assert (Forall byte_ok body) as Hb by (destruct s; [done|exact null_text_ok]).
    unfold convert. cbn [conversion_char Z.eqb Pos.eqb orb left].
    rewrite (bind_Done va_str _ _ s (Fmt out args)) by done.
    replace (match s with Some s => s | None => null_text end) with body by by destruct s.
    set (sp := replicate (Z.to_nat (w - Z.of_nat (length body))) 32).
    assert (Forall byte_ok sp) as Hsp by (apply Forall_replicate; unfold byte_ok; lia).
    assert (fill l false w [] body = (if l then body ++ sp else sp ++ body)) as He by (unfold fill, sp; by destruct l).
    rewrite He in *. destruct l; cbn [negb].
    + rewrite (bind_Done _ _ _ tt (Fmt out args)) by done.
      rewrite app_assoc in Hl |- *. rewrite (bind_Done _ _ _ tt (Fmt (out ++ body) args)).
      * by apply emit_all_run.
      * apply emit_all_run; [done|]. rewrite length_app in Hl. lia.
    + rewrite app_assoc in Hl |- *. rewrite (bind_Done _ _ _ tt (Fmt (out ++ sp) args)).
      * by rewrite (bind_Done _ _ _ _ _ (emit_all_run _ _ args Hb Hl)).
      * apply emit_all_run; [done|]. rewrite length_app in Hl. lia.
  - rewrite length_app in Hl. unfold convert. cbn [conversion_char Z.eqb Pos.eqb].
    rewrite (bind_Done va_num _ _ v (Fmt out args)) by done. unfold EMIT, modify, f_pos. cbn [f_buf f_args].
    cbn in Hl. by replace (_ <? _) with true by blia.
Qed.

(** ** A turn of the loop is a directive *)

Definition directive_ok (d : directive) : Prop :=
  match d with Literal c => 0 < c < 256 /\ c <> 37 | Percent => True | Field _ _ _ w _ _ => 0 <= w < 2^31 end.
Definition no_flag (tl : list Z) : Prop :=
  match tl with c :: _ => c <> 45 /\ c <> 43 /\ c <> 48 /\ c <> 35 | [] => True end.
Lemma scan_flags_run l p z tl : no_flag tl ->
  scan_flags ((if l : bool then [45] else []) ++ (if p : bool then [43] else []) ++ (if z : bool then [48] else []) ++ tl) no_flags =
  (Flags l p (pad_char z), tl).
Proof.
  intros Htl. assert (forall f, scan_flags tl f = (f, tl)) as Hstop.
  { intros f. destruct tl as [|c tl]; [done|]. cbn [scan_flags no_flag] in *. destruct Htl as (? & ? & ? & ?).
    by repeat match goal with |- context [c =? ?k] => replace (c =? k) with false by blia end. }
  by destruct l, p, z; cbn [app scan_flags Z.eqb Pos.eqb no_flags left sign_plus pad pad_char]; rewrite Hstop.
Qed.

(** What follows the flags of a field. *)
Definition field_tail (w : Z) (long : bool) (c : conversion) (rest : list Z) : list Z :=
  (if w =? 0 then [] else number_text false 10 w) ++ (if long then [108; 108] else []) ++ conversion_char c :: rest.
Lemma conversion_head (long : bool) c rest : exists h tl, (if long then [108; 108] else []) ++ conversion_char c :: rest = h :: tl /\ 57 < h.
Proof.
  destruct long; cbn [app]; [by eexists 108, _|]. exists (conversion_char c), rest. split; [done|].
  by destruct c as [| | |[]| |].
Qed.
Lemma field_tail_ok w long c rest s : 0 <= w < 2^31 -> let tl := field_tail w long c rest in
  no_flag tl /\ scan_width tl s = Done ((w, (if long then [108; 108] else []) ++ conversion_char c :: rest), s).
Proof.
  intros Hw tl. destruct (conversion_head long c rest) as (h & t & Ht & Hh). unfold tl, field_tail. rewrite Ht.
  destruct (Z.eqb_spec w 0) as [->|Hne].
  - cbn [app no_flag scan_width]. split; [lia|]. replace (h =? 42) with false by blia.
    rewrite scan_digits_stop by (cbn; lia). done.
  - assert (w < 10 ^ (Z.of_nat 64 + 1)) as Hk by (apply Z.lt_le_trans with (2^31); [lia|by vm_compute]).
    destruct (digits_head 64 w) as (d & ds & Hd & Hr); [lia|].
    pose proof (scan_digits_number 64 w (h :: t) Hw Hk) as Hsc. unfold number_text. rewrite Hd in *.
    cbn [fmap list_fmap app no_flag scan_width] in *. unfold dig in *. replace (d <? 10) with true in * by blia. split; [lia|].
    replace (48 + d =? 42) with false by blia. rewrite Hsc, scan_digits_stop by (cbn; lia). done.
Qed.

Lemma field_run l p z w long c a rest out args : 0 <= w < 2^31 -> takes c a = true -> arg_ok a ->
  let text := print_field l p z w long c a in
  Z.of_nat (length (out ++ text)) < BUF_SIZE ->
  exists tl, write_directive (Field l p z w long c) ++ rest = 37 :: tl /\
    format_step 37 tl (Fmt out (a :: args)) = Done (rest, Fmt (out ++ text) args).
Proof.
  intros Hw Ht Ha text Hl. eexists. cbn [write_directive app]. rewrite <- !app_assoc. cbn [app]. fold (field_tail w long c rest). split; [done|].
  unfold format_step. cbn [Z.eqb Pos.eqb negb].
  destruct (field_tail_ok w long c rest (Fmt out (a :: args)) Hw) as [Hnf Hsw].
  rewrite (scan_flags_run l p z _ Hnf). rewrite (bind_Done _ _ _ _ _ Hsw). cbn beta iota.
  replace (scan_length _) with (long, conversion_char c :: rest).
  - by rewrite (bind_Done _ _ _ _ _ (convert_run c l p z w long a out args Ht Ha Hl)).
  - destruct long; [done|]. by destruct c as [| | |[]| |].
Qed.

(** One directive: what it reads, prints and leaves. *)
Lemma directive_run d ds args text out : directive_ok d -> Forall arg_ok args -> render (d :: ds) args = Some text ->
  Z.of_nat (length (out ++ text)) < BUF_SIZE -> forall rest, exists c tl t1 args1 t2,
    write_directive d ++ rest = c :: tl /\ format_step c tl (Fmt out args) = Done (rest, Fmt (out ++ t1) args1) /\
    Forall arg_ok args1 /\ render ds args1 = Some t2 /\ text = t1 ++ t2.
Proof.
  intros Hd Ha Hr Hl rest. destruct d as [c| |l p z w long c]; cbn [render directive_ok] in *.
  - apply bind_Some in Hr as (t & Ht & [= <-]). destruct Hd as [Hc Hne]. exists c, rest, [c], args, t. split_and!; try done.
    unfold format_step. replace (c =? 37) with false by blia. cbn [negb].
    rewrite (bind_Done _ _ _ tt (Fmt (out ++ [c]) args)); [done|]. rewrite length_app in Hl. cbn in Hl.
    apply EMIT_run; [unfold byte_ok|]; lia.
  - apply bind_Some in Hr as (t & Ht & [= <-]). exists 37, (37 :: rest), [37], args, t. split_and!; try done.
    unfold format_step. cbn [Z.eqb Pos.eqb negb scan_flags scan_width]. rewrite scan_digits_stop by (cbn; lia).
    rewrite (bind_Done _ _ _ (0, 37 :: rest) (Fmt out args)) by done. cbn beta iota. cbn [scan_length Z.eqb Pos.eqb].
    rewrite (bind_Done _ _ _ tt (Fmt (out ++ [37]) args)); [done|]. rewrite length_app in Hl. cbn in Hl.
    apply EMIT_run; [unfold byte_ok|]; lia.
  - destruct args as [|a args]; [done|]. destruct (takes c a) eqn:Ht; [|done]. apply bind_Some in Hr as (t & Hrt & [= <-]).
    apply Forall_cons_iff in Ha as [Ha Hargs].
    destruct (field_run l p z w long c a rest out args Hd Ht Ha) as (tl & Hw & Hst).
    + rewrite app_assoc, length_app in Hl. lia.
    + exists 37, tl, (print_field l p z w long c a), args, t. by split_and!.
Qed.

(** Enough turns for the directives, and the text they print. *)
Lemma format_run ds : forall args text out fuel, Forall directive_ok ds -> Forall arg_ok args -> render ds args = Some text ->
  Z.of_nat (length (out ++ text)) < BUF_SIZE -> (length ds <= fuel)%nat ->
  exists args', format fuel (concat (write_directive <$> ds)) (Fmt out args) = Done (tt, Fmt (out ++ text) args').
Proof.
  induction ds as [|d ds IH]; intros args text out fuel Hds Ha Hr Hl Hfuel.
  { injection Hr as <-. exists args. cbn. rewrite app_nil_r. by destruct fuel. }
  apply Forall_cons_iff in Hds as [Hd Hds]. destruct fuel as [|fuel]; [cbn in Hfuel; lia|]. cbn [length] in Hfuel.
  destruct (directive_run d ds args text out Hd Ha Hr Hl (concat (write_directive <$> ds)))
    as (c & tl & t1 & args1 & t2 & Hw & Hst & Ha1 & Hr2 & ->).
  assert (Z.of_nat (length ((out ++ t1) ++ t2)) < BUF_SIZE) as Hl2 by by rewrite <- app_assoc.
  cbn [fmap list_fmap concat]. rewrite Hw. cbn [format]. unfold mbind at 1, M_bind at 1, get at 1. cbn beta iota.
  destruct (Z.leb_spec (BUF_SIZE - 1) (f_pos (Fmt out args))) as [Hfull|Hroom].
  - exists args. rewrite length_app in Hl. unfold f_pos, BUF_SIZE in *. cbn [f_buf] in Hfull.
    destruct (t1 ++ t2) as [|x t]; [by rewrite app_nil_r|]. cbn in Hl. lia.
  - destruct (IH args1 t2 (out ++ t1) fuel Hds Ha1 Hr2 Hl2 ltac:(lia)) as [args' Hrun]. exists args'.
    rewrite (bind_Done _ _ _ _ _ Hst), Hrun. by rewrite <- app_assoc.
Qed.

Lemma written_length ds : (length ds <= length (concat (write_directive <$> ds)))%nat.
Proof.
  induction ds as [|d ds IH]; [done|]. cbn [fmap list_fmap concat]. rewrite length_app. cbn [length].
  assert (1 <= length (write_directive d))%nat; [|lia]. destruct d; cbn; lia.
Qed.
Lemma formatted_renders ds args text : Forall directive_ok ds -> Forall arg_ok args -> render ds args = Some text ->
  Z.of_nat (length text) < BUF_SIZE -> formatted (concat (write_directive <$> ds)) args = Done text.
Proof.
  intros Hds Ha Hr Hl. destruct (format_run ds args text [] _ Hds Ha Hr Hl (written_length ds)) as [args' Hf].
  unfold formatted. rewrite Hf. cbn [app]. unfold f_pos. cbn [f_buf]. by replace (_ <=? _) with false by blia.
Qed.

(** ** Every format is read to its end *)

Definition ends {A} (m : M formatter A) : Prop := forall s, m s <> OutOfFuel.
Lemma ends_bind {A B} (m : M formatter A) (f : A -> M formatter B) : ends m -> (forall a, ends (f a)) -> ends (m ≫= f).
Proof. intros Hm Hf s. unfold mbind, M_bind. specialize (Hm s). destruct (m s) as [[a s']| | | |]; try done. apply Hf. Qed.
Ltac ends_steps :=
  repeat match goal with
  | |- ends (_ ≫= _) => apply ends_bind; [|intros ?]
  | |- ends (if ?b then _ else _) => destruct b
  | |- ends (match ?x with _ => _ end) => destruct x
  | |- ends _ => solve [assumption | intros ?; discriminate]
  end.
Lemma va_num_ends : ends va_num.
Proof. unfold va_num. ends_steps. Qed.
Lemma emit_all_ends cs : ends (emit_all cs).
Proof. induction cs as [|c cs IH]; cbn [emit_all]; ends_steps. Qed.
Lemma fmt_uint_ends val base upper w pd l plus neg : ends (fmt_uint val base upper w pd l plus neg).
Proof. unfold fmt_uint, store_all. cbv zeta. ends_steps. Qed.
Lemma convert_ends spec f w long : ends (convert spec f w long).
Proof.
  unfold convert, va_str. cbv zeta. pose proof va_num_ends.
  ends_steps; first [apply emit_all_ends | apply fmt_uint_ends].
Qed.

Lemma scan_flags_length fmt f : (length (scan_flags fmt f).2 <= length fmt)%nat.
Proof. revert f. induction fmt as [|c fmt IH]; intros f; cbn [scan_flags]; [done|]. repeat case_match; cbn; try etrans; eauto with lia. Qed.
Lemma scan_digits_length fmt w : (length (scan_digits fmt w).2 <= length fmt)%nat.
Proof. revert w. induction fmt as [|c fmt IH]; intros w; cbn [scan_digits]; [done|]. case_match; cbn; [|lia]. etrans; [apply IH|lia]. Qed.
Lemma scan_width_wlp fmt s : wlp (scan_width fmt) s (fun r _ => length r.2 <= length fmt)%nat.
Proof.
  destruct fmt as [|c fmt]; cbn [scan_width]; [by apply wlp_ret|]. case_match; [|apply wlp_ret, scan_digits_length].
  unfold va_num. intros [w rest] s' Hr. unfold mbind, M_bind, get, put, mret, M_ret in Hr. cbn in Hr |- *.
  destruct (f_args s) as [|[v|] l]; try discriminate Hr. injection Hr as _ <- _. lia.
Qed.
Lemma scan_length_length fmt : (length (scan_length fmt).2 <= length fmt)%nat.
Proof. destruct fmt as [|c [|d fmt]]; cbn [scan_length]; repeat case_match; cbn; lia. Qed.

Lemma format_step_length c fmt s : wlp (format_step c fmt) s (fun rest _ => length rest <= length fmt)%nat.
Proof.
  unfold format_step. destruct (negb _); [by apply wlp_bind, wlp_modify, wlp_ret|].
  pose proof (scan_flags_length fmt no_flags) as H1. destruct (scan_flags fmt no_flags) as [f fmt1]. cbn in H1.
  apply wlp_bind. eapply wlp_mono; [apply scan_width_wlp|]. intros [w fmt2] s2 H2. cbn in H2. cbn beta iota.
  pose proof (scan_length_length fmt2) as H3. destruct (scan_length fmt2) as [long [|spec fmt3]]; [done|]. cbn in H3.
  apply wlp_bind. intros u s3 _. apply wlp_ret. lia.
Qed.
Lemma format_step_ends c fmt : ends (format_step c fmt).
Proof.
  unfold format_step, EMIT, scan_width. pose proof va_num_ends. ends_steps. apply convert_ends.
Qed.
Lemma format_ends fuel fmt : (length fmt <= fuel)%nat -> ends (format fuel fmt).
Proof.
  revert fmt. induction fuel as [|fuel IH]; intros [|c fmt] Hl; cbn [length format] in *; try (intros ?; discriminate); [lia|].
  intros s. unfold mbind at 1, M_bind at 1, get at 1. cbn beta iota. destruct (_ <=? _); [discriminate|].
  unfold mbind, M_bind. pose proof (format_step_ends c fmt s) as He. pose proof (format_step_length c fmt s) as Hw.
  destruct (format_step c fmt s) as [[rest s']| | | |] eqn:Hst; try discriminate; [|done].
  apply IH. specialize (Hw rest s' Hst). cbn beta in Hw. lia.
Qed.

(** What fits of a formatted text is stored, with its terminator. *)
Lemma ksprintf_formatted fuel a size fmt args text (s : kout kstate) :
  formatted fmt args = Done text -> Z.of_nat (length text) < BUF_SIZE -> 0 < size < 2^64 ->
  ksprintf fuel a size fmt args s =
  Done (Z.of_nat (length text), over (store_kernel a (take (Z.to_nat (size - 1)) text ++ [0]) (o_kernel s)) s).
Proof.
  intros Hf Hl Hs. unfold ksprintf, kvsnprintf. rewrite Hf.
  cbv zeta. rewrite u64_small by lia. unfold BUF_SIZE in *.
  assert (take (Z.to_nat (if Z.of_nat (length text) <? size then Z.of_nat (length text) else size - 1)) text =
    take (Z.to_nat (size - 1)) text) as ->.
  { destruct (Z.ltb_spec (Z.of_nat (length text)) size); [|done]. rewrite !take_ge by lia. done. }
  replace (2048 <? _) with false; [done|]. symmetry. apply Z.ltb_ge.
  destruct (Z.ltb_spec (Z.of_nat (length text)) size); lia.
Qed.

(** C27: the output of a format is what its directives say: literal characters as
    they are, numbers in their base with sign, padding and alignment, strings with
    theirs and characters (for which the code ignores the width), in order; into a buffer of [size] bytes as much as fits, always
    terminated, and the length of the whole text is returned. *)
Theorem ksprintf_renders fuel a size ds args text (s : kout kstate) :
  Forall directive_ok ds -> Forall arg_ok args -> render ds args = Some text ->
  Z.of_nat (length text) < BUF_SIZE -> 0 < size < 2^64 ->
  ksprintf fuel a size (concat (write_directive <$> ds)) args s =
  Done (Z.of_nat (length text), over (store_kernel a (take (Z.to_nat (size - 1)) text ++ [0]) (o_kernel s)) s).
Proof. intros Hds Ha Hr Hl. apply ksprintf_formatted; [|done]. by apply formatted_renders. Qed.

(** ** Formats in general *)

(** Every conversion of the code with all of its modifiers, and the room it needs:
    a number is stored without a test, so it must fit what is left of the array. *)
Module Formats.
Inductive field_width : Type := Digits (ds : list Z) | Star.
Inductive piece : Type := Plain (c : Z) | Conv (fl : list Z) (w : field_width) (len : list Z) (spec : Z).
Definition write_width (w : field_width) : list Z := match w with Digits ds => ds | Star => [42] end.
Definition write_piece (p : piece) : list Z :=
  match p with Plain c => [c] | Conv fl w len spec => 37 :: fl ++ write_width w ++ len ++ [spec] end.
Definition width_val (ds : list Z) : Z := digits_val 10 ((fun c => c - 48) <$> ds) 0.

Definition is_flag (c : Z) : bool := (c =? 45) || (c =? 43) || (c =? 48) || (c =? 35).
Definition is_digit (c : Z) : bool := (48 <=? c) && (c <=? 57).
Definition is_spec (c : Z) : bool := negb (is_flag c || is_digit c || (c =? 42) || (c =? 108) || (c =? 122)).
Definition width_ok (w : field_width) : bool :=
  match w with
  | Digits ds => forallb is_digit ds && negb (List.hd 49 ds =? 48) && (width_val ds <? 2^31)
  | Star => true
  end.
Definition piece_ok (p : piece) : bool :=
  match p with
  | Plain c => negb (c =? 37)
  | Conv fl w len spec =>
      forallb is_flag fl && width_ok w && bool_decide (len ∈ [[]; [108]; [108; 108]; [122]]) && is_spec spec
  end.

Definition is_number (spec : Z) : bool :=
  (spec =? 100) || (spec =? 105) || (spec =? 117) || (spec =? 120) || (spec =? 88) || (spec =? 111) || (spec =? 98).
(** The most characters that a conversion gives, and the arguments it leaves. *)
Definition width_of (w : field_width) (args : list arg) : option (Z * list arg) :=
  match w, args with
  | Digits ds, _ => Some (width_val ds, args)
  | Star, Num v :: l => Some (s32 v, l)
  | Star, _ => None
  end.
Definition most_num (n : Z) (args : list arg) : option (Z * list arg) :=
  match args with Num _ :: l => Some (n, l) | _ => None end.
Definition most_of (spec w : Z) (args : list arg) : option (Z * list arg) :=
  if spec =? 99 then most_num 1 args
  else if spec =? 115 then
    match args with Str p :: l => Some (Z.max w (Z.of_nat (length (default null_text p))), l) | _ => None end
  else if is_number spec then most_num (Z.max w 65) args
  else if spec =? 112 then most_num 66 args
  else if spec =? 37 then Some (1, args)
  else if spec =? 110 then Some (0, args)
  else Some (2, args).
Definition piece_most (p : piece) (args : list arg) : option (Z * list arg) :=
  match p with Plain _ => Some (1, args) | Conv _ w _ spec => '(n, args) ← width_of w args; most_of spec n args end.
Definition unchecked (p : piece) : bool :=
  match p with Plain _ => false | Conv _ _ _ spec => is_number spec || (spec =? 112) end.
(** The arguments are those that the pieces take, and behind [pos] characters every
    number finds room. *)
Fixpoint fits (pos : Z) (ps : list piece) (args : list arg) : bool :=
  match ps with
  | [] => true
  | p :: ps =>
      match piece_most p args with
      | Some (n, args') => (negb (unchecked p) || (pos + n <=? BUF_SIZE - 1)) && fits (pos + n) ps args'
      | None => false
      end
  end.

(** *** What a conversion stores *)

(** At most [n] characters more, which leave room for the terminator. *)
Definition grows (n : Z) (args : list arg) (s s' : formatter) : Prop :=
  f_args s' = args /\ f_pos s' <= BUF_SIZE - 1 /\ f_pos s' <= f_pos s + n.

Lemma EMIT_grows c s : f_pos s <= BUF_SIZE - 1 -> returns (EMIT c) s (fun _ => grows 1 (f_args s) s).
Proof.
  intros Hs. apply wp_modify. unfold grows, f_pos, BUF_SIZE in *. case_match; to_prop; cbn [f_args f_buf]; [|split; [done|lia]].
  rewrite length_app. cbn [length]. split; [done|lia].
Qed.
Lemma emit_all_grows cs s : f_pos s <= BUF_SIZE - 1 ->
  returns (emit_all cs) s (fun _ => grows (Z.of_nat (length cs)) (f_args s) s).
Proof.
  revert s. induction cs as [|c cs IH]; intros s Hs; cbn [emit_all length]; [apply wp_ret; unfold grows; split; [done|lia]|].
  apply wp_bind. eapply wp_mono; [by apply EMIT_grows|]. intros _ s1 (Ha & Hp & Hn). cbn beta.
  eapply wp_mono; [by apply IH|]. unfold grows. intros _ s2 (Ha2 & Hp2 & Hn2). rewrite Ha2, Ha. split; [done|lia].
Qed.
Lemma digits_rev_most k upper base v : (length (digits_rev k upper base v) <= k)%nat.
Proof. revert v. induction k as [|k IH]; intros v; cbn [digits_rev]; [done|]. case_match; cbn [length]; [lia|]. specialize (IH (v / base)). lia. Qed.
Lemma fmt_uint_grows val base upper w pd l plus neg s : f_pos s + Z.max w 65 <= BUF_SIZE - 1 ->
  returns (fmt_uint val base upper w pd l plus neg) s (fun _ => grows (Z.max w 65) (f_args s) s).
Proof.
  intros Hs. unfold fmt_uint. cbv zeta. set (tmp := if val =? 0 then _ else _). set (prefix := if neg then _ else _).
  assert (length tmp <= 64)%nat as Ht by (subst tmp; case_match; [cbn; lia|apply digits_rev_most]).
  assert (length prefix <= 1)%nat as Hp by (subst prefix; repeat case_match; cbn; lia).
  set (padding := Z.to_nat _). set (cs := _ ++ _).
  assert (Z.of_nat (length cs) <= Z.max w 65) as Hc.
  { assert (length cs <= length tmp + length prefix + padding)%nat; [|subst padding; lia]. subst cs.
    rewrite !length_app, length_rev. destruct l; cbn [negb andb length]; [rewrite length_replicate; lia|].
    destruct (Z.eqb_spec pd 32) as [->|]; [cbn [Z.eqb Pos.eqb length]; rewrite length_replicate; lia|].
    case_match; cbn [length]; rewrite ?length_replicate; lia. }
  unfold store_all. apply wp_bind, wp_get. unfold BUF_SIZE in *. replace (2048 <? _) with false by blia. apply wp_put.
  unfold grows, f_pos, BUF_SIZE in *. cbn [f_args f_buf]. rewrite length_app. split; [done|lia].
Qed.
Lemma fmt_uint_exact val upper s : 0 <= val < 2^64 -> f_pos s + 64 <= BUF_SIZE - 1 ->
  returns (fmt_uint val 16 upper 16 48 false false false) s (fun _ => grows 64 (f_args s) s).
Proof.
  intros Hv Hs. unfold fmt_uint. cbv zeta. set (tmp := if val =? 0 then _ else _).
  assert (length tmp <= 64)%nat as Ht by (subst tmp; case_match; [cbn; lia|apply digits_rev_most]).
  cbn [negb andb Z.eqb Pos.eqb app]. unfold store_all. apply wp_bind, wp_get. rewrite !app_nil_r, length_app, length_replicate, length_rev.
  cbn [length]. unfold BUF_SIZE in *. replace (2048 <? _) with false by blia. apply wp_put.
  unfold grows, f_pos, BUF_SIZE in *. cbn [f_args f_buf]. rewrite !length_app, length_replicate, length_rev. cbn [length]. split; [done|lia].
Qed.

Lemma va_num_done v l s : f_args s = Num v :: l -> va_num s = Done (v, Fmt (f_buf s) l).
Proof. intros Ha. unfold va_num, mbind, M_bind, get. by rewrite Ha. Qed.
Lemma most_num_inv n args r : most_num n args = Some r -> exists v l, args = Num v :: l /\ r = (n, l).
Proof. destruct args as [|[v|] l]; try done. intros [= <-]. by eexists _, _. Qed.
(** A number, once it is taken. *)
Lemma number_grows (conv : Z -> Z) base upper (plus : Z -> bool) (neg : Z -> bool) f w s n args' :
  most_num (Z.max w 65) (f_args s) = Some (n, args') -> f_pos s + n <= BUF_SIZE - 1 ->
  returns (v ← va_num; fmt_uint (conv v) base upper w (pad f) (left f) (plus v) (neg v)) s (fun _ => grows n args' s).
Proof.
  intros (v & l & Ha & [= -> ->])%most_num_inv Hs. apply wp_bind. eapply wp_Done; [by apply va_num_done|].
  apply (fmt_uint_grows _ _ _ _ _ _ _ _ (Fmt (f_buf s) l)). exact Hs.
Qed.
Lemma char_grows (m : Z -> Z) s n args' : most_num 1 (f_args s) = Some (n, args') -> f_pos s <= BUF_SIZE - 1 ->
  returns (v ← va_num; EMIT (m v)) s (fun _ => grows n args' s).
Proof.
  intros (v & l & Ha & [= -> ->])%most_num_inv Hs. apply wp_bind. eapply wp_Done; [by apply va_num_done|].
  by apply (EMIT_grows _ (Fmt (f_buf s) l)).
Qed.
Lemma pointer_grows s n args' : most_num 66 (f_args s) = Some (n, args') -> f_pos s + n <= BUF_SIZE - 1 ->
  returns (v ← va_num; EMIT 48;; EMIT 120;; fmt_uint (u64 v) 16 false 16 48 false false false) s (fun _ => grows n args' s).
Proof.
  intros (v & l & Ha & [= -> ->])%most_num_inv Hs. apply wp_bind. eapply wp_Done; [by apply va_num_done|].
  apply wp_bind. eapply wp_mono; [apply EMIT_grows; unfold f_pos in *; cbn [f_buf]; lia|]. intros _ s1 (Ha1 & Hp1 & Hn1). cbn beta.
  apply wp_bind. eapply wp_mono; [by apply EMIT_grows|]. intros _ s2 (Ha2 & Hp2 & Hn2). cbn beta.
  change (f_pos (Fmt (f_buf s) l)) with (f_pos s) in *.
  eapply wp_mono; [apply fmt_uint_exact; [unfold u64; apply Z.mod_pos_bound; lia|lia]|].
  unfold grows. intros _ s3 (Ha3 & Hp3 & Hn3). rewrite Ha3, Ha2, Ha1. split; [done|lia].
Qed.
Lemma string_grows (is_left : bool) w p l s : f_args s = Str p :: l -> f_pos s <= BUF_SIZE - 1 ->
  returns (p ← va_str;
    let s := match p with Some s => s | None => null_text end in
    let pad_n := replicate (Z.to_nat (w - Z.of_nat (length s))) 32 in
    (if negb is_left then emit_all pad_n else mret tt);; emit_all s;; (if is_left then emit_all pad_n else mret tt)) s
    (fun _ => grows (Z.max w (Z.of_nat (length (default null_text p)))) l s).
Proof.
  intros Ha Hs. apply wp_bind. eapply wp_Done; [unfold va_str, mbind, M_bind, get; by rewrite Ha|]. cbv zeta.
  replace (match p with Some s => s | None => null_text end) with (default null_text p) by by destruct p.
  set (body := default null_text p). set (pad_n := replicate _ _).
  assert (length pad_n = Z.to_nat (w - Z.of_nat (length body))) as Hpad by apply length_replicate.
  assert (forall b (t : formatter), f_pos t <= BUF_SIZE - 1 -> returns (if b : bool then emit_all pad_n else mret tt) t
    (fun _ => grows (if b then Z.of_nat (length pad_n) else 0) (f_args t) t)) as He.
  { intros [] t Ht; [by apply emit_all_grows|]. apply wp_ret. unfold grows. split; [done|lia]. }
  apply wp_bind. eapply wp_mono; [by apply He|]. intros _ s1 (Ha1 & Hp1 & Hn1). cbn beta.
  apply wp_bind. eapply wp_mono; [by apply emit_all_grows|]. intros _ s2 (Ha2 & Hp2 & Hn2). cbn beta.
  eapply wp_mono; [by apply He|]. unfold grows. intros _ s3 (Ha3 & Hp3 & Hn3). rewrite Ha3, Ha2, Ha1. split; [done|].
  change (f_pos (Fmt (f_buf s) l)) with (f_pos s) in *. destruct is_left; cbn [negb] in *; lia.
Qed.

(** A conversion whose arguments are there returns. *)
Lemma convert_grows spec f w long s n args' : most_of spec w (f_args s) = Some (n, args') -> f_pos s <= BUF_SIZE - 1 ->
  (is_number spec || (spec =? 112) = true -> f_pos s + n <= BUF_SIZE - 1) ->
  returns (convert spec f w long) s (fun _ => grows n args' s).
Proof.
  intros Hm Hs Hroom. unfold most_of in Hm.
  destruct (Z.eqb_spec spec 99) as [->|]; [by apply (char_grows (fun v => v))|].
  destruct (Z.eqb_spec spec 115) as [->|].
  { destruct (f_args s) as [|[|p] l] eqn:Ha; try done. injection Hm as <- <-. by apply string_grows. }
  destruct (is_number spec) eqn:Hnum.
  { specialize (Hroom eq_refl). unfold is_number in Hnum.
    repeat (apply orb_prop in Hnum as [Hnum|Hnum]); apply Z.eqb_eq in Hnum as ->.
    1,2: by apply (number_grows (fun v => u64 (Z.abs (signed_arg long v))) 10 false (fun _ => sign_plus f) (fun v => signed_arg long v <? 0)).
    1-4: by apply (number_grows (unsigned_arg long) _ _ (fun _ => false) (fun _ => false)).
    by apply (number_grows u64 _ _ (fun _ => false) (fun _ => false)). }
  unfold is_number in Hnum. repeat (apply orb_false_elim in Hnum as [Hnum ?]). unfold convert. cbv zeta.
  replace (spec =? 99) with false by blia. replace (spec =? 115) with false by blia.
  repeat match goal with H : (_ =? _) = false |- _ => rewrite H; clear H end. cbn [orb].
  destruct (Z.eqb_spec spec 112) as [->|]; [by apply pointer_grows, Hroom; try done|].
  destruct (Z.eqb_spec spec 37) as [->|]; [injection Hm as <- <-; by apply EMIT_grows|].
  destruct (Z.eqb_spec spec 110) as [->|]; injection Hm as <- <-.
  { apply wp_ret. unfold grows. split; [done|lia]. }
  apply wp_bind. eapply wp_mono; [by apply EMIT_grows|]. intros _ s1 (Ha1 & Hp1 & Hn1). cbn beta.
  eapply wp_mono; [by apply EMIT_grows|]. unfold grows. intros _ s2 (Ha2 & Hp2 & Hn2). rewrite Ha2, Ha1. split; [done|lia].
Qed.

(** *** What a conversion reads *)

(** What follows the width. *)
Definition tail_ok (tl : list Z) : Prop := match tl with c :: _ => is_flag c = false /\ is_digit c = false /\ c <> 42 | [] => False end.
Lemma spec_facts c : is_spec c = true -> is_flag c = false /\ is_digit c = false /\ c <> 42 /\ c <> 108 /\ c <> 122.
Proof.
  unfold is_spec. intros [[[[Hf Hd]%orb_false_elim H1]%orb_false_elim H2]%orb_false_elim H3]%negb_true_iff%orb_false_elim.
  split_and!; [done|done|lia..].
Qed.
Lemma tail_facts len spec rest : len ∈ [[]; [108]; [108; 108]; [122]] -> is_spec spec = true ->
  tail_ok (len ++ spec :: rest) /\ exists long, scan_length (len ++ spec :: rest) = (long, spec :: rest).
Proof.
  intros Hlen (Hf & Hd & H1 & H2 & H3)%spec_facts.
  assert ((spec =? 108) = false) as E2 by lia. assert ((spec =? 122) = false) as E3 by lia.
  repeat (apply elem_of_cons in Hlen as [->|Hlen]); [| | | |by apply elem_of_nil in Hlen].
  - cbn [app tail_ok scan_length]. rewrite E2, E3. eauto.
  - cbn [app tail_ok scan_length Z.eqb Pos.eqb]. rewrite E2. eauto.
  - cbn [app tail_ok scan_length Z.eqb Pos.eqb]. eauto.
  - cbn [app tail_ok scan_length Z.eqb Pos.eqb]. eauto.
Qed.
Lemma scan_flags_skip fl tl f : forallb is_flag fl = true -> match tl with c :: _ => is_flag c = false | [] => True end ->
  exists f', scan_flags (fl ++ tl) f = (f', tl).
Proof.
  intros Hfl Htl. revert f. induction fl as [|c fl IH]; intros f; cbn [app forallb] in *.
  - exists f. destruct tl as [|c tl]; [done|]. unfold is_flag in Htl. cbn [scan_flags].
    repeat (apply orb_false_elim in Htl as [Htl ?]). by repeat match goal with H : (_ =? _) = false |- _ => rewrite H; clear H end.
  - apply andb_prop in Hfl as [Hc Hfl]. specialize (IH Hfl). clear Htl. cbn [scan_flags].
    repeat case_match; try apply IH. unfold is_flag in Hc. by repeat match goal with H : (_ =? _) = false |- _ => rewrite H in Hc; clear H end.
Qed.
Lemma scan_digits_read ds tl : forall w, forallb is_digit ds = true -> tail_ok tl -> 0 <= w ->
  digits_val 10 ((fun c => c - 48) <$> ds) w < 2^31 ->
  scan_digits (ds ++ tl) w = (digits_val 10 ((fun c => c - 48) <$> ds) w, tl).
Proof.
  induction ds as [|c ds IH]; intros w Hds Htl Hw Hv; cbn [app forallb] in *.
  - destruct tl as [|c tl]; [done|]. destruct Htl as (_ & Hd & _). unfold is_digit in Hd. cbn [scan_digits]. by rewrite Hd.
  - apply andb_prop in Hds as [Hc Hds]. cbn [scan_digits]. unfold is_digit in Hc. rewrite Hc. to_prop.
    change (digits_val 10 ((fun c => c - 48) <$> c :: ds) w) with (digits_val 10 ((fun c => c - 48) <$> ds) (w * 10 + (c - 48))) in *.
    assert (w * 10 + (c - 48) <= digits_val 10 ((fun c => c - 48) <$> ds) (w * 10 + (c - 48))) as Hmono.
    { apply digits_val_mono; [lia|]. apply Forall_fmap, List.Forall_forall. intros d Hd. rewrite forallb_forall in Hds.
      specialize (Hds d Hd). unfold is_digit in Hds. to_prop. cbn. lia. }
    rewrite s32_small by lia. apply IH; [done|done|lia|done].
Qed.
(** The character behind the flags is not one. *)
Lemma width_head w tl : width_ok w = true -> tail_ok tl -> match write_width w ++ tl with c :: _ => is_flag c = false | [] => True end.
Proof.
  intros Hw Htl. destruct w as [[|d ds]|]; cbn [write_width app].
  - destruct tl; [done|apply Htl].
  - cbn [width_ok List.hd forallb] in Hw. unfold is_digit, is_flag in *. to_prop. blia.
  - done.
Qed.
Lemma scan_width_reads w tl s n args' : width_ok w = true -> tail_ok tl -> width_of w (f_args s) = Some (n, args') ->
  scan_width (write_width w ++ tl) s = Done ((n, tl), Fmt (f_buf s) args').
Proof.
  intros Hw Htl Hn. destruct w as [ds|]; cbn [write_width width_of app] in *.
  - injection Hn as <- <-. cbn [width_ok] in Hw. apply andb_prop in Hw as [[Hds _]%andb_prop Hv%Z.ltb_lt].
    assert (scan_width (ds ++ tl) s = Done (scan_digits (ds ++ tl) 0, s)) as ->.
    { unfold scan_width. destruct ds as [|d ds]; cbn [app].
      - destruct tl as [|c tl]; [done|]. destruct Htl as (_ & _ & Hc). by replace (c =? 42) with false by blia.
      - cbn [forallb] in Hds. unfold is_digit in Hds. to_prop. by replace (d =? 42) with false by blia. }
    unfold width_val in *. rewrite scan_digits_read by (done || lia). by destruct s.
  - destruct (f_args s) as [|[v|] l] eqn:Ha; try done. injection Hn as <- <-. cbn [scan_width Z.eqb Pos.eqb].
    by rewrite (bind_Done _ _ _ _ _ (va_num_done v l s Ha)).
Qed.

(** A piece whose arguments are there is read, and stores what it needs at most. *)
Lemma piece_grows p rest s n args' : piece_ok p = true -> piece_most p (f_args s) = Some (n, args') -> f_pos s <= BUF_SIZE - 1 ->
  (unchecked p = true -> f_pos s + n <= BUF_SIZE - 1) -> exists c tl, write_piece p ++ rest = c :: tl /\
  returns (format_step c tl) s (fun r s' => r = rest /\ grows n args' s s').
Proof.
  intros Hok Hm Hs Hroom. destruct p as [c|fl w len spec]; cbn [write_piece piece_ok unchecked piece_most] in *.
  - injection Hm as <- <-. exists c, rest. split; [done|]. unfold format_step. rewrite Hok. apply wp_bind.
    eapply wp_mono; [by apply EMIT_grows|]. intros u s' Hs'. by apply wp_ret.
  - apply andb_prop in Hok as [[[Hfl Hw]%andb_prop Hlen%bool_decide_eq_true]%andb_prop Hspec].
    apply bind_Some in Hm as ([m args1] & Hwid & Hm). destruct (tail_facts len spec rest Hlen Hspec) as [Htl [long Hlong]].
    exists 37, ((fl ++ write_width w ++ len ++ [spec]) ++ rest). split; [done|]. rewrite <- !app_assoc. cbn [app]. unfold format_step. cbn [Z.eqb Pos.eqb negb].
    destruct (scan_flags_skip fl (write_width w ++ len ++ spec :: rest) no_flags Hfl (width_head w _ Hw Htl)) as [f Hf].
    rewrite Hf. apply wp_bind. eapply wp_Done; [by apply (scan_width_reads w _ s m args1)|]. cbn beta iota. rewrite Hlong.
    apply wp_bind. eapply wp_mono; [apply (convert_grows spec f m long (Fmt (f_buf s) args1) n args' Hm); [exact Hs|exact Hroom]|].
    intros u s' Hs'. apply wp_ret. by split.
Qed.

Lemma format_done ps : forall fuel pos s, forallb piece_ok ps = true -> fits pos ps (f_args s) = true ->
  f_pos s <= pos -> f_pos s <= BUF_SIZE - 1 -> (length ps <= fuel)%nat ->
  returns (format fuel (concat (write_piece <$> ps))) s (fun _ s' => f_pos s' <= BUF_SIZE - 1).
Proof.
  induction ps as [|p ps IH]; intros fuel pos s Hps Hfits Hpos Hs Hfuel; [by destruct fuel|].
  cbn [forallb fits length] in *. apply andb_prop in Hps as [Hp Hps]. destruct fuel as [|fuel]; [lia|].
  destruct (piece_most p (f_args s)) as [[n args']|] eqn:Hm; [|done]. apply andb_prop in Hfits as [Hroom Hfits].
  destruct (piece_grows p (concat (write_piece <$> ps)) s n args' Hp Hm Hs) as (c & tl & Hw & Hst).
  { intros Hu. rewrite Hu in Hroom. cbn [negb orb] in Hroom. to_prop. lia. }
  cbn [fmap list_fmap concat]. rewrite Hw. cbn [format]. apply wp_bind, wp_get. case_match; [by apply wp_ret|].
  apply wp_bind. eapply wp_mono; [exact Hst|]. intros rest s' [-> (Ha & Hp' & Hn)]. cbn beta.
  apply (IH fuel (pos + n)); [done|by rewrite Ha|lia|done|lia].
Qed.
Lemma pieces_length ps : (length ps <= length (concat (write_piece <$> ps)))%nat.
Proof.
  induction ps as [|p ps IH]; [done|]. cbn [fmap list_fmap concat]. rewrite length_app. cbn [length].
  assert (1 <= length (write_piece p))%nat; [|lia]. destruct p; cbn; lia.
Qed.
Lemma formatted_done ps args : forallb piece_ok ps = true -> fits 0 ps args = true ->
  exists text, formatted (concat (write_piece <$> ps)) args = Done text /\ Z.of_nat (length text) <= BUF_SIZE - 1.
Proof.
  intros Hps Hfits. destruct (returns_inv _ _ _ (format_done ps _ 0 (Fmt [] args) Hps Hfits (Z.le_refl _) ltac:(done) (pieces_length ps)))
    as (u & s' & Hf & Hp). exists (f_buf s'). split; [|exact Hp]. unfold formatted. rewrite Hf.
  by replace (_ <=? _) with false by (unfold f_pos in *; blia).
Qed.
End Formats.

(** C29: formatting is safe and ends. No format and no arguments make its loop run for
    ever. And a format written with any of the conversions, flags, widths and lengths
    of the code returns: when the arguments that its pieces take are there, and when
    every number still has room for 65 characters or its width (a pointer for 66)
    behind the most that is printed before it, at most 2047 characters are made; what
    fits the caller's buffer is stored with a terminator, and nothing behind it. *)
Theorem formatting_ends :
  (forall fmt args, formatted fmt args <> OutOfFuel) /\
  (forall fuel a size ps args (s : kout kstate),
     forallb Formats.piece_ok ps = true -> Formats.fits 0 ps args = true -> 0 < size < 2^64 ->
     exists text, Z.of_nat (length text) < BUF_SIZE /\
       ksprintf fuel a size (concat (Formats.write_piece <$> ps)) args s =
       Done (Z.of_nat (length text), over (store_kernel a (take (Z.to_nat (size - 1)) text ++ [0]) (o_kernel s)) s)).
Proof.
  split.
  - intros fmt args. unfold formatted. pose proof (format_ends (length fmt) fmt ltac:(lia) (Fmt [] args)) as He.
    destruct (format _ _ _) as [[u s]| | | |]; try discriminate; [|done]. by destruct (_ <=? _).
  - intros fuel a size ps args s Hps Hfits Hs. destruct (Formats.formatted_done ps args Hps Hfits) as (text & Hf & Hl).
    exists text. split; [lia|]. apply ksprintf_formatted; [done|lia|done].
Qed.

(** A number printed with %lld is read back by strtol(): the same number, and
    the reading stops where the number ends. *)
Theorem printed_number_is_read v m a rest fuel :
  - 2^63 < v < 2^63 -> no_digit rest -> (65 < fuel)%nat ->
  exists text, formatted (write_directive (Field false false false 0 true Signed)) [Num v] = Done text /\
    (cstr m a (text ++ rest) -> strtol fuel m a 10 = Some (v, a + Z.of_nat (length text))).
Proof.
  intros Hv Hrest Hf. assert (s64 v = v) as Hs64 by (apply s64_small; lia).
  assert (0 <= Z.abs v < 2^64) as Habs by lia. pose proof (length_digits 64 10 (Z.abs v)) as Hlen.
  set (sign := if v <? 0 then [45] else []). set (ds := digits 64 10 (Z.abs v)) in *.
  assert (render [Field false false false 0 true Signed] [Num v] = Some (sign ++ dec_bytes ds)) as Hr.
  { cbn [render takes print_field]. unfold signed_arg, mbind, option_bind. rewrite Hs64, (number_dec _ Habs). fold sign ds.
    unfold fill. replace (Z.to_nat _) with 0%nat by lia. by rewrite app_nil_r. }
  exists (sign ++ dec_bytes ds). split.
  - rewrite <- (app_nil_r (write_directive _)). apply (formatted_renders [Field false false false 0 true Signed] [Num v]);
      [|by repeat constructor|exact Hr|].
    + constructor; [cbn; lia|done].
    + unfold BUF_SIZE, dec_bytes. rewrite length_app, length_fmap. unfold sign. destruct (v <? 0); cbn [length]; lia.
  - intros Hc. rewrite <- app_assoc in Hc.
    assert (digits_val 10 ds 0 = Z.abs v) as Hval by (apply digits_value; lia).
    rewrite (strtol_decimal fuel m a 0 (v <? 0) ds rest); rewrite ?Hval; [|exact Hc| |lia|exact Hrest|lia|lia].
    + unfold sign, dec_bytes. rewrite length_app, length_fmap. do 2 f_equal; destruct (Z.ltb_spec v 0); cbn [length b2z]; lia.
    + apply digits_small. split; [lia|]. apply Z.lt_le_trans with (2^64); [lia|by vm_compute].
Qed.

(** ** Witnesses *)

(** n=%04x %s *)
Definition sample_format : list directive :=
  [Literal 110; Literal 61; Field false false true 4 false (Hex false); Literal 32; Field false false false 0 false Text].
Definition sample_args : list arg := [Num 255; Str (Some (bytes_of "ok"))].
Definition sample_text : list Z := bytes_of "n=00ff ok".

Lemma ksprintf_renders_witness : exists s',
  ksprintf 10 0x5000 8 (bytes_of "n=%04x %s") sample_args (Kout kernel_boot 0 0 0) = Done (9, s') /\
  load_bytes (kmem (k_heap (o_kernel s'))) 0x5000 8 = bytes_of "n=00ff " ++ [0].
Proof.
  eexists. split.
  - refine (ksprintf_renders 10 0x5000 8 sample_format sample_args sample_text (Kout kernel_boot 0 0 0) _ _ eq_refl _ _).
    + repeat constructor; discriminate.
    + repeat constructor; discriminate.
    + reflexivity.
    + split; reflexivity.
  - by vm_compute.
Defined.
(** %-*zd|%#b %q%p%n *)
Definition general_format : list Formats.piece :=
  [Formats.Conv [45] Formats.Star [122] 100; Formats.Plain 124; Formats.Conv [35] (Formats.Digits []) [] 98; Formats.Plain 32;
   Formats.Conv [] (Formats.Digits []) [] 113; Formats.Conv [] (Formats.Digits []) [] 112; Formats.Conv [] (Formats.Digits []) [] 110].
Definition general_args : list arg := [Num 4; Num (-7); Num 5; Num 255].
Lemma formatting_ends_witness :
  (exists text, Z.of_nat (length text) < BUF_SIZE /\
    ksprintf 10 0x5000 8 (bytes_of "%-*zd|%#b %q%p%n") general_args (Kout kernel_boot 0 0 0) =
    Done (Z.of_nat (length text), over (store_kernel 0x5000 (take 7 text ++ [0]) kernel_boot) (Kout kernel_boot 0 0 0))) /\
  formatted (bytes_of "%-*zd|%#b %q%p%n") general_args = Done (bytes_of "-7  |101 %q0x00000000000000ff").
Proof.
  split; [|by vm_compute].
  apply (proj2 formatting_ends 10%nat 0x5000 8 general_format general_args (Kout kernel_boot 0 0 0)); [by vm_compute|by vm_compute|].
  split; reflexivity.
Defined.
Lemma printed_number_is_read_witness :
  formatted (bytes_of "%lld") [Num (-1905)] = Done (bytes_of "-1905") /\
  strtol 70 (store_bytes (fun _ => 0) 64 (bytes_of "-1905;" ++ [0])) 64 10 = Some (-1905, 69).
Proof.
  destruct (printed_number_is_read (-1905) (store_bytes (fun _ => 0) 64 (bytes_of "-1905;" ++ [0])) 64 [59] 70) as (text & Ht & Hs).
  - split; reflexivity.
  - right. reflexivity.
  - lia.
  - assert (formatted (bytes_of "%lld") [Num (-1905)] = Done (bytes_of "-1905")) as Hf by by vm_compute.
    assert (text = bytes_of "-1905") as ->.
    { change (bytes_of "%lld") with (write_directive (Field false false false 0 true Signed)) in Hf. congruence. }
    split; [exact Hf|]. apply Hs. apply cstr_store_bytes. repeat constructor; discriminate.
Defined.
