(* ===== verification/Arith.v ===== *)
(** * Shell arithmetic (the evaluator of src/src/shell/sh.c)

    The recursive descent evaluator of $((expr)), over the characters of the
    expression in memory; the state of the computations is the pointer into it.
    The reference is a syntax of expressions with its value and its text. *)

From S2P Require Import Prelude Mem Strings Printf.

Definition SH_VAR_NAMSZ : Z := 64.

(** ** The evaluator *)

(** A binary operator: the characters it takes and its effect on two values;
    [None] is an effect that C leaves undefined. *)
Definition operator : Type := Z * (Z -> Z -> option Z).

Definition divide (q : Z -> Z -> Z) (v r : Z) : option Z :=
  if r =? 0 then Some 0 else if (v =? - 2^63) && (r =? -1) then None else Some (q v r).
Definition mul_op (c d : Z) : option operator :=
  if c =? 42 then Some (1, fun v r => Some (s64 (v * r)))
  else if c =? 47 then Some (1, divide Z.quot)
  else if c =? 37 then Some (1, divide Z.rem)
  else None.
Definition add_op (c d : Z) : option operator :=
  if c =? 43 then Some (1, fun v r => Some (s64 (v + r)))
  else if c =? 45 then Some (1, fun v r => Some (s64 (v - r)))
  else None.
Definition shift (f : Z -> Z -> Z) (v r : Z) : option Z := if (0 <=? r) && (r <? 64) then Some (s64 (f v r)) else None.
Definition shift_op (c d : Z) : option operator :=
  if (c =? 60) && (d =? 60) then Some (2, shift Z.shiftl)
  else if (c =? 62) && (d =? 62) then Some (2, shift Z.shiftr)
  else None.
Definition compare (f : Z -> Z -> bool) (v r : Z) : option Z := Some (b2z (f v r)).
Definition rel_op (c d : Z) : option operator :=
  if c =? 60 then Some (if d =? 61 then (2, compare Z.leb) else (1, compare Z.ltb))
  else if c =? 62 then Some (if d =? 61 then (2, compare Z.geb) else (1, compare Z.gtb))
  else None.
Definition eq_op (c d : Z) : option operator :=
  if (c =? 61) && (d =? 61) then Some (2, compare Z.eqb)
  else if (c =? 33) && (d =? 61) then Some (2, compare (fun v r => negb (v =? r)))
  else None.
Definition bits (f : Z -> Z -> Z) (v r : Z) : option Z := Some (f v r).
Definition band_op (c d : Z) : option operator := if (c =? 38) && negb (d =? 38) then Some (1, bits Z.land) else None.
Definition bxor_op (c d : Z) : option operator := if c =? 94 then Some (1, bits Z.lxor) else None.
Definition bor_op (c d : Z) : option operator := if (c =? 124) && negb (d =? 124) then Some (1, bits Z.lor) else None.
Definition truth (f : bool -> bool -> bool) (v r : Z) : option Z := Some (b2z (f (nonzero v) (nonzero r))).
Definition land_op (c d : Z) : option operator := if (c =? 38) && (d =? 38) then Some (2, truth andb) else None.
Definition lor_op (c d : Z) : option operator := if (c =? 124) && (d =? 124) then Some (2, truth orb) else None.

Section arith.
(** The memory of the expression, and the shell's variables. *)
Context (m : mem) (var_get : list Z -> option (list Z)).

Definition peek (k : Z) : M Z Z := gets (fun p => m (p + k)).
Definition skip (k : Z) : M Z unit := modify (fun p => p + k).

(** The loop of each level: operands of the next level and its operators.
    [fuel] bounds every loop. *)
Definition level_loop (fuel : nat) (next : M Z Z) (ops : Z -> Z -> option operator) (v : Z) : M Z Z :=
  iter fuel (fun v =>
    c ← peek 0;
    d ← peek 1;
    match ops c d with
    | Some (n, f) => skip n;; r ← next; match f v r with Some v' => mret (inl v') | None => ub end
    | None => mret (inr v)
    end) v.
Definition level (ops : Z -> Z -> option operator) (next : nat -> M Z Z) (fuel : nat) : M Z Z :=
  v ← next fuel; level_loop fuel (next fuel) ops v.

Definition name_char (c : Z) : bool :=
  ((97 <=? c) && (c <=? 122)) || ((65 <=? c) && (c <=? 90)) || ((48 <=? c) && (c <=? 57)) || (c =? 95).
(** The characters while [test] holds; the array for the name has 64. *)
Definition read_name (fuel : nat) (test : Z -> bool) : M Z (list Z) :=
  name ← iter fuel (fun name =>
    c ← peek 0; if nonzero c && test c then skip 1;; mret (inl (name ++ [c])) else mret (inr name)) [];
  if SH_VAR_NAMSZ <=? Z.of_nat (length name) then ub else mret name.
Definition variable_value (fuel : nat) (name : list Z) : M Z Z :=
  match var_get name with
  | None => mret 0
  | Some s => match strtol fuel (bytes_at (s ++ [0])) 0 0 with Some (v, _) => mret v | None => no_fuel end
  end.
(** Past the parenthesis that closes the open one. *)
Definition skip_parens (fuel : nat) : M Z unit :=
  iter fuel (fun depth =>
    c ← peek 0;
    if nonzero c && nonzero depth then
      skip 1;; mret (inl (if c =? 40 then depth + 1 else if c =? 41 then depth - 1 else depth))
    else mret (inr tt)) 1.

Section primary.
(** The evaluator inside parentheses and the next primary. *)
Context (fuel : nat) (eval primary : M Z Z).
Definition primary_at : M Z Z :=
  c ← peek 0;
  if c =? 40 then
    skip 1;;
    p ← get;
    v ← eval;
    put p;;
    skip_parens fuel;;
    mret v
  else if c =? 45 then skip 1;; v ← primary; mret (s64 (- v))
  else if c =? 43 then skip 1;; primary
  else if c =? 126 then skip 1;; v ← primary; mret (Z.lnot v)
  else if c =? 33 then skip 1;; v ← primary; mret (b2z (v =? 0))
  else if c =? 36 then
    skip 1;;
    c ← peek 0;
    if c =? 123 then
      skip 1;;
      name ← read_name fuel (fun c => negb (c =? 125));
      c ← peek 0;
      (if nonzero c then skip 1 else mret tt);;
      variable_value fuel name
    else name ← read_name fuel name_char; variable_value fuel name
  else
    p ← get;
    match strtol fuel m p 0 with Some (v, e) => put e;; mret v | None => no_fuel end.
Definition primary_body : M Z Z :=
  iter fuel (fun _ : unit => c ← peek 0; if c =? 32 then skip 1;; mret (inl tt) else mret (inr tt)) tt;;
  primary_at.
End primary.

Definition arith_lor (primary : nat -> M Z Z) : nat -> M Z Z :=
  let arith_mul := level mul_op primary in
  let arith_add := level add_op arith_mul in
  let arith_shift := level shift_op arith_add in
  let arith_rel := level rel_op arith_shift in
  let arith_eq := level eq_op arith_rel in
  let arith_band := level band_op arith_eq in
  let arith_bxor := level bxor_op arith_band in
  let arith_bor := level bor_op arith_bxor in
  let arith_land := level land_op arith_bor in
  level lor_op arith_land.
Fixpoint arith_primary (fuel : nat) : M Z Z := fun p =>
  match fuel with
  | O => OutOfFuel
  | S k => primary_body k (arith_lor (fun _ => arith_primary k) k) (arith_primary k) p
  end.
Definition arith_eval (fuel : nat) (expr : Z) : outcome Z :=
  match arith_lor arith_primary fuel expr with
  | Done (v, _) => Done v
  | Panicked msg => Panicked msg
  | Undefined => Undefined
  | Blocked => Blocked
  | OutOfFuel => OutOfFuel
  end.
End arith.

(** ** The reference: expressions, their values and their text *)

Inductive unop : Type := Minus | Plus | Complement | Negation.
Inductive binop : Type :=
| Mul | Div | Mod | Add | Sub | Shl | Shr | Less | LessEq | Greater | GreaterEq | Equal | Differ | BitAnd | BitXor | BitOr | And | Or.
Inductive aexp : Type := Const (n : Z) | Var (x : list Z) | Un (u : unop) (e : aexp) | Bin (o : binop) (e1 e2 : aexp).

Definition unop_char (u : unop) : Z := match u with Minus => 45 | Plus => 43 | Complement => 126 | Negation => 33 end.
Definition unop_value (u : unop) (v : Z) : Z :=
  match u with Minus => s64 (- v) | Plus => v | Complement => Z.lnot v | Negation => b2z (v =? 0) end.
Definition binop_text (o : binop) : list Z :=
  match o with
  | Mul => [42] | Div => [47] | Mod => [37] | Add => [43] | Sub => [45] | Shl => [60; 60] | Shr => [62; 62]
  | Less => [60] | LessEq => [60; 61] | Greater => [62] | GreaterEq => [62; 61] | Equal => [61; 61] | Differ => [33; 61]
  | BitAnd => [38] | BitXor => [94] | BitOr => [124] | And => [38; 38] | Or => [124; 124]
  end.
(** How loosely an operator binds, from the first level of the evaluator to the last. *)
Definition binop_level (o : binop) : nat :=
  match o with
  | Mul | Div | Mod => 1 | Add | Sub => 2 | Shl | Shr => 3 | Less | LessEq | Greater | GreaterEq => 4 | Equal | Differ => 5
  | BitAnd => 6 | BitXor => 7 | BitOr => 8 | And => 9 | Or => 10
  end.
(** The value in C, 64 bits wide; a division by zero gives zero. *)
Definition binop_value (o : binop) (v r : Z) : option Z :=
  match o with
  | Mul => Some (s64 (v * r)) | Add => Some (s64 (v + r)) | Sub => Some (s64 (v - r))
  | Div => divide Z.quot v r | Mod => divide Z.rem v r | Shl => shift Z.shiftl v r | Shr => shift Z.shiftr v r
  | Less => Some (b2z (v <? r)) | LessEq => Some (b2z (v <=? r))
  | Greater => Some (b2z (r <? v)) | GreaterEq => Some (b2z (r <=? v))
  | Equal => Some (b2z (v =? r)) | Differ => Some (b2z (negb (v =? r)))
  | BitAnd => Some (Z.land v r) | BitXor => Some (Z.lxor v r) | BitOr => Some (Z.lor v r)
  | And => Some (b2z (nonzero v && nonzero r)) | Or => Some (b2z (nonzero v || nonzero r))
  end.

(** The text of an expression where operators up to a level can stand: the fewest
    parentheses, and no blanks. *)
Fixpoint show (n : nat) (e : aexp) : list Z :=
  match e with
  | Const k => number_text false 10 k
  | Var x => 36 :: x
  | Un u e => unop_char u :: show 0 e
  | Bin o e1 e2 =>
      let t := show (binop_level o) e1 ++ binop_text o ++ show (binop_level o - 1) e2 in
      if (binop_level o <=? n)%nat then t else [40] ++ t ++ [41]
  end.
Fixpoint well_formed (e : aexp) : Prop :=
  match e with
  | Const k => 0 <= k < 2^63
  | Var x => x <> [] /\ Forall (fun c => name_char c = true) x /\ Z.of_nat (length x) < SH_VAR_NAMSZ
  | Un _ e => well_formed e
  | Bin _ e1 e2 => well_formed e1 /\ well_formed e2
  end.

(** ** Computations with enough fuel *)

Definition runs (f : nat -> M Z Z) (p v p' : Z) : Prop := exists N, forall k, (N <= k)%nat -> f k p = Done (v, p').

Definition ops_of (n : nat) : Z -> Z -> option operator :=
  match n with
  | 1 => mul_op | 2 => add_op | 3 => shift_op | 4 => rel_op | 5 => eq_op | 6 => band_op | 7 => bxor_op | 8 => bor_op
  | 9 => land_op | 10 => lor_op | _ => fun _ _ => None
  end%nat.

Section properties.
Context (m : mem) (var_get : list Z -> option (list Z)).

Fixpoint tower (n : nat) : nat -> M Z Z :=
  match n with O => arith_primary m var_get | S n' => level m (ops_of (S n')) (tower n') end.

(** The loop of level [n + 1] from a value and a place to the end. *)
Inductive looped (n : nat) : Z -> Z -> Z -> Z -> Prop :=
| looped_stop v p : ops_of (S n) (m p) (m (p + 1)) = None -> looped n v p v p
| looped_step v p k f r p1 v1 v2 p2 : ops_of (S n) (m p) (m (p + 1)) = Some (k, f) ->
    runs (tower n) (p + k) r p1 -> f v r = Some v1 -> looped n v1 p1 v2 p2 -> looped n v p v2 p2.

Lemma peek_run k p : peek m k p = Done (m (p + k), p).
Proof. done. Qed.
Lemma looped_runs n v p v' p' : looped n v p v' p' ->
  exists N, forall k j, (N <= k)%nat -> (N <= j)%nat -> iter j (fun v =>
    c ← peek m 0; d ← peek m 1;
    match ops_of (S n) c d with
    | Some (i, f) => skip i;; r ← tower n k; match f v r with Some v' => mret (inl v') | None => ub end
    | None => mret (inr v)
    end) v p = Done (v', p').
Proof.
  induction 1 as [v p Hn|v p i f r p1 v1 v2 p2 Ho [N1 Hr] Hf _ [N2 IH]].
  - exists 1%nat. intros k [|j] _ Hj; [lia|]. cbn [iter]. unfold mbind, M_bind, peek, gets. rewrite Z.add_0_r. by rewrite Hn.
  - exists (S (N1 + N2)). intros k [|j] Hk Hj; [lia|]. cbn [iter].
    rewrite (bind_Done _ _ p (inl v1) p1); [apply IH; lia|].
    unfold mbind, M_bind, peek, gets. rewrite Z.add_0_r, Ho. unfold skip, modify. cbn beta iota.
    rewrite Hr by lia. by rewrite Hf.
Qed.
Lemma runs_level n p v0 p0 v p' : runs (tower n) p v0 p0 -> looped n v0 p0 v p' -> runs (tower (S n)) p v p'.
Proof.
  intros [N1 Hr] [N2 Hl]%looped_runs. exists (N1 + N2)%nat. intros k Hk. cbn [tower]. unfold level, level_loop.
  rewrite (bind_Done _ _ p v0 p0) by (apply Hr; lia). apply Hl; lia.
Qed.

(** ** The text of an expression in memory *)

Lemma cstr_app p l rest : cstr m p (l ++ rest) -> cstr m (p + Z.of_nat (length l)) rest.
Proof.
  revert p. induction l as [|c l IH]; intros p; cbn [app length]; [by rewrite Z.add_0_r|].
  intros (_ & _ & Hc)%cstr_cons. apply IH in Hc. by replace (p + Z.of_nat (S (length l))) with (p + 1 + Z.of_nat (length l)) by lia.
Qed.
(** What follows an operand: no character of a name or number, and no operator of
    the levels up to [n]. *)
Definition follow (n : nat) (p : Z) : Prop :=
  name_char (m p) = false /\ forall j, (1 <= j <= n)%nat -> ops_of j (m p) (m (p + 1)) = None.
Lemma follow_le n n' p : follow n p -> (n' <= n)%nat -> follow n' p.
Proof. intros [? Hn] Hle. split; [done|]. intros j Hj. apply Hn. lia. Qed.

(** First characters of operands. *)
Definition operand_char (c : Z) : Prop :=
  name_char c = true \/ c = 36 \/ c = 40 \/ c = 45 \/ c = 43 \/ c = 126 \/ c = 33.
Lemma operand_other c : operand_char c -> c <> 60 /\ c <> 61 /\ c <> 62 /\ c <> 38 /\ c <> 124 /\ c <> 32 /\ c <> 0.
Proof. unfold operand_char, name_char. intros [Hc|Hc]; [|lia]. to_prop. lia. Qed.
Lemma name_char_false c : name_char c = true -> 48 <= c <= 122.
Proof. unfold name_char. intros Hc. to_prop. lia. Qed.

(** An operator before an operand is the one of its level, and no tighter one. *)
Lemma operator_at o p c rest : cstr m p (binop_text o ++ c :: rest) -> operand_char c ->
  follow (binop_level o - 1) p /\
  exists k f, ops_of (binop_level o) (m p) (m (p + 1)) = Some (k, f) /\ k = Z.of_nat (length (binop_text o)) /\
    forall v r, f v r = binop_value o v r.
Proof.
  intros Hc (H1 & H2 & H3 & H4 & H5 & H6 & H7)%operand_other.
  assert (forall a b l, cstr m p (a :: b :: l) -> m p = a /\ m (p + 1) = b) as Htwo.
  { intros a b l (_ & Ha & (_ & Hb & _)%cstr_cons)%cstr_cons. done. }
  assert (exists a b, m p = a /\ m (p + 1) = b /\ (binop_text o = [a] /\ b = c \/ binop_text o = [a; b])) as (a & b & Ha & Hb & Ht).
  { destruct o; cbn [binop_text app] in *; destruct (Htwo _ _ _ Hc) as [Ha Hb]; eexists _, _; split_and!; eauto. }
  unfold follow. rewrite Ha, Hb. clear Ha Hb Hc Htwo.
  apply Z.eqb_neq in H1 as E1, H2 as E2, H3 as E3, H4 as E4, H5 as E5.
  split; [split|].
  - by destruct o, Ht as [[[=] ->]|[=]]; subst.
  - intros j Hj. destruct o, Ht as [[[=] ->]|[=]]; subst; cbn in Hj;
      (do 10 (destruct j as [|j]; [try lia; unfold ops_of, shift_op, rel_op, eq_op, band_op, bor_op; by rewrite ?E1, ?E2, ?E3, ?E4, ?E5|])); lia.
  - destruct o, Ht as [[[=] ->]|[=]]; subst; cbn [binop_level ops_of]; unfold rel_op, band_op, bor_op; rewrite ?E2, ?E4, ?E5;
      (eexists _, _; split_and!; [reflexivity|reflexivity|]); intros v r; try reflexivity;
      unfold compare; cbn [binop_value]; do 2 f_equal; [apply Z.gtb_ltb|apply Z.geb_leb].
Qed.
Lemma number_head k : 0 <= k < 2^63 -> exists c l, number_text false 10 k = c :: l /\ 48 <= c <= 57.
Proof.
  intros Hk. unfold number_text. destruct (Z.eq_dec k 0) as [->|]; [by exists 48, []|].
  destruct (digits_head 64 k) as (d & ds & -> & Hd).
  - split; [lia|]. apply Z.lt_trans with (2^63); [lia|by vm_compute].
  - exists (48 + d), (dig false <$> ds). split; [|lia]. cbn [fmap list_fmap]. unfold dig at 1. by replace (d <? 10) with true by blia.
Qed.
Lemma show_head n e : well_formed e -> exists c l, show n e = c :: l /\ operand_char c.
Proof.
  revert n. induction e as [k|x|u e IH|o e1 IH1 e2 IH2]; intros n Hwf; cbn [show well_formed] in *.
  - destruct (number_head k Hwf) as (c & l & -> & Hc). exists c, l. split; [done|]. left. unfold name_char. blia.
  - exists 36, x. split; [done|]. unfold operand_char. auto.
  - exists (unop_char u), (show 0 e). split; [done|]. unfold operand_char. destruct u; cbn; auto 8.
  - destruct Hwf as [H1 H2]. destruct (_ <=? n)%nat.
    + destruct (IH1 (binop_level o) H1) as (c & l & -> & Hc). by exists c, (l ++ binop_text o ++ show (binop_level o - 1) e2).
    + eexists 40, _. split; [done|]. unfold operand_char. auto.
Qed.

(** *** Primaries *)

Definition skip_step (depth : Z) : M Z (Z + unit) :=
  c ← peek m 0;
  if nonzero c && nonzero depth then
    skip 1;; mret (inl (if c =? 40 then depth + 1 else if c =? 41 then depth - 1 else depth))
  else mret (inr tt).
(** Text after which the depth is the same, however many parentheses it has. *)
Definition balanced (l : list Z) : Prop := forall p depth j rest, cstr m p (l ++ rest) -> 1 <= depth ->
  iter (length l + j) skip_step depth p = iter j skip_step depth (p + Z.of_nat (length l)).
Lemma skip_char c depth p j rest : cstr m p (c :: rest) -> 1 <= depth ->
  iter (S j) skip_step depth p = iter j skip_step (if c =? 40 then depth + 1 else if c =? 41 then depth - 1 else depth) (p + 1).
Proof.
  intros (Hc & Hm & _)%cstr_cons Hd. cbn [iter].
  rewrite (bind_Done (skip_step depth) _ p (inl (if c =? 40 then depth + 1 else if c =? 41 then depth - 1 else depth)) (p + 1)); [done|].
  unfold skip_step. rewrite (bind_Done _ _ p c p) by (unfold peek, gets; by rewrite Z.add_0_r, Hm).
  unfold nonzero. replace (c =? 0) with false by blia. by replace (depth =? 0) with false by blia.
Qed.
Lemma balanced_app l1 l2 : balanced l1 -> balanced l2 -> balanced (l1 ++ l2).
Proof.
  intros H1 H2 p depth j rest Hc Hd. rewrite length_app, <- Nat.add_assoc. rewrite <- app_assoc in Hc.
  rewrite (H1 p depth _ (l2 ++ rest)), (H2 _ depth j rest); [f_equal; lia|by apply cstr_app|done..].
Qed.
Lemma balanced_plain l : Forall (fun c => c <> 40 /\ c <> 41) l -> balanced l.
Proof.
  induction 1 as [|c l [H1 H2] _ IH]; intros p depth j rest Hc Hd; [cbn; by rewrite Z.add_0_r|].
  cbn [length app Nat.add] in *. rewrite (skip_char c depth p _ (l ++ rest)) by done.
  replace (c =? 40) with false by blia. replace (c =? 41) with false by blia. apply cstr_cons in Hc as (_ & _ & Hc).
  rewrite (IH (p + 1) depth j rest) by done. f_equal. lia.
Qed.
Lemma balanced_parens l : balanced l -> balanced ([40] ++ l ++ [41]).
Proof.
  intros Hl p depth j rest Hc Hd. cbn [app] in *. rewrite <- app_assoc in Hc. rewrite length_cons, length_app. cbn [length].
  replace (S (length l + 1) + j)%nat with (S (length l + S j)) by lia.
  rewrite (skip_char 40 depth p _ (l ++ [41] ++ rest)) by done. apply cstr_cons in Hc as (_ & _ & Hc). cbn [Z.eqb Pos.eqb].
  rewrite (Hl (p + 1) (depth + 1) (S j) ([41] ++ rest)) by (try done; lia). apply cstr_app in Hc.
  rewrite (skip_char 41 (depth + 1) _ j rest) by (try done; lia). cbn [Z.eqb Pos.eqb]. f_equal; lia.
Qed.
Lemma balanced_show n e : well_formed e -> balanced (show n e).
Proof.
  revert n. induction e as [k|x|u e IH|o e1 IH1 e2 IH2]; intros n Hwf; cbn [show well_formed] in *.
  - apply balanced_plain. rewrite number_dec by lia. unfold dec_bytes. apply Forall_fmap.
    eapply Forall_impl; [|apply digits_small].
    + intros d Hd. cbn in *. lia.
    + split; [lia|]. apply Z.lt_trans with (2^63); [lia|by vm_compute].
  - apply balanced_plain. constructor; [lia|]. destruct Hwf as (_ & Hx & _).
    eapply Forall_impl; [|exact Hx]. intros c Hc%name_char_false. lia.
  - change (unop_char u :: show 0 e) with ([unop_char u] ++ show 0 e). apply balanced_app; [|by apply IH].
    apply balanced_plain. constructor; [|done]. by destruct u.
  - destruct Hwf as [H1 H2].
    assert (balanced (show (binop_level o) e1 ++ binop_text o ++ show (binop_level o - 1) e2)) as Ht.
    { apply balanced_app; [by apply IH1|]. apply balanced_app; [|by apply IH2]. apply balanced_plain.
      destruct o; repeat constructor; discriminate. }
    destruct (_ <=? n)%nat; [done|by apply balanced_parens].
Qed.
(** *** Numbers *)

Lemma skip_blanks_ends mm L s fuel : (forall x, L <= x -> mm x = 0) -> L - s < Z.of_nat fuel -> (0 < fuel)%nat ->
  exists s', s <= s' /\ forall k, (fuel <= k)%nat -> skip_blanks k mm s = Some s'.
Proof.
  intros HL. revert s. induction fuel as [|fuel IH]; intros s Hf Hpos; [lia|].
  destruct (is_blank (mm s)) eqn:Hb.
  - assert (s < L) by (destruct (Z.lt_ge_cases s L); [done|rewrite (HL s) in Hb; [discriminate Hb|done]]).
    destruct (IH (s + 1)) as (s' & Hs & Hk); [lia|lia|]. exists s'. split; [lia|].
    intros [|k] Hle; [lia|]. cbn [skip_blanks]. rewrite Hb. apply Hk. lia.
  - exists s. split; [lia|]. intros [|k] Hle; [lia|]. cbn [skip_blanks]. by rewrite Hb.
Qed.
Lemma strtol_digits_ends mm L s base v fuel : (forall x, L <= x -> mm x = 0) -> L - s < Z.of_nat fuel -> (0 < fuel)%nat ->
  exists r, forall k, (fuel <= k)%nat -> strtol_digits k mm s base v = Some r.
Proof.
  intros HL. revert s v. induction fuel as [|fuel IH]; intros s v Hf Hpos; [lia|].
  destruct (nonzero (mm s)) eqn:Hn; [destruct (strtol_digit (mm s)) as [d|] eqn:Hd; [destruct (base <=? d) eqn:Hb|]|].
  2: { assert (s < L) by (destruct (Z.lt_ge_cases s L); [done|rewrite (HL s) in Hn; [discriminate Hn|done]]).
    destruct (IH (s + 1) (s64 (v * base + d))) as (r & Hk); [lia|lia|]. exists r.
    intros [|k] Hle; [lia|]. cbn [strtol_digits]. rewrite Hn, Hd, Hb. apply Hk. lia. }
  all: exists (v, s); intros [|k] Hle; [lia|]; cbn [strtol_digits]; by rewrite ?Hn, ?Hd, ?Hb.
Qed.
Lemma strtol_ends mm L fuel : (forall x, L <= x -> mm x = 0) -> L < Z.of_nat fuel -> (0 < fuel)%nat ->
  exists r, forall k, (fuel <= k)%nat -> strtol k mm 0 0 = Some r.
Proof.
  intros HL Hf Hpos. destruct (skip_blanks_ends mm L 0 fuel HL ltac:(lia) Hpos) as (s0 & Hs0 & Hsk).
  destruct (strtol_sign mm s0) as [neg s1] eqn:Hsg. destruct (strtol_base mm s1 0) as [b s2] eqn:Hb.
  assert (s0 <= s1) by (unfold strtol_sign in Hsg; repeat case_match; simplify_eq; lia).
  assert (s1 <= s2) by (unfold strtol_base in Hb; repeat case_match; simplify_eq; lia).
  destruct (strtol_digits_ends mm L s2 b 0 fuel HL ltac:(lia) Hpos) as ([v e] & Hd).
  eexists. intros k Hk. unfold strtol. rewrite (Hsk k Hk). unfold mbind, option_bind. rewrite Hsg, Hb, (Hd k Hk). done.
Qed.

(** What a variable stands for: the number its value begins with, or zero. *)
Definition var_value (x : list Z) : Z :=
  match var_get x with
  | None => 0
  | Some s => match strtol (length s + 1) (bytes_at (s ++ [0])) 0 0 with Some (v, _) => v | None => 0 end
  end.
Lemma variable_runs x : exists N, forall k p, (N <= k)%nat -> variable_value var_get k x p = Done (var_value x, p).
Proof.
  unfold variable_value, var_value. destruct (var_get x) as [s|]; [|by exists 0%nat].
  destruct (strtol_ends (bytes_at (s ++ [0])) (Z.of_nat (length s)) (length s + 1)) as ([v e] & Hr).
  - intros y Hy. unfold bytes_at. rewrite lookup_app_r by lia. by destruct (Z.to_nat y - length s)%nat as [|[]].
  - lia.
  - lia.
  - exists (length s + 1)%nat. intros k p Hk. by rewrite !Hr by lia.
Qed.

Lemma no_digit_char c : name_char c = false -> strtol_digit c = None /\ is_x c = false.
Proof.
  unfold name_char, strtol_digit, is_x. intros Hc.
  assert ((48 <=? c) && (c <=? 57) = false /\ (97 <=? c) && (c <=? 122) = false /\ (65 <=? c) && (c <=? 90) = false) as (H1 & H2 & H3).
  { to_prop. split_and!; apply andb_false_iff; rewrite ?Z.leb_gt in *; lia. }
  rewrite H1. replace ((97 <=? c) && (c <=? 102)) with false by blia. replace ((65 <=? c) && (c <=? 70)) with false by blia.
  split; [done|blia].
Qed.
Lemma strtol_const n p rest k : 0 <= n < 2^63 -> let len := length (number_text false 10 n) in
  cstr m p (number_text false 10 n ++ rest) -> name_char (m (p + Z.of_nat len)) = false -> (len + 1 < k)%nat ->
  strtol k m p 0 = Some (n, p + Z.of_nat len).
Proof.
  intros Hn len Hc Hf Hk. destruct (no_digit_char _ Hf) as [Hnd Hnx].
  destruct (number_head n Hn) as (c & l & Hl & Hr). pose proof Hc as Hc'. rewrite Hl in Hc'. pose proof Hc' as (_ & Hm & _)%cstr_cons.
  unfold strtol. destruct (skip_blanks_cstr m p 0 ((c :: l) ++ rest) k) as [-> _]; [exact Hc'|cbn; unfold is_blank; blia|lia|].
  cbn [mbind option_bind]. rewrite Z.add_0_r, (strtol_sign_none m p c (l ++ rest)) by done. unfold strtol_base. cbn [Z.eqb]. rewrite Hm.
  destruct (Z.eq_dec n 0) as [->|Hne].
  - assert (len = 1%nat) as Hlen by by vm_compute. unfold number_text in Hl. cbn in Hl. injection Hl as <- <-. rewrite Hlen in *.
    change (Z.of_nat 1) with 1 in *. rewrite Hnx. change (48 + 0) with 48. cbn [Z.eqb Pos.eqb andb].
    destruct k as [|k]; [lia|]. cbn [strtol_digits].
    rewrite Hnd. by destruct (nonzero _).
  - assert (n < 10 ^ (Z.of_nat 64 + 1)) as Hbig by (apply Z.lt_trans with (2^63); [lia|by vm_compute]).
    assert (c <> 48) as Hc0.
    { destruct (digits_head 64 n) as (d & ds & Hd & Hdr); [lia|]. unfold number_text in Hl. rewrite Hd in Hl. injection Hl as <- _.
      unfold dig. replace (d <? 10) with true by blia. lia. }
    replace (c =? 48) with false by blia. cbn [andb].
    pose proof (number_dec n ltac:(lia)) as Hnum. rewrite Hnum in Hc. unfold len in *. rewrite Hnum in *.
    assert (length (dec_bytes (digits 64 10 n)) = length (digits 64 10 n)) as Hdl by apply length_fmap. rewrite Hdl in *.
    rewrite (strtol_digits_dec m p (digits 64 10 n) rest 0 k).
    + by rewrite digits_value by lia.
    + exact Hc.
    + apply digits_small. lia.
    + apply cstr_app in Hc. rewrite Hdl in Hc. destruct rest as [|x rest]; [done|]. apply cstr_cons in Hc as (_ & Hx & _).
      rewrite Hx in Hf. cbn. unfold name_char in Hf. to_prop. lia.
    + lia.
    + rewrite digits_value; lia.
    + lia.
Qed.

(** *** Primaries, whatever comes before the blanks *)

Lemma primary_runs p v p' : m p <> 32 ->
  (exists N, forall k, (N <= k)%nat -> primary_at m var_get k (tower 10 k) (arith_primary m var_get k) p = Done (v, p')) ->
  runs (tower 0) p v p'.
Proof.
  intros Hb [N Hr]. exists (S (S N)). intros [|k] Hk; [lia|]. cbn [tower arith_primary]. unfold primary_body.
  rewrite (bind_Done _ _ p tt p); [apply Hr; lia|]. destruct k as [|k]; [lia|]. cbn [iter].
  rewrite (bind_Done _ _ p (inr tt) p); [done|]. unfold mbind, M_bind, peek, gets. rewrite Z.add_0_r.
  by replace (m p =? 32) with false by blia.
Qed.
Lemma const_runs n p rest : 0 <= n < 2^63 -> let len := Z.of_nat (length (number_text false 10 n)) in
  cstr m p (number_text false 10 n ++ rest) -> name_char (m (p + len)) = false -> runs (tower 0) p n (p + len).
Proof.
  intros Hn len Hc Hf. destruct (number_head n Hn) as (c & l & Hl & Hr).
  pose proof Hc as Hc'. rewrite Hl in Hc'. apply cstr_cons in Hc' as (_ & Hm & _).
  apply primary_runs; [lia|]. exists (length (number_text false 10 n) + 2)%nat. intros k Hk. unfold primary_at.
  rewrite (bind_Done _ _ p c p) by (unfold peek, gets; by rewrite Z.add_0_r, Hm).
  repeat match goal with |- context [c =? ?x] => replace (c =? x) with false by blia end.
  rewrite (bind_Done _ _ p p p) by done. by rewrite (strtol_const n p rest k Hn Hc Hf ltac:(lia)).
Qed.
Lemma unary_runs u p rest v p' : cstr m p (unop_char u :: rest) -> runs (tower 0) (p + 1) v p' ->
  runs (tower 0) p (unop_value u v) p'.
Proof.
  intros (_ & Hm & _)%cstr_cons [N Hr]. apply primary_runs; [rewrite Hm; by destruct u|]. exists N. intros k Hk. unfold primary_at.
  rewrite (bind_Done _ _ p (unop_char u) p) by (unfold peek, gets; by rewrite Z.add_0_r, Hm).
  destruct u; cbn [unop_char Z.eqb Pos.eqb]; rewrite (bind_Done _ _ p tt (p + 1)) by done; cbn [tower] in Hr;
    first [exact (Hr k Hk) | by rewrite (bind_Done _ _ _ _ _ (Hr k Hk))].
Qed.
Lemma name_runs x rest p : Forall (fun c => name_char c = true) x -> cstr m p (x ++ rest) ->
  name_char (m (p + Z.of_nat (length x))) = false -> Z.of_nat (length x) < SH_VAR_NAMSZ ->
  forall k, (length x < k)%nat -> read_name m k name_char p = Done (x, p + Z.of_nat (length x)).
Proof.
  intros Hx Hc Hf Hl k Hk. unfold read_name.
  assert (forall y acc p j, Forall (fun c => name_char c = true) y -> cstr m p (y ++ rest) ->
    name_char (m (p + Z.of_nat (length y))) = false -> (length y < j)%nat ->
    iter j (fun name => c ← peek m 0; if nonzero c && name_char c then skip 1;; mret (inl (name ++ [c])) else mret (inr name)) acc p =
    Done (acc ++ y, p + Z.of_nat (length y))) as Hit.
  { clear. intros y acc p j Hy. revert acc p j. induction Hy as [|c y Hc Hy IH]; intros acc p [|j] Ht Hf Hj; cbn [length app iter] in *; try lia.
    - rewrite (bind_Done _ _ p (inr acc) p); [by rewrite app_nil_r, Z.add_0_r|].
      unfold mbind, M_bind, peek, gets. rewrite Z.add_0_r in *. rewrite Hf. by rewrite andb_false_r.
    - apply cstr_cons in Ht as (Hr & Hm & Ht). rewrite (bind_Done _ _ p (inl (acc ++ [c])) (p + 1)).
      + rewrite (IH (acc ++ [c]) (p + 1) j Ht); [|by replace (p + 1 + Z.of_nat (length y)) with (p + Z.of_nat (S (length y))) by lia|lia].
        rewrite <- app_assoc. do 2 f_equal. lia.
      + rewrite (bind_Done _ _ p c p) by (unfold peek, gets; by rewrite Z.add_0_r, Hm).
        rewrite nonzero_pos, Hc by lia. done. }
  rewrite (bind_Done _ _ _ _ _ (Hit x [] p k Hx Hc Hf Hk)). cbn [app]. by replace (_ <=? _) with false by blia.
Qed.
Lemma var_runs x p rest : well_formed (Var x) -> let len := Z.of_nat (length (36 :: x)) in
  cstr m p (36 :: x ++ rest) -> name_char (m (p + len)) = false -> runs (tower 0) p (var_value x) (p + len).
Proof.
  intros (Hne & Hx & Hl) len Hc Hf. apply cstr_cons in Hc as (_ & Hm & Hc).
  destruct (variable_runs x) as [N HN]. apply primary_runs; [lia|]. exists (N + S (length x))%nat. intros k Hk. unfold primary_at.
  rewrite (bind_Done _ _ p 36 p) by (unfold peek, gets; by rewrite Z.add_0_r, Hm). cbn [Z.eqb Pos.eqb].
  rewrite (bind_Done _ _ p tt (p + 1)) by done.
  destruct x as [|c x]; [done|]. pose proof Hc as (_ & Hmc & _)%cstr_cons. apply Forall_cons_iff in Hx as Hx'. destruct Hx' as [Hnc _].
  rewrite (bind_Done _ _ (p + 1) c (p + 1)) by (unfold peek, gets; by rewrite Z.add_0_r, Hmc).
  assert ((c =? 123) = false) as -> by (apply name_char_false in Hnc; blia).
  assert (p + len = p + 1 + Z.of_nat (length (c :: x))) as He by (unfold len; cbn [length]; lia). rewrite He in *.
  rewrite (bind_Done _ _ _ _ _ (name_runs (c :: x) rest (p + 1) Hx Hc Hf Hl k ltac:(lia))). apply HN. lia.
Qed.
Lemma paren_runs l p rest v p1 : balanced l -> cstr m p (([40] ++ l ++ [41]) ++ rest) -> runs (tower 10) (p + 1) v p1 ->
  runs (tower 0) p v (p + Z.of_nat (length ([40] ++ l ++ [41]))).
Proof.
  intros Hb Hc [N Hr]. cbn [app] in Hc. rewrite <- app_assoc in Hc. apply cstr_cons in Hc as (_ & Hm & Hc).
  apply primary_runs; [lia|]. exists (N + length l + 2)%nat. intros k Hk. unfold primary_at.
  rewrite (bind_Done _ _ p 40 p) by (unfold peek, gets; by rewrite Z.add_0_r, Hm). cbn [Z.eqb Pos.eqb].
  rewrite (bind_Done _ _ p tt (p + 1)), (bind_Done _ _ (p + 1) (p + 1) (p + 1)) by done.
  rewrite (bind_Done _ _ _ _ _ (Hr k ltac:(lia))), (bind_Done _ _ p1 tt (p + 1)) by done.
  rewrite (bind_Done _ _ (p + 1) tt (p + Z.of_nat (length ([40] ++ l ++ [41])))); [done|].
  change (skip_parens m k) with (iter k skip_step 1). replace k with (length l + S (S (k - length l - 2)))%nat by lia.
  rewrite (Hb (p + 1) 1 _ ([41] ++ rest)) by done. apply cstr_app in Hc. rewrite (skip_char 41 1 _ _ rest) by done.
  cbn [Z.eqb Pos.eqb iter]. rewrite (bind_Done _ _ _ (inr tt) (p + 1 + Z.of_nat (length l) + 1)).
  - unfold mret, M_ret. do 2 f_equal. cbn [app length]. rewrite length_app. cbn [length]. lia.
  - unfold skip_step, mbind, M_bind, peek, gets. change (nonzero (1 - 1)) with false. by rewrite andb_false_r.
Qed.

(** *** The levels *)

Fixpoint value (e : aexp) : option Z :=
  match e with
  | Const k => Some k
  | Var x => Some (var_value x)
  | Un u e => option_map (unop_value u) (value e)
  | Bin o e1 e2 => match value e1, value e2 with Some v, Some r => binop_value o v r | _, _ => None end
  end.

(** The text of [e] for level [n] is evaluated by that level; and by the loop of
    level [n + 1], of which it can be the beginning. *)
Definition evaluates (n : nat) (e : aexp) (v : Z) : Prop := forall p rest,
  let q := p + Z.of_nat (length (show n e)) in
  cstr m p (show n e ++ rest) -> follow n q -> runs (tower n) p v q.
Definition begins (n : nat) (e : aexp) (v : Z) : Prop := forall p rest,
  let q := p + Z.of_nat (length (show (S n) e)) in
  cstr m p (show (S n) e ++ rest) -> follow n q ->
  exists v0 p0, runs (tower n) p v0 p0 /\ forall v' p', looped n v q v' p' -> looped n v0 p0 v' p'.

Lemma begins_evaluates n e v : begins n e v -> evaluates (S n) e v.
Proof.
  intros Hb p rest q Hc Hf. destruct (Hb p rest Hc (follow_le (S n) n q Hf ltac:(lia))) as (v0 & p0 & Hr & Hl).
  apply (runs_level n p v0 p0 v q Hr), Hl, looped_stop, Hf. lia.
Qed.
Lemma evaluates_begins n e v : show (S n) e = show n e -> evaluates n e v -> begins n e v.
Proof. intros He Hev p rest q Hc Hf. unfold q in *. rewrite He in *. exists v, (p + Z.of_nat (length (show n e))). split; [by apply (Hev p rest)|done]. Qed.
(** Where the text does not depend on the level, one level is enough. *)
Lemma evaluates_up n k e v : (forall j, (n <= j < n + k)%nat -> show (S j) e = show j e) -> evaluates n e v -> evaluates (n + k) e v.
Proof.
  induction k as [|k IH]; intros Hsh Hev; [by rewrite Nat.add_0_r|]. rewrite Nat.add_succ_r.
  apply begins_evaluates, evaluates_begins; [apply Hsh; lia|]. apply IH; [intros; apply Hsh; lia|done].
Qed.
Lemma bin_begins o e1 e2 v1 v2 v n : binop_level o = S n -> well_formed e2 -> begins n e1 v1 -> evaluates n e2 v2 ->
  binop_value o v1 v2 = Some v -> begins n (Bin o e1 e2) v.
Proof.
  intros Ho Hwf H1 H2 Hv p rest q Hc Hf. unfold q in *. cbn [show] in *. rewrite Ho, Nat.leb_refl in *.
  replace (S n - 1)%nat with n in * by lia. set (t1 := show (S n) e1) in *. set (t2 := show n e2) in *.
  rewrite <- !app_assoc in Hc. pose proof (cstr_app _ _ _ Hc) as Hc1. pose proof (cstr_app _ _ _ Hc1) as Hc2.
  destruct (show_head n e2 Hwf) as (c & l & Ht2 & Hch). fold t2 in Ht2. pose proof Hc1 as Hc1'. rewrite Ht2 in Hc1'. cbn [app] in Hc1'.
  destruct (operator_at o _ c (l ++ rest) Hc1' Hch) as (Hfo & k & f & Hops & Hk & Hfv). rewrite Ho in *.
  replace (S n - 1)%nat with n in Hfo by lia. set (p1 := p + Z.of_nat (length t1)) in *.
  assert (p1 + k + Z.of_nat (length t2) = p + Z.of_nat (length (t1 ++ binop_text o ++ t2))) as Hq.
  { unfold p1. rewrite !length_app, Hk. lia. }
  destruct (H1 p (binop_text o ++ t2 ++ rest) Hc Hfo) as (v0 & p0 & Hr & Hl). exists v0, p0. split; [exact Hr|].
  intros v' p' Hloop. apply Hl. apply (looped_step n v1 p1 k f v2 (p + Z.of_nat (length (t1 ++ binop_text o ++ t2))) v v' p' Hops).
  - rewrite <- Hq, Hk. apply (H2 _ rest); [exact Hc2|]. fold t2. by rewrite <- Hk, Hq.
  - by rewrite Hfv.
  - exact Hloop.
Qed.

Lemma show_evaluates e : forall v, well_formed e -> value e = Some v -> forall n, evaluates n e v /\ begins n e v.
Proof.
  assert (forall e v, (forall n, show (S n) e = show n e) -> evaluates 0 e v -> forall n, evaluates n e v /\ begins n e v) as Hflat.
  { intros e' v Hsh H0 n. assert (evaluates n e' v) as Hn by (apply (evaluates_up 0 n e' v); auto). split; [done|by apply evaluates_begins]. }
  induction e as [k|x|u e IH|o e1 IH1 e2 IH2]; intros v Hwf Hv; cbn [value] in Hv.
  - injection Hv as <-. apply Hflat; [done|]. intros p rest q Hc [Hf _]. by apply (const_runs k p rest).
  - injection Hv as <-. apply Hflat; [done|]. intros p rest q Hc [Hf _]. by apply (var_runs x p rest Hwf).
  - destruct (value e) as [v1|]; [|done]. injection Hv as <-. apply Hflat; [done|]. intros p rest q Hc Hf. unfold q in *.
    cbn [show app length] in *. apply (unary_runs u p _ v1 _ Hc). apply cstr_cons in Hc as (_ & _ & Hc).
    replace (p + Z.of_nat (S (length (show 0 e)))) with (p + 1 + Z.of_nat (length (show 0 e))) in * by lia.
    by apply (proj1 (IH v1 Hwf eq_refl 0%nat) (p + 1) rest).
  - destruct (value e1) as [v1|]; [|done]. destruct (value e2) as [v2|]; [|done]. destruct Hwf as [Hwf1 Hwf2].
    assert (exists n0, binop_level o = S n0 /\ (n0 < 10)%nat) as (n0 & Ho & Hn0) by (destruct o; eexists; (split; [reflexivity|lia])).
    assert (begins n0 (Bin o e1 e2) v) as Hb by (apply (bin_begins o e1 e2 v1 v2 v n0 Ho Hwf2); [by apply IH1|by apply IH2|done]).
    pose proof (begins_evaluates _ _ _ Hb) as Hlv.
    assert (forall j, (S n0 <> S j)%nat -> show (S j) (Bin o e1 e2) = show j (Bin o e1 e2)) as Hsh.
    { intros j Hj. cbn [show]. rewrite Ho. destruct (Nat.leb_spec (S n0) (S j)), (Nat.leb_spec (S n0) j); try done; lia. }
    assert (evaluates 10 (Bin o e1 e2) v) as H10.
    { replace 10%nat with (S n0 + (10 - S n0))%nat by lia. apply evaluates_up; [|done]. intros j Hj. apply Hsh. lia. }
    assert (evaluates 0 (Bin o e1 e2) v) as H0.
    { intros p rest q Hc Hf. assert (show 0 (Bin o e1 e2) = [40] ++ show 10 (Bin o e1 e2) ++ [41]) as Hs.
      { cbn [show]. rewrite Ho. by replace (S n0 <=? 10)%nat with true by (symmetry; apply Nat.leb_le; lia). }
      unfold q in *. rewrite Hs in *. pose proof Hc as Hc'. cbn [app] in Hc'. rewrite <- app_assoc in Hc'.
      apply cstr_cons in Hc' as (_ & _ & Hc'). eapply paren_runs; [by apply balanced_show|exact Hc|].
      apply (H10 (p + 1) ([41] ++ rest) Hc'). apply cstr_app in Hc'. apply cstr_cons in Hc' as (_ & Hm & _). split.
      - by rewrite Hm.
      - rewrite Hm. intros j Hj. by do 11 (destruct j as [|j]; [done|]); lia. }
    intros n. assert (evaluates n (Bin o e1 e2) v) as Hn.
    { destruct (Nat.le_gt_cases (S n0) n).
      - replace n with (S n0 + (n - S n0))%nat by lia. apply evaluates_up; [|done]. intros j Hj. apply Hsh. lia.
      - apply (evaluates_up 0 n); [|done]. intros j Hj. apply Hsh. lia. }
    split; [done|]. destruct (Nat.eq_dec n n0) as [->|]; [done|]. apply evaluates_begins; [apply Hsh; lia|done].
Qed.

(** C31: the evaluator computes the value of every expression written without blanks:
    precedence, left association, parentheses and signs are those of C, the
    arithmetic is that of 64-bit integers and a division by zero gives zero. *)
Theorem arith_eval_value e v p :
  well_formed e -> value e = Some v -> cstr m p (show 10 e) ->
  exists N, forall fuel, (N <= fuel)%nat -> arith_eval m var_get fuel p = Done v.
Proof.
  intros Hwf Hv Hc. destruct (proj1 (show_evaluates e v Hwf Hv 10%nat) p []) as [N Hr].
  - by rewrite app_nil_r.
  - rewrite <- (app_nil_r (show 10 e)) in Hc. apply cstr_app, cstr_nil in Hc. split; [by rewrite Hc|].
    rewrite Hc. intros j Hj. by do 11 (destruct j as [|j]; [done|]); lia.
  - exists N. intros fuel Hf. unfold arith_eval. assert (Harith : arith_lor m (arith_primary m var_get) fuel p = _) by exact (Hr fuel Hf). by rewrite Harith.
Qed.
End properties.

(** (1+$x)*-2<<3 with x set to 12. *)
Lemma arith_eval_value_witness :
  exists N, forall fuel, (N <= fuel)%nat ->
    arith_eval (store_bytes (fun _ => 0) 64 [40; 49; 43; 36; 120; 41; 42; 45; 50; 60; 60; 51; 0]) (fun _ => Some [49; 50]) fuel 64 = Done (-208).
Proof.
  apply (arith_eval_value _ _ (Bin Shl (Bin Mul (Bin Add (Const 1) (Var [120])) (Un Minus (Const 2))) (Const 3))).
  - cbn [well_formed]. split_and!; try lia; try done. by repeat constructor.
  - by vm_compute.
  - apply (cstr_store_bytes _ 64 [40; 49; 43; 36; 120; 41; 42; 45; 50; 60; 60; 51]). repeat constructor; discriminate.
Defined.
