(* ===== verification/VfsData.v ===== *)
(** * File contents (vfs_read, vfs_write, vfs_lseek of src/src/fs/vfs.c)

    A file is a list of bytes: what the blocks behind the nodes hold, and what
    reading and writing through a descriptor does to it, over any allocator
    that keeps the promises of [AllocatorLaws]. *)

From S2P Require Import Prelude Pmm Mem Strings Vmm Heap Vfs Devfs.

Section data.
Context {St : Type} `{AllocatorLaws St} `{!Devices St}.
Implicit Types s : vfs St.

Definition is_file s (i : Z) : Prop :=
  0 <= i < 256 /\ n_used (nodes s i) = true /\ n_type (nodes s i) = VFS_FILE.

(** The bytes of a file. *)
Definition contents s (i : Z) : list Z :=
  load_bytes (a_mem (v_st s)) (n_data (nodes s i)) (Z.to_nat (n_size (nodes s i))).

(** Every file's data lies in a live block of its own that holds its capacity. *)
Record files_inv (L : gmap Z Z) s : Prop := {
  fi_alloc : a_inv L (v_st s);
  fi_size : forall i, is_file s i -> 0 <= n_size (nodes s i) <= n_capacity (nodes s i);
  fi_block : forall i, is_file s i ->
    (n_data (nodes s i) = 0 /\ n_capacity (nodes s i) = 0) \/
    exists c, L !! n_data (nodes s i) = Some c /\ n_capacity (nodes s i) <= c;
  fi_own : forall i j, is_file s i -> is_file s j -> n_data (nodes s i) = n_data (nodes s j) ->
    n_data (nodes s i) <> 0 -> i = j
}.

(** The descriptor is open on file [i] with the access asked for. *)
Definition open_on s (fd i flag : Z) : Prop :=
  fd_ok s fd = true /\ has_flag (f_flags (fds s fd)) flag = true /\ fd_node s fd = Some i /\ is_file s i.

Lemma length_contents s i : List.length (contents s i) = Z.to_nat (n_size (nodes s i)).
Proof. apply length_load_bytes. Qed.

Lemma load_bytes_ext m m' a b n :
  (forall o, 0 <= o < Z.of_nat n -> m (a + o) = m' (b + o)) -> load_bytes m a n = load_bytes m' b n.
Proof.
  intros Hm. apply list_eq. intros k. rewrite !lookup_load_bytes. case_decide; [|done].
  f_equal. apply Hm. lia.
Qed.

Lemma load_bytes_app m a n k : load_bytes m a (n + k) = load_bytes m a n ++ load_bytes m (a + Z.of_nat n) k.
Proof.
  apply list_eq. intros j. rewrite lookup_app, !lookup_load_bytes. rewrite length_load_bytes.
  destruct (decide (j < n)%nat); [by rewrite decide_True by lia|].
  destruct (decide (j < n + k)%nat); [rewrite decide_True by lia|by rewrite decide_False by lia].
  do 2 f_equal. lia.
Qed.
Lemma load_bytes_take m a n k : take k (load_bytes m a n) = load_bytes m a (Nat.min k n).
Proof.
  apply list_eq. intros j. destruct (decide (j < k)%nat).
  - rewrite lookup_take_lt by done. rewrite !lookup_load_bytes.
    destruct (decide (j < n)%nat); [by rewrite decide_True by lia|by rewrite decide_False by lia].
  - rewrite lookup_take_ge, lookup_load_bytes, decide_False by lia. done.
Qed.
Lemma load_bytes_drop m a n k : drop k (load_bytes m a n) = load_bytes m (a + Z.of_nat k) (n - k).
Proof.
  apply list_eq. intros j. rewrite lookup_drop, !lookup_load_bytes.
  destruct (decide (k + j < n)%nat); [rewrite decide_True by lia|by rewrite decide_False by lia].
  do 2 f_equal. lia.
Qed.

Lemma is_file_set_node s i d size cap t j :
  is_file s i ->
  is_file (set_node i (with_data d size cap (nodes s i)) (over t s)) j <-> is_file s j.
Proof.
  intros Hi. unfold is_file. cbn. rewrite upd_case. destruct (Z.eqb_spec j i) as [->|]; [|done]. done.
Qed.

(** The block of a file, null or live, moved to a larger one. *)
Definition moved (L : gmap Z Z) s (i n q : Z) (t : St) : Prop :=
  let d := n_data (nodes s i) in
  0 < q /\ L !! q = None /\ exists c, n <= c /\ a_inv (<[q := c]> (delete d L)) t /\
    keeps_live (delete d L) (a_mem (v_st s)) (a_mem t) /\
    (forall o, 0 <= o < n_size (nodes s i) -> a_mem t (q + o) = a_mem (v_st s) (d + o)).

Lemma live_pos L s p c : files_inv L s -> L !! p = Some c -> 0 < p.
Proof. intros Hinv Hp. by destruct (a_range L (v_st s) p c (fi_alloc _ _ Hinv) Hp). Qed.

Lemma realloc_moves L s i n :
  files_inv L s -> is_file s i -> n_capacity (nodes s i) < n <= 2^62 ->
  safe (a_realloc (n_data (nodes s i)) n) (v_st s) (moved L s i n).
Proof.
  intros Hinv Hi Hn. pose proof (fi_size _ _ Hinv i Hi) as Hsz.
  destruct (fi_block _ _ Hinv i Hi) as [[Hd Hc]|(c & Hc & Hcap)].
  - unfold wp. rewrite Hd, a_realloc_null.
    eapply wp_mono; [apply (a_malloc_law L); [apply Hinv|lia]|]. cbn beta.
    intros q t (Hq & HL & c & Hc' & Hi' & Hk). unfold moved. rewrite Hd.
    assert (delete 0 L = L) as ->.
    { apply delete_id. destruct (L !! 0) as [k|] eqn:Hk0; [|done]. by pose proof (live_pos _ _ _ _ Hinv Hk0). }
    split_and!; [done|done|]. exists c. split_and!; [done..|]. intros o Ho. lia.
  - eapply wp_mono; [apply (a_realloc_law L); [apply Hinv|done|lia]|]. cbn beta.
    intros q t (Hq & HL & c' & Hc' & Hi' & Hk & Hcopy). split_and!; [done..|]. exists c'. split_and!; [done..|].
    intros o Ho. apply Hcopy. lia.
Qed.

(** A node's data pointer is null, live and moved, or live and another block. *)
Lemma block_kept L s i j n q t c : files_inv L s -> is_file s i -> is_file s j -> j <> i ->
  moved L s i n q t -> L !! n_data (nodes s j) = Some c -> delete (n_data (nodes s i)) L !! n_data (nodes s j) = Some c.
Proof.
  intros Hinv Hi Hj Hne _ Hc. rewrite lookup_delete_ne; [done|]. intros Hd. apply Hne. symmetry.
  apply (fi_own _ _ Hinv); [done..|]. pose proof (live_pos _ _ _ _ Hinv Hc). lia.
Qed.

Definition grow_node s (i q n : Z) (t : St) : vfs St :=
  set_node i (with_data q (n_size (nodes s i)) n (nodes s i)) (over t s).

Lemma grow_other s i q n t j : j <> i -> nodes (grow_node s i q n t) j = nodes s j.
Proof. intros. cbn. by rewrite upd_other. Qed.
Lemma grow_self s i q n t : nodes (grow_node s i q n t) i = with_data q (n_size (nodes s i)) n (nodes s i).
Proof. cbn. by rewrite upd_same. Qed.

Lemma grow_contents L s i n q t j : files_inv L s -> is_file s i -> is_file s j -> moved L s i n q t ->
  contents (grow_node s i q n t) j = contents s j.
Proof.
  intros Hinv Hi Hj Hm. unfold contents. cbn [v_st].
  change (v_st (grow_node s i q n t)) with t. destruct (decide (j = i)) as [->|Hne].
  - rewrite grow_self. cbn [n_size n_data with_data]. apply load_bytes_ext. intros o Ho.
    destruct Hm as (_ & _ & c & _ & _ & _ & Hcopy). apply Hcopy. lia.
  - rewrite grow_other by done. apply load_bytes_ext. intros o Ho. symmetry.
    pose proof (fi_size _ _ Hinv j Hj). destruct (fi_block _ _ Hinv j Hj) as [[_ ?]|(c & Hc & ?)]; [lia|].
    pose proof (block_kept L s i j n q t c Hinv Hi Hj Hne Hm Hc) as Hc'.
    destruct Hm as (_ & _ & c' & _ & _ & Hk & _). apply (Hk _ _ Hc'). lia.
Qed.

Lemma grow_inv L s i n q t : files_inv L s -> is_file s i -> n_capacity (nodes s i) < n -> moved L s i n q t ->
  exists L', files_inv L' (grow_node s i q n t).
Proof.
  intros Hinv Hi Hn Hm. pose proof Hm as (Hq & HLq & c & Hc & Ha & _).
  exists (<[q := c]> (delete (n_data (nodes s i)) L)).
  assert (forall j, is_file (grow_node s i q n t) j -> is_file s j) as Hfile.
  { intros j. by apply is_file_set_node. }
  assert (forall j, is_file s j -> n_data (nodes s j) <> q) as Hnq.
  { intros j Hj Hd. destruct (fi_block _ _ Hinv j Hj) as [[Hz _]|(c' & Hc' & _)]; [lia|]. congruence. }
  split.
  - exact Ha.
  - intros j Hj%Hfile. destruct (decide (j = i)) as [->|Hne]; [|rewrite grow_other by done; by apply (fi_size _ _ Hinv)].
    rewrite grow_self. cbn. pose proof (fi_size _ _ Hinv i Hi). lia.
  - intros j Hj%Hfile. destruct (decide (j = i)) as [->|Hne].
    + rewrite grow_self. right. exists c. cbn. by rewrite lookup_insert_eq.
    + rewrite grow_other by done. destruct (fi_block _ _ Hinv j Hj) as [?|(c' & Hc' & ?)]; [by left|].
      right. exists c'. split; [|done]. rewrite lookup_insert_ne by (apply not_eq_sym, Hnq, Hj).
      by apply (block_kept L s i j n q t c').
  - intros j k Hj%Hfile Hk%Hfile. destruct (decide (j = i)) as [->|Hj'], (decide (k = i)) as [->|Hk']; [done|..].
    + rewrite grow_self, grow_other by done. cbn. intros Heq. by destruct (Hnq k Hk).
    + rewrite grow_self, grow_other by done. cbn. intros Heq. by destruct (Hnq j Hj).
    + rewrite !grow_other by done. by apply (fi_own _ _ Hinv).
Qed.

(** The bytes stored into the block of a file, and the size that results. *)
Definition end_size s (i e : Z) : Z := Z.max (n_size (nodes s i)) e.
Definition put_node s (i off : Z) (buf : list Z) : vfs St :=
  let n := nodes s i in
  set_node i (with_data (n_data n) (end_size s i (off + Z.of_nat (List.length buf))) (n_capacity n) n)
    (over (a_put (store_bytes (a_mem (v_st s)) (n_data n + off) buf) (v_st s)) s).

(** What a write makes of the bytes of a file; a hole gets unknown bytes. *)
Definition overlay (old hole buf : list Z) (off : nat) : list Z :=
  take off (old ++ hole) ++ buf ++ drop (off + List.length buf) old.

Section put.
Context (L : gmap Z Z) (s : vfs St) (i off : Z) (buf : list Z).
Hypothesis Hinv : files_inv L s.
Hypothesis Hi : is_file s i.
Hypothesis Hoff : 0 <= off.
Hypothesis Hbuf : buf <> [] /\ Forall (fun b => 0 <= b < 256) buf.
Hypothesis Hcap : off + Z.of_nat (List.length buf) <= n_capacity (nodes s i).

Lemma buf_length : 0 < Z.of_nat (List.length buf).
Proof using Hbuf. clear Hcap. destruct Hbuf as [Hb _]. destruct buf; [done|cbn; lia]. Qed.
Lemma put_block : exists c, L !! n_data (nodes s i) = Some c /\ n_capacity (nodes s i) <= c.
Proof using Hinv Hi Hoff Hbuf Hcap.
  pose proof buf_length. destruct (fi_block _ _ Hinv i Hi) as [[_ ?]|?]; [lia|done].
Qed.
Lemma put_mem x : a_mem (v_st (put_node s i off buf)) x =
  match buf !! Z.to_nat (x - (n_data (nodes s i) + off)) with
  | Some b => if n_data (nodes s i) + off <=? x then b else a_mem (v_st s) x
  | None => a_mem (v_st s) x
  end.
Proof using Hbuf H0.
  cbn. rewrite a_mem_put, store_bytes_at. destruct (buf !! _) as [b|] eqn:Hb; [|done].
  rewrite u8_small; [done|]. by apply (Forall_lookup_1 _ _ _ _ (proj2 Hbuf) Hb).
Qed.
Lemma put_file j : is_file (put_node s i off buf) j <-> is_file s j.
Proof using Hi. by apply is_file_set_node. Qed.
Lemma put_other j : j <> i -> nodes (put_node s i off buf) j = nodes s j.
Proof using Type. intros. cbn. by rewrite upd_other. Qed.

Lemma put_inv : files_inv L (put_node s i off buf).
Proof using Hinv Hi Hoff Hbuf Hcap.
  destruct put_block as (c & Hc & Hcc). pose proof (fi_size _ _ Hinv i Hi) as Hsz.
  assert (forall {A} (f : VFSNode -> A) j, f (with_data (n_data (nodes s i)) (end_size s i (off + Z.of_nat (List.length buf)))
      (n_capacity (nodes s i)) (nodes s i)) = f (nodes s i) -> f (nodes (put_node s i off buf) j) = f (nodes s j)) as Hf.
  { intros A f j Hx. cbn. rewrite upd_case. by destruct (Z.eqb_spec j i) as [->|]. }
  split.
  - cbn. apply (a_write L _ (n_data (nodes s i)) c); [apply Hinv|done| |].
    + apply mem_ok_store_bytes, (a_mem_ok L), Hinv.
    + intros a Ha. rewrite store_bytes_at. destruct (buf !! _) as [b|] eqn:Hb; [|done].
      apply lookup_lt_Some in Hb. destruct (Z.leb_spec (n_data (nodes s i) + off) a); [lia|done].
  - intros j Hj%put_file. destruct (decide (j = i)) as [->|Hne]; [|rewrite put_other by done; by apply (fi_size _ _ Hinv)].
    cbn. rewrite upd_same. cbn. unfold end_size. lia.
  - intros j Hj%put_file. rewrite (Hf _ n_data), (Hf _ n_capacity) by done. by apply (fi_block _ _ Hinv).
  - intros j k Hj%put_file Hk%put_file. rewrite !(Hf _ n_data) by done. by apply (fi_own _ _ Hinv).
Qed.

Lemma put_contents_other j : is_file s j -> j <> i -> contents (put_node s i off buf) j = contents s j.
Proof using Hinv Hi Hoff Hbuf Hcap.
  intros Hj Hne. unfold contents. rewrite put_other by done. apply load_bytes_ext. intros o Ho.
  rewrite put_mem. destruct (buf !! _) as [b|] eqn:Hb; [|done]. apply lookup_lt_Some in Hb.
  destruct (Z.leb_spec (n_data (nodes s i) + off) (n_data (nodes s j) + o)) as [Hle|]; [|done]. exfalso.
  destruct put_block as (c & Hc & Hcc). pose proof (fi_size _ _ Hinv j Hj).
  destruct (fi_block _ _ Hinv j Hj) as [[_ ?]|(c' & Hc' & ?)]; [lia|].
  assert (n_data (nodes s i) <> n_data (nodes s j)) as Hd.
  { intros Hd. apply Hne. symmetry. apply (fi_own _ _ Hinv); [done..|]. pose proof (live_pos _ _ _ _ Hinv Hc). lia. }
  destruct (a_disj L (v_st s) _ _ _ _ (fi_alloc _ _ Hinv) Hc Hc' Hd); lia.
Qed.

Lemma put_contents : exists hole, List.length hole = Z.to_nat (off - n_size (nodes s i)) /\
  contents (put_node s i off buf) i = overlay (contents s i) hole buf (Z.to_nat off).
Proof using Hinv Hi Hoff Hbuf Hcap.
  pose proof (fi_size _ _ Hinv i Hi) as Hsz. pose proof buf_length as Hlen.
  set (d := n_data (nodes s i)). set (n := n_size (nodes s i)) in *.
  set (hole := load_bytes (a_mem (v_st s)) (d + n) (Z.to_nat (off - n))). exists hole.
  split; [apply length_load_bytes|]. unfold overlay.
  assert (contents s i ++ hole = load_bytes (a_mem (v_st s)) d (Z.to_nat (Z.max n off))) as ->.
  { unfold contents, hole. fold d n. replace (d + n) with (d + Z.of_nat (Z.to_nat n)) by lia.
    rewrite <- load_bytes_app. f_equal. lia. }
  rewrite load_bytes_take. unfold contents. fold d n. rewrite load_bytes_drop.
  assert (nodes (put_node s i off buf) i = with_data d (end_size s i (off + Z.of_nat (List.length buf)))
    (n_capacity (nodes s i)) (nodes s i)) as -> by (cbn; by rewrite upd_same).
  cbn [n_data n_size with_data]. unfold end_size. fold n.
  replace (Z.to_nat (Z.max n (off + Z.of_nat (List.length buf)))) with
    (Z.to_nat off + (List.length buf + (Z.to_nat n - (Z.to_nat off + List.length buf))))%nat by lia.
  rewrite !load_bytes_app. f_equal; [|f_equal].
  - replace (Nat.min _ _) with (Z.to_nat off) by lia. apply load_bytes_ext. intros o Ho. rewrite put_mem.
    fold d. destruct (buf !! _) as [b|]; [|done]. by replace (d + off <=? d + o) with false by blia.
  - apply list_eq. intros k. rewrite lookup_load_bytes. case_decide as Hk.
    + destruct (lookup_lt_is_Some_2 buf k Hk) as [b Hb]. rewrite put_mem. fold d.
      replace (Z.to_nat (d + Z.of_nat (Z.to_nat off) + Z.of_nat k - (d + off))) with k by lia. rewrite Hb.
      by replace (_ <=? _) with true by blia.
    + symmetry. apply lookup_ge_None. lia.
  - apply load_bytes_ext. intros o Ho. rewrite put_mem. fold d.
    destruct (buf !! _) as [b|] eqn:Hb; [apply lookup_lt_Some in Hb; lia|]. f_equal. lia.
Qed.
End put.

(** ** vfs_write() and vfs_read() *)

Lemma with_data_own n : with_data (n_data n) (n_size n) (n_capacity n) n = n.
Proof. by destruct n. Qed.

(** The last part of vfs_write(), once the block is large enough. *)
Lemma store_step s i off e fd buf :
  let new_end := off + Z.of_nat (List.length buf) in
  let s1 := over (a_put (store_bytes (a_mem (v_st s)) (n_data (nodes s i) + off) buf) (v_st s)) s in
  let s2 := set_fd fd e s1 in
  set_node i (if n_size (nodes s2 i) <? new_end
              then with_data (n_data (nodes s2 i)) new_end (n_capacity (nodes s2 i)) (nodes s2 i)
              else nodes s2 i) s2 =
  set_fd fd e (put_node s i off buf).
Proof.
  cbv zeta. unfold put_node, end_size. cbn.
  destruct (Z.ltb_spec (n_size (nodes s i)) (off + Z.of_nat (List.length buf))).
  - by rewrite Z.max_r by lia.
  - by rewrite Z.max_l, with_data_own by lia.
Qed.

Lemma store_tail E s i data off new_end e fd buf r (Q : Z -> vfs St -> Prop) :
  data = n_data (nodes s i) -> new_end = off + Z.of_nat (List.length buf) -> Q r (set_fd fd e (put_node s i off buf)) ->
  wp E (zoom (modify (fun m => a_put (store_bytes (a_mem m) (data + off) buf) m));;
        modify (set_fd fd e);;
        s' ← get;
        let n := nodes s' i in
        modify (set_node i (if n_size n <? new_end then with_data (n_data n) new_end (n_capacity n) n else n));;
        mret r) s Q.
Proof. intros -> -> HQ. rewrite <- store_step in HQ. exact HQ. Qed.

Lemma files_inv_fd L s fd e : files_inv L s -> files_inv L (set_fd fd e s).
Proof. intros []. by split. Qed.

Lemma node_at_set s i d size cap t x :
  node_at (nodes (set_node i (with_data d size cap (nodes s i)) (over t s))) x = node_at (nodes s) x.
Proof.
  apply scan_ext. intros j _. cbn. rewrite upd_case. by destruct (Z.eqb_spec j i) as [->|].
Qed.

(** What a write leaves behind. *)
Definition written s (fd i off : Z) (buf : list Z) s' : Prop :=
  (exists L', files_inv L' s') /\
  fds s' fd = with_offset (off + Z.of_nat (List.length buf)) (fds s fd) /\
  (forall x, node_at (nodes s') x = node_at (nodes s) x) /\
  (exists hole, List.length hole = Z.to_nat (off - n_size (nodes s i)) /\
    contents s' i = overlay (contents s i) hole buf (Z.to_nat off)) /\
  (forall j, is_file s' j <-> is_file s j) /\
  (forall j, is_file s j -> j <> i -> contents s' j = contents s j).

Lemma written_put L s s1 fd i e buf :
  files_inv L s1 -> is_file s1 i -> 0 <= f_offset (fds s fd) -> buf <> [] -> Forall (fun b => 0 <= b < 256) buf ->
  f_offset (fds s fd) + Z.of_nat (List.length buf) <= n_capacity (nodes s1 i) ->
  n_size (nodes s1 i) = n_size (nodes s i) ->
  (forall j, is_file s1 j <-> is_file s j) -> (forall j, is_file s j -> contents s1 j = contents s j) ->
  (forall x, node_at (nodes s1) x = node_at (nodes s) x) ->
  e = with_offset (f_offset (fds s fd) + Z.of_nat (List.length buf)) (fds s fd) ->
  written s fd i (f_offset (fds s fd)) buf (set_fd fd e (put_node s1 i (f_offset (fds s fd)) buf)).
Proof.
  intros Hinv Hi Hoff Hne Hb Hcap Hsz Hfiles Hcont Hat ->. set (off := f_offset (fds s fd)) in *.
  split_and!.
  - exists L. apply files_inv_fd. by apply (put_inv L s1 i off buf).
  - cbn. by rewrite upd_same.
  - intros x. rewrite <- Hat. apply node_at_set.
  - destruct (put_contents L s1 i off buf Hinv Hi Hoff (conj Hne Hb) Hcap) as (hole & Hl & Hc).
    exists hole. rewrite <- Hsz. split; [done|]. rewrite <- (Hcont i) by by apply Hfiles. exact Hc.
  - intros j. rewrite <- Hfiles. by apply (put_file s1 i off buf Hi).
  - intros j Hj Hji. rewrite <- (Hcont j) by done. apply (put_contents_other L s1 i off buf Hinv Hi Hoff (conj Hne Hb) Hcap);
      [by apply Hfiles|done].
Qed.

Lemma write_ok L s fd i buf :
  files_inv L s -> open_on s fd i VFS_O_WRITE -> 0 <= f_offset (fds s fd) ->
  f_offset (fds s fd) + Z.of_nat (List.length buf) <= 2^61 -> buf <> [] -> Forall (fun b => 0 <= b < 256) buf ->
  safe (vfs_write fd buf) s (fun r s' =>
    r = s32 (Z.of_nat (List.length buf)) /\ written s fd i (f_offset (fds s fd)) buf s').
Proof.
  intros Hinv (Hfd & Hfl & Hnode & Hi) Hoff Hend Hne Hb. unfold vfs_write. wp_step. wp_step.
  rewrite Hfd, Hfl, Hnode. cbn [negb]. pose proof (proj2 (proj2 Hi)) as Hit. rewrite Hit. set (off := f_offset (fds s fd)) in *.
  rewrite (u64_small (off + _)) by lia. wp_step.
  destruct (Z.ltb_spec (n_capacity (nodes s i)) (off + Z.of_nat (List.length buf))) as [Hgrow|Hfit].
  - wp_step. rewrite u64_small by lia. apply wp_zoom. set (cap := off + Z.of_nat (List.length buf) + 256).
    eapply wp_mono; [apply (realloc_moves L); [done|done|lia]|].
    cbn beta. intros q t Hm. destruct (Z.eqb_spec q 0) as [->|]; [by destruct Hm|]. do 3 (wp_step; cbn beta iota).
    destruct (grow_inv L s i cap q t Hinv Hi ltac:(lia) Hm) as [L1 Hinv1].
    assert (forall j, is_file (grow_node s i q cap t) j <-> is_file s j) as Hfiles by (intros; by apply is_file_set_node).
    pose proof (grow_self s i q cap t) as Hself. fold (grow_node s i q cap t).
    assert (n_data (nodes (grow_node s i q cap t) i) = q) as Hq by by rewrite Hself.
    refine (store_tail _ (grow_node s i q cap t) i q off _ _ fd buf _ _ (eq_sym Hq) eq_refl _). split; [reflexivity|].
    apply (written_put L1 s (grow_node s i q cap t)); [exact Hinv1|by apply Hfiles|exact Hoff|exact Hne|exact Hb| | |exact Hfiles| | |].
    + rewrite Hself. cbn [n_capacity with_data]. fold off. lia.
    + by rewrite Hself.
    + intros j Hj. by apply (grow_contents L).
    + intros x. apply node_at_set.
    + reflexivity.
  - wp_step. cbn beta iota. refine (store_tail _ s i _ off _ _ fd buf _ _ eq_refl eq_refl _). split; [reflexivity|].
    apply (written_put L s s); [exact Hinv|exact Hi|exact Hoff|exact Hne|exact Hb|exact Hfit|done..].
Qed.

(** What a read of a file returns: past the end the number of bytes left wraps. *)
Definition read_count (off size len : Z) : Z :=
  Z.min len (if off <=? size then size - off else 2^64 - (off - size)).

Lemma read_eq s fd i len :
  open_on s fd i VFS_O_READ -> 0 <= f_offset (fds s fd) < 2^64 -> 0 <= n_size (nodes s i) < 2^64 -> 0 <= len ->
  let off := f_offset (fds s fd) in
  let n := read_count off (n_size (nodes s i)) len in
  exists s', vfs_read fd len s = Done ((s32 n, load_bytes (a_mem (v_st s)) (n_data (nodes s i) + off) (Z.to_nat n)), s') /\
    v_st s' = v_st s /\ nodes s' = nodes s /\ fds s' fd = with_offset (u64 (off + n)) (fds s fd).
Proof.
  intros (Hfd & Hfl & Hnode & _ & _ & Hit) Hoff Hsz Hlen off n. unfold vfs_read, get, mbind, M_bind.
  rewrite Hfd, Hfl, Hnode. cbn [negb]. rewrite bool_decide_false by (by rewrite Hit). fold off.
  assert (u64 (n_size (nodes s i) - off) =
    if off <=? n_size (nodes s i) then n_size (nodes s i) - off else 2^64 - (off - n_size (nodes s i))) as ->.
  { subst off. destruct (Z.leb_spec (f_offset (fds s fd)) (n_size (nodes s i))); [apply u64_small; lia|unfold u64; zlia]. }
  set (avail := if _ <=? _ then _ else _) in *. assert (n = Z.min len avail) as Hn by done.
  destruct (Z.eqb_spec avail 0) as [Hz|Hz].
  - exists s. rewrite Hn, Hz, Z.min_r by done. split_and!; [done..|]. rewrite Z.add_0_r, u64_small by done.
    unfold off. by destruct (fds s fd).
  - assert (n = if len <? avail then len else avail) as Hn'.
    { rewrite Hn. destruct (Z.ltb_spec len avail); lia. }
    rewrite <- Hn'. eexists. split; [reflexivity|]. split_and!; [done..|]. cbn. by rewrite upd_same.
Qed.

Lemma seek_eq s fd i off flag : open_on s fd i flag -> 0 <= off < 2^63 ->
  vfs_lseek fd off 0 s = Done (off, set_fd fd (with_offset off (fds s fd)) s).
Proof.
  intros (Hfd & _ & Hnode & _ & _ & Hit) Hoff. unfold vfs_lseek, get, mbind, M_bind.
  rewrite Hfd, Hnode. cbn [negb]. rewrite bool_decide_false by (by rewrite Hit). cbn [Z.eqb].
  replace (off <? 0) with false by blia. rewrite u64_small by lia. done.
Qed.

Lemma contents_slice s i off n : 0 <= off -> 0 <= n -> off + n <= n_size (nodes s i) ->
  load_bytes (a_mem (v_st s)) (n_data (nodes s i) + off) (Z.to_nat n) =
  take (Z.to_nat n) (drop (Z.to_nat off) (contents s i)).
Proof.
  intros Ho Hn Hle. unfold contents. rewrite load_bytes_drop, load_bytes_take. f_equal; lia.
Qed.

Lemma overlay_slice old hole buf off : (List.length old + List.length hole >= off)%nat ->
  take (List.length buf) (drop off (overlay old hole buf off)) = buf.
Proof.
  intros Hl. unfold overlay. rewrite drop_app_length' by (rewrite length_take, length_app; lia).
  by rewrite take_app_length.
Qed.

Lemma reopen s s1 fd i off buf : fd_ok s fd = true -> has_flag (f_flags (fds s fd)) VFS_O_READ = true ->
  fd_node s fd = Some i -> is_file s i -> written s fd i off buf s1 -> open_on s1 fd i VFS_O_READ.
Proof.
  intros Hfd Hr Hnode Hi (_ & Hf & Hat & _ & Hfiles & _). unfold open_on, fd_ok, fd_node in *. rewrite Hf.
  cbn [f_inode f_flags f_open with_offset]. rewrite Hat. split; [exact Hfd|]. split; [exact Hr|]. split; [exact Hnode|by apply Hfiles].
Qed.

Lemma written_end L s s1 fd i buf : files_inv L s -> is_file s i -> 0 <= f_offset (fds s fd) ->
  written s fd i (f_offset (fds s fd)) buf s1 ->
  f_offset (fds s fd) + Z.of_nat (List.length buf) <= n_size (nodes s1 i) < 2^64.
Proof.
  intros Hinv Hi Hoff ((L1 & Hinv1) & _ & _ & (hole & Hl & Hc) & Hfiles & _).
  apply Hfiles in Hi. pose proof (fi_size _ _ Hinv1 i Hi) as Hs.
  pose proof (length_contents s1 i) as Hlen. rewrite Hc in Hlen. unfold overlay in Hlen.
  rewrite !length_app, length_take, length_app, length_contents, Hl in Hlen. split; [lia|].
  destruct (fi_block _ _ Hinv1 i Hi) as [[_ Hz]|(c & Hc1 & Hcap)]; [lia|].
  destruct (a_range L1 (v_st s1) _ _ (fi_alloc _ _ Hinv1) Hc1). lia.
Qed.

Lemma written_same s fd i off buf s1 s2 : written s fd i off buf s1 ->
  v_st s2 = v_st s1 -> nodes s2 = nodes s1 -> fds s2 fd = fds s1 fd -> written s fd i off buf s2.
Proof.
  intros ((L1 & Hinv1) & Hf & Hat & Hc & Hfiles & Ho) Hv Hn Hfd. unfold written, contents, is_file in *.
  rewrite Hv, Hn, Hfd. split_and!; [|done..]. exists L1.
  destruct Hinv1 as [H1 H2 H3 H4]. unfold is_file in *. split; unfold is_file; rewrite ?Hv, ?Hn; done.
Qed.

(** ** Properties *)

(** C13: Writing a file through a descriptor stores exactly the bytes at the
    descriptor's offset, over any allocator that keeps its promises: seeking back
    and reading returns them, the rest of the file and every other file keep
    their contents, and the files stay well formed. *)
Theorem write_then_read L s fd i buf :
  files_inv L s -> open_on s fd i VFS_O_WRITE -> has_flag (f_flags (fds s fd)) VFS_O_READ = true ->
  0 <= f_offset (fds s fd) -> f_offset (fds s fd) + Z.of_nat (List.length buf) <= 2^61 ->
  buf <> [] -> Forall (fun b => 0 <= b < 256) buf ->
  let off := f_offset (fds s fd) in
  safe (vfs_write fd buf;; vfs_lseek fd off 0;; vfs_read fd (Z.of_nat (List.length buf))) s (fun r s' =>
    r = (s32 (Z.of_nat (List.length buf)), buf) /\ written s fd i off buf s').
Proof.
  intros Hinv Hopen Hr Hoff Hend Hne Hb off. wp_step. eapply wp_mono; [by apply (write_ok L)|]. cbn beta.
  intros r s1 [-> Hw]. fold off in Hw. pose proof Hw as (_ & Hf1 & Hat & (hole & Hhole & Hc) & Hfiles & _).
  destruct Hopen as (Hfd & _ & Hnode & Hi).
  pose proof (reopen s s1 fd i off buf Hfd Hr Hnode Hi Hw) as Hopen1.
  wp_step. fold off in Hoff, Hend. eapply wp_Done; [apply (seek_eq s1 fd i off VFS_O_READ Hopen1); lia|]. cbn beta.
  set (s2 := set_fd fd (with_offset off (fds s1 fd)) s1).
  assert (f_offset (fds s2 fd) = off) as Ho2 by (cbn; by rewrite upd_same).
  pose proof (written_end L s s1 fd i buf Hinv Hi Hoff Hw) as Hend1. fold off in Hend1.
  destruct (read_eq s2 fd i (Z.of_nat (List.length buf))) as (s3 & Hrd & Hv & Hn & Hf); [|rewrite Ho2; lia|cbn; lia|lia|].
  { unfold open_on, fd_ok, fd_node. cbn [fds s2 set_fd set_fds nodes]. rewrite upd_same. exact Hopen1. }
  change (nodes s2) with (nodes s1) in *. change (v_st s2) with (v_st s1) in *.
  rewrite Ho2 in *. unfold read_count in *. replace (off <=? n_size (nodes s1 i)) with true in * by blia.
  rewrite Z.min_l in * by lia. eapply wp_Done; [exact Hrd|]. cbn beta. split.
  - f_equal. rewrite contents_slice, Hc, Nat2Z.id by lia. apply overlay_slice. rewrite Hhole, length_contents. lia.
  - eapply written_same; [exact Hw|exact Hv|exact Hn|]. rewrite Hf, u64_small by lia.
    cbn. by rewrite upd_same, Hf1.
Qed.

(** C40: Reading a file returns the bytes between the offset and its end, as many as
    are asked for. With the offset beyond the end the count left wraps to nearly
    2^64 and whatever memory follows the file is returned. *)
Theorem read_returns s fd i len :
  open_on s fd i VFS_O_READ -> 0 <= f_offset (fds s fd) < 2^64 -> 0 <= n_size (nodes s i) < 2^64 -> 0 <= len ->
  let off := f_offset (fds s fd) in
  let n := read_count off (n_size (nodes s i)) len in
  exists s', vfs_read fd len s = Done ((s32 n, load_bytes (a_mem (v_st s)) (n_data (nodes s i) + off) (Z.to_nat n)), s') /\
    v_st s' = v_st s /\ nodes s' = nodes s /\ f_offset (fds s' fd) = u64 (off + n) /\
    (off <= n_size (nodes s i) -> load_bytes (a_mem (v_st s)) (n_data (nodes s i) + off) (Z.to_nat n) =
       take (Z.to_nat len) (drop (Z.to_nat off) (contents s i))).
Proof.
  intros Hopen Hoff Hsz Hlen off n. destruct (read_eq s fd i len Hopen Hoff Hsz Hlen) as (s' & Hr & Hv & Hn & Ho).
  exists s'. rewrite Ho. split_and!; [done..|]. intros Hle. subst n off. unfold read_count.
  replace (f_offset (fds s fd) <=? n_size (nodes s i)) with true by blia. rewrite contents_slice by lia.
  pose proof (length_contents s i). destruct (Z.le_gt_cases len (n_size (nodes s i) - f_offset (fds s fd))).
  - by rewrite Z.min_l.
  - rewrite !take_ge; [done|rewrite length_drop; lia..].
Qed.
End data.

(** ** Samples *)

#[local] Instance devices_10 : Devices kstate := kernel_devices 10.
#[local] Instance kernel_laws : AllocatorLaws kstate := kernel_allocator_laws {[0x1000]}.

(** The empty file 1, open for reading and writing as descriptor 3. *)
Definition data_sample (size off : Z) : vfs kstate :=
  Vfs kernel_boot (<[5 := Build_VFSNode true VFS_FILE 1 0 0 0 "f" 0 size 0]> (fun _ => node_zero)) 2 0
    (<[3 := Build_FDEntry true 1 off 3]> (fun _ => fd_zero)).

Lemma data_sample_file size off j : is_file (data_sample size off) j <-> j = 5.
Proof.
  unfold is_file, data_sample. cbn [nodes]. rewrite upd_case. destruct (Z.eqb_spec j 5) as [->|]; [|by split; [intros (_ & ? & _)|]].
  split; [done|]. intros _. split; [lia|done].
Qed.
Lemma data_sample_fd size off : f_offset (fds (data_sample size off) 3) = off.
Proof. unfold data_sample. cbn [fds]. by rewrite upd_same. Qed.
Lemma data_sample_size size off : n_size (nodes (data_sample size off) 5) = size.
Proof. unfold data_sample. cbn [nodes]. by rewrite upd_same. Qed.
Lemma data_sample_inv off : files_inv ∅ (data_sample 0 off).
Proof.
  split.
  - exact heap_boot_live.
  - intros j ->%data_sample_file. unfold data_sample. cbn [nodes]. rewrite upd_same. cbn. lia.
  - intros j ->%data_sample_file. by left.
  - by intros j k ->%data_sample_file ->%data_sample_file.
Qed.
Lemma data_sample_open size off flag : has_flag 3 flag = true -> open_on (data_sample size off) 3 5 flag.
Proof.
  intros Hf. split; [done|]. split; [exact Hf|]. split; [done|]. by apply data_sample_file.
Qed.

Lemma write_then_read_witness :
  safe (vfs_write 3 [104; 105];; vfs_lseek 3 0 0;; vfs_read 3 2) (data_sample 0 0) (fun r s' =>
    r = (2, [104; 105]) /\ contents s' 5 = [104; 105]).
Proof.
  refine (wp_mono _ _ _ _ _ (write_then_read ∅ (data_sample 0 0) 3 5 [104; 105] (data_sample_inv 0) _ _ _ _ _ _) _).
  - apply data_sample_open. reflexivity.
  - reflexivity.
  - rewrite data_sample_fd. lia.
  - rewrite data_sample_fd. cbn. lia.
  - discriminate.
  - repeat constructor; lia.
  - intros r s' [-> (_ & _ & _ & (hole & Hh & Hc) & _)]. split; [by rewrite data_sample_fd in *|].
    rewrite data_sample_fd, data_sample_size in Hh. rewrite data_sample_fd in Hc.
    destruct hole; [|discriminate]. rewrite Hc. unfold contents. by rewrite data_sample_size.
Defined.

(** A file of two bytes read at offset 4: the rest of memory is there. *)
Lemma read_returns_witness :
  exists s' bs, vfs_read 3 8 (data_sample 2 4) = Done ((8, bs), s') /\ List.length bs = 8%nat.
Proof.
  destruct (read_returns (data_sample 2 4) 3 5 8 (data_sample_open 2 4 VFS_O_READ eq_refl)) as (s' & H & _).
  - rewrite data_sample_fd. lia.
  - rewrite data_sample_size. lia.
  - lia.
  - rewrite data_sample_fd, data_sample_size in H. change (read_count 4 2 8) with 8 in H.
    eexists s', _. split; [exact H|]. rewrite length_load_bytes. reflexivity.
Defined.
