(* ===== verification/VfsTree.v ===== *)
(** * The name tree of the file system

    Paths against walks of component names, the well-formedness of the node
    table, and what creating, removing and naming do to it (src/src/fs/vfs.c). *)

From Stdlib Require Import Ascii.
From S2P Require Import Prelude Pmm Mem Strings Vmm Heap Vfs Devfs.

(** ** Paths as lists of names *)

Fixpoint no_slash (s : string) : bool :=
  match s with
  | EmptyString => true
  | String c s' => negb (Ascii.eqb c slash) && no_slash s'
  end.
Definition component (n : string) : Prop :=
  n <> ""%string /\ no_slash n = true /\ (String.length n <= 63)%nat.

Fixpoint path_of (ns : list string) : string :=
  match ns with
  | [] => EmptyString
  | n :: ns' => String slash (n ++ path_of ns')
  end.
Definition abs_path (ns : list string) : string :=
  match ns with [] => "/"%string | _ => path_of ns end.
Definition rel_path (ns : list string) : string :=
  match ns with [] => EmptyString | n :: ns' => (n ++ path_of ns')%string end.

(** The reference for a resolution: one step per name. *)
Fixpoint walk (nd : Z -> VFSNode) (cur : Z) (ns : list string) : option Z :=
  match ns with
  | [] => Some cur
  | n :: ns' => match walk_step nd cur n with Some c => walk nd c ns' | None => None end
  end.
Definition inode_result (o : option Z) : Z := match o with Some i => s32 i | None => -1 end.

Lemma string_cons_app c a b : (String c a ++ b = String c (a ++ b))%string.
Proof. done. Qed.
Lemma string_app_nil s : (s ++ "" = s)%string.
Proof. induction s as [|c s IH]; [done|]. by rewrite string_cons_app, IH. Qed.
Lemma string_app_assoc a b c : ((a ++ b) ++ c = a ++ (b ++ c))%string.
Proof. induction a as [|x a IH]; [done|]. by rewrite !string_cons_app, IH. Qed.
Lemma string_length_app a b : String.length (a ++ b) = (String.length a + String.length b)%nat.
Proof. induction a as [|x a IH]; [done|]. rewrite string_cons_app. simpl. by rewrite IH. Qed.
Lemma path_of_app ns ms : path_of (ns ++ ms) = (path_of ns ++ path_of ms)%string.
Proof. induction ns as [|n ns IH]; [done|]. simpl. by rewrite IH, string_cons_app, string_app_assoc. Qed.

Lemma take_component_path k n ns :
  no_slash n = true -> (String.length n <= k)%nat ->
  take_component k (n ++ path_of ns) = (n, rel_path ns).
Proof.
  revert n. induction k as [|k IH]; intros [|c n] Hn Hk; cbn [no_slash String.length] in *; try lia.
  - by destruct ns.
  - by destruct ns.
  - apply andb_true_iff in Hn as [Hc Hn]. apply negb_true_iff in Hc.
    rewrite string_cons_app. cbn [take_component]. by rewrite Hc, IH by (done || lia).
Qed.

Lemma component_head n : component n -> exists c n', n = String c n' /\ Ascii.eqb c slash = false.
Proof.
  intros (Hne & Hs & _). destruct n as [|c n']; [done|]. cbn [no_slash] in Hs.
  apply andb_true_iff in Hs as [Hc _]. apply negb_true_iff in Hc. by exists c, n'.
Qed.

Lemma resolve_loop_walk nd fuel cur ns :
  Forall component ns -> (String.length (rel_path ns) <= fuel)%nat ->
  resolve_loop fuel nd cur (rel_path ns) = walk nd cur ns.
Proof.
  revert fuel cur. induction ns as [|n ns IH]; intros fuel cur Hns Hf; [by destruct fuel|].
  apply Forall_cons_iff in Hns as [Hn Hns]. pose proof (component_head n Hn) as (c & n' & -> & _).
  cbn [rel_path] in *. rewrite string_length_app in Hf. cbn [String.length] in Hf.
  destruct fuel as [|fuel]; [lia|].
  pose proof (take_component_path 63 (String c n') ns (proj1 (proj2 Hn)) (proj2 (proj2 Hn))) as Ht.
  rewrite string_cons_app in *. unfold resolve_loop at 1. rewrite Ht. fold resolve_loop. cbn [walk].
  destruct (walk_step nd cur (String c n')) as [cur'|]; [|done]. apply IH; [done|].
  assert (String.length (rel_path ns) <= String.length (path_of ns))%nat by (destruct ns; simpl; lia). lia.
Qed.

Lemma rel_path_head ns : ns <> [] -> Forall component ns ->
  exists c p, rel_path ns = String c p /\ Ascii.eqb c slash = false.
Proof.
  destruct ns as [|n ns]; [done|]. intros _ [Hn _]%Forall_cons_iff.
  destruct (component_head n Hn) as (c & n' & -> & Hc). by exists c, (n' ++ path_of ns)%string.
Qed.
Lemma path_of_rel ns : ns <> [] -> path_of ns = String slash (rel_path ns).
Proof. by destruct ns. Qed.
Lemma abs_path_rel ns : abs_path ns = String slash (rel_path ns).
Proof. by destruct ns. Qed.

(** The last name of a path. *)
Lemma split_last_no_slash n : no_slash n = true -> split_last n = None.
Proof.
  induction n as [|c n IH]; [done|]. cbn [no_slash split_last]. intros [Hc Hn]%andb_true_iff.
  rewrite IH by done. by apply negb_true_iff in Hc as ->.
Qed.
Lemma split_last_app a n : no_slash n = true -> split_last (a ++ String slash n) = Some (a, n).
Proof.
  intros Hn. induction a as [|c a IH].
  - change ("" ++ String slash n)%string with (String slash n). cbn [split_last].
    by rewrite split_last_no_slash, Ascii.eqb_refl.
  - rewrite string_cons_app. cbn [split_last]. by rewrite IH.
Qed.
Lemma path_of_snoc ns n : path_of (ns ++ [n]) = (path_of ns ++ String slash n)%string.
Proof. rewrite path_of_app. cbn [path_of]. by rewrite string_app_nil. Qed.
Lemma rel_path_snoc n ns m : rel_path ((n :: ns) ++ [m]) = (rel_path (n :: ns) ++ String slash m)%string.
Proof. cbn [rel_path app]. by rewrite path_of_snoc, string_app_assoc. Qed.

Lemma substring_all n s : (String.length s <= n)%nat -> String.substring 0 n s = s.
Proof.
  revert s. induction n as [|n IH]; intros [|c s] Hl; cbn [String.length] in *; try done; [lia|].
  cbn [String.substring]. by rewrite IH by lia.
Qed.

(** A path with its names, and the inode its walk starts from. *)
Inductive is_path (cwd : Z) (ns : list string) : string -> Z -> Prop :=
| Absolute : is_path cwd ns (abs_path ns) 0
| Relative : ns <> [] -> is_path cwd ns (rel_path ns) cwd.

Section paths.
Context {St : Type}.
Implicit Types s : vfs St.

Lemma resolve_path s ns p start : is_path (vfs_cwd s) ns p start -> Forall component ns ->
  resolve s p = inode_result (walk (nodes s) start ns).
Proof.
  intros [|Hne] Hns.
  - rewrite abs_path_rel. unfold resolve. rewrite Ascii.eqb_refl. by rewrite resolve_loop_walk.
  - destruct (rel_path_head ns Hne Hns) as (c & q & Hp & Hc).
    unfold resolve. rewrite Hp, Hc. rewrite <- Hp, resolve_loop_walk; [done|done|].
    rewrite Hp. cbn. lia.
Qed.

Lemma resolve_parent_path s ns leaf p start :
  is_path (vfs_cwd s) (ns ++ [leaf]) p start -> Forall component (ns ++ [leaf]) ->
  (String.length (rel_path ns) < 255)%nat ->
  resolve_parent p s = Done ((inode_result (walk (nodes s) start ns), leaf), s).
Proof.
  intros Hp [Hns Hl]%Forall_app Hlen. apply Forall_cons_iff in Hl as [(Hne & Hsl & Hl63) _].
  assert (name63 leaf = leaf) as Hleaf by by apply substring_all.
  unfold resolve_parent. destruct Hp as [|_].
  - assert (abs_path (ns ++ [leaf]) = path_of ns ++ String slash leaf)%string as ->.
    { rewrite <- path_of_snoc. by destruct ns. }
    rewrite split_last_app, Hleaf by done.
    assert (match path_of ns with EmptyString => "/"%string | _ => String.substring 0 255 (path_of ns) end
            = abs_path ns) as ->.
    { destruct ns as [|n ns]; [done|]. rewrite path_of_rel by done. cbn [abs_path].
      rewrite path_of_rel by done. apply substring_all. cbn [String.length]. lia. }
    unfold vfs_resolve, mbind, M_bind, gets. rewrite (resolve_path s ns _ 0); [done|constructor|done].
  - destruct ns as [|n ns].
    + cbn [app rel_path path_of]. rewrite string_app_nil, split_last_no_slash by done. cbn.
      by rewrite Hleaf.
    + rewrite rel_path_snoc, split_last_app, Hleaf by done.
      destruct (rel_path_head (n :: ns)) as (c & q & Hq & _); [done..|].
      assert (match rel_path (n :: ns) with EmptyString => "/"%string
              | _ => String.substring 0 255 (rel_path (n :: ns)) end = rel_path (n :: ns)) as ->.
      { rewrite substring_all by lia. by rewrite Hq. }
      unfold vfs_resolve, mbind, M_bind, gets. rewrite (resolve_path s (n :: ns) _ (vfs_cwd s)); [done|by constructor|done].
Qed.
End paths.

(** ** Well-formed node tables *)

Abbreviation slot i := (0 <= i < 256) (only parsing).

(** Every node but the root hangs below a directory with a smaller inode,
    under a name that none of its siblings has. *)
Record tree_ok (nd : Z -> VFSNode) (next : Z) : Prop := {
  to_root : n_used (nd 0) = true /\ n_type (nd 0) = VFS_DIR /\ n_inode (nd 0) = 0 /\
            n_parent (nd 0) = 0 /\ n_name (nd 0) = "/"%string;
  to_next : 0 < next < 2^31;
  to_inode : forall i, slot i -> n_used (nd i) = true -> i <> 0 ->
    0 <= n_parent (nd i) < n_inode (nd i) /\ n_inode (nd i) < next;
  to_distinct : forall i j, slot i -> slot j -> n_used (nd i) = true -> n_used (nd j) = true ->
    n_inode (nd i) = n_inode (nd j) -> i = j;
  to_parent : forall i, slot i -> n_used (nd i) = true ->
    exists j, slot j /\ n_used (nd j) = true /\ n_type (nd j) = VFS_DIR /\ n_inode (nd j) = n_parent (nd i);
  to_name : forall i, slot i -> n_used (nd i) = true -> i <> 0 ->
    component (n_name (nd i)) /\ n_name (nd i) <> "."%string /\ n_name (nd i) <> ".."%string;
  to_sibling : forall i j, slot i -> slot j -> n_used (nd i) = true -> n_used (nd j) = true ->
    n_parent (nd i) = n_parent (nd j) -> n_name (nd i) = n_name (nd j) -> i = j
}.

Definition is_dir (nd : Z -> VFSNode) (x : Z) : bool :=
  match node_at nd x with Some i => bool_decide (n_type (nd i) = VFS_DIR) | None => false end.
Definition has_room (nd : Z -> VFSNode) : bool :=
  match scan 256 0 (fun i => negb (n_used (nd i))) with Some _ => true | None => false end.

Section table.
Context (nd : Z -> VFSNode) (next : Z) (Hok : tree_ok nd next).

Lemma node_at_Some x i : node_at nd x = Some i <-> slot i /\ n_used (nd i) = true /\ n_inode (nd i) = x.
Proof using Hok.
  unfold node_at. rewrite scan_Some, andb_true_iff, Z.eqb_eq. split.
  - intros (? & [? ?] & _). split_and!; [lia..|done|done].
  - intros (Hi & Hu & Hx). split; [lia|]. split; [done|]. intros j Hj.
    destruct (n_used (nd j)) eqn:Hu'; [|done]. simpl. apply Z.eqb_neq. intros Hx'.
    assert (j = i); [|lia]. apply (to_distinct _ _ Hok); [lia|lia|done|done|congruence].
Qed.
Lemma inode_range i : slot i -> n_used (nd i) = true -> 0 <= n_inode (nd i) < next.
Proof using Hok.
  intros Hi Hu. destruct (decide (i = 0)) as [->|Hne].
  - destruct (to_root _ _ Hok) as (_ & _ & -> & _). pose proof (to_next _ _ Hok). lia.
  - pose proof (to_inode _ _ Hok i Hi Hu Hne). lia.
Qed.
Lemma parent_range i : slot i -> n_used (nd i) = true -> 0 <= n_parent (nd i) < next.
Proof using Hok.
  intros Hi Hu. destruct (to_parent _ _ Hok i Hi Hu) as (j & Hj & Hju & _ & <-). by apply inode_range.
Qed.

Lemma child_at_Some cur n i : child_at nd cur n = Some i <->
  slot i /\ n_used (nd i) = true /\ n_parent (nd i) = cur /\ n_name (nd i) = n.
Proof using Hok.
  unfold child_at. rewrite scan_Some, !andb_true_iff, Z.eqb_eq, String.eqb_eq. split.
  - intros (? & [[? ?] ?] & _). split_and!; [lia..|done|done|done].
  - intros (Hi & Hu & Hp & Hn). split; [lia|]. split; [done|]. intros j Hj.
    destruct (n_used (nd j)) eqn:Hu'; [|done]. simpl.
    destruct (Z.eqb_spec (n_parent (nd j)) cur) as [Hpj|]; [|done]. simpl.
    apply String.eqb_neq. intros Hnj.
    assert (j = i); [|lia]. apply (to_sibling _ _ Hok); [lia|lia|done|done|congruence|congruence].
Qed.

Lemma walk_step_range cur n c : 0 <= cur < next -> walk_step nd cur n = Some c -> 0 <= c < next.
Proof using Hok.
  unfold walk_step. intros Hc. destruct (String.eqb n "."); [by intros [= <-]|].
  destruct (String.eqb n "..").
  - intros [= <-]. destruct (node_at nd cur) as [i|] eqn:Hi; [|done].
    apply node_at_Some in Hi as (? & ? & _). by apply parent_range.
  - destruct (child_at nd cur n) as [i|] eqn:Hi; [|done]. intros [= <-].
    apply child_at_Some in Hi as (? & ? & _). by apply inode_range.
Qed.
Lemma walk_range ns cur c : 0 <= cur < next -> walk nd cur ns = Some c -> 0 <= c < next.
Proof using Hok.
  revert cur. induction ns as [|n ns IH]; cbn [walk]; intros cur Hc; [by intros [= <-]|].
  destruct (walk_step nd cur n) as [c'|] eqn:Hs; [|done]. apply IH. by eapply walk_step_range.
Qed.
Lemma inode_result_small ns cur : 0 <= cur < next ->
  inode_result (walk nd cur ns) = match walk nd cur ns with Some i => i | None => -1 end.
Proof using Hok.
  intros Hc. destruct (walk nd cur ns) as [i|] eqn:Hw; [|done]. cbn.
  pose proof (walk_range ns cur i Hc Hw). pose proof (to_next _ _ Hok). apply s32_small. lia.
Qed.

Lemma walk_snoc cur ns n : walk nd cur (ns ++ [n]) =
  match walk nd cur ns with Some c => walk_step nd c n | None => None end.
Proof.
  revert cur. induction ns as [|m ns IH]; intros cur; cbn [walk app].
  - by destruct (walk_step nd cur n).
  - by destruct (walk_step nd cur m) as [c|].
Qed.

(** Adding a node [n] in the free slot [k]. *)
Section add.
Context (k p : Z) (leaf : string) (n : VFSNode).
Hypothesis Hk : 0 <= k < 256.
Hypothesis Hfree : n_used (nd k) = false.
Hypothesis Hn : n_used n = true /\ n_inode n = next /\ n_parent n = p /\ n_name n = leaf.
Hypothesis Hp : is_dir nd p = true.
Hypothesis Hleaf : walk_step nd p leaf = None.

Lemma add_names : leaf <> "."%string /\ leaf <> ".."%string /\ child_at nd p leaf = None.
Proof using Hleaf.
  clear - Hleaf. unfold walk_step in Hleaf.
  destruct (String.eqb_spec leaf "."); [done|]. destruct (String.eqb_spec leaf ".."); [done|].
  split_and!; [done..|]. by destruct (child_at nd p leaf).
Qed.

Lemma tree_ok_add : next + 1 < 2^31 -> component leaf -> tree_ok (<[k := n]> nd) (next + 1).
Proof using All.
  intros Hnext Hc. destruct Hn as (Hu & Hin & Hpn & Hnn). pose proof add_names as (Hd & Hdd & Hch).
  assert (forall i, slot i -> n_used (nd i) = true -> n_parent (nd i) = p -> n_name (nd i) <> leaf) as Hnew.
  { intros i Hi Hui Hpi Hni. assert (child_at nd p leaf = Some i) by by apply child_at_Some. congruence. }
  unfold is_dir in Hp. destruct (node_at nd p) as [pi|] eqn:Hpi; [|done]. apply bool_decide_eq_true in Hp.
  apply node_at_Some in Hpi as (Hpis & Hpu & Hpin). pose proof (inode_range pi Hpis Hpu).
  assert (pi <> k) as Hpk by congruence. assert (0 <> k) as H0k.
  { intros <-. destruct (to_root _ _ Hok). congruence. }
  split.
  - rewrite upd_other by done. apply (to_root _ _ Hok).
  - pose proof (to_next _ _ Hok). lia.
  - intros i Hi. rewrite !upd_case. destruct (Z.eqb_spec i k) as [->|]; [lia|].
    intros Hui Hne. pose proof (to_inode _ _ Hok i Hi Hui Hne). lia.
  - intros i j Hi Hj. rewrite !upd_case. destruct (Z.eqb_spec i k) as [->|], (Z.eqb_spec j k) as [->|]; try done.
    + intros _ Huj. pose proof (inode_range j Hj Huj). lia.
    + intros Hui _. pose proof (inode_range i Hi Hui). lia.
    + by apply (to_distinct _ _ Hok).
  - intros i Hi. rewrite !upd_case. destruct (Z.eqb_spec i k) as [->|]; intros Hui.
    + exists pi. rewrite upd_other by done. by rewrite Hpn.
    + destruct (to_parent _ _ Hok i Hi Hui) as (j & Hj & Hju & Hjt). exists j.
      rewrite upd_other by congruence. tauto.
  - intros i Hi. rewrite !upd_case. destruct (Z.eqb_spec i k) as [->|]; [by rewrite Hnn|]. by apply (to_name _ _ Hok).
  - intros i j Hi Hj. rewrite !upd_case. destruct (Z.eqb_spec i k) as [->|], (Z.eqb_spec j k) as [->|]; try done.
    + intros _ Huj ? ?. destruct (Hnew j); congruence.
    + intros Hui _ ? ?. destruct (Hnew i); congruence.
    + by apply (to_sibling _ _ Hok).
Qed.

Lemma node_at_add x : x <> next -> node_at (<[k := n]> nd) x = node_at nd x.
Proof using Hk Hfree Hn.
  intros Hx. apply scan_ext. intros j Hj. rewrite upd_case. destruct (Z.eqb_spec j k) as [->|]; [|done].
  destruct Hn as (_ & -> & _). rewrite Hfree. replace (next =? x) with false by blia. apply andb_false_r.
Qed.
Lemma child_at_add cur m : ~ (cur = p /\ m = leaf) -> child_at (<[k := n]> nd) cur m = child_at nd cur m.
Proof using Hk Hfree Hn.
  clear Hp Hleaf. intros Hx. apply scan_ext. intros j Hj. rewrite upd_case.
  destruct (Z.eqb_spec j k) as [->|]; [|done]. destruct Hn as (_ & _ & -> & ->). rewrite Hfree. simpl. rewrite <- andb_assoc.
  destruct (Z.eqb_spec p cur) as [->|], (String.eqb_spec leaf m) as [->|]; simpl; rewrite ?andb_false_r, ?andb_true_r; try done.
  all: by destruct Hx.
Qed.
Lemma child_at_new : child_at (<[k := n]> nd) p leaf = Some k.
Proof using Hk Hn Hleaf.
  pose proof add_names as (_ & _ & Hch). unfold child_at in *. rewrite scan_None in Hch.
  apply scan_Some. split; [lia|]. destruct Hn as (Hu & _ & Hpn & Hnn). split.
  - by rewrite upd_same, Hu, Hpn, Hnn, Z.eqb_refl, String.eqb_refl.
  - intros j Hj. rewrite upd_other by lia. apply Hch. lia.
Qed.

(** Exactly one name is new. *)
Lemma walk_step_add cur m : cur <> next ->
  walk_step (<[k := n]> nd) cur m = if decide (cur = p /\ m = leaf) then Some next else walk_step nd cur m.
Proof using Hk Hfree Hn Hleaf.
  intros Hc. pose proof add_names as (Hd & Hdd & _). unfold walk_step. case_decide as Hx.
  - destruct Hx as [-> ->]. destruct (String.eqb_spec leaf "."); [done|]. destruct (String.eqb_spec leaf ".."); [done|].
    rewrite child_at_new, upd_same. f_equal. apply Hn.
  - rewrite child_at_add, node_at_add by done.
    destruct (String.eqb m "."); [done|]. destruct (String.eqb m "..").
    + destruct (node_at nd cur) as [i|] eqn:Hi; [|done]. apply scan_Some in Hi as (_ & [Hui _]%andb_true_iff & _).
      rewrite upd_other; [done|congruence].
    + destruct (child_at nd cur m) as [i|] eqn:Hi; [|done].
      apply scan_Some in Hi as (_ & [[Hui _]%andb_true_iff _]%andb_true_iff & _). rewrite upd_other; [done|congruence].
Qed.
(** The new directory is empty. *)
Lemma walk_step_new m : (forall i, slot i -> n_used (nd i) = true -> n_parent (nd i) <> next) ->
  walk_step (<[k := n]> nd) next m =
    if String.eqb m "." then Some next else if String.eqb m ".." then Some p else None.
Proof using Hok Hk Hn Hp.
  clear Hleaf. intros Hno. unfold walk_step. destruct (String.eqb m "."); [done|]. destruct Hn as (Hu & Hin & Hpn & Hnn).
  destruct (String.eqb m "..").
  - assert (node_at (<[k := n]> nd) next = Some k) as ->; [|by rewrite upd_same, Hpn].
    apply scan_Some. split; [lia|]. split; [by rewrite upd_same, Hu, Hin, Z.eqb_refl|].
    intros j Hj. rewrite upd_other by lia. destruct (n_used (nd j)) eqn:Huj; [|done]. simpl.
    pose proof (inode_range j ltac:(lia) Huj). apply Z.eqb_neq. lia.
  - assert (child_at (<[k := n]> nd) next m = None) as ->; [|done]. apply scan_None. intros j Hj.
    rewrite upd_case. destruct (Z.eqb_spec j k) as [->|].
    + rewrite Hu, Hpn. simpl. unfold is_dir in Hp. destruct (node_at nd p) as [pi|] eqn:Hpi; [|done].
      apply node_at_Some in Hpi as (Hpis & Hpu & <-). pose proof (inode_range pi Hpis Hpu).
      by replace (n_inode (nd pi) =? next) with false by blia.
    + destruct (n_used (nd j)) eqn:Huj; [|done]. simpl.
      replace (n_parent (nd j) =? next) with false; [done|]. symmetry. apply Z.eqb_neq, Hno; [lia|done].
Qed.

End add.

(** Removing a node that has no children. *)
Lemma tree_ok_remove k : slot k -> k <> 0 -> n_used (nd k) = true ->
  (n_type (nd k) = VFS_DIR -> forall i, slot i -> n_used (nd i) = true -> n_parent (nd i) <> n_inode (nd k)) ->
  tree_ok (<[k := node_zero]> nd) next.
Proof using Hok.
  intros Hk Hk0 Hu Hno.
  assert (forall i, n_used (<[k := node_zero]> nd i) = true -> i <> k /\ <[k := node_zero]> nd i = nd i) as Hold.
  { intros i. rewrite upd_case. by destruct (Z.eqb_spec i k). }
  split.
  - rewrite upd_other by done. apply (to_root _ _ Hok).
  - apply (to_next _ _ Hok).
  - intros i Hi Hui. destruct (Hold i Hui) as [_ Hi']. rewrite Hi' in *. by apply (to_inode _ _ Hok).
  - intros i j Hi Hj Hui Huj. destruct (Hold i Hui) as [_ Hi'], (Hold j Huj) as [_ Hj'].
    rewrite Hi', Hj' in *. by apply (to_distinct _ _ Hok).
  - intros i Hi Hui. destruct (Hold i Hui) as [_ Hi']. rewrite Hi' in *.
    destruct (to_parent _ _ Hok i Hi Hui) as (j & Hj & Hju & Hjt & Hjp). exists j.
    assert (j <> k) as Hjk.
    { intros ->. by apply (Hno Hjt i Hi Hui). }
    rewrite upd_other by done. tauto.
  - intros i Hi Hui. destruct (Hold i Hui) as [_ Hi']. rewrite Hi' in *. by apply (to_name _ _ Hok).
  - intros i j Hi Hj Hui Huj. destruct (Hold i Hui) as [_ Hi'], (Hold j Huj) as [_ Hj'].
    rewrite Hi', Hj' in *. by apply (to_sibling _ _ Hok).
Qed.

(** The data of a node does not matter. *)
Lemma tree_ok_data k d size cap : tree_ok (<[k := with_data d size cap (nd k)]> nd) next.
Proof using Hok.
  assert (forall {A} (f : VFSNode -> A) i, (forall x, f (with_data d size cap x) = f x) ->
    f (<[k := with_data d size cap (nd k)]> nd i) = f (nd i)) as Hf.
  { intros A f i Hx. rewrite upd_case. destruct (Z.eqb_spec i k) as [->|]; [apply Hx|done]. }
  split; repeat setoid_rewrite (Hf _ n_used); repeat setoid_rewrite (Hf _ n_type);
    repeat setoid_rewrite (Hf _ n_inode); repeat setoid_rewrite (Hf _ n_parent);
    repeat setoid_rewrite (Hf _ n_name); try done; apply Hok.
Qed.
End table.

(** ** Creating nodes *)

(** The directory in which the last name can be created. *)
Definition can_create (nd : Z -> VFSNode) (start : Z) (ns : list string) (leaf : string) : option Z :=
  match walk nd start ns with
  | Some d => if is_dir nd d && has_room nd && bool_decide (walk_step nd d leaf = None) then Some d else None
  | None => None
  end.

Section create.
Context {St : Type}.
Implicit Types s : vfs St.

Definition vfs_ok s : Prop := tree_ok (nodes s) (next_inode s) /\ 0 <= vfs_cwd s < next_inode s.

(** [s'] is [s] with one more node, [leaf] in the directory [d]. *)
Record grown s s' (d : Z) (leaf : string) : Prop := {
  g_ok : vfs_ok s';
  g_next : next_inode s' = next_inode s + 1;
  g_rest : v_st s' = v_st s /\ fds s' = fds s /\ vfs_cwd s' = vfs_cwd s;
  g_old : forall cur m, 0 <= cur < next_inode s ->
    walk_step (nodes s') cur m =
      if decide (cur = d /\ m = leaf) then Some (next_inode s) else walk_step (nodes s) cur m;
  g_new : forall m, walk_step (nodes s') (next_inode s) m =
      if String.eqb m "." then Some (next_inode s) else if String.eqb m ".." then Some d else None
}.

Lemma start_range s ns p start : vfs_ok s -> is_path (vfs_cwd s) ns p start -> 0 <= start < next_inode s.
Proof. intros [Hok Hc] [|_]; [|done]. pose proof (to_next _ _ Hok). lia. Qed.

Lemma new_node_full s p mk : 0 <= p < 2^32 -> is_dir (nodes s) p && has_room (nodes s) = false ->
  new_node p mk s = Done (None, s).
Proof.
  intros Hp. unfold new_node, is_dir, has_room, mbind, M_bind, get, u32. rewrite Z.mod_small by done.
  destruct (node_at (nodes s) p) as [i|]; [|done]. destruct (bool_decide _); [|done].
  cbn [negb andb]. by destruct (scan 256 0 _).
Qed.
Lemma new_node_grows s p leaf mk :
  vfs_ok s -> next_inode s + 1 < 2^31 -> 0 <= p < next_inode s ->
  is_dir (nodes s) p && has_room (nodes s) = true ->
  (let n := mk (next_inode s) in
   n_used n = true /\ n_inode n = next_inode s /\ n_parent n = p /\ n_name n = leaf) ->
  component leaf -> walk_step (nodes s) p leaf = None ->
  exists s', new_node p mk s = Done (Some (next_inode s), s') /\ grown s s' p leaf /\
    exists k, node_at (nodes s') (next_inode s) = Some k /\ nodes s' k = mk (next_inode s).
Proof.
  intros [Hok Hcwd] Hnext Hp [Hd Hroom]%andb_true_iff Hn Hl Hw. pose proof Hd as Hd'. unfold is_dir in Hd.
  unfold has_room in Hroom. destruct (scan 256 0 _) as [k|] eqn:Hscan; [|done]. clear Hroom.
  pose proof Hscan as (Hk & Hfree & _)%scan_Some. apply negb_true_iff in Hfree.
  assert (forall i, 0 <= i < 256 -> n_used (nodes s i) = true -> n_parent (nodes s i) <> next_inode s) as Hno.
  { intros i Hi Hu. pose proof (parent_range _ _ Hok i Hi Hu). lia. }
  assert (u32 (next_inode s + 1) = next_inode s + 1) as Hu by (apply u32_small; lia).
  eexists. split; [|split].
  - unfold new_node, mbind, M_bind, get. rewrite (u32_small p) by lia.
    destruct (node_at (nodes s) p) as [i|]; [|done]. rewrite Hd, Hscan. cbn [negb]. unfold modify, mret, M_ret.
    rewrite Hu. reflexivity.
  - pose proof (tree_ok_add _ _ Hok k p leaf (mk (next_inode s)) ltac:(lia) Hfree Hn Hd' Hw Hnext Hl).
    split; cbn; [split; cbn; [done|lia]|done|by split_and!| |].
    + intros cur m Hcur. by rewrite (walk_step_add _ (next_inode s) k p leaf) by (lia || done).
    + intros m. by rewrite (walk_step_new _ (next_inode s) Hok k p leaf) by (done || lia).
  - exists k. cbn. split; [|apply upd_same].
    apply (node_at_Some _ (next_inode s + 1)).
    + apply (tree_ok_add _ _ Hok k p leaf); [lia|done..].
    + rewrite upd_same. destruct Hn as (? & ? & _). split; [lia|done].
Qed.

(** What vfs_mkdir() and vfs_mknod_chr() have in common. *)
Definition make_node (path : string) (mk : Z -> string -> Z -> VFSNode) : M (vfs St) Z :=
  r ← vfs_resolve path;
  if 0 <=? r then mret (-1)
  else
    '(parent, leaf) ← resolve_parent path;
    if (parent <? 0) || String.eqb leaf "" then mret (-1)
    else
      n ← new_node parent (mk parent leaf);
      mret (match n with Some _ => 0 | None => -1 end).

Lemma make_node_creates s ns leaf p start mk :
  vfs_ok s -> next_inode s + 1 < 2^31 ->
  is_path (vfs_cwd s) (ns ++ [leaf]) p start -> Forall component (ns ++ [leaf]) ->
  (String.length (rel_path ns) < 255)%nat ->
  (forall d, 0 <= d < next_inode s -> let n := mk d leaf (next_inode s) in
    n_used n = true /\ n_inode n = next_inode s /\ n_parent n = d /\ n_name n = leaf) ->
  match can_create (nodes s) start ns leaf with
  | Some d => exists s', make_node p mk s = Done (0, s') /\ grown s s' d leaf /\
      exists k, node_at (nodes s') (next_inode s) = Some k /\ nodes s' k = mk d leaf (next_inode s)
  | None => make_node p mk s = Done (-1, s)
  end.
Proof.
  intros Hs Hnext Hp Hns Hlen Hmk. pose proof (start_range _ _ _ _ Hs Hp) as Hst. destruct Hs as [Hok Hcwd].
  assert (Hl : component leaf) by by apply Forall_app in Hns as [_ [? _]%Forall_cons_iff].
  unfold make_node, vfs_resolve. rewrite bind_gets.
  rewrite (resolve_path s _ p start Hp Hns), (inode_result_small _ _ Hok), walk_snoc by done.
  unfold can_create. destruct (walk (nodes s) start ns) as [d|] eqn:Hw.
  - pose proof (walk_range _ _ Hok _ _ _ Hst Hw) as Hd. destruct (walk_step (nodes s) d leaf) as [c|] eqn:Hc.
    { pose proof (walk_step_range _ _ Hok _ _ _ Hd Hc). replace (0 <=? c) with true by blia.
      by rewrite bool_decide_false, andb_false_r. }
    cbn [Z.leb Z.compare]. rewrite (bind_Done _ _ _ _ _ (resolve_parent_path s ns leaf p start Hp Hns Hlen)).
    rewrite (inode_result_small _ _ Hok), Hw by done.
    replace (d <? 0) with false by blia. destruct Hl as (Hne & Hl2). apply String.eqb_neq in Hne. rewrite Hne. cbn [orb].
    rewrite bool_decide_true, andb_true_r by done. apply String.eqb_neq in Hne.
    destruct (is_dir (nodes s) d && has_room (nodes s)) eqn:Hroom.
    + destruct (new_node_grows s d leaf (mk d leaf) (conj Hok Hcwd) Hnext Hd Hroom (Hmk d Hd) (conj Hne Hl2) Hc)
        as (s' & Hn & Hg & Hk). exists s'. by rewrite (bind_Done _ _ _ _ _ Hn).
    + pose proof (to_next _ _ Hok).
      by rewrite (bind_Done _ _ _ _ _ (new_node_full s d (mk d leaf) ltac:(lia) Hroom)).
  - cbn [Z.leb Z.compare]. rewrite (bind_Done _ _ _ _ _ (resolve_parent_path s ns leaf p start Hp Hns Hlen)).
    by rewrite Hw.
Qed.
End create.

(** ** Names of a working directory *)

Definition plain (n : string) : Prop := component n /\ n <> "."%string /\ n <> ".."%string.

Section cwd.
Context (nd : Z -> VFSNode) (next : Z) (Hok : tree_ok nd next).

Lemma walk_step_plain d n c : plain n -> walk_step nd d n = Some c ->
  exists i, node_at nd c = Some i /\ i <> 0 /\ n_parent (nd i) = d /\ n_name (nd i) = n.
Proof using Hok.
  intros ((_ & Hs & _) & Hd & Hdd). unfold walk_step.
  apply String.eqb_neq in Hd as ->. apply String.eqb_neq in Hdd as ->.
  destruct (child_at nd d n) as [i|] eqn:Hi; [|done]. intros [= <-].
  apply (child_at_Some _ _ Hok) in Hi as (Hi & Hu & Hp & Hn). exists i. split_and!; [|..].
  - by apply (node_at_Some _ _ Hok).
  - intros ->. destruct (to_root _ _ Hok) as (_ & _ & _ & _ & Hr). by rewrite <- Hn, Hr in Hs.
  - done.
  - done.
Qed.

Lemma root_inode c i : node_at nd c = Some i -> i <> 0 -> c <> 0.
Proof using Hok.
  intros (Hi & Hu & Hx)%(node_at_Some _ _ Hok) Hne. pose proof (to_inode _ _ Hok i Hi Hu Hne). lia.
Qed.

Lemma getcwd_loop_walk ns fuel cur pos acc :
  Forall plain ns -> walk nd 0 ns = Some cur -> (List.length ns <= fuel)%nat ->
  Z.of_nat (String.length (path_of ns)) <= pos ->
  getcwd_loop fuel nd cur pos acc = Done (path_of ns ++ acc)%string.
Proof using Hok.
  revert fuel cur pos acc. induction ns as [|n ns IH] using rev_ind; intros fuel cur pos acc.
  - intros _ [= <-] _ _. by destruct fuel.
  - intros [Hns [Hn _]%Forall_cons_iff]%Forall_app. rewrite walk_snoc, length_app.
    destruct (walk nd 0 ns) as [d|] eqn:Hw; [|done]. intros Hs Hf Hpos.
    destruct (walk_step_plain d n cur Hn Hs) as (i & Hi & Hi0 & Hp & Hname).
    pose proof (root_inode cur i Hi Hi0). destruct fuel as [|fuel]; [cbn in Hf; lia|].
    rewrite path_of_snoc in *. rewrite string_length_app in Hpos. cbn [String.length] in Hpos.
    cbn [getcwd_loop]. change VFS_INODE_ROOT with 0. replace (cur =? 0) with false by blia.
    rewrite Hi, Hp, Hname. replace (_ <? 1) with false by blia.
    rewrite (IH fuel d); [by rewrite string_app_assoc|done..| |]; [cbn in Hf; lia|lia].
Qed.

(** The directory of a plain walk has only one such name. *)
Lemma walk_unique ns ms c : Forall plain ns -> Forall plain ms ->
  walk nd 0 ns = Some c -> walk nd 0 ms = Some c -> ns = ms.
Proof using Hok.
  revert ms c. induction ns as [|n ns IH] using rev_ind; intros ms c Hns Hms Hw;
    destruct ms as [|m ms _] using rev_ind; [done|..].
  - injection Hw as <-. rewrite walk_snoc. apply Forall_app in Hms as [_ [Hm _]%Forall_cons_iff].
    destruct (walk nd 0 ms) as [d|]; [|done]. intros Hs.
    destruct (walk_step_plain _ _ _ Hm Hs) as (i & Hi & Hi0 & _). by destruct (root_inode _ _ Hi Hi0).
  - intros [= <-]. revert Hw. rewrite walk_snoc. apply Forall_app in Hns as [_ [Hn _]%Forall_cons_iff].
    destruct (walk nd 0 ns) as [d|]; [|done]. intros Hs.
    destruct (walk_step_plain _ _ _ Hn Hs) as (i & Hi & Hi0 & _). by destruct (root_inode _ _ Hi Hi0).
  - revert Hw. rewrite !walk_snoc.
    apply Forall_app in Hms as [Hms [Hm _]%Forall_cons_iff], Hns as [Hns [Hn _]%Forall_cons_iff].
    destruct (walk nd 0 ns) as [d|] eqn:Hd, (walk nd 0 ms) as [e|] eqn:He; try done. intros Hsn Hsm.
    destruct (walk_step_plain _ _ _ Hn Hsn) as (i & Hi & _ & <- & <-).
    destruct (walk_step_plain _ _ _ Hm Hsm) as (j & Hj & _ & <- & <-).
    assert (i = j) as -> by congruence. by rewrite (IH ms (n_parent (nd j))).
Qed.

(** A path has at least two characters per name. *)
Lemma length_path_of ns : (List.length ns <= String.length (path_of ns))%nat.
Proof.
  induction ns as [|n ns IH]; [done|]. cbn [path_of String.length List.length].
  rewrite string_length_app. lia.
Qed.

(** Every node has a name from the root. *)
Lemma walk_exists i : 0 <= i < 256 -> n_used (nd i) = true ->
  exists ns, Forall plain ns /\ walk nd 0 ns = Some (n_inode (nd i)).
Proof using Hok.
  remember (Z.to_nat (n_inode (nd i))) as m eqn:Hm. revert i Hm.
  induction m as [m IH] using lt_wf_ind; intros i Hm Hi Hu.
  destruct (decide (i = 0)) as [->|Hne].
  - exists []. split; [done|]. cbn. f_equal. symmetry. apply (to_root _ _ Hok).
  - pose proof (to_inode _ _ Hok i Hi Hu Hne) as Hin.
    destruct (to_parent _ _ Hok i Hi Hu) as (j & Hj & Hju & _ & Hjp).
    pose proof (inode_range _ _ Hok j Hj Hju).
    destruct (IH (Z.to_nat (n_inode (nd j))) ltac:(lia) j eq_refl Hj Hju) as (ns & Hns & Hw).
    destruct (to_name _ _ Hok i Hi Hu Hne) as (Hc & Hd & Hdd).
    exists (ns ++ [n_name (nd i)]). split; [apply Forall_app; split; [done|by apply Forall_singleton]|].
    rewrite walk_snoc, Hw. unfold walk_step.
    apply String.eqb_neq in Hd as ->. apply String.eqb_neq in Hdd as ->.
    assert (child_at nd (n_inode (nd j)) (n_name (nd i)) = Some i) as ->; [|done].
    apply (child_at_Some _ _ Hok). by rewrite Hjp.
Qed.
End cwd.

(** ** Every call keeps the tree *)

Lemma wlp_zoom_st {St A} (m : M St A) (s : vfs St) (Q : A -> vfs St -> Prop) :
  (forall a t, Q a (Vfs t (nodes s) (next_inode s) (vfs_cwd s) (fds s))) -> wlp (zoom m) s Q.
Proof. intros HQ. apply wlp_zoom. intros a t _. apply HQ. Qed.

(** The calls that use the node table or a descriptor. *)
Inductive vfs_call : Type :=
| Mkdir (path : string)
| Mknod (path : string) (major minor : Z)
| Open (path : string) (flags : Z)
| OpenStd (path : string) (flags fd : Z)
| Close (fd : Z)
| Dup (fd : Z)
| Dup2 (fd newfd : Z)
| Ftruncate (fd length : Z)
| Read (fd len : Z)
| Write (fd : Z) (buf : list Z)
| Unlink (path : string)
| Getdents64 (fd count : Z)
| Ioctl (fd request arg : Z)
| Lseek (fd offset whence : Z)
| Fcntl (fd cmd arg : Z).

Section calls.
Context {St : Type} `{Allocator St} `{Devices St}.
Implicit Types s : vfs St.

Definition void {A} (m : M (vfs St) A) : M (vfs St) unit := m;; mret tt.
Definition run (c : vfs_call) : M (vfs St) unit :=
  match c with
  | Mkdir p => void (vfs_mkdir p)
  | Mknod p major minor => void (vfs_mknod_chr p major minor)
  | Open p flags => void (vfs_open p flags)
  | OpenStd p flags fd => void (vfs_open_std p flags fd)
  | Close fd => void (vfs_close fd)
  | Dup fd => void (vfs_dup fd)
  | Dup2 fd newfd => void (vfs_dup2 fd newfd)
  | Ftruncate fd length => void (vfs_ftruncate fd length)
  | Read fd len => void (vfs_read fd len)
  | Write fd buf => void (vfs_write fd buf)
  | Unlink p => void (vfs_unlink p)
  | Getdents64 fd count => void (vfs_getdents64 fd count)
  | Ioctl fd request arg => void (vfs_ioctl fd request arg)
  | Lseek fd offset whence => void (vfs_lseek fd offset whence)
  | Fcntl fd cmd arg => void (vfs_fcntl fd cmd arg)
  end.

(** The path of a call that may create a node names a leaf: no empty or overlong
    names, and a parent of at most 255 characters. *)
Definition creatable (cwd : Z) (p : string) : Prop :=
  exists ns leaf start, is_path cwd (ns ++ [leaf]) p start /\ Forall component (ns ++ [leaf]) /\
    (String.length (rel_path ns) < 255)%nat.
Definition well_named (cwd : Z) (c : vfs_call) : Prop :=
  match c with
  | Mkdir p | Mknod p _ _ | Open p _ => creatable cwd p
  | _ => True
  end.

Lemma vfs_ok_st s (t : St) f : vfs_ok s -> vfs_ok (Vfs t (nodes s) (next_inode s) (vfs_cwd s) f).
Proof. done. Qed.
Lemma vfs_ok_cwd s c : vfs_ok s -> 0 <= c < next_inode s ->
  vfs_ok (Vfs (v_st s) (nodes s) (next_inode s) c (fds s)).
Proof. by intros [? ?]. Qed.
Lemma vfs_ok_data s i d size cap : vfs_ok s -> vfs_ok (set_node i (with_data d size cap (nodes s i)) s).
Proof. intros [Hok Hc]. split; [by apply tree_ok_data|done]. Qed.

(** At most one node more. *)
Definition stepped s (s' : vfs St) : Prop :=
  vfs_ok s' /\ next_inode s' <= next_inode s + 1 /\ vfs_cwd s' = vfs_cwd s.
Lemma grown_stepped s s' d leaf : grown s s' d leaf -> stepped s s'.
Proof. intros [? ? (_ & _ & ?) _ _]. split_and!; [done|lia|done]. Qed.
Lemma stepped_refl s : vfs_ok s -> stepped s s.
Proof. intros. split_and!; [done|lia|done]. Qed.

Lemma make_node_ok s p mk : vfs_ok s -> next_inode s + 1 < 2^31 -> creatable (vfs_cwd s) p ->
  (forall d leaf, 0 <= d < next_inode s -> let n := mk d leaf (next_inode s) in
    n_used n = true /\ n_inode n = next_inode s /\ n_parent n = d /\ n_name n = leaf) ->
  wlp (make_node p mk) s (fun _ s' => stepped s s').
Proof.
  intros Hs Hn (ns & leaf & start & Hp & Hns & Hlen) Hmk.
  pose proof (make_node_creates s ns leaf p start mk Hs Hn Hp Hns Hlen (fun d => Hmk d leaf)) as Hc.
  destruct (can_create _ _ _ _) as [d|].
  - destruct Hc as (s' & He & Hg & _). eapply wlp_eq; [done|by eapply grown_stepped].
  - eapply wlp_eq; [done|by apply stepped_refl].
Qed.

(** The part of vfs_open() that creates a file. *)
Definition create_file (p : string) : M (vfs St) (Z + Z) :=
  '(parent, leaf) ← resolve_parent p;
  if parent <? 0 then mret (inr (-1))
  else
    n ← new_node parent (plain_node VFS_FILE parent leaf);
    mret (match n with Some inode => inl (s32 inode) | None => inr (-1) end).

Lemma plain_node_fields t d leaf x : 0 <= d < 2^32 -> let n := plain_node t d leaf x in
  n_used n = true /\ n_inode n = x /\ n_parent n = d /\ n_name n = leaf.
Proof. intros Hd. cbn. by rewrite u32_small. Qed.

Lemma create_file_ok s p : vfs_ok s -> next_inode s + 1 < 2^31 -> creatable (vfs_cwd s) p ->
  resolve s p < 0 -> wlp (create_file p) s (fun _ s' => vfs_ok s').
Proof.
  intros Hs Hn (ns & leaf & start & Hp & Hns & Hlen) Hr. pose proof (start_range _ _ _ _ Hs Hp) as Hst.
  pose proof Hs as [Hok _]. unfold create_file.
  apply wlp_bind. eapply wlp_eq; [by apply (resolve_parent_path s ns leaf p start)|]. cbn beta iota.
  rewrite (inode_result_small _ _ Hok) by done.
  rewrite (resolve_path s _ p start Hp Hns), (inode_result_small _ _ Hok), walk_snoc in Hr by done.
  destruct (walk (nodes s) start ns) as [d|] eqn:Hw; [|by apply wlp_ret].
  pose proof (walk_range _ _ Hok _ _ _ Hst Hw) as Hd. replace (d <? 0) with false by blia.
  destruct (walk_step (nodes s) d leaf) as [c|] eqn:Hc.
  { pose proof (walk_step_range _ _ Hok _ _ _ Hd Hc). lia. }
  apply wlp_bind. destruct (is_dir (nodes s) d && has_room (nodes s)) eqn:Hroom.
  - assert (component leaf) by by apply Forall_app in Hns as [_ [? _]%Forall_cons_iff].
    destruct (new_node_grows s d leaf (plain_node VFS_FILE d leaf) Hs Hn Hd Hroom) as (s' & He & Hg & _); [|done..|].
    + apply plain_node_fields. lia.
    + eapply wlp_eq; [done|]. apply wlp_ret, Hg.
  - eapply wlp_eq; [apply new_node_full; [lia|done]|]. by apply wlp_ret.
Qed.

Lemma mknod_ok s p major minor : vfs_ok s -> next_inode s + 1 < 2^31 -> creatable (vfs_cwd s) p ->
  wlp (vfs_mknod_chr p major minor) s (fun _ s' => stepped s s').
Proof.
  intros Hs Hn Hp. apply (make_node_ok s p (fun parent leaf inode =>
    Build_VFSNode true VFS_CHR inode (u32 parent) (u16 major) (u16 minor) leaf 0 0 0)); [done..|].
  intros d leaf Hd. cbn. rewrite u32_small; [done|]. destruct Hs as [Hok _]. pose proof (to_next _ _ Hok). lia.
Qed.
Lemma mkdir_ok s p : vfs_ok s -> next_inode s + 1 < 2^31 -> creatable (vfs_cwd s) p ->
  wlp (vfs_mkdir p) s (fun _ s' => stepped s s').
Proof.
  intros Hs Hn Hp. apply (make_node_ok s p (plain_node VFS_DIR)); [done..|].
  intros d leaf Hd. apply plain_node_fields. destruct Hs as [Hok _]. pose proof (to_next _ _ Hok). lia.
Qed.

(** What does not create or remove nodes keeps [P] if changing descriptors, the
    data of a node and the memory does. *)
Lemma dents_loop_ok (P : vfs St -> Prop) k fd count off dir i st s :
  (forall s f, P s -> P (set_fds f s)) -> P s ->
  wlp (dents_loop k fd count off dir i st) s (fun _ s' => P s').
Proof.
  intros HP. revert i st s. induction k as [|k IH]; intros i st s Hs; cbn [dents_loop]; [by apply wlp_ret|].
  apply wlp_bind. eapply (wlp_mono _ _ (fun _ s' => P s')).
  - unfold dents_step. wlp_steps; try done. by apply HP.
  - intros [[passed buf] stop] s' Hs'. wlp_steps; [done|]. by apply IH.
Qed.
Lemma getdents_ok (P : vfs St -> Prop) fd count s :
  (forall s f, P s -> P (set_fds f s)) -> P s ->
  wlp (vfs_getdents64 fd count) s (fun _ s' => P s').
Proof.
  intros HP Hs. unfold vfs_getdents64, dot_entry.
  repeat first [apply dents_loop_ok; [done|] | wlp_step; cbn beta iota]; try done.
  all: try (eapply wlp_mono; [apply (dents_loop_ok P); [done|] | intros; by apply wlp_ret]).
  all: unfold bump_offset, set_fd; repeat apply HP; done.
Qed.

Lemma unlink_ok s p : vfs_ok s -> wlp (vfs_unlink p) s (fun _ s' => vfs_ok s').
Proof.
  intros Hs. unfold vfs_unlink, vfs_resolve. do 2 (wlp_step; cbn beta iota). do 2 (wlp_step; cbn beta iota).
  destruct (resolve s p <? 0); [by apply wlp_ret|].
  destruct (Z.eqb_spec (u32 (resolve s p)) VFS_INODE_ROOT) as [|Hne]; [by apply wlp_ret|].
  destruct (node_at (nodes s) _) as [i|] eqn:Hi; [|by apply wlp_ret].
  destruct (_ && _) eqn:Hbusy; [by apply wlp_ret|]. destruct Hs as [Hok Hcwd].
  apply (node_at_Some _ _ Hok) in Hi as (Hi & Hu & Hx).
  assert (tree_ok (<[i := node_zero]> (nodes s)) (next_inode s)) as Hok'.
  { apply tree_ok_remove; [done|done| |done|].
    - intros ->. destruct (to_root _ _ Hok) as (_ & _ & Hr & _). unfold VFS_INODE_ROOT in Hne. congruence.
    - intros Ht k Hk Hku Hkp. rewrite bool_decide_true in Hbusy by done. cbn [andb] in Hbusy.
      destruct (scan 256 0 _) as [j|] eqn:Hscan in Hbusy; [done|].
      pose proof (proj1 (scan_None _ _ _) Hscan k ltac:(lia)) as Hf. cbn beta in Hf.
      rewrite Hku, Hkp, Hx, Z.eqb_refl in Hf. done. }
  wlp_steps; by split.
Qed.

Lemma open_inode_ok s p flags : vfs_ok s -> next_inode s + 2 < 2^31 -> creatable (vfs_cwd s) p ->
  wlp (open_inode p flags) s (fun _ s' => vfs_ok s').
Proof.
  intros Hs Hn Hp. unfold open_inode.
  apply wlp_bind. eapply (wlp_mono _ _ (fun r s' => vfs_ok s' /\
    (forall x, r = inl x -> x < 0 -> next_inode s' + 1 < 2^31 /\ creatable (vfs_cwd s') p /\ resolve s' p < 0))).
  - destruct (String.prefix _ p).
    + apply wlp_bind, wlp_zoom_st. intros a t. cbn beta. wlp_step; [by wlp_step|].
      pose proof (vfs_ok_st _ t (fds s) Hs) as Ht.
      remember (Vfs t _ _ _ _) as s1 eqn:Hs1.
      assert (next_inode s1 + 2 < 2^31 /\ creatable (vfs_cwd s1) p) as [Hn1 Hp1] by by subst.
      unfold vfs_resolve. do 2 (wlp_step; cbn beta iota). destruct (Z.leb_spec 0 (resolve s1 p)).
      { apply wlp_ret. split; [done|]. intros ? [= <-]. lia. }
      wlp_step; [by apply wlp_ret|]. apply wlp_bind.
      eapply wlp_mono; [apply mknod_ok; [done|lia|done]|]. intros r s' (Hs' & Hn' & Hc'). cbn beta.
      wlp_step; [by apply wlp_ret|]. do 3 (wlp_step; cbn beta iota). split; [done|].
      intros ? [= <-] ?. rewrite Hc'. split_and!; [lia|done|done].
    + unfold vfs_resolve. wlp_steps. split; [done|]. intros ? [= <-] ?. split_and!; [lia|done|done].
  - intros [x|e] s' [Hs' Hx]; [|by apply wlp_ret].
    destruct (Z.leb_spec 0 x); [by apply wlp_ret|]. wlp_step; [by apply wlp_ret|].
    destruct (Hx x eq_refl) as (? & ? & ?); [done|]. by apply create_file_ok.
Qed.

Lemma open_inode_existing p flags : has_flag flags VFS_O_CREATE = false -> preserves vfs_ok (open_inode p flags).
Proof.
  intros Hf s Hs. unfold open_inode, vfs_resolve. rewrite Hf. cbn [negb].
  apply wlp_bind. eapply (wlp_mono _ _ (fun _ s' => vfs_ok s')).
  - destruct (String.prefix _ p); [|by wlp_steps]. apply wlp_bind, wlp_zoom_st. intros a t. cbn beta.
    by wlp_steps.
  - intros r s' Hs'. by wlp_steps.
Qed.

Lemma open_from_inode s p flags : wlp (open_inode p flags) s (fun _ s' => vfs_ok s') -> vfs_ok s ->
  wlp (vfs_open p flags) s (fun _ s' => vfs_ok s').
Proof.
  intros Hp Hs. unfold vfs_open. wlp_step. wlp_step. destruct (free_fd s) as [fd|]; [|by apply wlp_ret].
  apply wlp_bind. eapply wlp_mono; [exact Hp|]. intros [x|e] s' Hs'; [|by apply wlp_ret].
  wlp_step. wlp_step. destruct (node_at _ _) as [i|] eqn:Hi; [|by apply wlp_ret].
  destruct (negb _); [by apply wlp_ret|]. apply wlp_bind. eapply (wlp_mono _ _ (fun _ s' => vfs_ok s')).
  - destruct (_ && _); [|by apply wlp_ret]. do 2 wlp_step. cbn beta iota. wlp_step.
    by apply (vfs_ok_data (Vfs t (nodes s') (next_inode s') (vfs_cwd s') (fds s')) i 0 0 0).
  - intros _ s1 Hs1. wlp_steps. done.
Qed.
Lemma open_ok s p flags : vfs_ok s -> next_inode s + 2 < 2^31 -> creatable (vfs_cwd s) p ->
  wlp (vfs_open p flags) s (fun _ s' => vfs_ok s').
Proof. intros Hs Hn Hp. apply open_from_inode; [by apply open_inode_ok|done]. Qed.

Ltac keeps_tree :=
  wlp_steps; try done;
  match goal with
  | |- vfs_ok (set_node ?i (with_data ?d ?z ?c (nodes ?s ?i)) ?s') => by apply (vfs_ok_data s' i d z c)
  end.
Lemma with_data_same n : with_data (n_data n) (n_size n) (n_capacity n) n = n.
Proof. by destruct n. Qed.

Lemma write_call_ok s fd buf : vfs_ok s -> wlp (vfs_write fd buf) s (fun _ s' => vfs_ok s').
Proof.
  intros Hs. unfold vfs_write. wlp_step. wlp_step. wlp_step; [by apply wlp_ret|].
  wlp_step; [by apply wlp_ret|]. destruct (fd_node s fd) as [i|]; [|by apply wlp_ret].
  destruct (n_type (nodes s i)); [|by apply wlp_ret|by wlp_steps].
  apply wlp_bind. eapply (wlp_mono _ _ (fun _ s' => vfs_ok s')); [by keeps_tree|].
  intros [data|] s1 Hs1; [|by apply wlp_ret]. wlp_steps.
  match goal with |- vfs_ok (set_node _ _ ?s2) => set (s' := s2) end.
  destruct (n_size (nodes s' i) <? _).
  - by apply (vfs_ok_data s').
  - rewrite <- (with_data_same (nodes s' i)). by apply (vfs_ok_data s').
Qed.

(** Whether a call can make a node. *)
Definition creates (c : vfs_call) : bool :=
  match c with
  | Mkdir _ | Mknod _ _ _ => true
  | Open _ flags => has_flag flags VFS_O_CREATE
  | _ => false
  end.
Lemma run_keeps c : creates c = false -> preserves vfs_ok (run c).
Proof.
  intros Hc s Hs. destruct c; cbn [run creates] in *; try discriminate Hc; unfold void; apply wlp_bind.
  - eapply wlp_mono; [by apply open_from_inode; [apply open_inode_existing|]|]. intros ? ? ?. by apply wlp_ret.
  - unfold vfs_open_std, vfs_resolve. by wlp_steps.
  - unfold vfs_close. by wlp_steps.
  - unfold vfs_dup. by wlp_steps.
  - unfold vfs_dup2. by wlp_steps.
  - unfold vfs_ftruncate. keeps_tree.
  - unfold vfs_read. by wlp_steps.
  - eapply wlp_mono; [by apply write_call_ok|]. intros ? ? ?. by apply wlp_ret.
  - eapply wlp_mono; [by apply unlink_ok|]. intros ? ? ?. by apply wlp_ret.
  - eapply wlp_mono; [by apply (getdents_ok vfs_ok)|]. intros ? ? ?. by apply wlp_ret.
  - unfold vfs_ioctl. by wlp_steps.
  - unfold vfs_lseek. by wlp_steps.
  - unfold vfs_fcntl. by wlp_steps.
Qed.

Lemma run_ok s c : vfs_ok s -> next_inode s + 2 < 2^31 -> well_named (vfs_cwd s) c ->
  wlp (run c) s (fun _ s' => vfs_ok s').
Proof.
  intros Hs Hn Hc. destruct (creates c) eqn:Hcr; [|by apply run_keeps].
  destruct c; cbn [run well_named creates] in *; try discriminate Hcr; unfold void; apply wlp_bind.
  - eapply wlp_mono; [apply mkdir_ok; [done|lia|done]|]. intros ? ? [? _]. by apply wlp_ret.
  - eapply wlp_mono; [apply mknod_ok; [done|lia|done]|]. intros ? ? [? _]. by apply wlp_ret.
  - eapply wlp_mono; [by apply open_ok|]. intros ? ? ?. by apply wlp_ret.
Qed.

Definition component_b (n : string) : bool :=
  negb (String.eqb n "") && no_slash n && bool_decide (String.length n <= 63)%nat.
Lemma components_b ns : forallb component_b ns = true -> Forall component ns.
Proof.
  intros Hns. apply Forall_forall. intros n Hn. apply (proj1 (forallb_forall _ _) Hns) in Hn.
  apply andb_true_iff in Hn as [[Hne%negb_true_iff Hs]%andb_true_iff Hl%bool_decide_eq_true].
  split_and!; [|done|done]. by apply String.eqb_neq.
Qed.
Lemma creatable_abs cwd ns leaf : forallb component_b (ns ++ [leaf]) = true ->
  bool_decide (String.length (rel_path ns) < 255)%nat = true -> creatable cwd (abs_path (ns ++ [leaf])).
Proof.
  intros Hns%components_b Hl%bool_decide_eq_true. exists ns, leaf, 0. split; [constructor|by split].
Qed.

Lemma root_ok t f : vfs_ok (Vfs (St:=St) t
  (<[0 := Build_VFSNode true VFS_DIR 0 0 0 0 "/" 0 0 0]> (fun _ => node_zero)) 1 0 f).
Proof.
  assert (forall i, n_used (<[0 := Build_VFSNode true VFS_DIR 0 0 0 0 "/" 0 0 0]> (fun _ => node_zero) i) = true ->
    i = 0) as Hz.
  { intros i. rewrite upd_case. by destruct (Z.eqb_spec i 0). }
  split; [|cbn; lia]. split; cbn [nodes next_inode]; [done|lia| | | | |].
  - intros i _ Hu%Hz. done.
  - intros i j _ _ Hu%Hz Hu'%Hz. congruence.
  - intros i _ ->%Hz. exists 0. by rewrite upd_same.
  - intros i _ Hu%Hz. done.
  - intros i j _ _ Hu%Hz Hu'%Hz. congruence.
Qed.

Ltac boot_dir Hstep ns leaf n :=
  intros ? ? ?; apply (Hstep ns leaf _ _ n); [done|done|done|by apply creatable_abs|].

Lemma init_ok s : vfs_cwd s = VFS_INODE_ROOT -> wlp vfs_init s (fun _ s' => vfs_ok s').
Proof.
  intros Hcwd. unfold vfs_init. do 4 (apply wlp_bind, wlp_modify).
  match goal with |- wlp _ ?s1 _ => assert (vfs_ok s1 /\ next_inode s1 = 1) as [Hs Hn] end.
  { split; [|done]. unfold set_node, set_nodes, set_next, set_fds. cbn. rewrite Hcwd. apply root_ok. }
  revert Hs Hn. match goal with |- vfs_ok ?s1 -> _ => generalize s1 end. clear s Hcwd. intros s Hs Hn.
  assert (forall ns leaf (k : M (vfs St) unit) s n, vfs_ok s -> next_inode s <= n -> n + 1 < 2^31 ->
    creatable (vfs_cwd s) (abs_path (ns ++ [leaf])) ->
    (forall s', vfs_ok s' -> next_inode s' <= n + 1 -> wlp k s' (fun _ s' => vfs_ok s')) ->
    wlp (vfs_mkdir (abs_path (ns ++ [leaf]));; k) s (fun _ s' => vfs_ok s')) as Hstep.
  { intros ns leaf k s1 n H1 H2 H3 H4 H5. apply wlp_bind.
    eapply wlp_mono; [apply mkdir_ok; [done|lia|done]|]. intros _ s2 (? & ? & _). apply H5; [done|lia]. }
  assert (next_inode s <= 1) as Hle by lia. clear Hn. revert s Hs Hle.
  boot_dir Hstep (@nil string) "bin"%string 1. boot_dir Hstep (@nil string) "etc"%string 2.
  boot_dir Hstep (@nil string) "tmp"%string 3. boot_dir Hstep (@nil string) "home"%string 4.
  boot_dir Hstep (@nil string) "usr"%string 5. boot_dir Hstep ["usr"%string] "bin"%string 6.
  boot_dir Hstep (@nil string) "var"%string 7. boot_dir Hstep ["var"%string] "cache"%string 8.
  intros ? ? _. by apply wlp_ret.
Qed.

(** States after boot and any sequence of calls, with fewer than 2^31 nodes made. *)
Inductive reachable : vfs St -> Prop :=
| after_init s0 s : vfs_cwd s0 = VFS_INODE_ROOT -> vfs_init s0 = Done (tt, s) -> reachable s
| after_call s s' c : reachable s -> next_inode s + 2 < 2^31 -> well_named (vfs_cwd s) c ->
    run c s = Done (tt, s') -> reachable s'
| after_chdir s s' x : reachable s -> is_dir (nodes s) x = true ->
    vfs_set_cwd x s = Done (tt, s') -> reachable s'.
End calls.

(** ** Properties *)

Section properties.
Context {St : Type} `{Allocator St} `{Devices St}.
Implicit Types s : vfs St.

Lemma reachable_ok s : reachable s -> vfs_ok s.
Proof.
  induction 1 as [s0 s Hc Hi|s s' c _ IH Hn Hc Hr|s s' x _ [Hok Hcwd] Hd Hr].
  - by apply (init_ok s0 Hc tt s).
  - by apply (run_ok s c IH Hn Hc tt s').
  - injection Hr as <-. split; [done|]. unfold is_dir in Hd. cbn.
    destruct (node_at (nodes s) x) as [i|] eqn:Hi; [|done].
    apply (node_at_Some _ _ Hok) in Hi as (Hi & Hu & <-). by apply (inode_range _ _ Hok).
Qed.

(** Resolving a path is walking its names one by one, from the root for an
    absolute path and from the working directory for a relative one. *)
Theorem resolve_walks s ns p start :
  is_path (vfs_cwd s) ns p start -> Forall component ns ->
  vfs_resolve p s = Done (inode_result (walk (nodes s) start ns), s).
Proof. intros Hp Hns. unfold vfs_resolve, gets. by rewrite (resolve_path s ns p start). Qed.

(** C14: vfs_mkdir() of a path with well-formed names creates exactly the last name:
    an empty directory appears there, every other name keeps its meaning, and
    the table stays well formed; when the parent is no directory, the name is
    taken or the table is full, it returns -1 and changes nothing. *)
Theorem mkdir_creates s ns leaf p start :
  vfs_ok s -> next_inode s + 1 < 2^31 ->
  is_path (vfs_cwd s) (ns ++ [leaf]) p start -> Forall component (ns ++ [leaf]) ->
  (String.length (rel_path ns) < 255)%nat ->
  match can_create (nodes s) start ns leaf with
  | Some d => exists s', vfs_mkdir p s = Done (0, s') /\ grown s s' d leaf /\
      is_dir (nodes s') (next_inode s) = true
  | None => vfs_mkdir p s = Done (-1, s)
  end.
Proof.
  intros Hs Hn Hp Hns Hlen.
  pose proof (make_node_creates s ns leaf p start (plain_node VFS_DIR) Hs Hn Hp Hns Hlen) as Hc.
  destruct (can_create _ _ _ _) as [d|].
  - destruct Hc as (s' & He & Hg & k & Hk & Hnode).
    + intros d' Hd'. apply plain_node_fields. destruct Hs as [Hok _]. pose proof (to_next _ _ Hok). lia.
    + exists s'. split_and!; [done..|]. unfold is_dir. by rewrite Hk, Hnode.
  - apply Hc. intros d' Hd'. apply plain_node_fields. destruct Hs as [Hok _]. pose proof (to_next _ _ Hok). lia.
Qed.

(** C12: In every state reached from vfs_init() by calls whose created names are well
    formed the node table is a tree: every node hangs below an existing directory
    with a smaller inode, inodes are distinct, and no two siblings share a name. Well
    formed: the path given to mkdir, mknod and open is [creatable], it has components of
    1 to 63 characters and a parent shorter than 255, and the next inode is below
    2^31 - 2 before every call. With other paths the code can break the tree: it cuts long
    components, and open creates a file with an empty name. *)
Theorem tree_invariant s : reachable s -> vfs_ok s.
Proof. apply reachable_ok. Qed.

(** What vfs_getcwd() stores of a path that fits. *)
Lemma strncpy_text l n : (length l <= n)%nat -> take n (strncpy_bytes l n) ++ [0] = l ++ replicate (n + 1 - length l) 0.
Proof.
  intros Hl. unfold strncpy_bytes. destruct (Nat.ltb_spec (length l) n).
  - rewrite take_app_ge, take_replicate, <- app_assoc by lia. f_equal.
    rewrite Nat.min_l by lia. replace (n + 1 - length l)%nat with (n - length l + 1)%nat by lia. by rewrite replicate_add.
  - rewrite take_take, Nat.min_id, take_ge by lia. by replace (n + 1 - length l)%nat with 1%nat by lia.
Qed.

Lemma getcwd_stores s ns size bufsz : tree_ok (nodes s) (next_inode s) ->
  Forall plain ns -> walk (nodes s) 0 ns = Some (vfs_cwd s) ->
  let path := bytes_of (abs_path ns) in
  let written := bufsz + (if vfs_cwd s =? VFS_INODE_ROOT then 1 else 0) in
  (length path <= 1023)%nat -> Z.of_nat (length path) < bufsz ->
  vfs_getcwd size bufsz s =
  if size <? written then Undefined else Done (Some (path ++ replicate (Z.to_nat written - length path) 0), s).
Proof.
  intros Hok Hns Hw path written Hl Hb.
  assert (forall bs, store_in size bs s = if size <? Z.of_nat (length bs) then Undefined else Done (Some bs, s)) as Hst.
  { intros bs. unfold store_in. by destruct (_ <? _). }
  unfold vfs_getcwd, get. unfold mbind at 1, M_bind at 1. cbn beta iota.
  replace (bufsz =? 0) with false by blia. change VFS_INODE_ROOT with 0 in *. destruct (Z.eqb_spec (vfs_cwd s) 0) as [Hz|Hz].
  - rewrite Hz in Hw. assert (ns = []) as -> by exact (walk_unique _ _ Hok ns [] 0 Hns ltac:(done) Hw eq_refl).
    change (length path) with 1%nat in *. rewrite Hst. unfold strncpy_bytes. change (length (bytes_of "/")) with 1%nat.
    replace (1 <? Z.to_nat bufsz)%nat with true by (symmetry; apply Nat.ltb_lt; lia).
    replace (Z.to_nat written) with (Z.to_nat bufsz + 1)%nat by lia.
    rewrite length_app, length_replicate. change (length (bytes_of "/")) with 1%nat.
    by replace (Z.of_nat _) with written by lia.
  - unfold lift. rewrite (getcwd_loop_walk _ _ Hok ns 1024 _ 1023 "" Hns Hw).
    + rewrite string_app_nil. destruct ns as [|n ns]; [by injection Hw|].
      unfold mbind, M_bind. cbn beta iota zeta. change (path_of (n :: ns)) with (abs_path (n :: ns)).
      change (if (abs_path (n :: ns) =? "")%string then "/"%string else abs_path (n :: ns)) with (abs_path (n :: ns)).
      fold path. rewrite Hst, strncpy_text by lia.
      replace (Z.to_nat (bufsz - 1) + 1)%nat with (Z.to_nat written) by lia.
      rewrite length_app, length_replicate. by replace (Z.of_nat _) with written by lia.
    + pose proof (length_path_of ns). destruct ns; [cbn; lia|]. subst path. rewrite length_bytes_of in Hl. cbn [abs_path] in Hl. lia.
    + destruct ns; [cbn; lia|]. subst path. rewrite length_bytes_of in Hl. cbn [abs_path] in Hl. lia.
Qed.

(** C30: vfs_getcwd() inverts vfs_resolve(): an existing working directory has
    exactly one canonical path, and it resolves to that directory. When the path
    fits, vfs_getcwd() stores it with zeros behind it: [bufsz] bytes in all, and at
    the root one more; the call is undefined where the array behind [buf] does not
    have that many bytes, as those of its callers have not at the root. *)
Theorem getcwd_resolves s :
  vfs_ok s -> node_at (nodes s) (vfs_cwd s) <> None ->
  exists ns, Forall plain ns /\ resolve s (abs_path ns) = vfs_cwd s /\
    (forall ms, Forall plain ms -> resolve s (abs_path ms) = vfs_cwd s -> ms = ns) /\
    (forall size bufsz, let path := bytes_of (abs_path ns) in
       let written := bufsz + (if vfs_cwd s =? VFS_INODE_ROOT then 1 else 0) in
       (length path <= 1023)%nat -> Z.of_nat (length path) < bufsz ->
       vfs_getcwd size bufsz s =
       if size <? written then Undefined
       else Done (Some (path ++ replicate (Z.to_nat written - length path) 0), s)).
Proof.
  intros [Hok Hcwd] Hin. destruct (node_at (nodes s) (vfs_cwd s)) as [i|] eqn:Hi; [|done]. clear Hin.
  pose proof Hi as (Hslot & Hu & Hx)%(node_at_Some _ _ Hok).
  destruct (walk_exists _ _ Hok i Hslot Hu) as (ns & Hns & Hw). rewrite Hx in Hw. exists ns.
  assert (forall ms, Forall plain ms -> resolve s (abs_path ms) =
    match walk (nodes s) 0 ms with Some c => c | None => -1 end) as Hres.
  { intros ms Hms. rewrite (resolve_path s ms _ 0); [|apply Absolute|eapply Forall_impl; [|exact Hms]; by intros ? [? _]].
    apply (inode_result_small _ _ Hok). pose proof (to_next _ _ Hok). lia. }
  split; [done|]. split; [by rewrite Hres, Hw|]. split.
  - intros ms Hms. rewrite Hres by done. destruct (walk (nodes s) 0 ms) as [c|] eqn:Hc; [|lia].
    intros ->. by apply (walk_unique _ _ Hok _ _ (vfs_cwd s)).
  - intros size bufsz path written Hl Hb. apply (getcwd_stores s ns size bufsz); try done.
Qed.
End properties.

(** ** Samples *)

Definition fs_off : vfs kstate := Vfs kernel_boot (fun _ => node_zero) 0 0 (fun _ => fd_zero).
Definition fs_boot : vfs kstate := match vfs_init fs_off with Done (_, s) => s | _ => fs_off end.

#[local] Instance devices_10 : Devices kstate := kernel_devices 10.

Lemma fs_boot_done : vfs_init fs_off = Done (tt, fs_boot).
Proof.
  assert (is_done (vfs_init fs_off) = true) as H by by vm_compute.
  unfold fs_boot. destruct (vfs_init fs_off) as [[[] s]| | | |]; done.
Qed.
Lemma fs_boot_ok : vfs_ok fs_boot.
Proof. exact (init_ok fs_off eq_refl tt fs_boot fs_boot_done). Qed.

Definition usr_bin : list string := ["usr"%string; "bin"%string].
Lemma usr_bin_names : Forall component usr_bin.
Proof. by apply components_b. Qed.

Lemma resolve_walks_witness : vfs_resolve "/usr/bin" fs_boot = Done (6, fs_boot).
Proof. exact (resolve_walks fs_boot usr_bin "/usr/bin" 0 (Absolute 0 usr_bin) usr_bin_names). Defined.

Lemma mkdir_creates_witness :
  exists s', vfs_mkdir "/usr/bin" fs_boot = Done (-1, fs_boot) /\
    vfs_mkdir "/usr/lib" fs_boot = Done (0, s') /\ vfs_ok s' /\ walk (nodes s') 0 ["usr"; "lib"]%string = Some 9.
Proof.
  pose proof (mkdir_creates fs_boot ["usr"%string] "bin" "/usr/bin" 0 fs_boot_ok ltac:(vm_compute; reflexivity)
    (Absolute 0 usr_bin) usr_bin_names ltac:(by apply Nat.ltb_lt)) as H1.
  assert (Forall component ["usr"; "lib"]%string) as Hlib by by apply components_b.
  pose proof (mkdir_creates fs_boot ["usr"%string] "lib" "/usr/lib" 0 fs_boot_ok ltac:(vm_compute; reflexivity)
    (Absolute 0 ["usr"; "lib"]%string) Hlib ltac:(by apply Nat.ltb_lt)) as H2.
  assert (can_create (nodes fs_boot) 0 ["usr"%string] "bin" = None) as E1 by by vm_compute.
  assert (can_create (nodes fs_boot) 0 ["usr"%string] "lib" = Some 5) as E2 by by vm_compute.
  rewrite E1 in H1. rewrite E2 in H2. destruct H2 as (s' & H2 & Hg & _). exists s'.
  split; [exact H1|]. split; [exact H2|]. split; [exact (g_ok _ _ _ _ Hg)|].
  cbn [walk]. rewrite (g_old _ _ _ _ Hg) by (vm_compute; split; [intros [=]|reflexivity]).
  rewrite decide_False by (intros [[=] _]).
  assert (walk_step (nodes fs_boot) 0 "usr" = Some 5) as -> by by vm_compute.
  rewrite (g_old _ _ _ _ Hg) by (vm_compute; split; [intros [=]|reflexivity]).
  rewrite decide_True by (split; reflexivity). by vm_compute.
Defined.

(** A session: a directory and a file are made and the file is written. *)
Definition after (c : vfs_call) (s : vfs kstate) : vfs kstate := match run c s with Done (_, s') => s' | _ => s end.
Lemma after_reachable c s : reachable s -> (next_inode s + 2 <? 2^31) = true -> well_named (vfs_cwd s) c ->
  is_done (run c s) = true -> reachable (after c s).
Proof.
  intros Hs Hn%Z.ltb_lt Hc Hd. apply (after_call s _ c Hs Hn Hc).
  unfold after. by destruct (run c s) as [[[] s']| | | |].
Qed.
Definition fs_dir : vfs kstate := after (Mkdir "/tmp/a") fs_boot.
Definition fs_file : vfs kstate := after (Open "/tmp/a/b" 7) fs_dir.
Definition fs_written : vfs kstate := after (Write 3 [104; 105]) fs_file.

Lemma fs_written_reachable : reachable fs_written.
Proof.
  apply after_reachable; [apply after_reachable; [apply after_reachable; [exact (after_init fs_off fs_boot eq_refl fs_boot_done)|..]|..]|..];
    try (by vm_compute); try done.
  - by apply (creatable_abs _ ["tmp"%string] "a").
  - by apply (creatable_abs _ ["tmp"; "a"]%string "b").
Qed.

Lemma tree_invariant_witness : vfs_ok fs_written /\ resolve fs_written "/tmp/a/b" = 10.
Proof. split; [exact (tree_invariant fs_written fs_written_reachable)|by vm_compute]. Defined.

Definition fs_in_dir : vfs kstate :=
  Vfs (v_st fs_written) (nodes fs_written) (next_inode fs_written) 9 (fds fs_written).
Lemma fs_in_dir_ok : vfs_ok fs_in_dir.
Proof.
  refine (vfs_ok_cwd fs_written 9 (reachable_ok fs_written fs_written_reachable) _). by vm_compute.
Qed.

Lemma getcwd_resolves_witness :
  vfs_getcwd 8 8 fs_in_dir = Done (Some (bytes_of "/tmp/a" ++ [0; 0]), fs_in_dir) /\
  vfs_getcwd 256 256 fs_boot = Undefined /\ vfs_getcwd 4 3 fs_boot = Done (Some [47; 0; 0; 0], fs_boot).
Proof.
  assert (node_at (nodes fs_in_dir) (vfs_cwd fs_in_dir) = Some 9) as Hn by by vm_compute.
  assert (node_at (nodes fs_boot) (vfs_cwd fs_boot) = Some 0) as Hr by by vm_compute.
  split.
  - destruct (getcwd_resolves fs_in_dir fs_in_dir_ok) as (ns & _ & _ & Hu & Hc); [by rewrite Hn|].
    specialize (Hu ["tmp"; "a"]%string). rewrite <- Hu in Hc.
    + apply (Hc 8 8); [by apply Nat.leb_le|by vm_compute].
    + repeat constructor; (done || by apply Nat.leb_le).
    + by vm_compute.
  - destruct (getcwd_resolves fs_boot fs_boot_ok) as (ns & _ & _ & Hu & Hc); [by rewrite Hr|].
    specialize (Hu []). rewrite <- Hu in Hc; [|constructor|by vm_compute].
    split; [apply (Hc 256 256)|apply (Hc 4 3)]; first [by apply Nat.leb_le | by vm_compute].
Defined.
