(* ===== verification/UnixSocket.v ===== *)
(** * Local sockets (src/src/net/un_socket.c)

    The socket table with its receive rings, the connection handshake, the
    passing of descriptors, and what keeps peers symmetric. User structures are
    given by their contents: an address is the bytes of the structure, a message
    the lists of its vectors. *)

From Stdlib Require Import Ascii.
From S2P Require Import Prelude Pmm Mem Strings Vmm Heap Input Shm Console Vfs Devfs.

Definition AF_UNIX : Z := 1.
Definition SOCK_STREAM : Z := 1.
Definition UNIX_SOCK_FD_BASE : Z := 128.
Definition UNIX_SOCK_MAX : Z := 24.
Definition SOL_SOCKET : Z := 1.
Definition SCM_RIGHTS : Z := 1.
Definition RX_CAP : Z := 8192.
Definition ACCEPT_Q : Z := 8.
Definition FDS_CAP : Z := 16.
Definition PEER_NONE : Z := -1.
Definition O_NONBLOCK : Z := 2048.

Inductive SkState : Type := SK_UNUSED | SK_CREATED | SK_BOUND | SK_LISTENING | SK_CONNECTED.
#[export] Instance SkState_eq_dec : EqDecision SkState.
Proof. solve_decision. Defined.

Record USock := Sock {
  k_used : bool;
  k_state : SkState;
  k_path : string;
  k_rx : ring Z;
  k_peer : Z;
  listen_q : Z -> Z;
  n_wait : Z;
  k_fds : ring Z;
  k_flags : Z
}.

(** memset() of a slot, and a fresh slot. *)
Definition sock_zero : USock :=
  Sock false SK_UNUSED "" (Ring (fun _ => 0) 0 0) 0 (fun _ => 0) 0 (Ring (fun _ => 0) 0 0) 0.
Definition sock_fresh : USock :=
  Sock true SK_CREATED "" (Ring (fun _ => 0) 0 0) PEER_NONE (fun _ => 0) 0 (Ring (fun _ => 0) 0 0) 0.

Definition set_used (u : bool) (s : USock) : USock :=
  Sock u (k_state s) (k_path s) (k_rx s) (k_peer s) (listen_q s) (n_wait s) (k_fds s) (k_flags s).
Definition set_state (t : SkState) (s : USock) : USock :=
  Sock (k_used s) t (k_path s) (k_rx s) (k_peer s) (listen_q s) (n_wait s) (k_fds s) (k_flags s).
Definition set_path (p : string) (s : USock) : USock :=
  Sock (k_used s) (k_state s) p (k_rx s) (k_peer s) (listen_q s) (n_wait s) (k_fds s) (k_flags s).
Definition set_rx (r : ring Z) (s : USock) : USock :=
  Sock (k_used s) (k_state s) (k_path s) r (k_peer s) (listen_q s) (n_wait s) (k_fds s) (k_flags s).
Definition set_peer (p : Z) (s : USock) : USock :=
  Sock (k_used s) (k_state s) (k_path s) (k_rx s) p (listen_q s) (n_wait s) (k_fds s) (k_flags s).
Definition set_wait (q : Z -> Z) (n : Z) (s : USock) : USock :=
  Sock (k_used s) (k_state s) (k_path s) (k_rx s) (k_peer s) q n (k_fds s) (k_flags s).
Definition set_fd_ring (r : ring Z) (s : USock) : USock :=
  Sock (k_used s) (k_state s) (k_path s) (k_rx s) (k_peer s) (listen_q s) (n_wait s) r (k_flags s).
Definition set_sock_flags (f : Z) (s : USock) : USock :=
  Sock (k_used s) (k_state s) (k_path s) (k_rx s) (k_peer s) (listen_q s) (n_wait s) (k_fds s) f.

Record unix (St : Type) := Unix { u_vfs : vfs St; socks : Z -> USock }.
Arguments Unix {St}.
Arguments u_vfs {St}.
Arguments socks {St}.
#[export] Instance u_vfs_lens St : Lens (unix St) (vfs St) :=
  {| view := u_vfs; over v u := Unix v (socks u) |}.

Definition rx_empty (s : USock) : bool := r_tail (k_rx s) =? r_head (k_rx s).
Definition nonblocking (s : USock) : bool := nonzero (Z.land (k_flags s) O_NONBLOCK).

(** A ring without room for another element. *)
Definition ring_full {A} (size : Z) (r : ring A) : bool := (r_head r + 1) mod size =? r_tail r.

(** push_rx(): the bytes in order, until one does not fit. *)
Fixpoint push_bytes (r : ring Z) (data : list Z) : ring Z * bool :=
  match data with
  | [] => (r, true)
  | b :: data' => if ring_full RX_CAP r then (r, false) else push_bytes (ring_push RX_CAP b r) data'
  end.

(** The copy loop of pop_rx(), with the number of bytes to copy. *)
Fixpoint pop_bytes {A} (size : Z) (n : nat) (r : ring A) : list A * ring A :=
  match n with
  | O => ([], r)
  | S n' =>
      match ring_pop size r with
      | None => ([], r)
      | Some (b, r') => let '(bs, r'') := pop_bytes size n' r' in (b :: bs, r'')
      end
  end.

(** The characters before the first NUL. *)
Fixpoint c_string (bs : list Z) : string :=
  match bs with
  | [] => EmptyString
  | b :: bs' => if b =? 0 then EmptyString else String (Ascii.ascii_of_nat (Z.to_nat b)) (c_string bs')
  end.

Section unix.
Context {St : Type} `{Allocator St} `{Devices St}.

Definition set_sock (i : Z) (f : USock -> USock) (u : unix St) : unix St :=
  Unix (u_vfs u) (<[i := f (socks u i)]> (socks u)).

Definition unix_socket_init : M (unix St) unit := modify (fun u => Unix (u_vfs u) (fun _ => sock_zero)).

Definition idx_from_fd (fd : Z) : Z :=
  if (fd <? UNIX_SOCK_FD_BASE) || (UNIX_SOCK_FD_BASE + UNIX_SOCK_MAX <=? fd) then -1 else fd - UNIX_SOCK_FD_BASE.

(** [i < 0 || !socks[i].used] *)
Definition bad_sock (u : unix St) (i : Z) : bool := (i <? 0) || negb (k_used (socks u i)).

Definition alloc_slot : M (unix St) Z :=
  u ← get;
  match scan 24 0 (fun i => negb (k_used (socks u i))) with
  | Some i => modify (set_sock i (fun _ => sock_fresh));; mret i
  | None => mret (-1)
  end.

Definition push_rx (dst : Z) (data : list Z) : M (unix St) Z :=
  u ← get;
  let '(r, ok) := push_bytes (k_rx (socks u dst)) data in
  modify (set_sock dst (set_rx r));;
  mret (if ok then s32 (Z.of_nat (List.length data)) else - ENOMEM).

(** The number of bytes and the bytes. *)
Definition pop_rx (i len : Z) : M (unix St) (Z * list Z) :=
  u ← get;
  let s := socks u i in
  if rx_empty s && negb (k_peer s =? PEER_NONE) then
    if nonblocking s then mret (- EAGAIN, []) else block
  else
    let '(bs, r) := pop_bytes RX_CAP (Z.to_nat (Z.min len RX_CAP)) (k_rx s) in
    modify (set_sock i (set_rx r));;
    mret (Z.of_nat (List.length bs), bs).

Definition unix_is_sockfd (fd : Z) : M (unix St) bool :=
  u ← get; mret (let i := idx_from_fd fd in (0 <=? i) && k_used (socks u i)).

Definition unix_socket (domain type protocol : Z) : M (unix St) Z :=
  if negb (domain =? AF_UNIX) then mret (- EINVAL)
  else if negb (type =? SOCK_STREAM) then mret (- EINVAL)
  else
    i ← alloc_slot;
    mret (if i <? 0 then - ENOMEM else UNIX_SOCK_FD_BASE + i).

(** The result and the two descriptors; [sv] is false for a null pointer. *)
Definition unix_socketpair (domain type protocol : Z) (sv : bool) : M (unix St) (Z * list Z) :=
  if negb sv then mret (- EFAULT, [])
  else if negb (domain =? AF_UNIX) || negb (type =? SOCK_STREAM) then mret (- EINVAL, [])
  else
    a ← alloc_slot;
    if a <? 0 then mret (- ENOMEM, [])
    else
      b ← alloc_slot;
      if b <? 0 then modify (set_sock a (set_used false));; mret (- ENOMEM, [])
      else
        modify (set_sock a (set_state SK_CONNECTED));;
        modify (set_sock b (set_state SK_CONNECTED));;
        modify (set_sock a (set_peer b));;
        modify (set_sock b (set_peer a));;
        mret (0, [UNIX_SOCK_FD_BASE + a; UNIX_SOCK_FD_BASE + b]).

(** The path of an address structure, [None] when it is refused. *)
Definition addr_path (addr : option (list Z)) : option string :=
  match addr with
  | None => None
  | Some bs =>
      let addrlen := Z.of_nat (List.length bs) in
      if addrlen <? 3 then None
      else
        match bs with
        | b0 :: b1 :: path =>
            if negb (b0 + 256 * b1 =? AF_UNIX) then None
            else if 120 <=? addrlen - 2 then None
            else Some (c_string path)
        | _ => None
        end
  end.

(** The path is stored before it is known to be free. *)
Definition unix_bind (fd : Z) (addr : option (list Z)) : M (unix St) Z :=
  u ← get;
  let i := idx_from_fd fd in
  if bad_sock u i then mret (- EBADF)
  else if negb (bool_decide (k_state (socks u i) = SK_CREATED)) then mret (- EINVAL)
  else
    match addr_path addr with
    | None => mret (- EINVAL)
    | Some path =>
        modify (set_sock i (set_path path));;
        if String.eqb path "" then mret (- EINVAL)
        else
          r ← zoom (vfs_resolve path);
          if 0 <=? r then mret (- EADDRINUSE)
          else
            match scan 24 0 (fun k => k_used (socks u k) && negb (k =? i) &&
                      negb (String.eqb (k_path (socks u k)) "") && String.eqb (k_path (socks u k)) path) with
            | Some _ => mret (- EADDRINUSE)
            | None =>
                tfd ← zoom (vfs_open path (Z.lor VFS_O_RDWR (Z.lor VFS_O_CREATE VFS_O_TRUNC)));
                if tfd <? 0 then mret (- EIO)
                else
                  zoom (vfs_close tfd);;
                  modify (set_sock i (set_state SK_BOUND));;
                  mret 0
            end
    end.

Definition unix_listen (fd backlog : Z) : M (unix St) Z :=
  u ← get;
  let i := idx_from_fd fd in
  if bad_sock u i then mret (- EBADF)
  else if negb (bool_decide (k_state (socks u i) = SK_BOUND)) then mret (- EINVAL)
  else modify (set_sock i (set_state SK_LISTENING));; mret 0.

Definition find_listener (u : unix St) (path : string) : option Z :=
  scan 24 0 (fun k => k_used (socks u k) && bool_decide (k_state (socks u k) = SK_LISTENING) &&
                      String.eqb (k_path (socks u k)) path).

Definition unix_accept (fd : Z) : M (unix St) Z :=
  u ← get;
  let i := idx_from_fd fd in
  if bad_sock u i then mret (- EBADF)
  else
    let L := socks u i in
    if negb (bool_decide (k_state L = SK_LISTENING)) then mret (- EINVAL)
    else if n_wait L =? 0 then if nonblocking L then mret (- EAGAIN) else block
    else
      let si := listen_q L 0 in
      modify (set_sock i (set_wait (fun k => if (0 <=? k) && (k <? n_wait L - 1) then listen_q L (k + 1) else listen_q L k)
                                   (n_wait L - 1)));;
      mret (if (si <? 0) || (UNIX_SOCK_MAX <=? si) || negb (k_used (socks u si)) then - EIO
            else UNIX_SOCK_FD_BASE + si).

Definition unix_connect (fd : Z) (addr : option (list Z)) : M (unix St) Z :=
  u ← get;
  let ci := idx_from_fd fd in
  if bad_sock u ci then mret (- EBADF)
  else if negb (bool_decide (k_state (socks u ci) = SK_CREATED)) then mret (- EINVAL)
  else
    match addr_path addr with
    | None => mret (- EINVAL)
    | Some path =>
        match find_listener u path with
        | None => mret (- ECONNREFUSED)
        | Some li =>
            si ← alloc_slot;
            if si <? 0 then mret (- ENOMEM)
            else
              modify (set_sock si (set_state SK_CONNECTED));;
              modify (set_sock ci (set_state SK_CONNECTED));;
              modify (set_sock ci (set_peer si));;
              modify (set_sock si (set_peer ci));;
              u ← get;
              let L := socks u li in
              if ACCEPT_Q <=? n_wait L then
                modify (set_sock si (set_used false));;
                modify (set_sock ci (set_peer PEER_NONE));;
                modify (set_sock ci (set_state SK_CREATED));;
                mret (- ECONNREFUSED)
              else
                modify (set_sock li (set_wait (<[n_wait L := si]> (listen_q L)) (n_wait L + 1)));;
                mret 0
        end
    end.

Definition unix_sock_read (fd len : Z) : M (unix St) (Z * list Z) :=
  u ← get;
  let i := idx_from_fd fd in
  if bad_sock u i then mret (- EBADF, [])
  else if negb (bool_decide (k_state (socks u i) = SK_CONNECTED)) then mret (- ENOTCONN, [])
  else pop_rx i len.

Definition unix_sock_write (fd : Z) (buf : list Z) : M (unix St) Z :=
  u ← get;
  let i := idx_from_fd fd in
  if bad_sock u i then mret (- EBADF)
  else
    let s := socks u i in
    if negb (bool_decide (k_state s = SK_CONNECTED)) || (k_peer s =? PEER_NONE) then mret (- ENOTCONN)
    else push_rx (k_peer s) buf.

(** Descriptors that were sent and not received are closed. *)
Definition drop_fd (i : Z) (_ : Z) : M (unix St) (option unit) :=
  u ← get;
  match ring_pop FDS_CAP (k_fds (socks u i)) with
  | None => mret (Some tt)
  | Some (fd, r) =>
      is_sock ← unix_is_sockfd fd;
      (if (0 <=? fd) && negb is_sock then zoom (vfs_close fd);; mret tt else mret tt);;
      modify (set_sock i (set_fd_ring r));;
      mret None
  end.

Definition unix_sock_close (fd : Z) : M (unix St) Z :=
  u ← get;
  let i := idx_from_fd fd in
  if bad_sock u i then mret (- EBADF)
  else
    let p := k_peer (socks u i) in
    (if negb (p =? PEER_NONE) && (0 <=? p) && (p <? UNIX_SOCK_MAX) &&
        (k_used (socks u p) && (k_peer (socks u p) =? i))
     then modify (set_sock p (set_peer PEER_NONE)) else mret tt);;
    modify (set_sock i (set_peer PEER_NONE));;
    u ← get;
    let s := socks u i in
    (if (bool_decide (k_state s = SK_BOUND) || bool_decide (k_state s = SK_LISTENING)) && negb (String.eqb (k_path s) "")
     then zoom (vfs_unlink (k_path s));; mret tt else mret tt);;
    for_n (Z.to_nat FDS_CAP) 0 1 (drop_fd i);;
    modify (set_sock i (fun _ => sock_zero));;
    mret 0.

(** ** Messages *)

(** A vector to send: whether its base is null, and its bytes. *)
Definition iovec : Type := bool * list Z.

(** The vectors in order: the bytes sent, or the error that ends the call. *)
Fixpoint send_iovs (peer : Z) (iovs : list iovec) (total : Z) : M (unix St) (Z + Z) :=
  match iovs with
  | [] => mret (inl total)
  | (null, data) :: iovs' =>
      match data with
      | [] => send_iovs peer iovs' total
      | _ =>
          if null : bool then mret (inr (- EFAULT))
          else
            sent ← push_rx peer data;
            if sent <? 0 then mret (inr sent) else send_iovs peer iovs' (s32 (total + sent))
      end
  end.

(** One descriptor for the peer: sockets as they are, files duplicated. *)
Definition send_fd (peer sfd : Z) : M (unix St) (option Z) :=
  is_sock ← unix_is_sockfd sfd;
  recv_fd ← (if is_sock : bool then mret sfd else zoom (vfs_dup sfd));
  if negb is_sock && (recv_fd <? 0) then mret (Some recv_fd)
  else
    u ← get;
    if ring_full FDS_CAP (k_fds (socks u peer)) then
      again ← unix_is_sockfd recv_fd;
      (if again : bool then mret 0 else zoom (vfs_close recv_fd));;
      mret (Some (- ENOMEM))
    else
      modify (set_sock peer (set_fd_ring (ring_push FDS_CAP recv_fd (k_fds (socks u peer)))));;
      mret None.

Definition SIZEOF_CMSGHDR : Z := 16.

(** The control message at [offset]; the descriptors are read where the length,
    whose sum with the offset can wrap, says they are. *)
Definition control_step (peer : Z) (control : list Z) (offset : Z) : M (unix St) (Z + option Z) :=
  let controllen := Z.of_nat (List.length control) in
  if controllen <? offset + SIZEOF_CMSGHDR then mret (inr None)
  else
    let m := bytes_at control in
    let cmsg_len := load64 m offset in
    if (cmsg_len <? SIZEOF_CMSGHDR) || (controllen <? u64 (offset + cmsg_len)) then mret (inr None)
    else
      r ← (if (load32 m (offset + 8) =? SOL_SOCKET) && (load32 m (offset + 12) =? SCM_RIGHTS) then
             for_n (Z.to_nat ((cmsg_len - SIZEOF_CMSGHDR) / 4)) (offset + SIZEOF_CMSGHDR) 4
               (fun a => if controllen <? a + 4 then ub else send_fd peer (s32 (load32 m a)))
           else mret None);
      mret (match r with
            | Some e => inr (Some e)
            | None => inl (u64 (offset + ALIGN_UP cmsg_len 8))
            end).

(** [fuel] bounds the control messages. *)
Definition unix_sock_sendmsg (fuel : nat) (fd : Z) (iovs : list iovec) (control : option (list Z)) : M (unix St) Z :=
  u ← get;
  let i := idx_from_fd fd in
  if bad_sock u i then mret (- EBADF)
  else
    let s := socks u i in
    if negb (bool_decide (k_state s = SK_CONNECTED)) || (k_peer s =? PEER_NONE) then mret (- ENOTCONN)
    else
      let peer := k_peer s in
      r ← send_iovs peer iovs 0;
      match r with
      | inr e => mret e
      | inl total =>
          match control with
          | None => mret total
          | Some bs =>
              e ← iter fuel (control_step peer bs) 0;
              mret (default total e)
          end
      end.

(** A vector to fill: whether its base is null, and its length. The result, the
    bytes put into each vector. *)
Fixpoint recv_iovs (i : Z) (iovs : list (bool * Z)) (total : Z) (got : list (list Z)) : M (unix St) (Z * list (list Z) * bool) :=
  match iovs with
  | [] => mret (total, got, true)
  | (null, len) :: iovs' =>
      if len =? 0 then recv_iovs i iovs' total (got ++ [[]])
      else if null : bool then mret (- EFAULT, got, false)
      else
        '(recvd, bs) ← pop_rx i len;
        if recvd <? 0 then mret (recvd, got, false)
        else
          u ← get;
          if rx_empty (socks u i) then mret (s32 (total + recvd), got ++ [bs], true)
          else recv_iovs i iovs' (s32 (total + recvd)) (got ++ [bs])
  end.

(** The result, the bytes of each vector, the descriptors received and the new
    length of the control buffer; [controllen] is [None] for a null buffer. *)
Definition unix_sock_recvmsg (fd : Z) (iovs : list (bool * Z)) (controllen : option Z) :
    M (unix St) (Z * list (list Z) * list Z * Z) :=
  let keep := default 0 controllen in
  u ← get;
  let i := idx_from_fd fd in
  if bad_sock u i then mret (- EBADF, [], [], keep)
  else if negb (bool_decide (k_state (socks u i) = SK_CONNECTED)) then mret (- ENOTCONN, [], [], keep)
  else
    '(total, got, ok) ← recv_iovs i iovs 0 [];
    if negb ok then mret (total, got, [], keep)
    else if SIZEOF_CMSGHDR <=? keep then
      u ← get;
      let '(fds, r) := pop_bytes FDS_CAP (Z.to_nat (Z.min ((keep - SIZEOF_CMSGHDR) / 4) FDS_CAP)) (k_fds (socks u i)) in
      modify (set_sock i (set_fd_ring r));;
      mret (total, got, fds, if 0 <? Z.of_nat (List.length fds) then SIZEOF_CMSGHDR + 4 * Z.of_nat (List.length fds) else 0)
    else mret (total, got, [], 0).

Definition unix_sock_fcntl (fd cmd arg : Z) : M (unix St) Z :=
  u ← get;
  let i := idx_from_fd fd in
  if bad_sock u i then mret (- EBADF)
  else if cmd =? 3 then mret (k_flags (socks u i))
  else if cmd =? 4 then modify (set_sock i (set_sock_flags (s32 arg)));; mret 0
  else mret (- EINVAL).

(** A socket connected to itself. *)
Definition unix_eventfd (initval flags : Z) : M (unix St) Z :=
  i ← alloc_slot;
  if i <? 0 then mret (- ENOMEM)
  else
    modify (set_sock i (set_state SK_CONNECTED));;
    modify (set_sock i (set_peer i));;
    modify (set_sock i (set_sock_flags flags));;
    (if 0 <? initval then push_rx i (le_bytes 8 initval);; mret tt else mret tt);;
    mret (UNIX_SOCK_FD_BASE + i).

Definition POLLIN : Z := 0x001.
Definition POLLOUT : Z := 0x004.
Definition POLLHUP : Z := 0x010.
Definition unix_sock_poll (fd events : Z) : M (unix St) Z :=
  u ← get;
  let i := idx_from_fd fd in
  if bad_sock u i then mret 0
  else
    let s := socks u i in
    let none := k_peer s =? PEER_NONE in
    let free_space := let r := k_rx (socks u (k_peer s)) in u64 (r_tail r + RX_CAP - 1 - r_head r) mod RX_CAP in
    let rin := if nonzero (Z.land events POLLIN) && (negb (rx_empty s) || none) then POLLIN else 0 in
    let rout := if nonzero (Z.land events POLLOUT) && negb none && (0 <? free_space) then POLLOUT else 0 in
    let rhup := if none && bool_decide (k_state s = SK_CONNECTED) then POLLHUP else 0 in
    mret (Z.lor (Z.lor rin rout) rhup).
End unix.

(** ** The invariant *)

Definition in_table (i : Z) : Prop := 0 <= i < UNIX_SOCK_MAX.
Definition ring_ok {A} (size : Z) (r : ring A) : Prop := exists l, ring_rel size l r.

(** Peers are symmetric, only connected sockets have one, and the rings and the
    accept queue stay inside their arrays. *)
Record socks_inv (sk : Z -> USock) : Prop := {
  ki_peer : forall i, in_table i -> k_used (sk i) = true -> k_peer (sk i) <> PEER_NONE ->
    in_table (k_peer (sk i)) /\ k_used (sk (k_peer (sk i))) = true /\ k_peer (sk (k_peer (sk i))) = i;
  ki_state : forall i, in_table i -> k_used (sk i) = true -> k_peer (sk i) <> PEER_NONE -> k_state (sk i) = SK_CONNECTED;
  ki_rx : forall i, in_table i -> ring_ok RX_CAP (k_rx (sk i));
  ki_fds : forall i, in_table i -> ring_ok FDS_CAP (k_fds (sk i));
  ki_wait : forall i, in_table i -> 0 <= n_wait (sk i) <= ACCEPT_Q;
  ki_queue : forall i k, in_table i -> 0 <= k < n_wait (sk i) -> in_table (listen_q (sk i) k)
}.

(** A socket [x] in slot [i] that keeps the peer of the old one. *)
Definition same_peer (x y : USock) : Prop :=
  k_used y = k_used x /\ k_peer y = k_peer x /\ (k_peer x <> PEER_NONE -> k_state x = SK_CONNECTED -> k_state y = SK_CONNECTED).
Definition bounded (y : USock) : Prop :=
  ring_ok RX_CAP (k_rx y) /\ ring_ok FDS_CAP (k_fds y) /\ 0 <= n_wait y <= ACCEPT_Q /\
  forall k, 0 <= k < n_wait y -> in_table (listen_q y k).

Lemma socks_bounded sk i : socks_inv sk -> in_table i -> bounded (sk i).
Proof.
  intros Hk Hi. split_and!; [by apply ki_rx|by apply ki_fds|by apply (ki_wait _ Hk)..|].
  intros k. by apply (ki_queue _ Hk).
Qed.

Lemma bounded_upd sk i y : socks_inv sk -> bounded y -> forall j, in_table j -> bounded (<[i := y]> sk j).
Proof.
  intros Hk Hy j Hj. rewrite upd_case. destruct (Z.eqb_spec j i); [done|by apply socks_bounded].
Qed.

(** The invariant is its local part and the symmetry of peers. *)
Lemma socks_inv_intro sk :
  (forall i, in_table i -> bounded (sk i)) ->
  (forall i, in_table i -> k_used (sk i) = true -> k_peer (sk i) <> PEER_NONE ->
    k_state (sk i) = SK_CONNECTED /\
    in_table (k_peer (sk i)) /\ k_used (sk (k_peer (sk i))) = true /\ k_peer (sk (k_peer (sk i))) = i) ->
  socks_inv sk.
Proof.
  intros Hb Hp. split.
  - intros i Hi Hu Hn. by apply Hp.
  - intros i Hi Hu Hn. by apply Hp.
  - intros i Hi. by apply Hb.
  - intros i Hi. by apply Hb.
  - intros i Hi. by apply Hb.
  - intros i k Hi. by apply Hb.
Qed.

Lemma socks_inv_same sk i y : socks_inv sk -> in_table i -> same_peer (sk i) y -> bounded y ->
  socks_inv (<[i := y]> sk).
Proof.
  intros Hk Hi (Hu & Hp & Hs) Hb. apply socks_inv_intro; [by apply bounded_upd|].
  assert (forall {A} (f : USock -> A) j, f y = f (sk i) -> f (<[i := y]> sk j) = f (sk j)) as Hf.
  { intros A f j Hfy. rewrite upd_case. by destruct (Z.eqb_spec j i) as [->|]. }
  intros j Hj. rewrite !(Hf _ k_used), !(Hf _ k_peer) by done. intros Hju Hjp. split.
  - rewrite upd_case. destruct (Z.eqb_spec j i) as [->|]; [|by apply (ki_state _ Hk)].
    apply Hs; [done|]. by apply (ki_state _ Hk).
  - by apply (ki_peer _ Hk).
Qed.

Lemma ring_ok_empty {A} size (b : Z -> A) : 0 < size -> ring_ok size (Ring b 0 0).
Proof. intros. exists []. apply ring_empty_rel. lia. Qed.
Lemma bounded_zero : bounded sock_zero.
Proof.
  split_and!; try (cbn; unfold ACCEPT_Q; lia).
  - by apply ring_ok_empty.
  - by apply ring_ok_empty.
Qed.
Lemma bounded_fresh : bounded sock_fresh.
Proof. exact bounded_zero. Qed.

(** A slot without peer replaced by one without peer. *)
Lemma socks_inv_lone sk i y : socks_inv sk -> in_table i -> bounded y ->
  (k_used (sk i) = true -> k_peer (sk i) = PEER_NONE) -> (k_used y = true -> k_peer y = PEER_NONE) ->
  socks_inv (<[i := y]> sk).
Proof.
  intros Hk Hi Hb Hold Hnew. apply socks_inv_intro; [by apply bounded_upd|].
  intros j Hj. rewrite (upd_case sk i j). destruct (Z.eqb_spec j i) as [->|Hji].
  - intros Hu Hp. by apply Hnew in Hu.
  - intros Hju Hjp. destruct (ki_peer _ Hk j Hj Hju Hjp) as (Ht & Hpu & Hpp).
    assert (k_peer (sk j) <> i) as Hne.
    { intros Hji'. rewrite Hji' in *. rewrite Hold in Hpp by done. subst j. unfold in_table, PEER_NONE in Hj. lia. }
    rewrite upd_other by done. split; [by apply (ki_state _ Hk)|done].
Qed.

(** Two slots without peer connected to each other; [a] and [b] may be the same. *)
Lemma socks_inv_pair sk a b x y : socks_inv sk -> in_table a -> in_table b -> bounded x -> bounded y ->
  (k_used (sk a) = true -> k_peer (sk a) = PEER_NONE) -> (k_used (sk b) = true -> k_peer (sk b) = PEER_NONE) ->
  k_used x = true -> k_used y = true -> k_peer x = b -> k_peer y = a -> (a = b -> x = y) ->
  k_state x = SK_CONNECTED -> k_state y = SK_CONNECTED ->
  socks_inv (<[b := y]> (<[a := x]> sk)).
Proof.
  intros Hk Ha Hb Hbx Hby Hla Hlb Hux Huy Hpx Hpy Hab Hsx Hsy. apply socks_inv_intro.
  { intros j Hj. rewrite !upd_case. destruct (_ =? b); [done|]. destruct (_ =? a); [done|by apply socks_bounded]. }
  intros j Hj. rewrite !(upd_case _ _ j). destruct (Z.eqb_spec j b) as [->|Hjb]; [|destruct (Z.eqb_spec j a) as [->|Hja]].
  - intros _ _. rewrite Hpy, !upd_case. split; [done|]. split; [done|].
    destruct (Z.eqb_spec a b) as [->|]; [done|]. by rewrite Z.eqb_refl.
  - intros _ _. rewrite Hpx, upd_same. done.
  - intros Hju Hjp. destruct (ki_peer _ Hk j Hj Hju Hjp) as (Ht & Hpu & Hpp).
    assert (PEER_NONE <> j) by (unfold in_table, PEER_NONE in *; lia).
    assert (k_peer (sk j) <> a) by (intros He; rewrite He in *; rewrite Hla in Hpp; done).
    assert (k_peer (sk j) <> b) by (intros He; rewrite He in *; rewrite Hlb in Hpp; done).
    rewrite !upd_other by done. split; [by apply (ki_state _ Hk)|done].
Qed.

(** ** Rings *)

Lemma ring_full_rel {A} size (l : list A) r : ring_rel size l r ->
  ring_full size r = (Z.of_nat (List.length l) + 1 =? size).
Proof.
  intros (Ht & Hl & Hh & _). unfold ring_full. rewrite Hh, Zplus_mod_idemp_l.
  destruct (Z.eqb_spec (Z.of_nat (List.length l) + 1) size) as [He|Hne].
  - apply Z.eqb_eq. replace (r_tail r + Z.of_nat (List.length l) + 1) with (r_tail r + 1 * size) by lia.
    by rewrite Z_mod_plus_full, Z.mod_small.
  - apply Z.eqb_neq. rewrite <- (Z.mod_small (r_tail r) size) at 2 by done. intros Heq.
    symmetry in Heq. apply mod_apart in Heq; lia.
Qed.

Lemma push_bytes_rel data l r : ring_rel RX_CAP l r ->
  let room := Z.to_nat (RX_CAP - 1 - Z.of_nat (List.length l)) in
  exists r', push_bytes r data = (r', Z.of_nat (List.length data) <=? Z.of_nat room) /\
    ring_rel RX_CAP (l ++ take room data) r'.
Proof.
  revert l r. induction data as [|b data IH]; intros l r Hr; cbn zeta; cbn [push_bytes].
  - exists r. rewrite take_nil, app_nil_r. split; [|done]. f_equal. cbn. symmetry. apply Z.leb_le. lia.
  - rewrite (ring_full_rel _ _ _ Hr). pose proof Hr as (_ & Hlen & _).
    destruct (Z.eqb_spec (Z.of_nat (List.length l) + 1) RX_CAP) as [He|Hne].
    + exists r. replace (Z.to_nat _) with O by lia. cbn [take]. rewrite app_nil_r. done.
    + pose proof (ring_push_rel _ b _ _ Hr) as Hp. unfold queue_push in Hp.
      replace (_ <? RX_CAP) with true in Hp by blia.
      destruct (IH _ _ Hp) as (r' & Hrun & Hrel). exists r'. rewrite length_app in *. cbn [List.length] in *.
      replace (Z.to_nat (RX_CAP - 1 - Z.of_nat (List.length l))) with
        (S (Z.to_nat (RX_CAP - 1 - Z.of_nat (List.length l + 1)))) by lia.
      cbn [take]. rewrite <- app_assoc in Hrel. split; [|done]. rewrite Hrun. f_equal.
      destruct (Z.leb_spec (Z.of_nat (List.length data)) (Z.of_nat (Z.to_nat (RX_CAP - 1 - Z.of_nat (List.length l + 1)))));
        symmetry; [apply Z.leb_le|apply Z.leb_gt]; lia.
Qed.

Lemma pop_bytes_rel {A} size n (l : list A) r : ring_rel size l r ->
  exists r', pop_bytes size n r = (take n l, r') /\ ring_rel size (drop n l) r'.
Proof.
  revert l r. induction n as [|n IH]; intros l r Hr; cbn [pop_bytes].
  - exists r. by rewrite drop_0.
  - pose proof (ring_pop_rel _ _ _ Hr) as Hp. destruct l as [|x l].
    + exists r. by rewrite Hp.
    + destruct Hp as (r1 & Hp & Hr1). destruct (IH l r1 Hr1) as (r' & Hrun & Hr'). exists r'.
      by rewrite Hp, Hrun.
Qed.

Lemma rx_empty_rel l s : ring_rel RX_CAP l (k_rx s) -> rx_empty s = bool_decide (l = []).
Proof.
  intros Hr. pose proof (ring_pop_rel _ _ _ Hr) as Hp. unfold rx_empty, ring_pop in *. rewrite Z.eqb_sym.
  destruct l as [|x l].
  - destruct (_ =? _); [done|done].
  - destruct Hp as (r' & Hp & _). destruct (_ =? _); done.
Qed.

(** ** Every call keeps the invariant *)

Section calls.
Context {St : Type} `{Allocator St} `{Devices St}.
Implicit Types u : unix St.

Definition sinv u : Prop := socks_inv (socks u).
Abbreviation keeps m := (forall u, sinv u -> wlp m u (fun _ u' => sinv u')) (only parsing).

Lemma idx_range u fd : bad_sock u (idx_from_fd fd) = false ->
  in_table (idx_from_fd fd) /\ k_used (socks u (idx_from_fd fd)) = true.
Proof.
  unfold bad_sock. intros [Hi Hu]%orb_false_iff. apply negb_false_iff in Hu. apply Z.ltb_ge in Hi. split; [|done].
  unfold idx_from_fd, in_table in *. destruct (_ || _) eqn:Hb in *; [lia|]. to_prop. lia.
Qed.
Lemma sinv_upd u i f : sinv u -> in_table i -> same_peer (socks u i) (f (socks u i)) ->
  (bounded (socks u i) -> bounded (f (socks u i))) -> sinv (set_sock i f u).
Proof. intros Hu Hi Hs Hb. apply socks_inv_same; [done..|]. by apply Hb, socks_bounded. Qed.
Lemma bounded_rx r s : ring_ok RX_CAP r -> bounded s -> bounded (set_rx r s).
Proof. by intros Hr (_ & Hb). Qed.
Lemma bounded_fd_ring r s : ring_ok FDS_CAP r -> bounded s -> bounded (set_fd_ring r s).
Proof. by intros Hr (Hx & _ & Hb). Qed.
Lemma same_peer_refl_state x y : k_used y = k_used x -> k_peer y = k_peer x -> k_state y = k_state x -> same_peer x y.
Proof. intros ? ? Hs. split_and!; [done..|]. by rewrite Hs. Qed.

Lemma alloc_slot_wlp u (Q : Z -> unix St -> Prop) : sinv u ->
  (forall i, in_table i -> k_used (socks u i) = false ->
     sinv (set_sock i (fun _ => sock_fresh) u) -> Q i (set_sock i (fun _ => sock_fresh) u)) ->
  Q (-1) u -> wlp alloc_slot u Q.
Proof.
  intros Hu Hnew Hfull. unfold alloc_slot. wlp_step. wlp_step. destruct (scan 24 0 _) as [i|] eqn:Hi.
  - apply scan_Some in Hi as (Hi & Hused%negb_true_iff & _). wlp_steps. apply Hnew; [unfold in_table, UNIX_SOCK_MAX; lia|done|].
    apply socks_inv_lone; [done|unfold in_table, UNIX_SOCK_MAX; lia|apply bounded_fresh|congruence|done].
  - by apply wlp_ret.
Qed.

Lemma push_rx_keeps dst data u : sinv u -> in_table dst -> wlp (push_rx dst data) u (fun _ u' => sinv u').
Proof.
  intros Hu Hd. destruct (ki_rx _ Hu dst Hd) as [l Hl].
  destruct (push_bytes_rel data l _ Hl) as (r' & Hrun & Hr'). unfold push_rx. wlp_step. wlp_step. rewrite Hrun.
  wlp_steps. apply sinv_upd; [done..|by apply same_peer_refl_state|].
  apply bounded_rx. by eexists.
Qed.
Lemma pop_rx_keeps i len u : sinv u -> in_table i -> wlp (pop_rx i len) u (fun _ u' => sinv u').
Proof.
  intros Hu Hi. destruct (ki_rx _ Hu i Hi) as [l Hl].
  destruct (pop_bytes_rel RX_CAP (Z.to_nat (Z.min len RX_CAP)) l _ Hl) as (r' & Hrun & Hr'). unfold pop_rx.
  do 2 wlp_step. destruct (_ && _); [wlp_steps; done|]. rewrite Hrun.
  wlp_steps. apply sinv_upd; [done..|by apply same_peer_refl_state|].
  apply bounded_rx. by eexists.
Qed.

(** The standard start of a call: the descriptor is refused or names a used slot. *)
Ltac on_sock :=
  wlp_step; wlp_step;
  match goal with
  | |- wlp (if bad_sock ?u ?i then _ else _) _ _ =>
      let Hb := fresh "Hbad" in
      destruct (bad_sock u i) eqn:Hb; [by apply wlp_ret|]; apply idx_range in Hb as [? ?]
  end.

Lemma socket_keeps domain type protocol u : sinv u -> wlp (unix_socket domain type protocol) u (fun _ u' => sinv u').
Proof.
  intros Hu. unfold unix_socket. do 2 (wlp_step; [by apply wlp_ret|]). apply wlp_bind.
  apply alloc_slot_wlp; [done|intros; by apply wlp_ret|by apply wlp_ret].
Qed.

Lemma bounded_peer s p t : bounded s -> bounded (set_peer p (set_state t s)).
Proof. done. Qed.
Lemma bounded_used s b : bounded s -> bounded (set_used b s).
Proof. done. Qed.

Lemma socks_inv_ext sk sk' : (forall i, sk i = sk' i) -> socks_inv sk -> socks_inv sk'.
Proof.
  intros He [H1 H2 H3 H4 H5 H6]. split.
  - intros i Hi. rewrite <- !He. by apply H1.
  - intros i Hi. rewrite <- !He. by apply H2.
  - intros i Hi. rewrite <- !He. by apply H3.
  - intros i Hi. rewrite <- !He. by apply H4.
  - intros i Hi. rewrite <- !He. by apply H5.
  - intros i k Hi. rewrite <- !He. by apply H6.
Qed.

(** The two slots of a pair are connected in four steps. *)
Definition connect_pair (a b : Z) (u : unix St) : unix St :=
  set_sock b (set_peer a) (set_sock a (set_peer b)
    (set_sock b (set_state SK_CONNECTED) (set_sock a (set_state SK_CONNECTED) u))).
Lemma connect_pair_at a b u j : a <> b -> socks (connect_pair a b u) j =
  if j =? b then set_peer a (set_state SK_CONNECTED (socks u b))
  else if j =? a then set_peer b (set_state SK_CONNECTED (socks u a)) else socks u j.
Proof.
  intros Hne. cbn. rewrite !upd_case. replace (b =? a) with false by blia. replace (a =? b) with false by blia.
  rewrite ?Z.eqb_refl. destruct (Z.eqb_spec j b); [done|]. by destruct (Z.eqb_spec j a).
Qed.

Lemma connect_pair_inv a b u : sinv u -> in_table a -> in_table b -> a <> b ->
  k_used (socks u a) = true -> k_used (socks u b) = true ->
  k_peer (socks u a) = PEER_NONE -> k_peer (socks u b) = PEER_NONE -> sinv (connect_pair a b u).
Proof.
  intros Hu Ha Hb Hne Hua Hub Hpa Hpb.
  apply (socks_inv_ext (<[b := set_peer a (set_state SK_CONNECTED (socks u b))]>
    (<[a := set_peer b (set_state SK_CONNECTED (socks u a))]> (socks u)))).
  - intros j. by rewrite connect_pair_at, !upd_case.
  - apply socks_inv_pair; try done; by apply bounded_peer, socks_bounded.
Qed.

Lemma socketpair_keeps domain type protocol sv u : sinv u ->
  wlp (unix_socketpair domain type protocol sv) u (fun _ u' => sinv u').
Proof.
  intros Hu. unfold unix_socketpair. do 2 (wlp_step; [by apply wlp_ret|]). apply wlp_bind.
  apply alloc_slot_wlp; [done| |by apply wlp_ret]. intros a Ha Hfa Hu1. wlp_step; [by apply wlp_ret|].
  apply wlp_bind. set (u1 := set_sock a _ u) in *.
  assert (socks u1 a = sock_fresh) as Hsa by (cbn; by rewrite upd_same).
  apply alloc_slot_wlp; [done| |].
  - intros b Hb Hfb Hu2. wlp_step; [unfold in_table in Hb; to_prop; lia|].
    assert (a <> b) as Hne by (intros ->; by rewrite Hsa in Hfb).
    do 8 (wlp_step; cbn beta). wlp_step. apply (connect_pair_inv a b (set_sock b (fun _ => sock_fresh) u1)); try done.
    all: cbn; rewrite ?upd_same, ?(upd_other _ b a) by done; by rewrite ?upd_same.
  - change (-1 <? 0) with true. cbn iota. wlp_steps. apply (socks_inv_lone _ a); [done..| | |done].
    + apply bounded_used, socks_bounded; done.
    + by rewrite Hsa.
Qed.

Lemma listen_keeps fd backlog u : sinv u -> wlp (unix_listen fd backlog) u (fun _ u' => sinv u').
Proof.
  intros Hu. unfold unix_listen. on_sock. wlp_step; [by apply wlp_ret|].
  apply negb_false_iff, bool_decide_eq_true in Heqb. wlp_steps. apply sinv_upd; [done..| |done].
  split_and!; [done..|]. congruence.
Qed.

Lemma accept_keeps fd u : sinv u -> wlp (unix_accept fd) u (fun _ u' => sinv u').
Proof.
  intros Hu. unfold unix_accept. on_sock. wlp_step; [by apply wlp_ret|]. wlp_step; [wlp_steps; done|].
  wlp_steps. apply sinv_upd; [done..|by apply same_peer_refl_state|]. apply Z.eqb_neq in Heqb0.
  intros (? & ? & ? & Hq). split; [done|]. split; [done|]. split; [cbn; lia|]. intros k Hk. cbn in *.
  replace (_ && _) with true by blia. apply Hq. lia.
Qed.

Lemma created_lone u i : sinv u -> in_table i -> k_used (socks u i) = true -> k_state (socks u i) <> SK_CONNECTED ->
  k_peer (socks u i) = PEER_NONE.
Proof.
  intros Hu Hi Hused Hs. destruct (decide (k_peer (socks u i) = PEER_NONE)) as [|Hn]; [done|].
  by destruct Hs, (ki_state _ Hu i Hi Hused Hn).
Qed.

Lemma bind_keeps fd addr u : sinv u -> wlp (unix_bind fd addr) u (fun _ u' => sinv u').
Proof.
  intros Hu. unfold unix_bind. on_sock. wlp_step; [by apply wlp_ret|].
  apply negb_false_iff, bool_decide_eq_true in Heqb. destruct (addr_path addr) as [path|]; [|by apply wlp_ret].
  wlp_step. wlp_step. cbn beta. set (i := idx_from_fd fd) in *.
  assert (sinv (set_sock i (set_path path) u)) as Hu1.
  { apply sinv_upd; [done..|by apply same_peer_refl_state|done]. }
  destruct (String.eqb path ""); [by apply wlp_ret|]. wlp_steps; try done.
  unfold sinv. cbn. rewrite upd_same. apply (socks_inv_same (socks (set_sock i (set_path path) u))); [done..| |].
  - cbn. rewrite upd_same. split_and!; [done..|]. cbn. congruence.
  - by apply (socks_bounded _ i Hu).
Qed.

Lemma connect_keeps fd addr u : sinv u -> wlp (unix_connect fd addr) u (fun _ u' => sinv u').
Proof.
  intros Hu. unfold unix_connect. on_sock. wlp_step; [by apply wlp_ret|].
  apply negb_false_iff, bool_decide_eq_true in Heqb. destruct (addr_path addr) as [path|]; [|by apply wlp_ret].
  destruct (find_listener u path) as [li|] eqn:Hli; [|by apply wlp_ret].
  assert (in_table li) as Hl by (apply scan_Some in Hli as (? & _); unfold in_table, UNIX_SOCK_MAX; lia).
  set (ci := idx_from_fd fd) in *. pose proof (created_lone u ci Hu ltac:(done) ltac:(done) ltac:(congruence)) as Hpc.
  apply wlp_bind, alloc_slot_wlp; [done| |by apply wlp_ret].
  intros si Hsi Hfree Hu1. wlp_step; [unfold in_table in Hsi; to_prop; lia|]. set (u1 := set_sock si _ u) in *.
  assert (ci <> si) as Hne by congruence.
  assert (socks u1 si = sock_fresh) as Hs1 by (cbn; by rewrite upd_same).
  assert (socks u1 ci = socks u ci) as Hc1 by (cbn; by rewrite upd_other).
  do 8 (wlp_step; cbn beta). do 2 wlp_step. match goal with |- context [n_wait (socks ?v li)] => set (u2 := v) end.
  assert (forall j, socks u2 j = socks (connect_pair ci si u1) j) as Heq.
  { intros j. rewrite connect_pair_at by done. cbn. rewrite !upd_case.
    replace (ci =? si) with false by blia. replace (si =? ci) with false by blia. rewrite ?Z.eqb_refl.
    destruct (Z.eqb_spec j si), (Z.eqb_spec j ci); done. }
  assert (sinv u2) as Hu2.
  { apply (socks_inv_ext (socks (connect_pair ci si u1))); [done|].
    apply connect_pair_inv; rewrite ?Hs1, ?Hc1; done. }
  wlp_step.
  - wlp_steps. apply (socks_inv_ext (<[ci := set_state SK_CREATED (set_peer PEER_NONE (socks u2 ci))]>
      (<[si := set_used false (socks u2 si)]> (socks u1)))).
    + intros j. cbn. rewrite !upd_case. replace (ci =? si) with false by blia. rewrite ?Z.eqb_refl.
      destruct (Z.eqb_spec j ci), (Z.eqb_spec j si); done.
    + apply socks_inv_lone; [apply socks_inv_lone| | | |]; try done; rewrite ?upd_other, ?Hs1, ?Hc1 by done; try done.
      * by apply (socks_bounded _ si Hu2).
      * by apply (socks_bounded _ ci Hu2).
  - wlp_steps. apply sinv_upd; [done..|by apply same_peer_refl_state|]. to_prop. unfold ACCEPT_Q in *.
    intros (? & ? & ? & Hq). split; [done|]. split; [done|]. cbn [n_wait listen_q set_wait]. split; [unfold ACCEPT_Q in *; lia|].
    intros k Hk. rewrite upd_case. destruct (Z.eqb_spec k (n_wait (socks u2 li))); [done|]. apply Hq. lia.
Qed.

Lemma read_keeps fd len u : sinv u -> wlp (unix_sock_read fd len) u (fun _ u' => sinv u').
Proof.
  intros Hu. unfold unix_sock_read. on_sock. wlp_step; [by apply wlp_ret|]. by apply pop_rx_keeps.
Qed.

Lemma peer_in_table u i : sinv u -> in_table i -> k_used (socks u i) = true -> (k_peer (socks u i) =? PEER_NONE) = false ->
  in_table (k_peer (socks u i)).
Proof. intros Hu Hi Hused Hp%Z.eqb_neq. by apply (ki_peer _ Hu). Qed.

Lemma write_keeps fd buf u : sinv u -> wlp (unix_sock_write fd buf) u (fun _ u' => sinv u').
Proof.
  intros Hu. unfold unix_sock_write. on_sock. destruct (_ || _) eqn:Hb; [by apply wlp_ret|].
  apply orb_false_iff in Hb as [_ Hp]. apply push_rx_keeps; [done|by apply peer_in_table].
Qed.

(** Both ends lose their peer. *)
Lemma disconnect_inv sk i : socks_inv sk -> in_table i -> k_used (sk i) = true ->
  let p := k_peer (sk i) in p <> PEER_NONE ->
  let sk1 := <[p := set_peer PEER_NONE (sk p)]> sk in
  socks_inv (<[i := set_peer PEER_NONE (sk1 i)]> sk1).
Proof.
  intros Hk Hi Hu p Hp sk1. destruct (ki_peer _ Hk i Hi Hu Hp) as (Hpt & Hpu & Hpp). fold p in Hpt, Hpu, Hpp.
  apply socks_inv_intro.
  - intros j Hj. unfold sk1. rewrite !upd_case. repeat case_match; by apply (socks_bounded sk).
  - intros j Hj. unfold sk1. rewrite !(upd_case _ _ j). destruct (Z.eqb_spec j i); [done|].
    destruct (Z.eqb_spec j p); [done|]. intros Hju Hjp. destruct (ki_peer _ Hk j Hj Hju Hjp) as (Ht & Hqu & Hq).
    assert (k_peer (sk j) <> i) by (intros He; rewrite He in *; done).
    assert (k_peer (sk j) <> p) by (intros He; rewrite He in *; congruence).
    rewrite !upd_other by done. split; [by apply (ki_state _ Hk)|done].
Qed.

Lemma drop_fd_keeps i j u : sinv u /\ k_peer (socks u i) = PEER_NONE -> in_table i ->
  wlp (drop_fd i j) u (fun _ u' => sinv u' /\ k_peer (socks u' i) = PEER_NONE).
Proof.
  intros [Hu Hp] Hi. unfold drop_fd, unix_is_sockfd. wlp_step. wlp_step. destruct (ki_fds _ Hu i Hi) as [l Hl].
  pose proof (ring_pop_rel _ _ _ Hl) as Hpop. destruct l as [|fd l].
  - rewrite Hpop. by apply wlp_ret.
  - destruct Hpop as (r & Hpop & Hr). rewrite Hpop.
    assert (forall v, sinv (set_sock i (set_fd_ring r) (over (v : vfs St) u))) as Hs.
    { intros v. apply sinv_upd; [done..|by apply same_peer_refl_state|]. apply bounded_fd_ring. by eexists. }
    wlp_steps; (split; [apply (Hs (u_vfs u)) || apply Hs|cbn; by rewrite upd_same]).
Qed.

Lemma close_keeps fd u : sinv u -> wlp (unix_sock_close fd) u (fun _ u' => sinv u').
Proof.
  intros Hu. unfold unix_sock_close. on_sock. set (i := idx_from_fd fd) in *.
  apply wlp_bind. eapply (wlp_mono _ _ (fun _ u1 => sinv (set_sock i (set_peer PEER_NONE) u1))).
  - destruct (decide (k_peer (socks u i) = PEER_NONE)) as [Hn|Hn].
    + rewrite Hn. cbn [Z.eqb negb andb]. apply wlp_ret, socks_inv_lone; [done|done|by apply (socks_bounded _ i Hu)|done|done].
    + destruct (ki_peer _ Hu i ltac:(done) ltac:(done) Hn) as (Ht & Hpu & Hpp). rewrite Hpu, Hpp, Z.eqb_refl.
      replace (k_peer (socks u i) =? PEER_NONE) with false by blia. unfold in_table in Ht.
      replace (0 <=? k_peer (socks u i)) with true by blia. replace (_ <? UNIX_SOCK_MAX) with true by blia.
      cbn [negb andb]. apply wlp_modify. by apply (disconnect_inv (socks u) i).
  - intros _ u1 Hu1. wlp_step. wlp_step. set (u2 := set_sock i _ u1) in *.
    assert (k_peer (socks u2 i) = PEER_NONE) as Hp2 by (cbn; by rewrite upd_same).
    wlp_step. wlp_step. apply wlp_bind. eapply (wlp_mono _ _ (fun _ u3 => sinv u3 /\ k_peer (socks u3 i) = PEER_NONE)).
    + wlp_steps; done.
    + intros _ u3 H3. apply wlp_bind. eapply wlp_mono.
      * apply (wlp_for_n (fun u => sinv u /\ k_peer (socks u i) = PEER_NONE)); [done|]. intros j v Hv. by apply drop_fd_keeps.
      * intros _ u4 [H4 Hp4]. wlp_steps. apply socks_inv_lone; [done|done|apply bounded_zero|done|done].
Qed.

Lemma send_iovs_keeps peer iovs total u : sinv u -> in_table peer ->
  wlp (send_iovs peer iovs total) u (fun _ u' => sinv u').
Proof.
  revert total u. induction iovs as [|[null data] iovs IH]; intros total u Hu Hp; cbn [send_iovs]; [by apply wlp_ret|].
  destruct data as [|b data]; [by apply IH|]. destruct null; [by apply wlp_ret|].
  apply wlp_bind. eapply wlp_mono; [by apply push_rx_keeps|]. intros r u' Hu'. cbn beta.
  wlp_step; [by apply wlp_ret|by apply IH].
Qed.

Lemma send_fd_keeps peer sfd u : sinv u -> in_table peer -> wlp (send_fd peer sfd) u (fun _ u' => sinv u').
Proof.
  intros Hu Hp. unfold send_fd, unix_is_sockfd. do 3 (wlp_step; cbn beta iota). apply wlp_ret.
  apply wlp_bind. eapply (wlp_mono _ _ (fun _ u' => sinv u')).
  - destruct (_ && _); wlp_steps; done.
  - intros r u' Hu'. wlp_step; [by apply wlp_ret|]. wlp_step. wlp_step. wlp_step.
    + wlp_steps; done.
    + wlp_steps. apply sinv_upd; [done..|by apply same_peer_refl_state|]. apply bounded_fd_ring.
      destruct (ki_fds _ Hu' peer Hp) as [l Hl]. eexists. by apply ring_push_rel.
Qed.

Lemma control_step_keeps peer control offset u : sinv u -> in_table peer ->
  wlp (control_step peer control offset) u (fun _ u' => sinv u').
Proof.
  intros Hu Hp. unfold control_step. do 2 (wlp_step; [by apply wlp_ret|]).
  apply wlp_bind. eapply (wlp_mono _ _ (fun _ u' => sinv u')); [|intros r u' Hu'; by apply wlp_ret].
  wlp_step; [|by apply wlp_ret]. apply wlp_for_n; [done|]. intros j v Hv. wlp_step; [done|]. by apply send_fd_keeps.
Qed.

Lemma sendmsg_keeps fuel fd iovs control u : sinv u ->
  wlp (unix_sock_sendmsg fuel fd iovs control) u (fun _ u' => sinv u').
Proof.
  intros Hu. unfold unix_sock_sendmsg. on_sock. destruct (_ || _) eqn:Hb; [by apply wlp_ret|].
  apply orb_false_iff in Hb as [_ Hp]. pose proof (peer_in_table u _ Hu ltac:(done) ltac:(done) Hp) as Ht.
  apply wlp_bind. eapply wlp_mono; [by apply send_iovs_keeps|]. intros [total|e] u1 Hu1; [|by apply wlp_ret].
  destruct control as [bs|]; [|by apply wlp_ret]. apply wlp_bind.
  eapply (wlp_mono _ _ (fun _ u' => sinv u')); [|intros ? ? ?; by apply wlp_ret].
  apply wlp_iter; [done|]. intros. by apply control_step_keeps.
Qed.

Lemma recv_iovs_keeps i iovs total got u : sinv u -> in_table i ->
  wlp (recv_iovs i iovs total got) u (fun _ u' => sinv u').
Proof.
  revert total got u. induction iovs as [|[null len] iovs IH]; intros total got u Hu Hi; cbn [recv_iovs]; [by apply wlp_ret|].
  destruct (len =? 0); [by apply IH|]. destruct null; [by apply wlp_ret|].
  apply wlp_bind. eapply wlp_mono; [by apply pop_rx_keeps|]. intros [r bs] u' Hu'. cbn beta iota.
  wlp_step; [by apply wlp_ret|]. wlp_step. wlp_step. wlp_step; [by apply wlp_ret|by apply IH].
Qed.

Lemma recvmsg_keeps fd iovs controllen u : sinv u -> wlp (unix_sock_recvmsg fd iovs controllen) u (fun _ u' => sinv u').
Proof.
  intros Hu. unfold unix_sock_recvmsg. on_sock. wlp_step; [by apply wlp_ret|].
  apply wlp_bind. eapply wlp_mono; [by apply recv_iovs_keeps|]. intros [[total got] ok] u' Hu'. cbn beta iota.
  wlp_step; [by apply wlp_ret|]. wlp_step; [|by apply wlp_ret]. wlp_step. wlp_step.
  destruct (ki_fds _ Hu' (idx_from_fd fd) ltac:(done)) as [l Hl].
  match goal with |- context [pop_bytes _ ?n _] => destruct (pop_bytes_rel FDS_CAP n l _ Hl) as (r & Hrun & Hr) end.
  rewrite Hrun. wlp_steps. apply sinv_upd; [done..|by apply same_peer_refl_state|]. apply bounded_fd_ring. by eexists.
Qed.

Lemma fcntl_keeps fd cmd arg u : sinv u -> wlp (unix_sock_fcntl fd cmd arg) u (fun _ u' => sinv u').
Proof.
  intros Hu. unfold unix_sock_fcntl. on_sock. wlp_step; [by apply wlp_ret|]. wlp_step; [|by apply wlp_ret].
  wlp_steps. apply sinv_upd; [done..|by apply same_peer_refl_state|done].
Qed.

Lemma eventfd_keeps initval flags u : sinv u -> wlp (unix_eventfd initval flags) u (fun _ u' => sinv u').
Proof.
  intros Hu. unfold unix_eventfd. apply wlp_bind, alloc_slot_wlp; [done| |by apply wlp_ret].
  intros i Hi Hfree Hu1. wlp_step; [by apply wlp_ret|]. set (u1 := set_sock i _ u) in *. do 6 (wlp_step; cbn beta).
  match goal with |- wlp _ ?v _ => set (u2 := v) end.
  assert (socks u1 i = sock_fresh) as Hs1 by (cbn; by rewrite upd_same).
  assert (sinv u2) as Hu2.
  { apply (socks_inv_ext (<[i := socks u2 i]> (<[i := socks u2 i]> (socks u1)))).
    - intros j. rewrite !upd_case. destruct (Z.eqb_spec j i) as [->|Hne]; [done|]. cbn. by rewrite !(upd_other _ i j).
    - assert (socks u2 i = set_sock_flags flags (set_peer i (set_state SK_CONNECTED sock_fresh))) as ->.
      { cbn. by rewrite !upd_same. }
      apply socks_inv_pair; rewrite ?Hs1; first [done|exact bounded_fresh]. }
  apply wlp_bind. eapply (wlp_mono _ _ (fun _ u' => sinv u')); [|intros ? ? ?; by apply wlp_ret].
  wlp_step; [|by apply wlp_ret]. apply wlp_bind. eapply wlp_mono; [by apply push_rx_keeps|]. intros ? ? ?. by apply wlp_ret.
Qed.
End calls.

(** The calls of the socket layer. *)
Inductive sock_call : Type :=
| Socket (domain type protocol : Z)
| Socketpair (domain type protocol : Z) (sv : bool)
| Bind (fd : Z) (addr : option (list Z))
| Listen (fd backlog : Z)
| Accept (fd : Z)
| Connect (fd : Z) (addr : option (list Z))
| SockRead (fd len : Z)
| SockWrite (fd : Z) (buf : list Z)
| SockClose (fd : Z)
| Sendmsg (fuel : nat) (fd : Z) (iovs : list iovec) (control : option (list Z))
| Recvmsg (fd : Z) (iovs : list (bool * Z)) (controllen : option Z)
| SockFcntl (fd cmd arg : Z)
| Eventfd (initval flags : Z)
| SockPoll (fd events : Z).

Section properties.
Context {St : Type} `{Allocator St} `{Devices St}.
Implicit Types u : unix St.

Definition run_sock (c : sock_call) : M (unix St) unit :=
  match c with
  | Socket d t p => unix_socket d t p;; mret tt
  | Socketpair d t p sv => unix_socketpair d t p sv;; mret tt
  | Bind fd a => unix_bind fd a;; mret tt
  | Listen fd b => unix_listen fd b;; mret tt
  | Accept fd => unix_accept fd;; mret tt
  | Connect fd a => unix_connect fd a;; mret tt
  | SockRead fd len => unix_sock_read fd len;; mret tt
  | SockWrite fd buf => unix_sock_write fd buf;; mret tt
  | SockClose fd => unix_sock_close fd;; mret tt
  | Sendmsg fuel fd iovs ctl => unix_sock_sendmsg fuel fd iovs ctl;; mret tt
  | Recvmsg fd iovs n => unix_sock_recvmsg fd iovs n;; mret tt
  | SockFcntl fd cmd arg => unix_sock_fcntl fd cmd arg;; mret tt
  | Eventfd v flags => unix_eventfd v flags;; mret tt
  | SockPoll fd events => unix_sock_poll fd events;; mret tt
  end.

Lemma run_sock_keeps c u : sinv u -> wlp (run_sock c) u (fun _ u' => sinv u').
Proof.
  intros Hu. destruct c; cbn [run_sock]; apply wlp_bind;
    (eapply (wlp_mono _ _ (fun _ u' => sinv u')); [|intros ? ? ?; by apply wlp_ret]).
  - by apply socket_keeps.
  - by apply socketpair_keeps.
  - by apply bind_keeps.
  - by apply listen_keeps.
  - by apply accept_keeps.
  - by apply connect_keeps.
  - by apply read_keeps.
  - by apply write_keeps.
  - by apply close_keeps.
  - by apply sendmsg_keeps.
  - by apply recvmsg_keeps.
  - by apply fcntl_keeps.
  - by apply eventfd_keeps.
  - unfold unix_sock_poll. by wlp_steps.
Qed.

(** States after unix_socket_init() and any socket calls, with any changes of the
    file system between them. *)
Inductive sock_reachable : unix St -> Prop :=
| socks_start u u' : unix_socket_init u = Done (tt, u') -> sock_reachable u'
| socks_call u u' c : sock_reachable u -> run_sock c u = Done (tt, u') -> sock_reachable u'
| socks_fs u (v : vfs St) : sock_reachable u -> sock_reachable (over v u).

Lemma init_inv (v : vfs St) : sinv (Unix v (fun _ => sock_zero)).
Proof. apply socks_inv_intro; [intros; apply bounded_zero|done]. Qed.

Lemma sock_reachable_inv u : sock_reachable u -> sinv u.
Proof.
  induction 1 as [u u' Hi|u u' c _ IH Hr|u v _ IH].
  - injection Hi as <-. apply init_inv.
  - by apply (run_sock_keeps c u IH tt u').
  - done.
Qed.

Lemma idx_of i : in_table i -> idx_from_fd (UNIX_SOCK_FD_BASE + i) = i.
Proof. unfold in_table, idx_from_fd, UNIX_SOCK_FD_BASE, UNIX_SOCK_MAX. intros. replace (_ || _) with false by blia. lia. Qed.
Lemma good_sock u i : in_table i -> k_used (socks u i) = true -> bad_sock u i = false.
Proof. unfold in_table, bad_sock. intros Hi ->. replace (i <? 0) with false by blia. done. Qed.

(** C15: Whatever calls are made on the sockets, peers stay symmetric: a socket with
    a peer is connected, and its peer is an open socket whose peer it is; the
    receive rings, the descriptor rings and the accept queues stay in bounds. *)
Theorem peers_symmetric u : sock_reachable u -> socks_inv (socks u).
Proof. apply sock_reachable_inv. Qed.

(** C16: A connected pair is a byte stream: a write appends to the peer's queue, all
    of it or, with -ENOMEM, the part that fits; a read returns the oldest bytes in
    order, and on an empty queue waits or returns -EAGAIN. Nothing else changes. *)
Theorem stream_is_fifo u i p q buf len :
  sinv u -> in_table i -> k_used (socks u i) = true -> k_state (socks u i) = SK_CONNECTED ->
  k_peer (socks u i) = p -> p <> PEER_NONE -> ring_rel RX_CAP q (k_rx (socks u p)) -> 0 <= len ->
  let room := Z.to_nat (RX_CAP - 1 - Z.of_nat (List.length q)) in
  let q' := q ++ take room buf in
  exists u1,
    unix_sock_write (UNIX_SOCK_FD_BASE + i) buf u =
      Done (if Z.of_nat (List.length buf) <=? Z.of_nat room then s32 (Z.of_nat (List.length buf)) else - ENOMEM, u1) /\
    sinv u1 /\ u_vfs u1 = u_vfs u /\ (forall j, j <> p -> socks u1 j = socks u j) /\
    (if bool_decide (q' = []) then
       unix_sock_read (UNIX_SOCK_FD_BASE + p) len u1 =
         if nonblocking (socks u p) then Done ((- EAGAIN, []), u1) else Blocked
     else exists u2,
       unix_sock_read (UNIX_SOCK_FD_BASE + p) len u1 =
         Done ((Z.min len (Z.of_nat (List.length q')), take (Z.to_nat len) q'), u2) /\
       ring_rel RX_CAP (drop (Z.to_nat len) q') (k_rx (socks u2 p)) /\
       u_vfs u2 = u_vfs u /\ (forall j, j <> p -> socks u2 j = socks u j)).
Proof.
  intros Hu Hi Hused Hst Hp Hpn Hq Hlen room q'.
  destruct (ki_peer _ Hu i Hi Hused) as (Hpt & Hpu & Hpp); [congruence|]. rewrite Hp in *.
  destruct (push_bytes_rel buf q _ Hq) as (r1 & Hrun & Hr1). fold room in Hrun, Hr1. fold q' in Hr1.
  set (u1 := set_sock p (set_rx r1) u).
  assert (unix_sock_write (UNIX_SOCK_FD_BASE + i) buf u = Done (if Z.of_nat (List.length buf) <=? Z.of_nat room
    then s32 (Z.of_nat (List.length buf)) else - ENOMEM, u1)) as Hw.
  { unfold unix_sock_write, get, mbind, M_bind. rewrite idx_of, good_sock, Hst, Hp by done.
    rewrite bool_decide_true by done. replace (p =? PEER_NONE) with false by blia. cbn [negb orb].
    unfold push_rx, get, mbind, M_bind. by rewrite Hrun. }
  exists u1. split; [exact Hw|]. split; [by apply (write_keeps (UNIX_SOCK_FD_BASE + i) buf u Hu _ _ Hw)|].
  split; [done|]. split; [intros j Hj; cbn; by rewrite upd_other|].
  assert (socks u1 p = set_rx r1 (socks u p)) as Hs1 by (cbn; by rewrite upd_same).
  assert (k_state (socks u p) = SK_CONNECTED) as Hpst.
  { apply (ki_state _ Hu p Hpt Hpu). rewrite Hpp. unfold in_table, PEER_NONE in *. lia. }
  unfold unix_sock_read, get, mbind, M_bind.
  rewrite idx_of by done. rewrite good_sock by (done || by rewrite Hs1). rewrite Hs1. cbn [k_state set_rx].
  rewrite (bool_decide_true (k_state (socks u p) = SK_CONNECTED)) by done. cbn [negb]. unfold pop_rx, get, mbind, M_bind.
  rewrite Hs1, (rx_empty_rel q') by done. cbn [k_peer set_rx k_rx]. rewrite Hpp.
  replace (i =? PEER_NONE) with false by (unfold in_table, PEER_NONE in *; blia). rewrite andb_true_r.
  change (nonblocking (set_rx r1 (socks u p))) with (nonblocking (socks u p)).
  case_bool_decide as Hne; [by destruct (nonblocking _)|].
  destruct (pop_bytes_rel RX_CAP (Z.to_nat (Z.min len RX_CAP)) q' r1 Hr1) as (r2 & Hpop & Hr2). rewrite Hpop.
  pose proof (ring_length _ _ _ Hr1) as Hlq.
  assert (take (Z.to_nat (Z.min len RX_CAP)) q' = take (Z.to_nat len) q' /\
          drop (Z.to_nat (Z.min len RX_CAP)) q' = drop (Z.to_nat len) q') as [Ht Hd].
  { destruct (Z.le_gt_cases len RX_CAP); [by rewrite Z.min_l|]. rewrite Z.min_r by lia.
    by rewrite !take_ge, !drop_ge by lia. }
  rewrite Ht, Hd in *. eexists. split; [|split_and!].
  - unfold modify, mret, M_ret. do 3 f_equal. rewrite length_take. lia.
  - cbn. by rewrite upd_same.
  - done.
  - intros j Hj. cbn. by rewrite !upd_other.
Qed.

(** A connection: connecting an unconnected socket to the path of a listener
    that has nobody waiting succeeds when a slot is free, and the listener's next
    accept returns a fresh socket connected to the caller, with nothing to read. *)
Theorem connect_then_accept u ci li addr path :
  sinv u -> in_table ci -> k_used (socks u ci) = true -> k_state (socks u ci) = SK_CREATED ->
  addr_path addr = Some path -> find_listener u path = Some li -> n_wait (socks u li) = 0 ->
  (exists k, in_table k /\ k_used (socks u k) = false) ->
  exists u1 u2 si,
    unix_connect (UNIX_SOCK_FD_BASE + ci) addr u = Done (0, u1) /\
    unix_accept (UNIX_SOCK_FD_BASE + li) u1 = Done (UNIX_SOCK_FD_BASE + si, u2) /\
    sinv u2 /\ in_table si /\ si <> ci /\ k_used (socks u si) = false /\
    k_peer (socks u2 si) = ci /\ k_peer (socks u2 ci) = si /\
    k_state (socks u2 si) = SK_CONNECTED /\ k_state (socks u2 ci) = SK_CONNECTED /\
    ring_rel RX_CAP [] (k_rx (socks u2 si)) /\
    (forall j, j <> si -> j <> ci -> j <> li -> socks u2 j = socks u j).
Proof.
  intros Hu Hci Hcu Hcs Ha Hl Hw (k & Hk & Hku).
  pose proof Hl as (Hli & [[Hlu Hls%bool_decide_eq_true]%andb_true_iff _]%andb_true_iff & _)%scan_Some.
  assert (in_table li) as Hlt by (unfold in_table, UNIX_SOCK_MAX; lia).
  destruct (scan 24 0 (fun i => negb (k_used (socks u i)))) as [si|] eqn:Hsi.
  2: { pose proof (proj1 (scan_None _ _ _) Hsi k ltac:(unfold in_table, UNIX_SOCK_MAX in *; lia)) as Hf.
       cbn beta in Hf. by rewrite Hku in Hf. }
  pose proof Hsi as (Hsr & Hsf%negb_true_iff & _)%scan_Some.
  assert (in_table si) as Hst by (unfold in_table, UNIX_SOCK_MAX; lia).
  assert (si <> ci) by congruence. assert (si <> li) by congruence. assert (ci <> li) by congruence.
  assert (exists u1, unix_connect (UNIX_SOCK_FD_BASE + ci) addr u = Done (0, u1) /\
    (forall j, socks u1 j = if j =? li then set_wait (<[0 := si]> (listen_q (socks u li))) 1 (socks u li)
      else if j =? si then set_peer ci (set_state SK_CONNECTED sock_fresh)
      else if j =? ci then set_peer si (set_state SK_CONNECTED (socks u ci)) else socks u j)) as (u1 & Hc & Hat1).
  { eexists. split.
    - unfold unix_connect, get, mbind, M_bind. rewrite idx_of, good_sock, Hcs by done.
      rewrite bool_decide_true by done. cbn [negb]. rewrite Ha, Hl. unfold alloc_slot, get, mbind, M_bind. rewrite Hsi. unfold modify, mret, M_ret. replace (si <? 0) with false by blia. cbn [negb].
      cbn. rewrite (upd_other _ si li), !(upd_other _ ci li), !(upd_other _ si li) by done. rewrite Hw. reflexivity.
    - intros j. cbn. rewrite !upd_case. replace (li =? ci) with false by blia. replace (li =? si) with false by blia.
      replace (si =? ci) with false by blia. replace (ci =? si) with false by blia. rewrite ?Z.eqb_refl.
      destruct (Z.eqb_spec j li) as [->|]; [done|]. destruct (Z.eqb_spec j si); [done|]. by destruct (Z.eqb_spec j ci). }
  assert (Hli1 : socks u1 li = set_wait (<[0 := si]> (listen_q (socks u li))) 1 (socks u li)) by by rewrite Hat1, Z.eqb_refl.
  assert (Hsi1 : socks u1 si = set_peer ci (set_state SK_CONNECTED sock_fresh)).
  { rewrite Hat1, Z.eqb_refl. by replace (si =? li) with false by blia. }
  assert (Hci1 : socks u1 ci = set_peer si (set_state SK_CONNECTED (socks u ci))).
  { rewrite Hat1, Z.eqb_refl. replace (ci =? li) with false by blia. by replace (ci =? si) with false by blia. }
  assert (exists u2, unix_accept (UNIX_SOCK_FD_BASE + li) u1 = Done (UNIX_SOCK_FD_BASE + si, u2) /\
    forall j, j <> li -> socks u2 j = socks u1 j) as (u2 & Hacc & Hat2).
  { eexists. split.
    - unfold unix_accept, get, mbind, M_bind. rewrite idx_of by done.
      rewrite good_sock by (done || by rewrite Hli1). rewrite Hli1. cbn [k_state set_wait n_wait listen_q].
      rewrite bool_decide_true by done. cbn [negb Z.eqb]. rewrite upd_same, Hsi1. cbn [k_used set_peer set_state sock_fresh negb].
      replace (_ || _) with false by (unfold in_table in *; blia). reflexivity.
    - intros j Hj. cbn. by rewrite upd_other. }
  exists u1, u2, si. rewrite !Hat2, Hsi1, Hci1 by done. split_and!; try done.
  - apply (accept_keeps (UNIX_SOCK_FD_BASE + li) u1 (connect_keeps _ _ u Hu _ _ Hc) _ _ Hacc).
  - intros j Hjs Hjc Hjl. rewrite Hat2, Hat1 by done. replace (j =? li) with false by blia.
    replace (j =? si) with false by blia. by replace (j =? ci) with false by blia.
Qed.
End properties.

(** ** Samples *)

(** Sockets 0 and 1 connected to each other, 2 listening on /s, 3 not connected. *)
Definition sock_sample : unix unit :=
  connect_pair 0 1 (Unix (Vfs tt (fun _ => node_zero) 1 0 (fun _ => fd_zero))
    (<[3 := sock_fresh]> (<[2 := set_state SK_LISTENING (set_path "/s" sock_fresh)]>
    (<[1 := sock_fresh]> (<[0 := sock_fresh]> (fun _ => sock_zero)))))).

Lemma sock_sample_inv : sinv sock_sample.
Proof.
  apply connect_pair_inv; try done; [|unfold in_table, UNIX_SOCK_MAX; lia..].
  repeat (apply socks_inv_lone; [|unfold in_table, UNIX_SOCK_MAX; lia|exact bounded_fresh|done|done]).
  apply (init_inv (Vfs tt (fun _ => node_zero) 1 0 (fun _ => fd_zero))).
Qed.

Lemma stream_is_fifo_witness :
  exists u1 u2, unix_sock_write 128 [1; 2; 3] sock_sample = Done (3, u1) /\
    unix_sock_read 129 2 u1 = Done ((2, [1; 2]), u2).
Proof.
  destruct (stream_is_fifo sock_sample 0 1 [] [1; 2; 3] 2 sock_sample_inv) as (u1 & Hw & _ & _ & _ & Hr);
    try reflexivity; try (unfold in_table, UNIX_SOCK_MAX; lia); try discriminate.
  - apply ring_empty_rel. unfold RX_CAP. lia.
  - destruct Hr as (u2 & Hr & _). exists u1, u2. split; [exact Hw|exact Hr].
Defined.

Lemma connect_then_accept_witness :
  exists u1 u2, unix_connect 131 (Some [1; 0; 47; 115; 0]) sock_sample = Done (0, u1) /\
    unix_accept 130 u1 = Done (132, u2) /\ k_peer (socks u2 4) = 3 /\ k_peer (socks u2 3) = 4.
Proof.
  destruct (connect_then_accept sock_sample 3 2 (Some [1; 0; 47; 115; 0]) "/s" sock_sample_inv)
    as (u1 & u2 & si & Hc & Ha & Hrest); try reflexivity; try (unfold in_table, UNIX_SOCK_MAX; lia).
  - exists 5. split; [unfold in_table, UNIX_SOCK_MAX; lia|reflexivity].
  - assert (si = 4) as ->.
    { assert (match unix_connect 131 (Some [1; 0; 47; 115; 0]) sock_sample with
              | Done (_, u) => match unix_accept 130 u with Done (fd, _) => fd =? 132 | _ => false end
              | _ => false end = true) as He by by vm_compute.
      change (UNIX_SOCK_FD_BASE + 3) with 131 in Hc. change (UNIX_SOCK_FD_BASE + 2) with 130 in Ha.
      rewrite Hc, Ha in He. apply Z.eqb_eq in He. unfold UNIX_SOCK_FD_BASE in He. lia. }
    exists u1, u2. split; [exact Hc|]. split; [exact Ha|]. split; apply Hrest.
Defined.

(** A session on the kernel state: a pair is made, written to and closed at one end. *)
#[local] Instance devices_10 : Devices kstate := kernel_devices 10.
Definition socks_boot : unix kstate := Unix (Vfs kernel_boot (fun _ => node_zero) 1 0 (fun _ => fd_zero)) (fun _ => sock_zero).
Definition after_sock (c : sock_call) (u : unix kstate) : unix kstate :=
  match run_sock c u with Done (_, u') => u' | _ => u end.
Definition socks_session : unix kstate :=
  after_sock (SockClose 129) (after_sock (SockWrite 128 [7]) (after_sock (Socketpair 1 1 0 true) socks_boot)).

Lemma socks_session_reachable : sock_reachable socks_session.
Proof.
  assert (forall c u, sock_reachable u -> sock_reachable (after_sock c u)) as H.
  { intros c u Hu. unfold after_sock. destruct (run_sock c u) as [[[] u']| | | |] eqn:Hr; try done. by eapply socks_call. }
  do 3 apply H. by apply (socks_start socks_boot).
Qed.

Lemma peers_symmetric_witness :
  socks_inv (socks socks_session) /\ k_peer (socks socks_session 0) = PEER_NONE /\ k_used (socks socks_session 1) = false.
Proof.
  split; [exact (peers_symmetric socks_session socks_session_reachable)|]. by vm_compute.
Defined.
