(* ===== verification/System.v ===== *)
(** * The state of the whole kernel (src/src/kernel/elf_load.c, user_task.c)

    One record joins the file system with the devices under it, the sockets and
    the task table; lenses give each component its part, so that code calling
    several of them is composed as the source composes it. Programs are started
    here: from a file, and the built-in ring 3 demonstration. *)

From Stdlib Require Import Ascii.
From S2P Require Import Prelude Pmm Mem Strings Vmm UserSpace ElfLoad Heap Cpu Sched Input Console Shm Vfs Devfs UnixSocket.

(** ** epoll's table (kernel/syscall.c) *)

Definition MAX_EPOLLS : Z := 16.
Definition MAX_EPOLL_FDS : Z := 32.

(** struct epoll_event: the union is its 64 bits. *)
Record epoll_event := EpollEvent { ev_events : Z; ev_data : Z }.
Record EpollEventEntry := { ee_fd : Z; ee_event : epoll_event }.
Record EpollInstance := Epoll { ep_used : bool; ep_fds : Z -> EpollEventEntry; ep_count : Z }.

(** ** The state *)

Record sys := Sys {
  y_unix : unix kstate;
  y_tasks : Z -> Task;
  y_num : Z;
  y_cur : Z;
  y_pid : Z;
  y_pending : Z;
  y_epolls : Z -> EpollInstance;
  y_fs_base : Z
}.

Definition set_unix (u : unix kstate) (y : sys) : sys :=
  Sys u (y_tasks y) (y_num y) (y_cur y) (y_pid y) (y_pending y) (y_epolls y) (y_fs_base y).
Definition set_epolls (f : (Z -> EpollInstance) -> Z -> EpollInstance) (y : sys) : sys :=
  Sys (y_unix y) (y_tasks y) (y_num y) (y_cur y) (y_pid y) (y_pending y) (f (y_epolls y)) (y_fs_base y).
Definition set_epoll (i : Z) (f : EpollInstance -> EpollInstance) : sys -> sys :=
  set_epolls (fun es => <[i := f (es i)]> es).
Definition set_fs_base (v : Z) (y : sys) : sys :=
  Sys (y_unix y) (y_tasks y) (y_num y) (y_cur y) (y_pid y) (y_pending y) (y_epolls y) v.
Definition set_cur_task (f : Task -> Task) (y : sys) : sys :=
  Sys (y_unix y) (<[y_cur y := f (y_tasks y (y_cur y))]> (y_tasks y)) (y_num y) (y_cur y) (y_pid y) (y_pending y)
      (y_epolls y) (y_fs_base y).

(** ** Its parts *)

#[export] Instance y_unix_lens : Lens sys (unix kstate) := {| view := y_unix; over := set_unix |}.
#[export] Instance y_unix_laws : LensLaws sys (unix kstate).
Proof. split; [done|by intros []|done]. Qed.

#[export] Instance u_vfs_laws St : LensLaws (unix St) (vfs St).
Proof. split; [done|by intros []|done]. Qed.
#[export] Instance v_st_laws St : LensLaws (vfs St) St.
Proof. split; [done|by intros []|done]. Qed.

(** A part of a part. *)
Definition lens_comp {S T U} `{Lens S T} `{Lens T U} : Lens S U :=
  {| view s := view (view s : T); over u s := over (over u (view s : T)) s |}.
Lemma lens_comp_laws {S T U} `{LensLaws S T} `{LensLaws T U} : @LensLaws S U lens_comp.
Proof.
  split; cbn [view over lens_comp].
  - intros u s. by rewrite view_over, view_over.
  - intros s. by rewrite over_view, over_view.
  - intros u u' s. by rewrite view_over, over_over, over_over.
Qed.

#[export] Instance u_kernel_lens : Lens (unix kstate) kstate := lens_comp (T := vfs kstate).
#[export] Instance u_kernel_laws : LensLaws (unix kstate) kstate.
Proof. apply lens_comp_laws. Qed.
#[export] Instance y_vfs_lens : Lens sys (vfs kstate) := lens_comp (T := unix kstate).
#[export] Instance y_kernel_lens : Lens sys kstate := lens_comp (T := unix kstate).
#[export] Instance y_kernel_laws : LensLaws sys kstate.
Proof. apply lens_comp_laws. Qed.
#[export] Instance y_heap_lens : Lens sys heap := lens_comp (T := kstate).
#[export] Instance y_heap_laws : LensLaws sys heap.
Proof. apply lens_comp_laws. Qed.
#[export] Instance y_vm_lens : Lens sys vm := lens_comp (T := heap).
#[export] Instance y_vm_laws : LensLaws sys vm.
Proof. apply lens_comp_laws. Qed.
#[export] Instance y_shm_lens : Lens sys shm := lens_comp (T := kstate).
#[export] Instance y_input_lens : Lens sys input := lens_comp (T := kstate).
#[export] Instance y_screen_lens : Lens sys screen := lens_comp (T := kstate).
#[export] Instance y_input_laws : LensLaws sys input.
Proof. apply lens_comp_laws. Qed.
#[export] Instance y_cpu_lens : Lens sys cpu := lens_comp (T := input).
#[export] Instance y_cpu_laws : LensLaws sys cpu.
Proof. apply lens_comp_laws. Qed.

(** The scheduler works on the tasks, the processor and the memory its stacks
    come from. *)
#[export] Instance y_sched_lens : Lens sys (sched (unix kstate)) :=
  {| view y := Sched (y_unix y) (view y) (y_tasks y) (y_num y) (y_cur y) (y_pid y) (y_pending y);
     over s y := over (s_cpu s) (Sys (s_mem s) (tasks s) (num_tasks s) (current_idx s) (next_pid s)
                                    (sched_pending_cr3 s) (y_epolls y) (y_fs_base y)) |}.

Lemma over_view_sched (y : sys) : over (view y : sched (unix kstate)) y = y.
Proof. destruct y as [u ts n c p q es b]. exact (over_view (T := cpu) (Sys u ts n c p q es b)). Qed.

#[export] Instance unix_allocator : Allocator (unix kstate) := zoom_allocator (T := kstate).

(** ** Programs *)

Definition VNL_USER_STACK_BASE : Z := 0x000000007F800000.
Definition VNL_USER_STACK_PAGES : Z := 48.

Section programs.
(** Bound of the polls of the serial line. *)
Context (fuel : nat).
#[local] Instance devices : Devices kstate := kernel_devices fuel.

(** The start of what vnl_spawn_elf_path() and execve() share: the file is read
    and loaded into a new space. An error number, or root, entry and break. *)
Definition load_program (path : string) : M sys (Z + Z * Z * Z) :=
  fd ← zoom (T := vfs kstate) (vfs_open path VFS_O_READ);
  if fd <? 0 then mret (inl (- ENOENT))
  else
    buf ← zoom (T := heap) (kmalloc (512 * 1024));
    if buf =? 0 then zoom (T := vfs kstate) (vfs_close fd);; mret (inl (- ENOMEM))
    else
      '(n, bytes) ← zoom (T := vfs kstate) (vfs_read fd (512 * 1024));
      zoom (T := heap) (modify (fun h => set_kmem (store_bytes (kmem h) buf bytes) h));;
      zoom (T := vfs kstate) (vfs_close fd);;
      if n <? 64 then zoom (T := heap) (kfree buf);; mret (inl (- ENOEXEC))
      else
        pml4 ← zoom (T := vm) uspace_create_pml4;
        if pml4 =? 0 then zoom (T := heap) (kfree buf);; mret (inl (- ENOMEM))
        else
          data ← gets (fun y => load_bytes (kmem (view y)) buf (Z.to_nat n));
          r ← zoom (T := vm) (elf_load_exec pml4 data);
          zoom (T := heap) (kfree buf);;
          mret (match r with
                | inl _ => inl (- ENOEXEC)
                | inr (entry, brk) => inr (pml4, entry, brk)
                end).

(** The stack's pages are not cleared. *)
Definition vnl_spawn_elf_path (path : string) : M sys Z :=
  r ← load_program path;
  match r with
  | inl e => mret e
  | inr (pml4, entry, brk) =>
      ok ← zoom (T := vm) (map_user_pages false pml4 (Z.to_nat VNL_USER_STACK_PAGES) VNL_USER_STACK_BASE);
      if negb ok then mret (- ENOMEM)
      else
        let rsp := VNL_USER_STACK_BASE + VNL_USER_STACK_PAGES * PAGE_SIZE - 16 in
        zoom (T := sched (unix kstate)) (task_create_user "tinywl" pml4 entry rsp brk brk)
  end.

Definition ring3_blob : list Z :=
  [0xb8; 0x01; 0x00; 0x00; 0x00; 0xbf; 0x01; 0x00; 0x00; 0x00; 0x48; 0xbe; 0x30; 0x00; 0x40; 0x00; 0x00; 0x00; 0x00;
   0xba; 0x13; 0x00; 0x00; 0x00; 0xcd; 0x80; 0xb8; 0x3c; 0x00; 0x00; 0x00; 0x31; 0xff; 0xcd; 0x80].
Definition ring3_msg : list Z := bytes_of "Hello from ring 3" ++ [10; 0].

(** The messages on the console are left out. *)
Definition user_ring3_demo_spawn : M sys unit :=
  pml4 ← zoom (T := vm) uspace_create_pml4;
  if pml4 =? 0 then mret tt
  else
    cp ← zoom (T := vm) (zoom pmm_alloc);
    sp ← zoom (T := vm) (zoom pmm_alloc);
    if (cp =? 0) || (sp =? 0) then mret tt
    else
      zoom (T := vm) (modify (fun s => set_ram (memset (ram s) cp 0 (Z.to_nat PAGE_SIZE)) s));;
      zoom (T := vm) (modify (fun s => set_ram (store_bytes (ram s) cp ring3_blob) s));;
      zoom (T := vm) (modify (fun s => set_ram (store_bytes (ram s) (cp + 0x30) ring3_msg) s));;
      zoom (T := vm) (vmm_map_in_pml4 pml4 0x400000 cp (Z.lor VMM_FLAG_PRESENT VMM_FLAG_USER));;
      zoom (T := vm) (vmm_map_in_pml4 pml4 0x801000 sp (Z.lor (Z.lor VMM_FLAG_PRESENT VMM_FLAG_WRITE) VMM_FLAG_USER));;
      zoom (T := sched (unix kstate)) (task_create_user "ring3" pml4 0x400000 0x802000 0x400000 0x401000);;
      mret tt.
End programs.

(** ** A sample: the state at boot, with the kernel's own task *)

Definition epoll_zero : EpollInstance := Epoll false (fun _ => Build_EpollEventEntry 0 (EpollEvent 0 0)) 0.
Definition kernel_task : Task := Build_Task 0 0 0x1000 TASK_RUNNING 1 0 "kernel" 0 0 0x40000000.
Definition sys_boot : sys :=
  Sys socks_boot (<[0 := kernel_task]> (fun _ => task_zero)) 1 0 2 0 (fun _ => epoll_zero) 0.
