(* ===== verification/Epoll.v ===== *)
(** * epoll (src/src/kernel/syscall.c)

    The table of instances: creation and the changes to an instance's interest
    list. An instance is an array that is kept dense; what it promises is a
    finite map from descriptors to events of at most 32 entries. *)

From Stdlib Require Import FunctionalExtensionality.
From S2P Require Import Prelude Cpu Sched Vfs Devfs UnixSocket System.

(** ** Operations *)

Definition EPOLL_FD_BASE : Z := 200.

Definition epoll_alloc : M sys Z :=
  y ← get;
  match scan 16 0 (fun i => negb (ep_used (y_epolls y i))) with
  | Some i =>
      modify (set_epoll i (fun ep => Epoll true (fun j =>
        if (0 <=? j) && (j <? MAX_EPOLL_FDS) then Build_EpollEventEntry (-1) (ee_event (ep_fds ep j)) else ep_fds ep j) 0));;
      mret i
  | None => mret (-1)
  end.

Definition sys_epoll_create1 (flags : Z) : M sys Z :=
  idx ← epoll_alloc;
  mret (if idx <? 0 then - ENOMEM else EPOLL_FD_BASE + idx).

(** The index of an open instance. *)
Definition epoll_idx (y : sys) (epfd : Z) : option Z :=
  let idx := epfd - EPOLL_FD_BASE in
  if (idx <? 0) || (MAX_EPOLLS <=? idx) || negb (ep_used (y_epolls y idx)) then None else Some idx.

(** The first entry for [fd]. *)
Definition epoll_find (ep : EpollInstance) (fd : Z) : option Z :=
  scan (Z.to_nat (ep_count ep)) 0 (fun i => ee_fd (ep_fds ep i) =? fd).

(** The entries above [i] move down. *)
Definition epoll_remove (i : Z) (ep : EpollInstance) : EpollInstance :=
  Epoll (ep_used ep)
    (fun j => if (i <=? j) && (j <? ep_count ep - 1) then ep_fds ep (j + 1) else ep_fds ep j) (ep_count ep - 1).
Definition epoll_set (i : Z) (e : EpollEventEntry) (count : Z) (ep : EpollInstance) : EpollInstance :=
  Epoll (ep_used ep) (<[i := e]> (ep_fds ep)) count.

(** [ev] is what the event pointer points at. *)
Definition sys_epoll_ctl (epfd op fd : Z) (ev : epoll_event) : M sys Z :=
  y ← get;
  match epoll_idx y epfd with
  | None => mret (- EBADF)
  | Some idx =>
      let ep := y_epolls y idx in
      if op =? 2 then
        match epoll_find ep fd with
        | Some i => modify (set_epoll idx (epoll_remove i));; mret 0
        | None => mret (- ENOENT)
        end
      else if op =? 1 then
        if MAX_EPOLL_FDS <=? ep_count ep then mret (- ENOMEM)
        else
          match epoll_find ep fd with
          | Some _ => mret (- EEXIST)
          | None =>
              modify (set_epoll idx (epoll_set (ep_count ep) (Build_EpollEventEntry fd ev) (ep_count ep + 1)));;
              mret 0
          end
      else if op =? 3 then
        match epoll_find ep fd with
        | Some i => modify (set_epoll idx (epoll_set i (Build_EpollEventEntry fd ev) (ep_count ep)));; mret 0
        | None => mret (- ENOENT)
        end
      else mret (- EINVAL)
  end.


(** ** The abstract map *)

Definition entry_at (ep : EpollInstance) (j : Z) : Z * epoll_event := (ee_fd (ep_fds ep j), ee_event (ep_fds ep j)).
Definition ep_list (ep : EpollInstance) : list (Z * epoll_event) := entry_at ep <$> seqZ 0 (ep_count ep).
Definition ep_map (ep : EpollInstance) : gmap Z epoll_event := list_to_map (ep_list ep).

Record ep_ok (ep : EpollInstance) : Prop := {
  eo_count : 0 <= ep_count ep <= MAX_EPOLL_FDS;
  eo_fds : forall i j, 0 <= i < ep_count ep -> 0 <= j < ep_count ep ->
    ee_fd (ep_fds ep i) = ee_fd (ep_fds ep j) -> i = j
}.

(** What epoll_ctl() means on the map: the result and the new map. *)
Definition ctl_spec (op fd : Z) (ev : epoll_event) (m : gmap Z epoll_event) : Z * gmap Z epoll_event :=
  if op =? 2 then match m !! fd with Some _ => (0, delete fd m) | None => (- ENOENT, m) end
  else if op =? 1 then
    if (32 <=? size m)%nat then (- ENOMEM, m)
    else match m !! fd with Some _ => (- EEXIST, m) | None => (0, <[fd := ev]> m) end
  else if op =? 3 then match m !! fd with Some _ => (0, <[fd := ev]> m) | None => (- ENOENT, m) end
  else (- EINVAL, m).

Lemma elem_ep_list ep fd ev :
  (fd, ev) ∈ ep_list ep <-> exists j, 0 <= j < ep_count ep /\ entry_at ep j = (fd, ev).
Proof.
  unfold ep_list. rewrite list_elem_of_fmap. setoid_rewrite elem_of_seqZ. split.
  - intros (j & He & Hj). exists j. split; [lia|done].
  - intros (j & Hj & He). exists j. split; [done|lia].
Qed.

Section map.
Context (ep : EpollInstance) (Hok : ep_ok ep).

Lemma ep_list_nodup : NoDup (ep_list ep).*1.
Proof.
  unfold ep_list. rewrite <- list_fmap_compose. apply NoDup_fmap_2_strong; [|apply NoDup_seqZ].
  intros i j Hi%elem_of_seqZ Hj%elem_of_seqZ. apply (eo_fds _ Hok); lia.
Qed.
Lemma ep_map_Some fd ev : ep_map ep !! fd = Some ev <-> exists j, 0 <= j < ep_count ep /\ entry_at ep j = (fd, ev).
Proof. unfold ep_map. rewrite <- elem_of_list_to_map by apply ep_list_nodup. apply elem_ep_list. Qed.
Lemma ep_map_at j : 0 <= j < ep_count ep -> ep_map ep !! ee_fd (ep_fds ep j) = Some (ee_event (ep_fds ep j)).
Proof. intros Hj. apply ep_map_Some. by exists j. Qed.
Lemma ep_map_size : Z.of_nat (size (ep_map ep)) = ep_count ep.
Proof.
  unfold ep_map. rewrite map_size_list_to_map by apply ep_list_nodup. unfold ep_list.
  rewrite length_fmap, length_seqZ. destruct (eo_count _ Hok). lia.
Qed.

Lemma find_Some fd i : epoll_find ep fd = Some i -> 0 <= i < ep_count ep /\ ee_fd (ep_fds ep i) = fd.
Proof.
  unfold epoll_find. intros (Hi & He & _)%scan_Some. destruct (eo_count _ Hok). split; [lia|by apply Z.eqb_eq].
Qed.
Lemma find_None fd : epoll_find ep fd = None -> ep_map ep !! fd = None.
Proof.
  unfold epoll_find. intros Hn. apply eq_None_not_Some. intros [ev (j & Hj & He)%ep_map_Some].
  apply (proj1 (scan_None _ _ _)) with (j := j) in Hn; [|lia]. injection He as He _. by apply Z.eqb_neq in Hn.
Qed.
Lemma find_map fd : match epoll_find ep fd with Some i => ep_map ep !! fd = Some (ee_event (ep_fds ep i)) | None => ep_map ep !! fd = None end.
Proof.
  destruct (epoll_find ep fd) as [i|] eqn:Hf; [|by apply find_None]. apply find_Some in Hf as [Hi <-]. by apply ep_map_at.
Qed.

End map.

Section ops.
Context (ep : EpollInstance) (Hok : ep_ok ep).

(** Deleting the entry at [i] deletes its descriptor. *)
Lemma remove_ok i : 0 <= i < ep_count ep ->
  ep_ok (epoll_remove i ep) /\ ep_map (epoll_remove i ep) = delete (ee_fd (ep_fds ep i)) (ep_map ep).
Proof.
  intros Hi. destruct (eo_count _ Hok) as [H0 H32]. set (ep' := epoll_remove i ep).
  set (up := fun j => if i <=? j then j + 1 else j).
  assert (forall j, 0 <= j < ep_count ep - 1 -> ep_fds ep' j = ep_fds ep (up j) /\ 0 <= up j < ep_count ep /\ up j <> i) as Hup.
  { intros j Hj. unfold ep', epoll_remove, up. cbn. destruct (Z.leb_spec i j); [|split; [done|lia]].
    replace (j <? _) with true by blia. split; [done|lia]. }
  assert (ep_ok ep') as Hok'.
  { split; [cbn; lia|]. intros j k Hj Hk. cbn in Hj, Hk. destruct (Hup j Hj) as (-> & ? & _), (Hup k Hk) as (-> & ? & _).
    intros He%(eo_fds _ Hok); [|done..]. unfold up in He. destruct (Z.leb_spec i j), (Z.leb_spec i k); lia. }
  split; [done|]. apply map_eq. intros fd. apply option_eq. intros ev.
  rewrite lookup_delete_Some, (ep_map_Some ep Hok), (ep_map_Some ep' Hok'). split.
  - intros (j & Hj & He). cbn [ep_count ep' epoll_remove] in Hj. destruct (Hup j Hj) as (Hfj & Hr & Hne).
    unfold entry_at in He. rewrite Hfj in He. injection He as <- <-. split; [|by exists (up j)].
    intros He%(eo_fds _ Hok); [lia|lia|done].
  - intros [Hne (j & Hj & He)]. assert (j <> i) as Hji by (intros ->; injection He as He _; congruence).
    exists (if j <? i then j else j - 1). cbn [ep_count ep' epoll_remove].
    assert (0 <= (if j <? i then j else j - 1) < ep_count ep - 1) as Hr by (destruct (Z.ltb_spec j i); lia).
    split; [done|]. destruct (Hup _ Hr) as (Hfj & _). unfold entry_at. rewrite Hfj.
    replace (up _) with j; [done|]. unfold up. destruct (Z.ltb_spec j i); [destruct (Z.leb_spec i j)|destruct (Z.leb_spec i (j - 1))]; lia.
Qed.

(** Writing the entry of [fd], an old one or the one after the last. *)
Lemma set_ok i fd ev count :
  (0 <= i < ep_count ep /\ ee_fd (ep_fds ep i) = fd /\ count = ep_count ep) \/
  (i = ep_count ep /\ ep_map ep !! fd = None /\ count = i + 1 /\ count <= MAX_EPOLL_FDS) ->
  let ep' := epoll_set i (Build_EpollEventEntry fd ev) count ep in
  ep_ok ep' /\ ep_map ep' = <[fd := ev]> (ep_map ep).
Proof.
  intros Hi ep'. destruct (eo_count _ Hok) as [H0 H32].
  assert (forall j, ep_fds ep' j = if j =? i then Build_EpollEventEntry fd ev else ep_fds ep j) as Hf by (intros j; apply upd_case).
  assert (0 <= i < count /\ ep_count ep <= count <= MAX_EPOLL_FDS /\ (forall j, 0 <= j < count -> j <> i -> 0 <= j < ep_count ep)) as (Hic & Hc & Hlt).
  { destruct Hi as [(Hi & _ & ->)|(-> & _ & -> & Hi)]; (split; [lia|split; [lia|intros; lia]]). }
  assert (forall j, 0 <= j < count -> j <> i -> ee_fd (ep_fds ep j) <> fd) as Hother.
  { intros j Hj Hne He. destruct Hi as [(? & Hfd & _)|(_ & Hn & _)].
    - apply Hne, (eo_fds _ Hok); [by apply Hlt|done|congruence].
    - pose proof (ep_map_at ep Hok j (Hlt j Hj Hne)). congruence. }
  assert (ep_ok ep') as Hok'.
  { split; [cbn; lia|]. intros j k Hj Hk. cbn in Hj, Hk. rewrite !Hf.
    destruct (Z.eqb_spec j i) as [->|Hji], (Z.eqb_spec k i) as [->|Hki]; cbn [ee_fd]; intros He; [done|exfalso..|].
    - by apply (Hother k Hk Hki).
    - by apply (Hother j Hj Hji).
    - apply (eo_fds _ Hok); [by apply Hlt|by apply Hlt|done]. }
  split; [done|]. apply map_eq. intros fd'. apply option_eq. intros ev'.
  rewrite lookup_insert_Some, (ep_map_Some ep Hok), (ep_map_Some ep' Hok'). cbn [ep_count ep' epoll_set]. unfold entry_at. split.
  - intros (j & Hj & He). rewrite Hf in He. destruct (Z.eqb_spec j i) as [->|Hne]; injection He as <- <-; [by left|right].
    split; [by apply not_eq_sym, Hother|]. exists j. split; [by apply Hlt|done].
  - intros [[<- <-]|[Hne (j & Hj & He)]].
    + exists i. rewrite Hf, Z.eqb_refl. done.
    + assert (j <> i) as Hji.
      { intros ->. destruct Hi as [(_ & Hfd & _)|(-> & _)]; [|lia]. injection He as He _. congruence. }
      exists j. rewrite Hf. apply Z.eqb_neq in Hji as ->. split; [lia|done].
Qed.
End ops.

(** C24: epoll_ctl() is the map operation: on an open instance it adds, replaces
    or deletes the event of a descriptor with the errors of the map, keeps the
    array dense and without duplicates, and touches no other instance. *)
Theorem epoll_ctl_refines y epfd idx op fd ev :
  epoll_idx y epfd = Some idx -> ep_ok (y_epolls y idx) ->
  exists r ep', sys_epoll_ctl epfd op fd ev y = Done (r, set_epoll idx (fun _ => ep') y) /\
    ep_ok ep' /\ ep_used ep' = ep_used (y_epolls y idx) /\ (r, ep_map ep') = ctl_spec op fd ev (ep_map (y_epolls y idx)).
Proof.
  intros Hidx Hok. set (ep := y_epolls y idx) in *.
  assert (set_epoll idx (fun _ => ep) y = y) as Hsame.
  { unfold set_epoll, set_epolls. destruct y. cbn in *. f_equal. apply functional_extensionality. intros j.
    rewrite upd_case. by destruct (Z.eqb_spec j idx) as [->|]. }
  assert (forall r : Z, exists r0 ep', Done (r, y) = Done (r0, set_epoll idx (fun _ => ep') y) /\ ep_ok ep' /\
    ep_used ep' = ep_used ep /\ (r0, ep_map ep') = (r, ep_map ep)) as Hkeep.
  { intros r. exists r, ep. by rewrite Hsame. }
  unfold sys_epoll_ctl, ctl_spec. unfold mbind, M_bind, get. cbn beta iota. rewrite Hidx. cbv zeta. fold ep.
  pose proof (find_map ep Hok fd) as Hm. pose proof (ep_map_size ep Hok) as Hsz.
  destruct (op =? 2).
  { destruct (epoll_find ep fd) as [i|] eqn:Hf; rewrite Hm; [|apply Hkeep].
    destruct (find_Some ep Hok fd i Hf) as [Hi Hfd]. destruct (remove_ok ep Hok i Hi) as [Hok' Hmap].
    exists 0, (epoll_remove i ep). rewrite <- Hfd, Hmap. by split_and!. }
  destruct (op =? 1).
  { unfold MAX_EPOLL_FDS. destruct (Z.leb_spec 32 (ep_count ep)) as [Hfull|Hroom].
    - replace (32 <=? size (ep_map ep))%nat with true by (symmetry; apply Nat.leb_le; lia). apply Hkeep.
    - replace (32 <=? size (ep_map ep))%nat with false by (symmetry; apply Nat.leb_gt; lia).
      destruct (epoll_find ep fd) as [i|] eqn:Hf; rewrite Hm; [apply Hkeep|].
      destruct (set_ok ep Hok (ep_count ep) fd ev (ep_count ep + 1)) as [Hok' Hmap]; [unfold MAX_EPOLL_FDS; auto with lia|].
      exists 0, (epoll_set (ep_count ep) (Build_EpollEventEntry fd ev) (ep_count ep + 1) ep). rewrite Hmap. by split_and!. }
  destruct (op =? 3); [|apply Hkeep].
  destruct (epoll_find ep fd) as [i|] eqn:Hf; rewrite Hm; [|apply Hkeep].
  destruct (find_Some ep Hok fd i Hf) as [Hi Hfd].
  destruct (set_ok ep Hok i fd ev (ep_count ep)) as [Hok' Hmap]; [by left|].
  exists 0, (epoll_set i (Build_EpollEventEntry fd ev) (ep_count ep) ep). rewrite Hmap. by split_and!.
Qed.

(** ** Witness: an instance with one entry *)

Definition after_create : sys := match sys_epoll_create1 0 sys_boot with Done (_, y) => y | _ => sys_boot end.
Definition after_add : sys :=
  match sys_epoll_ctl 200 1 7 (EpollEvent 1 70) after_create with Done (_, y) => y | _ => sys_boot end.

Lemma after_add_ok : epoll_idx after_add 200 = Some 0 /\ ep_ok (y_epolls after_add 0).
Proof.
  assert (ep_count (y_epolls after_add 0) = 1) as H1 by by vm_compute.
  split; [by vm_compute|]. split; rewrite H1; [unfold MAX_EPOLL_FDS; lia|intros; lia].
Qed.

Lemma epoll_ctl_refines_witness :
  exists ep', sys_epoll_ctl 200 3 7 (EpollEvent 4 71) after_add = Done (0, set_epoll 0 (fun _ => ep') after_add) /\
    ep_map ep' = {[7 := EpollEvent 4 71]}.
Proof.
  destruct (epoll_ctl_refines after_add 200 0 3 7 (EpollEvent 4 71)) as (r & ep' & Hrun & _ & _ & Hspec);
    [apply after_add_ok..|].
  exists ep'. assert (ep_map (y_epolls after_add 0) = {[7 := EpollEvent 1 70]}) as Hm by by vm_compute.
  rewrite Hm in Hspec. injection Hspec as -> ->. split; [exact Hrun|]. by vm_compute.
Defined.
