(* ===== verification/Syscall.v ===== *)
(** * System calls (src/src/kernel/syscall.c)

    The dispatcher on the saved registers, every call, and epoll. User pointers
    that the kernel dereferences itself, without going through the page tables
    in software, are read and written with [user_mem] and [set_user_mem]: what
    the processor's translation gives; a fault is not modelled. *)

From Stdlib Require Import Ascii.
From S2P Require Import Prelude Pmm Mem Strings Vmm UserSpace ElfLoad Heap Cpu Sched Input Console Shm Vfs Devfs UnixSocket System Epoll.

(** ** Registers (include/idt.h) *)

Inductive reg : Type :=
| GS | FS | ES | DS | R15 | R14 | R13 | R12 | R11 | R10 | R9 | R8
| RBP | RDI | RSI | RDX | RCX | RBX | RAX
| INT_NO | ERR_CODE | RIP | CS | RFLAGS | RSP | SS.
#[export] Instance reg_eq_dec : EqDecision reg.
Proof. solve_decision. Defined.
Abbreviation Registers := (reg -> Z) (only parsing).

(** How a call ends: back to the caller with these registers, or with the
    processor given away, to the stack at [rsp], the caller having [r] when it
    is scheduled again; an exited caller never is. *)
Inductive sys_result : Type :=
| Resume (r : Registers)
| Switch (rsp : Z) (r : Registers)
| Exit (rsp : Z).

(** ** Numbers (include/syscall.h) *)

Definition SYS_READ : Z := 0.
Definition SYS_WRITE : Z := 1.
Definition SYS_OPEN : Z := 2.
Definition SYS_CLOSE : Z := 3.
Definition SYS_STAT : Z := 4.
Definition SYS_FSTAT : Z := 5.
Definition SYS_LSTAT : Z := 6.
Definition SYS_LSEEK : Z := 8.
Definition SYS_MMAP : Z := 9.
Definition SYS_MPROTECT : Z := 10.
Definition SYS_MUNMAP : Z := 11.
Definition SYS_BRK : Z := 12.
Definition SYS_IOCTL : Z := 16.
Definition SYS_DUP : Z := 32.
Definition SYS_DUP2 : Z := 33.
Definition SYS_GETPID : Z := 39.
Definition SYS_SOCKET : Z := 41.
Definition SYS_CONNECT : Z := 42.
Definition SYS_ACCEPT : Z := 43.
Definition SYS_SENDTO : Z := 44.
Definition SYS_RECVFROM : Z := 45.
Definition SYS_SENDMSG : Z := 46.
Definition SYS_RECVMSG : Z := 47.
Definition SYS_BIND : Z := 49.
Definition SYS_LISTEN : Z := 50.
Definition SYS_SOCKETPAIR : Z := 53.
Definition SYS_EXECVE : Z := 59.
Definition SYS_EXIT : Z := 60.
Definition SYS_UNAME : Z := 63.
Definition SYS_FCNTL : Z := 72.
Definition SYS_FTRUNCATE : Z := 77.
Definition SYS_GETCWD : Z := 79.
Definition SYS_MKDIR : Z := 83.
Definition SYS_UNLINK : Z := 87.
Definition SYS_READLINK : Z := 89.
Definition SYS_UPTIME : Z := 100.
Definition SYS_TASK_CREATE : Z := 101.
Definition SYS_GETUID : Z := 102.
Definition SYS_TASK_SLEEP : Z := 103.
Definition SYS_GETGID : Z := 104.
Definition SYS_SETUID : Z := 105.
Definition SYS_SETGID : Z := 106.
Definition SYS_GETEUID : Z := 107.
Definition SYS_GETEGID : Z := 108.
Definition SYS_ARCH_PRCTL : Z := 158.
Definition SYS_GETDENTS64 : Z := 217.
Definition SYS_SET_TID_ADDRESS : Z := 218.
Definition SYS_EXIT_GROUP : Z := 231.
Definition SYS_EPOLL_WAIT : Z := 232.
Definition SYS_EPOLL_CTL : Z := 233.
Definition SYS_EVENTFD2 : Z := 290.
Definition SYS_EPOLL_CREATE1 : Z := 291.

Definition VNL_MAP_FIXED : Z := 0x10.
Definition VNL_MAP_ANONYMOUS : Z := 0x20.
Definition ARCH_SET_FS : Z := 0x1002.
Definition USER_CS : Z := 0x1B.
Definition MMAP_MAX : Z := 64 * 1024 * 1024.
Definition uname_str : string := "VNL 0.2.0 (Vibe Not Linux) x86_64".

(** ** epoll_wait *)

(** One event of the answer, 16 bytes. *)
Definition event_bytes (revents data : Z) : list Z := le_bytes 4 revents ++ replicate 4 0 ++ le_bytes 8 data.

Section syscalls.
(** Bound of polls and loops; the processor's view of user memory; the
    addresses of the assembler stubs; the registers saved by a yield. *)
Context (fuel : nat) (user_mem : sys -> Z -> Z) (set_user_mem : Z -> list Z -> sys -> sys).
Context (boot_stack_top syscall_handler_addr yield_frame : Z).
#[local] Instance devices : Devices kstate := kernel_devices fuel.

(** *** Shorthands for the components *)

Definition in_fs {A} (m : M (vfs kstate) A) : M sys A := zoom m.
Definition in_unix {A} (m : M (unix kstate) A) : M sys A := zoom m.
Definition in_vm {A} (m : M vm A) : M sys A := zoom m.
Definition in_heap {A} (m : M heap A) : M sys A := zoom m.
Definition in_sched {A} (m : M (sched (unix kstate)) A) : M sys A := zoom m.
Definition is_sockfd (fd : Z) : M sys bool := in_unix (unix_is_sockfd fd).
Definition current : M sys Task := in_sched sched_current.

Definition user_bytes (y : sys) (p n : Z) : list Z := user_mem y <$> seqZ p n.
Definition put_user (p : Z) (bs : list Z) : M sys unit := modify (set_user_mem p bs).
(** A string up to its terminator. *)
Fixpoint user_str (k : nat) (y : sys) (p : Z) : option string :=
  match k with
  | O => None
  | S k' =>
      let c := user_mem y p in
      if c =? 0 then Some EmptyString
      else s ← user_str k' y (p + 1); Some (String (ascii_of_nat (Z.to_nat c)) s)
  end.
Definition arg_string (p : Z) : M sys string :=
  y ← get; match user_str fuel y p with Some s => mret s | None => no_fuel end.

(** *** epoll_wait *)

(** The loop over the entries from [i] on: the events so far and their bytes. *)
Fixpoint epoll_poll (n : nat) (ep : EpollInstance) (maxevents i ready : Z) (out : list Z) : M sys (Z * list Z) :=
  match n with
  | O => mret (ready, out)
  | S n' =>
      let e := ep_fds ep i in
      let req := ev_events (ee_event e) in
      sock ← is_sockfd (ee_fd e);
      revents ← (if sock : bool then in_unix (unix_sock_poll (ee_fd e) req) else mret (Z.land req (Z.lor 0x001 0x004)));
      if nonzero revents then
        let out := out ++ event_bytes revents (ev_data (ee_event e)) in
        if maxevents <=? ready + 1 then mret (ready + 1, out) else epoll_poll n' ep maxevents (i + 1) (ready + 1) out
      else epoll_poll n' ep maxevents (i + 1) ready out
  end.

(** One round of the loop: the events found, or [None] to sleep a tick and look again. *)
Definition epoll_round (idx maxevents timeout loops : Z) : M sys (option (Z * list Z)) :=
  y ← get;
  let ep := y_epolls y idx in
  '(ready, out) ← epoll_poll (Z.to_nat (ep_count ep)) ep maxevents 0 0 [];
  let max_loops := if timeout <? 0 then -1 else timeout in
  mret (if (0 <? ready) || (timeout =? 0) then Some (ready, out)
        else if (0 <=? max_loops) && (max_loops <=? loops) then Some (ready, out)
        else None).

(** A wait that has to sleep blocks. *)
Definition sys_epoll_wait (epfd events_ptr maxevents timeout : Z) : M sys Z :=
  y ← get;
  match epoll_idx y epfd with
  | None => mret (- EBADF)
  | Some idx =>
      r ← epoll_round idx maxevents timeout 0;
      match r with
      | None => block
      | Some (ready, out) =>
          (if 0 <? ready then t ← current; in_vm (vnl_copy_to_user_va (t_cr3_phys t) events_ptr out) else mret tt);;
          mret ready
      end
  end.

(** *** Memory *)

Definition with_brk_end (b : Z) (t : Task) : Task :=
  Build_Task (t_rsp t) (t_stack_base t) (t_cr3_phys t) (t_state t) (t_pid t) (t_sleep_until t) (t_name t)
    (t_brk_start t) b (t_mmap_next t).
Definition with_mmap_next (n : Z) (t : Task) : Task :=
  Build_Task (t_rsp t) (t_stack_base t) (t_cr3_phys t) (t_state t) (t_pid t) (t_sleep_until t) (t_name t)
    (t_brk_start t) (t_brk_end t) n.
Definition with_program (cr3 brk next : Z) (t : Task) : Task :=
  Build_Task (t_rsp t) (t_stack_base t) cr3 (t_state t) (t_pid t) (t_sleep_until t) (t_name t) brk brk next.

Definition do_brk (nb : Z) : M sys Z :=
  t ← current;
  if (t_brk_start t =? 0) && (t_brk_end t =? 0) then mret (if nb =? 0 then 0 else - ENOMEM)
  else if nb =? 0 then mret (s64 (t_brk_end t))
  else if nb <? t_brk_start t then mret (s64 (t_brk_end t))
  else
    let old_pg := ALIGN_UP (t_brk_end t) PAGE_SIZE in
    let new_pg := ALIGN_UP nb PAGE_SIZE in
    ok ← in_vm (map_user_pages true (t_cr3_phys t) (Z.to_nat ((new_pg - old_pg) / PAGE_SIZE)) old_pg);
    if negb ok then mret (s64 (t_brk_end t))
    else modify (set_cur_task (with_brk_end nb));; mret (s64 nb).

(** The framebuffer's pages are mapped, not allocated. *)
Fixpoint map_fb_pages (n : nat) (cr3 va p0 : Z) : M vm unit :=
  match n with
  | O => mret tt
  | S n' => vmm_map_in_pml4 cr3 (u64 va) (u64 p0) USER_PAGE;; map_fb_pages n' cr3 (va + PAGE_SIZE) (p0 + PAGE_SIZE)
  end.
(** The pages of a shared memory object, up to one it does not have. *)
Fixpoint map_shm_pages (n : nat) (cr3 va idx off : Z) : M shm bool :=
  match n with
  | O => mret true
  | S n' =>
      phys ← shm_get_page_phys idx (u64 off);
      if phys =? 0 then mret false
      else zoom (vmm_map_in_pml4 cr3 (u64 va) phys USER_PAGE);; map_shm_pages n' cr3 (va + PAGE_SIZE) idx (off + PAGE_SIZE)
  end.

Definition mmap_file (cr3 va len off fd : Z) : M sys Z :=
  if fd <? 0 then mret (- EBADF)
  else
    fn ← in_fs (vfs_node_from_fd fd);
    match fn with
    | None => mret (- ENODEV)
    | Some fn =>
        if negb (bool_decide (n_type fn = VFS_CHR)) then mret (- ENODEV)
        else if n_major fn =? DEV_FB_MAJOR then
          r ← zoom (T := screen) fb_get_mmap_region;
          match r with
          | None => mret (- ENODEV)
          | Some (p0, ln, _, _, _, _) =>
              if negb (off =? 0) then mret (- EINVAL)
              else
                let file_map := if ln <? len then ln else len in
                in_vm (map_fb_pages (Z.to_nat (ALIGN_UP file_map PAGE_SIZE / PAGE_SIZE)) cr3 va p0);;
                mret (s64 va)
          end
        else if n_major fn =? DEV_SHM_MAJOR then
          ok ← zoom (T := shm) (map_shm_pages (Z.to_nat (ALIGN_UP len PAGE_SIZE / PAGE_SIZE)) cr3 va (n_minor fn) off);
          mret (if ok : bool then s64 va else - EINVAL)
        else mret (- ENODEV)
    end.

(** The region is taken before the arguments are known to be good. *)
Definition do_mmap (addr len flags fd off : Z) : M sys Z :=
  t ← current;
  if (len =? 0) || (MMAP_MAX <? len) then mret (- EINVAL)
  else
    let map_len := ALIGN_UP len PAGE_SIZE in
    va ← (if nonzero (Z.land flags VNL_MAP_FIXED) then mret (Z.land addr PAGE_MASK)
          else modify (set_cur_task (fun t => with_mmap_next (u64 (t_mmap_next t + map_len)) t));; mret (t_mmap_next t));
    if nonzero (Z.land flags VNL_MAP_ANONYMOUS) then
      if negb (off =? 0) then mret (- EINVAL)
      else
        ok ← in_vm (map_user_pages true (t_cr3_phys t) (Z.to_nat (map_len / PAGE_SIZE)) va);
        mret (if ok : bool then s64 va else - ENOMEM)
    else mmap_file (t_cr3_phys t) va len off fd.

(** *** Tasks and programs *)

Definition bytes_string (bs : list Z) : string := c_string bs.

Definition THREAD_STACK : Z := 32 * 1024.
Definition do_task_create (cs fn name_ptr : Z) : M sys Z :=
  t ← current;
  if cs =? USER_CS then
    '(r, name) ← in_vm (copy_user_cstring (t_cr3_phys t) name_ptr false 32);
    if r <? 0 then mret (- EFAULT)
    else
      let va_base := t_mmap_next t in
      modify (set_cur_task (fun t => with_mmap_next (u64 (t_mmap_next t + THREAD_STACK)) t));;
      ok ← in_vm (map_user_pages true (t_cr3_phys t) (Z.to_nat (THREAD_STACK / PAGE_SIZE)) va_base);
      if negb ok then mret (- ENOMEM)
      else
        in_sched (task_create_user (bytes_string name) (t_cr3_phys t) fn (u64 (va_base + THREAD_STACK - 16))
                    (t_brk_start t) (t_brk_end t))
  else name ← arg_string name_ptr; in_sched (task_create name fn).

(** The registers of the new program, or an error number. *)
Definition do_execve (r : Registers) : M sys (Z + Registers) :=
  if negb (r CS =? USER_CS) then mret (inl (- EPERM))
  else
    t ← current;
    '(e, path) ← in_vm (copy_user_cstring (t_cr3_phys t) (r RDI) false 256);
    if e <? 0 then mret (inl (- EFAULT))
    else
      p ← load_program fuel (bytes_string path);
      match p with
      | inl e => mret (inl e)
      | inr (new_pml4, entry, brk) =>
          ok ← in_vm (map_user_pages true new_pml4 (Z.to_nat VNL_USER_STACK_PAGES) VNL_USER_STACK_BASE);
          if negb ok then mret (inl (- ENOMEM))
          else
            let sp := VNL_USER_STACK_BASE + VNL_USER_STACK_PAGES * PAGE_SIZE - 0x40 in
            in_vm (vnl_copy_to_user_va new_pml4 sp (replicate 8 0));;
            in_vm (vnl_copy_to_user_va new_pml4 (sp + 8) (replicate 8 0));;
            modify (set_cur_task (with_program new_pml4 brk 0x40000000));;
            in_vm (modify (fun s => Vm (vm_pmm s) (ram s) (current_pml4 s) new_pml4));;
            mret (inr (<[RSI := sp + 8]> (<[RDI := 0]> (<[RSP := sp]> (<[RIP := entry]> r)))))
      end.

(** *** Files *)

Definition do_write (fd buf len : Z) : M sys Z :=
  y ← get;
  let bs := user_bytes y buf len in
  (if (fd =? 1) || (fd =? 2) then zoom (T := screen) (vga_puts (s8 <$> bs)) else mret tt);;
  sock ← is_sockfd fd;
  if sock : bool then in_unix (unix_sock_write fd bs) else in_fs (vfs_write fd bs).

Definition do_recv (fd buf len : Z) : M sys Z :=
  sock ← is_sockfd fd;
  '(ret, bs) ← (if sock : bool then in_unix (unix_sock_read fd len) else in_fs (vfs_read fd len));
  put_user buf bs;;
  mret ret.
Definition do_read (fd buf len : Z) : M sys Z :=
  sock ← is_sockfd fd;
  ret ← do_recv fd buf len;
  if negb sock && (ret <=? 0) && (fd =? 0) then
    c ← zoom (T := input) keyboard_getchar;
    put_user buf [u8 c];;
    mret 1
  else mret ret.
Definition do_send (fd buf len : Z) : M sys Z :=
  sock ← is_sockfd fd;
  y ← get;
  let bs := user_bytes y buf len in
  if sock : bool then in_unix (unix_sock_write fd bs) else in_fs (vfs_write fd bs).
Definition do_close (fd : Z) : M sys Z :=
  sock ← is_sockfd fd;
  if sock : bool then in_unix (unix_sock_close fd) else in_fs (vfs_close fd).
Definition do_ioctl (fd request arg : Z) : M sys Z :=
  '(ret, bs) ← in_fs (vfs_ioctl fd request arg);
  put_user arg bs;;
  mret ret.

(** struct linux_stat: 120 bytes. *)
Definition stat_mode (t : VFSNodeType) : Z :=
  match t with VFS_DIR => 0x41ED | VFS_CHR => 0x21B6 | VFS_FILE => 0x81A4 end.
Definition stat_bytes (t : VFSNodeType) (size : Z) : list Z :=
  replicate 24 0 ++ le_bytes 4 (stat_mode t) ++ replicate 20 0 ++ le_bytes 8 size ++ le_bytes 8 512 ++
  le_bytes 8 (u64 (size + 511) / 512) ++ replicate 48 0.
Definition do_stat (path buf : Z) : M sys Z :=
  t ← current;
  '(e, p) ← in_vm (copy_user_cstring (t_cr3_phys t) path false 256);
  if e <? 0 then mret (- EFAULT)
  else
    '(r, type, size) ← in_fs (vfs_stat (bytes_string p));
    if r <? 0 then mret (- ENOENT)
    else in_vm (vnl_copy_to_user_va (t_cr3_phys t) buf (stat_bytes type size));; mret 0.
Definition do_fstat (fd buf : Z) : M sys Z :=
  n ← (if (0 <=? fd) && (fd <? VFS_MAX_FDS) then in_fs (vfs_node_from_fd fd) else mret None);
  match n with
  | None => mret (- EBADF)
  | Some n =>
      t ← current;
      in_vm (vnl_copy_to_user_va (t_cr3_phys t) buf (stat_bytes (n_type n) (n_size n)));;
      mret 0
  end.
Definition do_getcwd (buf size : Z) : M sys Z :=
  p ← in_fs (vfs_getcwd 256 256);
  match p with
  | None => mret (- ERANGE)
  | Some bs =>
      let p := c_text bs in
      let len := Z.of_nat (length p) + 1 in
      if size <? len then mret (- ERANGE)
      else
        t ← current;
        in_vm (vnl_copy_to_user_va (t_cr3_phys t) buf (p ++ [0]));;
        mret len
  end.
(** The buffer has the size the caller gives. *)
Definition do_getdents64 (fd dirp count : Z) : M sys Z :=
  kbuf ← in_heap (kmalloc count);
  if kbuf =? 0 then mret (- ENOMEM)
  else
    in_heap (modify (fun h => set_kmem (memset (kmem h) kbuf 0 (Z.to_nat count)) h));;
    '(n, bs) ← in_fs (vfs_getdents64 fd count);
    in_heap (modify (fun h => set_kmem (store_bytes (kmem h) kbuf bs) h));;
    if n <? 0 then in_heap (kfree kbuf);; mret n
    else
      t ← current;
      out ← gets (fun y => load_bytes (kmem (view y)) kbuf (Z.to_nat n));
      in_vm (vnl_copy_to_user_va (t_cr3_phys t) dirp out);;
      in_heap (kfree kbuf);;
      mret n.

(** *** Sockets *)

(** An address argument; a null pointer is refused by the callee. *)
Definition user_addr (y : sys) (addr len : Z) : option (list Z) :=
  if addr =? 0 then None else Some (user_bytes y addr len).
Definition do_socketpair (domain type protocol sv : Z) : M sys Z :=
  '(ret, fds) ← in_unix (unix_socketpair domain type protocol true);
  if ret =? 0 then
    t ← current;
    in_vm (vnl_copy_to_user_va (t_cr3_phys t) sv (concat (le_bytes 4 <$> fds)));;
    mret ret
  else mret ret.
Definition do_accept (fd addrlen : Z) : M sys Z :=
  (if nonzero addrlen then put_user addrlen (replicate 8 0) else mret tt);;
  in_unix (unix_accept fd).

(** The vectors of a message header: base and length. *)
Definition msg_iovs (y : sys) (msg : Z) : list (Z * Z) :=
  (fun k => let p := load64 (user_mem y) (msg + 16) + 16 * k in (load64 (user_mem y) p, load64 (user_mem y) (p + 8)))
    <$> seqZ 0 (load64 (user_mem y) (msg + 24)).
Definition msg_control (y : sys) (msg : Z) : Z * Z := (load64 (user_mem y) (msg + 32), load64 (user_mem y) (msg + 40)).

(** A null header is refused once the socket is known to be connected. *)
Definition do_sendmsg (fd msg : Z) : M sys Z :=
  sock ← is_sockfd fd;
  if negb sock then mret (- ENOTSOCK)
  else if msg =? 0 then
    r ← in_unix (unix_sock_sendmsg fuel fd [] None); mret (if r =? 0 then - EFAULT else r)
  else
    y ← get;
    let '(control, controllen) := msg_control y msg in
    in_unix (unix_sock_sendmsg fuel fd
      ((fun v => (v.1 =? 0, user_bytes y v.1 v.2)) <$> msg_iovs y msg)
      (if (control =? 0) || (controllen <? SIZEOF_CMSGHDR) then None else Some (user_bytes y control controllen))).

(** The bytes received into the vectors. *)
Fixpoint put_iovs (iovs : list (Z * Z)) (got : list (list Z)) : M sys unit :=
  match iovs, got with
  | (base, _) :: iovs', bs :: got' => put_user base bs;; put_iovs iovs' got'
  | _, _ => mret tt
  end.
Definition do_recvmsg (fd msg : Z) : M sys Z :=
  sock ← is_sockfd fd;
  if negb sock then mret (- ENOTSOCK)
  else if msg =? 0 then
    '(r, _, _, _) ← in_unix (unix_sock_recvmsg fd [] None); mret (if r =? 0 then - EFAULT else r)
  else
    y ← get;
    let '(control, controllen) := msg_control y msg in
    '(ret, got, fds, newlen) ← in_unix (unix_sock_recvmsg fd ((fun v => (v.1 =? 0, v.2)) <$> msg_iovs y msg)
      (if control =? 0 then None else Some controllen));
    put_iovs (msg_iovs y msg) got;;
    (match fds with
     | [] => mret tt
     | _ => put_user control (le_bytes 8 newlen ++ le_bytes 4 SOL_SOCKET ++ le_bytes 4 SCM_RIGHTS ++ concat (le_bytes 4 <$> fds))
     end);;
    (if ret <? 0 then mret tt else put_user (msg + 40) (le_bytes 8 newlen));;
    mret ret.

(** *** The dispatcher *)

Definition finish (r : Registers) (m : M sys Z) : M sys sys_result := ret ← m; mret (Resume (<[RAX := u64 ret]> r)).

(** A task that gives up the processor; 0 is no other task to run. *)
Definition do_sleep (r : Registers) (ms : Z) : M sys sys_result :=
  next ← in_sched (task_sleep boot_stack_top ms yield_frame);
  let r' := <[RAX := 0]> r in
  mret (if next =? 0 then Resume r' else Switch next r').
Definition do_exit : M sys sys_result := next ← in_sched (task_exit boot_stack_top yield_frame); mret (Exit next).

Definition uname (buf : Z) : M sys Z :=
  if nonzero buf then put_user buf (strncpy_bytes (bytes_of uname_str) 128);; mret 0 else mret (- ENOSYS).
Definition arch_prctl (code addr : Z) : M sys Z :=
  if code =? ARCH_SET_FS then modify (set_fs_base addr);; mret 0 else mret (- EINVAL).
Definition epoll_event_at (y : sys) (p : Z) : epoll_event :=
  EpollEvent (load32 (user_mem y) p) (load64 (user_mem y) (p + 8)).

(** The calls on files, memory and the task itself; [None] is another number. *)
Definition file_call (num arg1 arg2 arg3 : Z) : option (M sys Z) :=
  let fd := s32 arg1 in
  if num =? SYS_WRITE then Some (do_write fd arg2 arg3)
  else if num =? SYS_READ then Some (do_read fd arg2 arg3)
  else if num =? SYS_OPEN then Some (p ← arg_string arg1; in_fs (vfs_open p (s32 arg2)))
  else if num =? SYS_CLOSE then Some (do_close fd)
  else if num =? SYS_IOCTL then Some (do_ioctl fd arg2 arg3)
  else if num =? SYS_MKDIR then Some (p ← arg_string arg1; in_fs (vfs_mkdir p))
  else if num =? SYS_UNLINK then Some (p ← arg_string arg1; in_fs (vfs_unlink p))
  else if num =? SYS_FTRUNCATE then Some (in_fs (vfs_ftruncate fd (s64 arg2)))
  else if (num =? SYS_STAT) || (num =? SYS_LSTAT) then Some (do_stat arg1 arg2)
  else if num =? SYS_FSTAT then Some (do_fstat fd arg2)
  else if num =? SYS_LSEEK then Some (in_fs (vfs_lseek fd (s64 arg2) (s32 arg3)))
  else if num =? SYS_DUP then Some (in_fs (vfs_dup fd))
  else if num =? SYS_DUP2 then Some (in_fs (vfs_dup2 fd (s32 arg2)))
  else if num =? SYS_GETCWD then Some (do_getcwd arg1 arg2)
  else if num =? SYS_READLINK then Some (mret (- EINVAL))
  else if num =? SYS_GETDENTS64 then Some (do_getdents64 fd arg2 arg3)
  else if num =? SYS_FCNTL then
    Some (sock ← is_sockfd fd;
          if sock : bool then in_unix (unix_sock_fcntl fd (s32 arg2) (s64 arg3)) else in_fs (vfs_fcntl fd (s32 arg2) (s64 arg3)))
  else None.

Definition task_call (num arg1 arg2 arg3 : Z) (r : Registers) : option (M sys Z) :=
  if num =? SYS_BRK then Some (do_brk arg1)
  else if num =? SYS_MMAP then Some (do_mmap arg1 arg2 (s32 (r R10)) (s32 (r R8)) (s64 (r R9)))
  else if num =? SYS_MUNMAP then Some (t ← current; in_vm (vmm_unmap_range_pml4 fuel (t_cr3_phys t) arg1 arg2);; mret 0)
  else if num =? SYS_MPROTECT then Some (mret 0)
  else if (num =? SYS_GETPID) || (num =? SYS_SET_TID_ADDRESS) then Some (t ← current; mret (t_pid t))
  else if num =? SYS_UNAME then Some (uname arg1)
  else if num =? SYS_UPTIME then Some (t ← zoom (T := cpu) timer_ticks; mret (s64 t))
  else if num =? SYS_TASK_CREATE then Some (do_task_create (r CS) arg1 arg2)
  else if num =? SYS_ARCH_PRCTL then Some (arch_prctl arg1 arg2)
  else if bool_decide (num ∈ [SYS_GETUID; SYS_GETEUID; SYS_SETUID; SYS_GETGID; SYS_SETGID; SYS_GETEGID]) then Some (mret 0)
  else None.

Definition socket_call (num arg1 arg2 arg3 : Z) (r : Registers) : option (M sys Z) :=
  let fd := s32 arg1 in
  if num =? SYS_SOCKET then Some (in_unix (unix_socket fd (s32 arg2) (s32 arg3)))
  else if num =? SYS_SOCKETPAIR then Some (do_socketpair fd (s32 arg2) (s32 arg3) (r R10))
  else if num =? SYS_BIND then Some (y ← get; in_unix (unix_bind fd (user_addr y arg2 arg3)))
  else if num =? SYS_LISTEN then Some (in_unix (unix_listen fd (s32 arg2)))
  else if num =? SYS_ACCEPT then Some (do_accept fd arg3)
  else if num =? SYS_CONNECT then Some (y ← get; in_unix (unix_connect fd (user_addr y arg2 arg3)))
  else if num =? SYS_SENDTO then Some (if negb (r R8 =? 0) then mret (- ENOSYS) else do_send fd arg2 arg3)
  else if num =? SYS_RECVFROM then Some (if negb (r R8 =? 0) then mret (- ENOSYS) else do_recv fd arg2 arg3)
  else if num =? SYS_SENDMSG then Some (do_sendmsg fd arg2)
  else if num =? SYS_RECVMSG then Some (do_recvmsg fd arg2)
  else if num =? SYS_EVENTFD2 then Some (in_unix (unix_eventfd (u32 arg1) (s32 arg2)))
  else if num =? SYS_EPOLL_CREATE1 then Some (sys_epoll_create1 fd)
  else if num =? SYS_EPOLL_CTL then Some (y ← get; sys_epoll_ctl fd (s32 arg2) (s32 arg3) (epoll_event_at y (r R10)))
  else if num =? SYS_EPOLL_WAIT then Some (sys_epoll_wait fd arg2 (s32 arg3) (s32 (r R10)))
  else None.

(** Numbers without a case, and those that are listed as unfinished, give -ENOSYS. *)
Definition syscall_handler (r : Registers) : M sys sys_result :=
  let num := r RAX in
  let '(arg1, arg2, arg3) := (r RDI, r RSI, r RDX) in
  if (num =? SYS_EXIT) || (num =? SYS_EXIT_GROUP) then do_exit
  else if num =? SYS_TASK_SLEEP then do_sleep r arg1
  else if num =? SYS_EXECVE then
    p ← do_execve r;
    mret (Resume (match p with inl e => <[RAX := u64 e]> r | inr r' => <[RAX := 0]> r' end))
  else
    match file_call num arg1 arg2 arg3, task_call num arg1 arg2 arg3 r, socket_call num arg1 arg2 arg3 r with
    | Some m, _, _ | None, Some m, _ | None, None, Some m => finish r m
    | None, None, None => finish r (mret (- ENOSYS))
    end.

Definition syscall_init : M sys unit :=
  zoom (T := cpu) (idt_set_handler 0x80 syscall_handler_addr);;
  zoom (T := cpu) (idt_set_interrupt_dpl 0x80 3).
End syscalls.
