(* ===== verification/SyscallMem.v ===== *)
(** * The program break and anonymous mappings (src/src/kernel/syscall.c)

    What SYS_BRK and SYS_MMAP do to the address space of the current task. *)

From S2P Require Import Prelude Pmm Mem Strings Vmm UserSpace Heap Cpu Sched Vfs Devfs UnixSocket System Syscall.

Definition task_now (y : sys) : Task := y_tasks y (y_cur y).
Definition mem_now (y : sys) : vm := view y.

(** The current task's pages [W], and no large page in the way of more. *)
Definition task_space (R W : gset Z) (y : sys) : Prop :=
  space R (t_cr3_phys (task_now y)) W (mem_now y) /\ user_no_huge (ram (mem_now y)) (t_cr3_phys (task_now y)).

(** The bytes from [lo] to [hi] are zero, the other bytes of the pages [W] are
    as they were, and nothing but the memory and the frames changed. *)
Record grown (R W : gset Z) (r lo : Z) (n : nat) (s s' : vm) : Prop := {
  gr_space : space R r (page_set (lo / 4096) n ∪ W) s';
  gr_step : space_step R r W (page_set (lo / 4096) n ∪ W) s s';
  gr_zero : forall v, user_va v -> lo <= v < lo + 4096 * Z.of_nat n -> user_byte (ram s') r v = Some 0;
  gr_keep : forall v, user_va v -> vpn v ∈ W -> ~ (lo <= v < lo + 4096 * Z.of_nat n) ->
    user_byte (ram s') r v = user_byte (ram s) r v
}.

Lemma added_grown R r va n W s ok k s' : added R r va n true W s ok k s' -> grown R W r va k s s'.
Proof. intros [_ ? ? Hn Ho]. split; [done|done|by apply Hn|by apply Ho]. Qed.

(** A zoomed computation of the memory only replaces the memory. *)
Lemma wp_in_vm {A} E (m : M vm A) y (Q : A -> sys -> Prop) :
  wp E m (mem_now y) (fun a s => Q a (over s y)) -> wp E (in_vm m) y Q.
Proof. apply wp_zoom. Qed.

Lemma wp_current E y (Q : Task -> sys -> Prop) : Q (task_now y) y -> wp E current y Q.
Proof. intros HQ. apply wp_zoom, wp_gets. by rewrite over_view_sched. Qed.

Lemma ALIGN_UP_user b : 0 <= b <= 2^47 ->
  ALIGN_UP b PAGE_SIZE mod 4096 = 0 /\ b <= ALIGN_UP b PAGE_SIZE <= 2^47 /\ ALIGN_UP b PAGE_SIZE < b + 4096.
Proof. intros. rewrite ALIGN_UP_page, u64_small by lia. split; [zlia|]. split; [zlia|zlia]. Qed.

Lemma set_cur_task_ext f g y : f (y_tasks y (y_cur y)) = g (y_tasks y (y_cur y)) -> set_cur_task f y = set_cur_task g y.
Proof. intros Hfg. unfold set_cur_task. by rewrite Hfg. Qed.

(** C8: the break: below its start, or 0, asks where it is; a new break is taken
    when every page between is backed, and then the pages gained read as zeroes and
    the old ones keep their contents; without memory the old break stays. *)
Theorem brk_grows R W nb y :
  let t := task_now y in
  let old := ALIGN_UP (t_brk_end t) PAGE_SIZE in
  let n := Z.to_nat ((ALIGN_UP nb PAGE_SIZE - old) / 4096) in
  task_space R W y -> 0 < t_brk_start t <= t_brk_end t -> t_brk_end t <= 2^47 -> 0 <= nb <= 2^47 ->
  if nb <? t_brk_start t then do_brk nb y = Done (t_brk_end t, y)
  else safe (do_brk nb) y (fun r y' => exists k s',
    grown R W (t_cr3_phys t) old k (mem_now y) s' /\
    ((r = nb /\ k = n /\ y' = set_cur_task (with_brk_end nb) (over s' y)) \/
     (r = t_brk_end t /\ (k < n)%nat /\ out_of_frames s' /\ y' = over s' y))).
Proof.
  intros t old n [Hs Hnh] Hst Hend Hnb.
  assert (s64 (t_brk_end t) = t_brk_end t) as Hs64 by (apply s64_small; lia).
  assert (((t_brk_start t =? 0) && (t_brk_end t =? 0))%bool = false) as Hz by blia.
  destruct (Z.ltb_spec nb (t_brk_start t)) as [Hlt|Hge].
  { unfold do_brk. rewrite (bind_Done _ _ y t y) by (unfold current; unfold in_sched, zoom; cbn -[over view]; by rewrite over_view_sched).
    rewrite Hz, Hs64. destruct (nb =? 0); [done|]. by replace (nb <? t_brk_start t) with true by blia. }
  unfold do_brk. wp_step. apply wp_current. fold t. rewrite Hz.
  replace (nb =? 0) with false by blia. replace (nb <? t_brk_start t) with false by blia. fold old.
  destruct (ALIGN_UP_user (t_brk_end t)) as (Ha & Ho & _); [lia|]. destruct (ALIGN_UP_user nb) as (Hna & Hn & _); [lia|].
  fold old in Ha, Ho. unfold PAGE_SIZE at 2. fold n.
  assert (old + 4096 * Z.of_nat n <= 2^47) as Hfit.
  { unfold n. destruct (decide (old <= ALIGN_UP nb PAGE_SIZE)); [rewrite Z2Nat.id; [zlia|apply Z.div_pos; lia]|].
    rewrite (Z2Nat.nonpos ((ALIGN_UP nb PAGE_SIZE - old) / 4096)); [lia|zlia]. }
  wp_step. apply wp_in_vm. eapply wp_mono; [apply (map_user_pages_ok R (t_cr3_phys t) true n old W); [exact Hs|exact Hnh|done|lia|done]|].
  intros ok s' [k Hadd]. pose proof (ad_count _ _ _ _ _ _ _ _ _ _ Hadd) as Hc. apply added_grown in Hadd as Hg.
  destruct ok; cbn [negb].
  - do 3 wp_step. exists k, s'. split; [exact Hg|]. left. rewrite s64_small by lia. by split_and!.
  - wp_step. exists k, s'. split; [exact Hg|]. right. rewrite Hs64. destruct Hc. by split_and!.
Qed.

(** C9: an anonymous mapping is the next region of the address space: the
    region is fresh and reads as zeroes, what was mapped keeps its contents, and
    the next mapping comes after it; when memory runs out the result is -ENOMEM
    and the pages already backed stay. *)
Theorem mmap_anonymous R W addr len flags fd y :
  let t := task_now y in
  let va := t_mmap_next t in
  let map_len := ALIGN_UP len PAGE_SIZE in
  task_space R W y -> 0 < len <= MMAP_MAX ->
  Z.land flags VNL_MAP_FIXED = 0 -> Z.land flags VNL_MAP_ANONYMOUS <> 0 ->
  va mod 4096 = 0 -> 0 <= va -> va + map_len <= 2^47 ->
  safe (do_mmap addr len flags fd 0) y (fun r y' => exists k s',
    grown R W (t_cr3_phys t) va k (mem_now y) s' /\
    y' = over s' (set_cur_task (with_mmap_next (va + map_len)) y) /\
    ((r = va /\ 4096 * Z.of_nat k = map_len) \/ (r = - ENOMEM /\ 4096 * Z.of_nat k < map_len /\ out_of_frames s'))).
Proof.
  intros t va map_len [Hs Hnh] Hlen Hfix Hanon Ha H0 Hfit. unfold do_mmap. wp_step. apply wp_current. fold t.
  unfold MMAP_MAX in *. replace (len =? 0) with false by blia. replace (64 * 1024 * 1024 <? len) with false by blia. cbn [orb].
  fold map_len. destruct (ALIGN_UP_user len) as (Hma & Hm & _); [lia|]. fold map_len in Hma, Hm.
  unfold nonzero. rewrite Hfix. apply Z.eqb_neq in Hanon as ->. change (0 =? 0) with true. cbn [negb].
  do 3 wp_step. wp_step. fold va. wp_step. apply wp_in_vm. unfold PAGE_SIZE.
  assert (4096 * Z.of_nat (Z.to_nat (map_len / 4096)) = map_len) as Hn by (rewrite Z2Nat.id; [zlia|apply Z.div_pos; lia]).
  eapply wp_mono; [apply (map_user_pages_ok R (t_cr3_phys t) true _ va W); [exact Hs|exact Hnh|done|done|lia]|].
  intros ok s' [k Hadd]. pose proof (ad_count _ _ _ _ _ _ _ _ _ _ Hadd) as Hc. apply added_grown in Hadd as Hg.
  wp_step. exists k, s'. split; [exact Hg|]. split.
  { f_equal. apply set_cur_task_ext. fold (task_now y). fold t. fold va. by rewrite u64_small by lia. }
  destruct ok.
  - left. rewrite s64_small by lia. subst k. done.
  - right. destruct Hc. split; [done|]. split; [lia|done].
Qed.

(** ** Witnesses: a task with an empty space *)

Definition user_task : Task := Build_Task 0 0 0x1000 TASK_RUNNING 2 0 "user" 0x401000 0x401000 0x40000000.
Definition sys_user : sys := set_cur_task (fun _ => user_task) (over vm_sample sys_boot).
Definition result_of {A} (o : outcome (A * sys)) : option A := match o with Done (a, _) => Some a | _ => None end.

Lemma sys_user_space : task_space {[0x1000]} ∅ sys_user.
Proof.
  split; [apply (space_empty {[0x1000]} 0x1000 vm_sample); [apply vm_sample_inv|apply vm_sample_root]|].
  intros v _. apply vm_sample_no_huge.
Qed.

Lemma brk_grows_witness :
  result_of (do_brk 0x402000 sys_user) = Some 0x402000 /\
  safe (do_brk 0x402000) sys_user (fun r y' => r = 0x402000 ->
    user_byte (ram (mem_now y')) 0x1000 0x401234 = Some 0 /\ t_brk_end (task_now y') = 0x402000).
Proof.
  split; [by vm_compute|].
  pose proof (brk_grows {[0x1000]} ∅ 0x402000 sys_user sys_user_space ltac:(by vm_compute) ltac:(by vm_compute) ltac:(lia)) as H.
  eapply wp_mono; [exact H|]. intros r y' (k & s' & Hg & [(_ & Hk & ->)|(-> & _)]) Hr; [|clear -Hr; by vm_compute in Hr].
  split; [|reflexivity].
  apply (gr_zero _ _ _ _ _ _ _ Hg); [unfold user_va; lia|]. subst k. clear. by vm_compute.
Defined.

Lemma mmap_anonymous_witness :
  result_of (do_mmap 0 5000 0x20 (-1) 0 sys_user) = Some 0x40000000 /\
  safe (do_mmap 0 5000 0x20 (-1) 0) sys_user (fun r y' => r = 0x40000000 ->
    user_byte (ram (mem_now y')) 0x1000 0x40001fff = Some 0 /\ t_mmap_next (task_now y') = 0x40002000).
Proof.
  split; [by vm_compute|].
  pose proof (mmap_anonymous {[0x1000]} ∅ 0 5000 0x20 (-1) sys_user sys_user_space ltac:(by vm_compute)
    ltac:(done) ltac:(done) ltac:(done) ltac:(by vm_compute) ltac:(by vm_compute)) as H.
  eapply wp_mono; [exact H|]. intros r y' (k & s' & Hg & -> & [[_ Hk]|[-> _]]) Hr; [|clear -Hr; by vm_compute in Hr].
  split; [|reflexivity].
  apply (gr_zero _ _ _ _ _ _ _ Hg); [unfold user_va; lia|]. rewrite Hk. clear. by vm_compute.
Defined.
