(* ===== verification/KernelInv.v ===== *)
(** * The invariant of the whole kernel (src/src/kernel/syscall.c)

    The scheduler, the file tree, the sockets and epoll each have an invariant;
    a system call touches several of them through the others. Here every call,
    as the dispatcher runs it, is shown to keep all four. *)

From S2P Require Import Prelude Pmm Mem Strings Vmm UserSpace ElfLoad Heap Cpu Sched Input Console Shm Vfs Devfs VfsTree UnixSocket System Epoll Syscall.

(** ** The file tree under the socket calls *)

(** The calls of the two layers that keep the invariant of the layer, found by
    the call's constructor. *)
Ltac fs_call_of :=
  match goal with
  | |- preserves _ (vfs_open ?p ?f) => constr:(Open p f)
  | |- preserves _ (vfs_close ?fd) => constr:(Close fd)
  | |- preserves _ (vfs_dup ?fd) => constr:(Dup fd)
  | |- preserves _ (vfs_dup2 ?fd ?n) => constr:(Dup2 fd n)
  | |- preserves _ (vfs_ftruncate ?fd ?n) => constr:(Ftruncate fd n)
  | |- preserves _ (vfs_read ?fd ?n) => constr:(Read fd n)
  | |- preserves _ (vfs_write ?fd ?bs) => constr:(Write fd bs)
  | |- preserves _ (vfs_unlink ?p) => constr:(Unlink p)
  | |- preserves _ (vfs_getdents64 ?fd ?n) => constr:(Getdents64 fd n)
  | |- preserves _ (vfs_ioctl ?fd ?r ?a) => constr:(Ioctl fd r a)
  | |- preserves _ (vfs_lseek ?fd ?o ?w) => constr:(Lseek fd o w)
  | |- preserves _ (vfs_fcntl ?fd ?c ?a) => constr:(Fcntl fd c a)
  end.
Ltac sock_call_of :=
  match goal with
  | |- preserves _ (unix_socket ?d ?t ?p) => constr:(Socket d t p)
  | |- preserves _ (unix_socketpair ?d ?t ?p ?sv) => constr:(Socketpair d t p sv)
  | |- preserves _ (unix_listen ?fd ?b) => constr:(Listen fd b)
  | |- preserves _ (unix_accept ?fd) => constr:(Accept fd)
  | |- preserves _ (unix_connect ?fd ?a) => constr:(Connect fd a)
  | |- preserves _ (unix_sock_read ?fd ?n) => constr:(SockRead fd n)
  | |- preserves _ (unix_sock_write ?fd ?bs) => constr:(SockWrite fd bs)
  | |- preserves _ (unix_sock_close ?fd) => constr:(SockClose fd)
  | |- preserves _ (unix_sock_sendmsg ?f ?fd ?v ?c) => constr:(Sendmsg f fd v c)
  | |- preserves _ (unix_sock_recvmsg ?fd ?v ?n) => constr:(Recvmsg fd v n)
  | |- preserves _ (unix_sock_fcntl ?fd ?c ?a) => constr:(SockFcntl fd c a)
  | |- preserves _ (unix_eventfd ?v ?f) => constr:(Eventfd v f)
  | |- preserves _ (unix_sock_poll ?fd ?e) => constr:(SockPoll fd e)
  end.

Section files.
Context {St : Type} `{Allocator St} `{Devices St}.
Implicit Types u : unix St.

Definition fs_ok u : Prop := vfs_ok (u_vfs u).
Lemma fs_call c {A} (m : M (vfs St) A) : creates c = false -> (forall s, run c s = (m;; mret tt) s) ->
  preserves vfs_ok m.
Proof.
  intros Hc Hm. apply preserves_void. intros s Hs a s' Hr. apply (run_keeps c Hc s Hs a s'). by rewrite Hm.
Qed.
Lemma in_vfs {A} (m : M (vfs St) A) : preserves vfs_ok m -> preserves fs_ok (zoom m).
Proof. intros Hm. by apply (preserves_zoom _ vfs_ok). Qed.
Lemma in_socks (f : unix St -> unix St) : (forall u, u_vfs (f u) = u_vfs u) -> preserves fs_ok (modify f).
Proof. intros Hf. apply preserves_modify. unfold fs_ok. intros u. by rewrite Hf. Qed.

#[local] Hint Resolve in_vfs : preserves.
#[local] Hint Extern 1 (preserves vfs_ok _) => let c := fs_call_of in apply (fs_call c); done : preserves.
#[local] Hint Extern 1 (preserves _ (modify _)) => apply in_socks; done : preserves.

Lemma is_sockfd_fs fd : preserves fs_ok (unix_is_sockfd (St:=St) fd).
Proof. unfold unix_is_sockfd. preserves_steps. Qed.
Lemma alloc_slot_fs : preserves fs_ok (alloc_slot (St:=St)).
Proof. unfold alloc_slot. preserves_steps. Qed.
Lemma push_rx_fs dst data : preserves fs_ok (push_rx (St:=St) dst data).
Proof. unfold push_rx. preserves_steps. Qed.
Lemma pop_rx_fs i len : preserves fs_ok (pop_rx (St:=St) i len).
Proof. unfold pop_rx. preserves_steps. Qed.
#[local] Hint Resolve is_sockfd_fs alloc_slot_fs push_rx_fs pop_rx_fs : preserves.

Lemma send_fd_fs peer sfd : preserves fs_ok (send_fd (St:=St) peer sfd).
Proof. unfold send_fd. preserves_steps. Qed.
Lemma send_iovs_fs peer iovs total : preserves fs_ok (send_iovs (St:=St) peer iovs total).
Proof. revert total. induction iovs as [|[null data] iovs IH]; intros total; cbn [send_iovs]; preserves_steps. Qed.
Lemma recv_iovs_fs i iovs total got : preserves fs_ok (recv_iovs (St:=St) i iovs total got).
Proof. revert total got. induction iovs as [|[null len] iovs IH]; intros total got; cbn [recv_iovs]; preserves_steps. Qed.
#[local] Hint Resolve send_fd_fs send_iovs_fs recv_iovs_fs : preserves.
Lemma control_step_fs peer control offset : preserves fs_ok (control_step (St:=St) peer control offset).
Proof. unfold control_step. preserves_steps. Qed.
Lemma drop_fd_fs i j : preserves fs_ok (drop_fd (St:=St) i j).
Proof. unfold drop_fd. preserves_steps. Qed.
#[local] Hint Resolve control_step_fs drop_fd_fs : preserves.

(** Binding makes a file, so its path must be one that can be made. *)
Definition bindable u (addr : option (list Z)) : Prop :=
  forall path, addr_path addr = Some path ->
    next_inode (u_vfs u) + 2 < 2^31 /\ creatable (vfs_cwd (u_vfs u)) path.
Lemma bind_fs fd addr u : fs_ok u -> bindable u addr -> wlp (unix_bind fd addr) u (fun _ u' => fs_ok u').
Proof.
  intros Hu Hb. unfold unix_bind, vfs_resolve. do 2 wlp_step. cbn beta zeta. do 2 (wlp_step; [by apply wlp_ret|]).
  destruct (addr_path addr) as [path|] eqn:Hp; [|by apply wlp_ret]. destruct (Hb path Hp) as [Hn Hc].
  do 2 wlp_step. cbn beta. wlp_step; [by apply wlp_ret|]. wlp_step. apply wlp_zoom. intros r t [= _ <-].
  wlp_step; [by apply wlp_ret|]. wlp_step; [by apply wlp_ret|].
  apply wlp_bind, wlp_zoom. intros tfd t Ht. cbn [view over] in Ht |- *.
  assert (vfs_ok t) as Hok by exact (open_ok _ path _ Hu Hn Hc tfd t Ht).
  assert (preserves fs_ok (zoom (S:=unix St) (vfs_close tfd);; modify (set_sock (idx_from_fd fd) (set_state SK_BOUND));; mret 0)) as Hk.
  { preserves_steps. }
  wlp_step; [by apply wlp_ret|]. by apply Hk.
Qed.

Definition is_bind (c : sock_call) : bool := match c with Bind _ _ => true | _ => false end.
Lemma run_sock_fs c : is_bind c = false -> preserves fs_ok (run_sock (St:=St) c).
Proof.
  intros Hc. destruct c; try discriminate Hc; cbn [run_sock].
  - unfold unix_socket. preserves_steps.
  - unfold unix_socketpair. preserves_steps.
  - unfold unix_listen. preserves_steps.
  - unfold unix_accept. preserves_steps.
  - unfold unix_connect. preserves_steps.
  - unfold unix_sock_read. preserves_steps.
  - unfold unix_sock_write. preserves_steps.
  - unfold unix_sock_close. preserves_steps.
  - unfold unix_sock_sendmsg. preserves_steps.
  - unfold unix_sock_recvmsg. preserves_steps.
  - unfold unix_sock_fcntl. preserves_steps.
  - unfold unix_eventfd. preserves_steps.
  - unfold unix_sock_poll. preserves_steps.
Qed.

(** The files and the sockets together. *)
Definition unix_ok u : Prop := fs_ok u /\ sinv u.
Lemma sock_ok c {A} (m : M (unix St) A) : is_bind c = false -> (forall u, run_sock c u = (m;; mret tt) u) ->
  preserves unix_ok m.
Proof.
  intros Hc Hm. apply preserves_void. intros u Hu a u' Hr. rewrite <- Hm in Hr.
  refine (preserves_and _ _ _ (run_sock_fs c Hc) _ u Hu a u' Hr). intros v Hv. by apply run_sock_keeps.
Qed.
Lemma bind_ok fd addr u : unix_ok u -> bindable u addr -> wlp (unix_bind fd addr) u (fun _ u' => unix_ok u').
Proof.
  intros [Hu Hv] Hb a u' Hr. split; [by apply (bind_fs fd addr u Hu Hb a)|by apply (bind_keeps fd addr u Hv a)].
Qed.
End files.

(** ** The invariant *)

(** The task table, the file tree with the sockets, and epoll's instances. *)
Record sys_inv (y : sys) : Prop := {
  si_sched : sched_wf (view y : sched (unix kstate));
  si_unix : unix_ok (y_unix y);
  si_epoll : forall i, 0 <= i < MAX_EPOLLS -> ep_ok (y_epolls y i)
}.

Lemma wf_tables {St} `{Allocator St} (s s' : sched St) : sched_wf s -> tasks s' = tasks s -> num_tasks s' = num_tasks s ->
  current_idx s' = current_idx s -> next_pid s' = next_pid s -> sched_wf s'.
Proof. intros Hs Ht Hn Hc Hp. apply (wf_same_shape s); [done..| |]; intros i Hi; by rewrite Ht. Qed.

Lemma sys_inv_unix y u : sys_inv y -> unix_ok u -> sys_inv (set_unix u y).
Proof. intros [Hs _ He] Hu. split; [|done|done]. by apply (wf_tables (view y)). Qed.

(** The parts of the state below the files hold nothing the invariant speaks of. *)
Class Below T `{Lens sys T} : Prop := below : forall (t : T) y, exists k : kstate, over t y = over k y.
#[export] Instance below_kernel : Below kstate.
Proof. intros k y. by exists k. Qed.
#[export] Instance below_heap : Below heap.
Proof. intros h y. by eexists. Qed.
#[export] Instance below_vm : Below vm.
Proof. intros v y. by eexists. Qed.
#[export] Instance below_shm : Below shm.
Proof. intros v y. by eexists. Qed.
#[export] Instance below_input : Below input.
Proof. intros v y. by eexists. Qed.
#[export] Instance below_screen : Below screen.
Proof. intros v y. by eexists. Qed.
#[export] Instance below_cpu : Below cpu.
Proof. intros v y. by eexists. Qed.

Lemma sys_inv_kernel y (k : kstate) : sys_inv y -> sys_inv (over k y).
Proof. intros Hy. exact (sys_inv_unix y (over k (y_unix y)) Hy (si_unix _ Hy)). Qed.
Lemma in_below {T A} `{Below T} (m : M T A) : preserves sys_inv (zoom m).
Proof. intros y Hy. apply wlp_zoom. intros a t _. destruct (below t y) as [k ->]. by apply sys_inv_kernel. Qed.
Lemma in_unix_ok {A} (m : M (unix kstate) A) : preserves unix_ok m -> preserves sys_inv (in_unix m).
Proof. intros Hm. apply (preserves_zoom _ unix_ok); [done|apply si_unix|]. intros y u. apply sys_inv_unix. Qed.
Lemma in_fs_ok {A} (m : M (vfs kstate) A) : preserves vfs_ok m -> preserves sys_inv (in_fs m).
Proof.
  intros Hm. apply (preserves_zoom _ vfs_ok); [done|intros y Hy; apply Hy|].
  intros y v Hy Hv. exact (sys_inv_unix y (over v (y_unix y)) Hy (conj Hv (proj2 (si_unix _ Hy)))).
Qed.
#[export] Hint Extern 1 (preserves sys_inv (in_vm _)) => apply in_below : preserves.
#[export] Hint Extern 1 (preserves sys_inv (in_heap _)) => apply in_below : preserves.
#[export] Hint Extern 2 (preserves sys_inv (zoom _)) => apply in_below : preserves.
#[export] Hint Extern 1 (preserves sys_inv (zoom (T:=vfs kstate) _)) => apply in_fs_ok : preserves.
#[export] Hint Resolve in_unix_ok in_fs_ok : preserves.

(** *** Tasks *)

Definition tasks_ok (s : sched (unix kstate)) : Prop := sched_wf s /\ unix_ok (s_mem s).
Lemma in_sched_ok {A} (m : M (sched (unix kstate)) A) : preserves tasks_ok m -> preserves sys_inv (in_sched m).
Proof.
  intros Hm y Hy. apply wlp_zoom. intros a s Hr.
  assert (tasks_ok s) as [Hs Hu] by (apply (Hm (view y) (conj (si_sched _ Hy) (si_unix _ Hy)) a s Hr)).
  cbn [over y_sched_lens]. destruct (below (s_cpu s) (Sys (s_mem s) (tasks s) (num_tasks s) (current_idx s) (next_pid s)
    (sched_pending_cr3 s) (y_epolls y) (y_fs_base y))) as [k ->].
  apply sys_inv_kernel. split; [|done|by apply Hy]. by apply (wf_tables s).
Qed.
#[export] Hint Resolve in_sched_ok : preserves.

Lemma wlp_zoom_modify {S T} `{Lens S T} (f : T -> T) (s : S) (Q : unit -> S -> Prop) :
  Q tt (over (f (view s)) s) -> wlp (zoom (modify f)) s Q.
Proof. intros HQ a s' Hr. injection Hr as <- <-. exact HQ. Qed.
Lemma new_task_keeps build mk : (forall stack pid frame, t_pid (mk stack pid frame) = pid /\ t_state (mk stack pid frame) = TASK_READY) ->
  preserves tasks_ok (new_task build mk).
Proof.
  intros Hmk s [Hwf Hu]. pose proof Hwf as [H1 H2 H3 H4 H5]. unfold MAX_TASKS in *.
  unfold new_task, MAX_TASKS. do 2 wlp_step. destruct (Z.leb_spec 16 (num_tasks s)); [by apply wlp_ret|].
  apply wlp_bind, wlp_zoom. intros stack u Hmal.
  assert (unix_ok u) as Hu1.
  { apply (wlp_zoom (a_malloc TASK_STACK_SZ) (s_mem s) (fun _ u => unix_ok u)) in Hmal; [done|]. intros _ k _. exact Hu. }
  destruct (stack =? 0); [by apply wlp_ret|]. do 6 wlp_step. cbn beta. destruct (build _ _) as [m' frame].
  apply wlp_bind, wlp_zoom_modify. do 5 wlp_step. cbn beta. split; [|exact Hu1].
  destruct (Hmk stack (next_pid s) frame) as [Hpid Hst]. split; cbn.
  - unfold MAX_TASKS. lia.
  - lia.
  - intros i Hi. rewrite upd_case. destruct (Z.eqb_spec i (num_tasks s)); [congruence|]. apply H3. lia.
  - intros i Hi. rewrite upd_case. destruct (Z.eqb_spec i (num_tasks s)) as [->|]; [congruence|]. apply H4. lia.
  - rewrite H5, u32_small; lia.
Qed.
Lemma task_create_keeps name entry : preserves tasks_ok (task_create (St:=unix kstate) name entry).
Proof. unfold task_create. apply preserves_bind; [apply preserves_gets|]. intros cr3. by apply new_task_keeps. Qed.
Lemma task_create_user_keeps name cr3 rip rsp b e : preserves tasks_ok (task_create_user (St:=unix kstate) name cr3 rip rsp b e).
Proof. by apply new_task_keeps. Qed.
Lemma current_keeps : preserves sys_inv current.
Proof. apply in_sched_ok, preserves_gets. Qed.

Lemma switch_keeps bt r : preserves tasks_ok (do_switch (St:=unix kstate) bt r).
Proof.
  intros s [Hwf Hu] x s' Hr. pose proof (do_switch_wf bt r s Hwf) as Hw. unfold wp in Hw. rewrite Hr in Hw.
  split; [apply Hw|]. rewrite do_switch_eq in Hr. by destruct (find_next _); injection Hr as _ <-.
Qed.
Lemma task_sleep_keeps bt ms r : preserves tasks_ok (task_sleep (St:=unix kstate) bt ms r).
Proof.
  intros s [Hwf Hu]. apply (switch_keeps bt r (sleeping ms s)). split; [by apply stop_wf|done].
Qed.
Lemma task_exit_keeps bt r : preserves tasks_ok (task_exit (St:=unix kstate) bt r).
Proof.
  intros s [Hwf Hu] x s' Hr. rewrite task_exit_cases in Hr. destruct (do_switch bt r (exiting s)) as [[y s1]| | | |] eqn:Hs; try done.
  assert (tasks_ok s1) as Hk; [|destruct y; [done|by injection Hr as _ <-..]].
  apply (switch_keeps bt r (exiting s)) in Hs; [done|]. split; [by apply stop_wf|done].
Qed.

(** What the memory calls change of the current task. *)
Lemma cur_task_keeps f : (forall t, t_pid (f t) = t_pid t) -> preserves sys_inv (modify (set_cur_task f)).
Proof.
  intros Hf. apply preserves_modify. intros y [Hs Hu He]. split; [|done|done].
  pose proof (stop_wf f (view y : sched (unix kstate)) Hs Hf) as Hw. by apply (wf_tables _ _ Hw).
Qed.
#[export] Hint Resolve task_create_keeps task_create_user_keeps current_keeps task_sleep_keeps task_exit_keeps : preserves.
#[export] Hint Extern 1 (preserves sys_inv (modify (set_cur_task _))) => apply cur_task_keeps; done : preserves.

Lemma fs_base_keeps a : preserves sys_inv (modify (set_fs_base a)).
Proof. apply preserves_modify. intros y [Hs Hu He]. by split; [apply (wf_tables _ _ Hs)|..]. Qed.
#[export] Hint Resolve fs_base_keeps : preserves.

(** *** epoll *)

Lemma epolls_keep y i f : sys_inv y -> ep_ok (f (y_epolls y i)) -> sys_inv (set_epoll i f y).
Proof.
  intros [Hs Hu He] Hf. split; [by apply (wf_tables (view y))|done|]. intros j Hj. cbn. rewrite upd_case.
  destruct (Z.eqb_spec j i) as [->|]; [done|by apply He].
Qed.
Lemma epoll_create_keeps flags : preserves sys_inv (sys_epoll_create1 flags).
Proof.
  unfold sys_epoll_create1, epoll_alloc. apply preserves_bind; [|intros; apply preserves_ret].
  intros y Hy. do 2 wlp_step. cbn beta. wlp_step; [|by apply wlp_ret]. do 3 wlp_step. apply epolls_keep; [done|].
  split; cbn; [unfold MAX_EPOLL_FDS|intros]; lia.
Qed.
Lemma epoll_ctl_keeps epfd op fd ev : preserves sys_inv (sys_epoll_ctl epfd op fd ev).
Proof.
  intros y Hy. unfold sys_epoll_ctl. do 2 wlp_step. cbn beta.
  destruct (epoll_idx y epfd) as [idx|] eqn:Hidx; [|by apply wlp_ret].
  assert (ep_ok (y_epolls y idx)) as Hok.
  { apply (si_epoll _ Hy). unfold epoll_idx, MAX_EPOLLS in *. destruct (_ || _) eqn:Hb in Hidx; [done|]. injection Hidx as <-. blia. }
  set (ep := y_epolls y idx) in *. pose proof (find_map ep Hok fd) as Hm. cbv zeta.
  destruct (op =? 2); [|destruct (op =? 1); [|destruct (op =? 3); [|by apply wlp_ret]]].
  - destruct (epoll_find ep fd) as [i|] eqn:Hf; wlp_steps; [|done]. apply epolls_keep; [done|].
    by apply remove_ok, (find_Some ep Hok fd).
  - destruct (Z.leb_spec MAX_EPOLL_FDS (ep_count ep)); [by apply wlp_ret|].
    destruct (epoll_find ep fd) as [i|]; wlp_steps; [done|]. apply epolls_keep; [done|].
    apply set_ok; [done|]. right. split_and!; [done|done|done|lia].
  - destruct (epoll_find ep fd) as [i|] eqn:Hf; wlp_steps; [|done]. apply epolls_keep; [done|].
    destruct (find_Some ep Hok fd i Hf). apply set_ok; [done|]. by left.
Qed.
#[export] Hint Resolve epoll_create_keeps epoll_ctl_keeps : preserves.

(** ** The calls *)

Section calls.
Context (fuel : nat) (user_mem : sys -> Z -> Z) (set_user_mem : Z -> list Z -> sys -> sys).
Context (boot_stack_top syscall_handler_addr yield_frame : Z).
(** User memory is not where the kernel keeps its tables. *)
Hypothesis user_below : forall p bs y, exists k : kstate, set_user_mem p bs y = over k y.
#[local] Instance devices : Devices kstate := kernel_devices fuel.

Lemma put_user_keeps p bs : preserves sys_inv (put_user set_user_mem p bs).
Proof. apply preserves_modify. intros y Hy. destruct (user_below p bs y) as [k ->]. by apply sys_inv_kernel. Qed.
Lemma arg_string_keeps p : preserves sys_inv (arg_string fuel user_mem p).
Proof. unfold arg_string. preserves_steps. Qed.
Lemma node_from_fd_keeps fd : preserves vfs_ok (vfs_node_from_fd (St:=kstate) fd).
Proof. unfold vfs_node_from_fd. preserves_steps. Qed.
Lemma stat_keeps p : preserves vfs_ok (vfs_stat (St:=kstate) p).
Proof. unfold vfs_stat, vfs_resolve. preserves_steps. Qed.
Lemma getcwd_keeps size n : preserves vfs_ok (vfs_getcwd (St:=kstate) size n).
Proof. unfold vfs_getcwd, store_in. preserves_steps. Qed.
#[local] Hint Resolve put_user_keeps arg_string_keeps node_from_fd_keeps stat_keeps getcwd_keeps : preserves.
#[local] Hint Extern 1 (preserves vfs_ok _) => let c := fs_call_of in apply (fs_call c); done : preserves.
#[local] Hint Extern 1 (preserves unix_ok _) => let c := sock_call_of in apply (sock_ok c); done : preserves.

Lemma is_sockfd_keeps fd : preserves sys_inv (is_sockfd fd).
Proof. apply in_unix_ok, preserves_gets. Qed.
#[local] Hint Resolve is_sockfd_keeps : preserves.
Lemma load_program_keeps path : preserves sys_inv (load_program fuel path).
Proof. unfold load_program. preserves_steps. Qed.
Lemma epoll_poll_keeps n ep maxevents i ready out : preserves sys_inv (epoll_poll n ep maxevents i ready out).
Proof. revert i ready out. induction n as [|n IH]; intros; cbn [epoll_poll]; preserves_steps. Qed.
Lemma put_iovs_keeps iovs got : preserves sys_inv (put_iovs set_user_mem iovs got).
Proof. revert got. induction iovs as [|[base len] iovs IH]; intros [|bs got]; cbn [put_iovs]; preserves_steps. Qed.
#[local] Hint Resolve load_program_keeps epoll_poll_keeps put_iovs_keeps : preserves.
Lemma do_recv_keeps fd buf len : preserves sys_inv (do_recv fuel set_user_mem fd buf len).
Proof. unfold do_recv. preserves_steps. Qed.
Lemma mmap_file_keeps cr3 va len off fd : preserves sys_inv (mmap_file cr3 va len off fd).
Proof. unfold mmap_file. preserves_steps. Qed.
#[local] Hint Resolve do_recv_keeps mmap_file_keeps : preserves.

(** The calls that make a file need a path that can be made. *)
Definition names_ok (y : sys) (r : Registers) : Prop :=
  let num := r RAX in
  let s := u_vfs (y_unix y) in
  let makes path := next_inode s + 2 < 2^31 /\ creatable (vfs_cwd s) path in
  (num = SYS_OPEN -> has_flag (s32 (r RSI)) VFS_O_CREATE = true ->
     forall path, user_str user_mem fuel y (r RDI) = Some path -> makes path) /\
  (num = SYS_MKDIR -> forall path, user_str user_mem fuel y (r RDI) = Some path -> makes path) /\
  (num = SYS_BIND -> bindable (y_unix y) (user_addr user_mem y (r RSI) (r RDX))).

Lemma wlp_fs_call y c {A} (m : M (vfs kstate) A) : sys_inv y -> (forall s, run c s = (m;; mret tt) s) ->
  next_inode (u_vfs (y_unix y)) + 2 < 2^31 -> well_named (vfs_cwd (u_vfs (y_unix y))) c ->
  wlp (in_fs m) y (fun _ y' => sys_inv y').
Proof.
  intros Hy Hm Hn Hc. apply wlp_zoom. intros a v Hr.
  assert (vfs_ok v) as Hv.
  { apply (run_ok (u_vfs (y_unix y)) c (proj1 (si_unix _ Hy)) Hn Hc tt). rewrite Hm. by rewrite (bind_Done _ _ _ _ _ Hr). }
  exact (sys_inv_unix y (over v (y_unix y)) Hy (conj Hv (proj2 (si_unix _ Hy)))).
Qed.

(** A call that needs no name keeps the invariant whatever the state. *)
Lemma call_keeps {A} y (m : M sys A) : sys_inv y -> preserves sys_inv m -> wlp m y (fun _ y' => sys_inv y').
Proof. intros Hy Hm. by apply Hm. Qed.
Ltac keeps_call Hm := injection Hm as <-; apply call_keeps; [assumption|];
  unfold do_write, do_read, do_send, do_close, do_ioctl, do_stat, do_fstat, do_getcwd, do_getdents64, do_brk, do_mmap,
    do_task_create, uname, arch_prctl, do_socketpair, do_accept, do_sendmsg, do_recvmsg, sys_epoll_wait, epoll_round;
  solve [preserves_steps].

Lemma wlp_arg_string y p (k : string -> M sys Z) :
  (forall path, user_str user_mem fuel y p = Some path -> wlp (k path) y (fun _ y' => sys_inv y')) ->
  wlp (path ← arg_string fuel user_mem p; k path) y (fun _ y' => sys_inv y').
Proof.
  intros Hk. unfold arg_string. do 3 wlp_step. cbn beta. destruct (user_str user_mem fuel y p) as [path|] eqn:Hp; [|done].
  apply wlp_ret. by apply Hk.
Qed.

Lemma file_call_keeps y r m : sys_inv y -> names_ok y r ->
  file_call fuel user_mem set_user_mem (r RAX) (r RDI) (r RSI) (r RDX) = Some m -> wlp m y (fun _ y' => sys_inv y').
Proof.
  intros Hy (Ho & Hk & _) Hm. unfold file_call in Hm.
  repeat (case_match eqn:Hnum; [try keeps_call Hm|clear Hnum]); [..|done];
    injection Hm as <-; apply Z.eqb_eq in Hnum; apply wlp_arg_string; intros path Hp.
  - destruct (has_flag (s32 (r RSI)) VFS_O_CREATE) eqn:Hf; [|apply call_keeps; [done|preserves_steps]].
    destruct (Ho Hnum eq_refl path Hp). by apply (wlp_fs_call y (Open path (s32 (r RSI)))).
  - destruct (Hk Hnum path Hp). by apply (wlp_fs_call y (Mkdir path)).
Qed.

Lemma task_call_keeps y r m : sys_inv y ->
  task_call fuel user_mem set_user_mem (r RAX) (r RDI) (r RSI) (r RDX) r = Some m -> wlp m y (fun _ y' => sys_inv y').
Proof. intros Hy Hm. unfold task_call in Hm. repeat (case_match; [keeps_call Hm|]); done. Qed.

Lemma socket_call_keeps y r m : sys_inv y -> names_ok y r ->
  socket_call fuel user_mem set_user_mem (r RAX) (r RDI) (r RSI) (r RDX) r = Some m -> wlp m y (fun _ y' => sys_inv y').
Proof.
  intros Hy (_ & _ & Hb) Hm. unfold socket_call in Hm.
  repeat (case_match eqn:Hnum; [try keeps_call Hm|clear Hnum]); [|done].
  injection Hm as <-. apply Z.eqb_eq in Hnum. do 2 wlp_step. cbn beta. apply wlp_zoom. intros a u Hr.
  apply (sys_inv_unix y u Hy). exact (bind_ok _ _ _ (si_unix _ Hy) (Hb Hnum) a u Hr).
Qed.

Lemma finish_keeps y r m : wlp m y (fun _ y' => sys_inv y') -> wlp (finish r m) y (fun _ y' => sys_inv y').
Proof. intros Hm. apply wlp_bind. eapply wlp_mono; [exact Hm|]. intros a y' Hy'. by apply wlp_ret. Qed.

Lemma syscall_keeps y r : sys_inv y -> names_ok y r ->
  wlp (syscall_handler fuel user_mem set_user_mem boot_stack_top yield_frame r) y (fun _ y' => sys_inv y').
Proof.
  intros Hy Hn. unfold syscall_handler. cbv zeta.
  destruct (_ || _); [apply call_keeps; [done|unfold do_exit; preserves_steps]|].
  destruct (_ =? _); [apply call_keeps; [done|unfold do_sleep; preserves_steps]|].
  destruct (_ =? _); [apply call_keeps; [done|unfold do_execve; preserves_steps]|].
  destruct (file_call _ _ _ _ _ _ _) as [m|] eqn:Hf; [by apply finish_keeps, (file_call_keeps y r)|].
  destruct (task_call _ _ _ _ _ _ _ _) as [m|] eqn:Ht; [by apply finish_keeps, (task_call_keeps y r)|].
  destruct (socket_call _ _ _ _ _ _ _ _) as [m|] eqn:Hs; [by apply finish_keeps, (socket_call_keeps y r)|].
  by apply finish_keeps, wlp_ret.
Qed.
(** What a call changes of the caller's registers: its result, and what the new
    program starts with. *)
Definition changed (num : Z) : list reg := if num =? SYS_EXECVE then [RAX; RIP; RSP; RDI; RSI] else [RAX].
Definition same_but (xs : list reg) (r r' : Registers) : Prop := forall x, x ∉ xs -> r' x = r x.
Lemma same_but_upd xs (r r' : Registers) x v : x ∈ xs -> same_but xs r r' -> same_but xs r (<[x := v]> r').
Proof. intros Hx Hr z Hz. rewrite fn_lookup_insert_ne by (intros ->; done). by apply Hr. Qed.
Lemma same_but_refl xs (r : Registers) : same_but xs r r.
Proof. done. Qed.

Lemma finish_regs (r : Registers) m (y : sys) xs : RAX ∈ xs ->
  wlp (finish r m) y (fun res _ => forall r', res = Resume r' \/ (exists rsp, res = Switch rsp r') -> same_but xs r r').
Proof.
  intros Hx. apply wlp_bind. intros v y' _. apply wlp_ret. intros r' [[= <-]|[rsp [=]]].
  by apply same_but_upd.
Qed.
(** The results of execve(). *)
Definition execve_regs (r : Registers) (p : Z + Registers) : Prop :=
  match p with inl _ => True | inr r' => same_but (changed SYS_EXECVE) r r' end.
Lemma wlp_then {S A B} (m : M S A) (f : A -> M S B) s (Q : B -> S -> Prop) :
  (forall a s', wlp (f a) s' Q) -> wlp (m ≫= f) s Q.
Proof. intros HQ. apply wlp_bind. intros a s' _. apply HQ. Qed.
Lemma execve_only (r : Registers) y : wlp (do_execve fuel r) y (fun p _ => execve_regs r p).
Proof.
  unfold do_execve. destruct (negb _); [by apply wlp_ret|]. apply wlp_then. intros t y1. apply wlp_then. intros [e path] y2.
  destruct (e <? 0); [by apply wlp_ret|]. apply wlp_then. intros [e'|[[pml4 entry] brk]] y3; [by apply wlp_ret|].
  apply wlp_then. intros [] y4; [|by apply wlp_ret]. do 4 (apply wlp_then; intros ? ?). apply wlp_ret.
  cbn [execve_regs]. repeat (apply same_but_upd; [by apply (bool_decide_eq_true _)|]). apply same_but_refl.
Qed.

(** C17: a system call that returns to its caller, at once or after giving up the
    processor, leaves every register of the caller as it was but the result in RAX;
    execve() also sets those the new program starts with. *)
Theorem registers_kept r y res y' r' :
  syscall_handler fuel user_mem set_user_mem boot_stack_top yield_frame r y = Done (res, y') ->
  res = Resume r' \/ (exists rsp, res = Switch rsp r') -> same_but (changed (r RAX)) r r'.
Proof.
  revert res y'. change (wlp (syscall_handler fuel user_mem set_user_mem boot_stack_top yield_frame r) y (fun res _ =>
    res = Resume r' \/ (exists rsp, res = Switch rsp r') -> same_but (changed (r RAX)) r r')).
  assert (RAX ∈ changed (r RAX)) as Hx by (unfold changed; destruct (_ =? _); constructor).
  unfold syscall_handler. cbv zeta. destruct (_ || _) eqn:Hexit.
  { apply wlp_then. intros next y1. apply wlp_ret. by intros [|[? [=]]]. }
  destruct (r RAX =? SYS_TASK_SLEEP).
  { apply wlp_then. intros next y1. apply wlp_ret. destruct (next =? 0); intros [[= <-]|[rsp [=]]]; subst; by apply same_but_upd. }
  destruct (r RAX =? SYS_EXECVE) eqn:He.
  { apply Z.eqb_eq in He. apply wlp_bind. eapply wlp_mono; [apply execve_only|]. intros p y1 Hp. apply wlp_ret.
    rewrite He in *. intros [[= <-]|[rsp [=]]]. destruct p as [e|r1]; [by apply same_but_upd|]. by apply same_but_upd. }
  pose proof (fun m => finish_regs r m y (changed (r RAX)) Hx) as Hfin. unfold wlp in Hfin |- *.
  intros res y1. repeat case_match; intros Hr; exact (Hfin _ res y1 Hr r').
Qed.

(** The numbers that have a case. *)
Definition known_calls : list Z :=
  [SYS_READ; SYS_WRITE; SYS_OPEN; SYS_CLOSE; SYS_STAT; SYS_FSTAT; SYS_LSTAT; SYS_LSEEK; SYS_MMAP; SYS_MPROTECT; SYS_MUNMAP;
   SYS_BRK; SYS_IOCTL; SYS_DUP; SYS_DUP2; SYS_GETPID; SYS_SOCKET; SYS_CONNECT; SYS_ACCEPT; SYS_SENDTO; SYS_RECVFROM;
   SYS_SENDMSG; SYS_RECVMSG; SYS_BIND; SYS_LISTEN; SYS_SOCKETPAIR; SYS_EXECVE; SYS_EXIT; SYS_UNAME; SYS_FCNTL;
   SYS_FTRUNCATE; SYS_GETCWD; SYS_MKDIR; SYS_UNLINK; SYS_READLINK; SYS_UPTIME; SYS_TASK_CREATE; SYS_GETUID; SYS_TASK_SLEEP;
   SYS_GETGID; SYS_SETUID; SYS_SETGID; SYS_GETEUID; SYS_GETEGID; SYS_ARCH_PRCTL; SYS_GETDENTS64; SYS_SET_TID_ADDRESS;
   SYS_EXIT_GROUP; SYS_EPOLL_WAIT; SYS_EPOLL_CTL; SYS_EVENTFD2; SYS_EPOLL_CREATE1].
(** A number without a case gives -ENOSYS in RAX and does nothing else. *)
Theorem unknown_call r y : r RAX ∉ known_calls ->
  syscall_handler fuel user_mem set_user_mem boot_stack_top yield_frame r y = Done (Resume (<[RAX := u64 (- ENOSYS)]> r), y).
Proof.
  intros Hn. assert (forall n, n ∈ known_calls -> (r RAX =? n) = false) as Hne.
  { intros n Hin. apply Z.eqb_neq. intros He. by rewrite He in Hn. }
  unfold syscall_handler, file_call, task_call, socket_call. rewrite bool_decide_false.
  - by rewrite !Hne by by apply (bool_decide_eq_true _).
  - intros Hin. apply Hn. unfold known_calls. clear -Hin. set_solver.
Qed.
Lemma timer_keeps rsp : preserves sys_inv (in_sched (sched_timer_c boot_stack_top rsp)).
Proof.
  apply in_sched_ok. intros s [Hs Hu] a s' Hr. rewrite sched_timer_eq in Hr by (pose proof (sw_num s Hs); lia).
  apply (switch_keeps boot_stack_top rsp (ticked s)) in Hr; [done|]. split; [by apply ticked_wf|done].
Qed.

(** What happens to the kernel: programs write to their memory and make system
    calls, and the devices interrupt. A call that makes a file gets a path that
    names one. *)
Inductive kernel_step : sys -> sys -> Prop :=
| ks_user y p bs : kernel_step y (set_user_mem p bs y)
| ks_syscall y r res y' : names_ok y r ->
    syscall_handler fuel user_mem set_user_mem boot_stack_top yield_frame r y = Done (res, y') -> kernel_step y y'
| ks_timer y rsp next y' : in_sched (sched_timer_c boot_stack_top rsp) y = Done (next, y') -> kernel_step y y'
| ks_yield y rsp next y' : in_sched (sched_yield_c boot_stack_top rsp) y = Done (next, y') -> kernel_step y y'
| ks_keyboard y y' : zoom (T:=input) keyboard_irq y = Done (tt, y') -> kernel_step y y'
| ks_mouse y y' : zoom (T:=input) (mouse_irq fuel) y = Done (tt, y') -> kernel_step y y'.

(** The kernel's invariant is kept by every sequence of steps: system calls with any
    numbers and arguments but those that [names_ok] excludes, stores of programs and
    interrupts. *)
Lemma kernel_invariant y y' : sys_inv y -> rtc kernel_step y y' -> sys_inv y'.
Proof.
  intros Hy Hr. induction Hr as [|y y1 y2 Hs _ IH]; [done|]. apply IH.
  destruct Hs as [y p bs|y r res y' Hn Hr|y rsp next y' Hr|y rsp next y' Hr|y y' Hr|y y' Hr].
  - destruct (user_below p bs y) as [k ->]. by apply sys_inv_kernel.
  - by apply (syscall_keeps y r Hy Hn res).
  - by apply (timer_keeps rsp y Hy next).
  - by apply (in_sched_ok _ (switch_keeps boot_stack_top rsp) y Hy next).
  - by apply (in_below keyboard_irq y Hy tt).
  - by apply (in_below (mouse_irq fuel) y Hy tt).
Qed.
End calls.

(** ** Witness: a directory is made and the timer ticks *)

(** User memory as the kernel sees it where addresses are physical. *)
Definition user_ram (y : sys) : mem := ram (view y).
Definition put_ram (p : Z) (bs : list Z) (y : sys) : sys :=
  let v : vm := view y in over (Vm (vm_pmm v) (store_bytes (ram v) p bs) (current_pml4 v) (cr3 v)) y.
Definition sys_ready : sys := set_unix (Unix fs_boot (fun _ => sock_zero)) sys_boot.
Definition mkdir_regs : Registers := fun x => match x with RAX => SYS_MKDIR | RDI => 0x5000 | _ => 0 end.
Definition sys_asks : sys := put_ram 0x5000 (bytes_of "/tmp/a" ++ [0]) sys_ready.
Abbreviation mkdir_call := (syscall_handler 10 user_ram put_ram 0 0 mkdir_regs) (only parsing).
Definition sys_made : sys := match mkdir_call sys_asks with Done (_, y) => y | _ => sys_asks end.

Lemma sys_ready_inv : sys_inv sys_ready.
Proof.
  split.
  - split; [by vm_compute|by vm_compute| | |by vm_compute].
    + intros i Hi _. cbn in Hi. cbn. lia.
    + intros i Hi. cbn in Hi. by replace i with 0 by lia.
  - split; [exact fs_boot_ok|]. apply init_inv.
  - intros i _. split; cbn; [unfold MAX_EPOLL_FDS|intros]; lia.
Qed.
Lemma asked_path : user_str user_ram 10 sys_asks (mkdir_regs RDI) = Some "/tmp/a"%string.
Proof. by vm_compute. Qed.
Lemma mkdir_names : names_ok 10 user_ram sys_asks mkdir_regs.
Proof.
  split; [discriminate|]. split; [|discriminate]. intros _ path. rewrite asked_path. intros [= <-].
  split; [by vm_compute|]. by apply (creatable_abs _ ["tmp"%string] "a").
Qed.
Lemma done_state {A} (m : M sys A) y : is_done (m y) = true ->
  exists a, m y = Done (a, match m y with Done (_, y') => y' | _ => y end).
Proof. destruct (m y) as [[a y']| | | |]; try discriminate. by exists a. Qed.
Lemma mkdir_returns : is_done (mkdir_call sys_asks) = true.
Proof. by vm_compute. Qed.
Lemma mkdir_done : exists res, mkdir_call sys_asks = Done (res, sys_made).
Proof. unfold sys_made. apply done_state, mkdir_returns. Qed.
Lemma mkdir_result : exists r', mkdir_call sys_asks = Done (Resume r', sys_made) /\ r' RAX = 0.
Proof.
  destruct mkdir_done as [res Hr].
  assert (match mkdir_call sys_asks with Done (Resume r', _) => r' RAX =? 0 | _ => false end = true) as H0 by by vm_compute.
  rewrite Hr in H0. destruct res as [r'| |]; try discriminate H0. exists r'. split; [exact Hr|by apply Z.eqb_eq].
Qed.
Lemma registers_kept_witness : exists r', mkdir_call sys_asks = Done (Resume r', sys_made) /\ r' RDI = 0x5000.
Proof.
  destruct mkdir_result as (r' & Hr & _). exists r'. split; [exact Hr|].
  apply (registers_kept 10 user_ram put_ram 0 0 mkdir_regs sys_asks _ sys_made r' Hr (or_introl eq_refl)).
  by apply (bool_decide_eq_true _).
Defined.
Definition no_call_regs : Registers := fun x => match x with RAX => 7 | _ => 0 end.
Lemma unknown_call_witness :
  syscall_handler 10 user_ram put_ram 0 0 no_call_regs sys_ready = Done (Resume (<[RAX := 2^64 - 38]> no_call_regs), sys_ready).
Proof. apply (unknown_call 10 user_ram put_ram 0 0 no_call_regs sys_ready). by apply (bool_decide_eq_true _). Defined.
Lemma kernel_invariant_witness :
  rtc (kernel_step 10 user_ram put_ram 0 0) sys_ready sys_made /\ sys_inv sys_made /\
  resolve (u_vfs (y_unix sys_made)) "/tmp/a" = 9.
Proof.
  destruct mkdir_done as [res Hres].
  assert (rtc (kernel_step 10 user_ram put_ram 0 0) sys_ready sys_made) as Hr.
  { apply (rtc_l _ _ sys_asks); [apply ks_user|].
    exact (rtc_once _ _ (ks_syscall 10 user_ram put_ram 0 0 sys_asks mkdir_regs res sys_made mkdir_names Hres)). }
  split; [exact Hr|]. split; [|by vm_compute].
  refine (kernel_invariant 10 user_ram put_ram 0 0 _ sys_ready sys_made sys_ready_inv Hr). intros p bs y. by eexists.
Defined.
