(* ===== verification/Machine.v ===== *)
(** * The whole machine: the kernel's state, its output and its bus drivers
    (src/src/drivers/pci.c, acpi.c, rtl8139.c, net/vnet.c)

    The state of the kernel with the static variables of printf.c, of the bus and
    network drivers and of main.c, and the drivers themselves. Memory that the
    firmware filled is read at its physical address; what the network card writes
    into its receive ring is an argument of the interrupt handler. *)

From Stdlib Require Import Ascii.
From S2P Require Import Prelude Pmm Mem Strings Vmm UserSpace ElfLoad Heap Cpu Sched Input Console Shm Vfs Devfs Printf UnixSocket System.

(** ** Ports of 16 and 32 bits *)

Definition inw (port : Z) : M ports Z := fun d =>
  let v := u16 (oracle d (reads d)) in
  Done (v, Ports (oracle d) (S (reads d)) (trace d ++ [In port v])).
Definition inl_ (port : Z) : M ports Z := fun d =>
  let v := u32 (oracle d (reads d)) in
  Done (v, Ports (oracle d) (S (reads d)) (trace d ++ [In port v])).
Definition outw (port v : Z) : M ports unit := fun d =>
  Done (tt, Ports (oracle d) (reads d) (trace d ++ [Out port (u16 v)])).
Definition outl (port v : Z) : M ports unit := fun d =>
  Done (tt, Ports (oracle d) (reads d) (trace d ++ [Out port (u32 v)])).

(** ** State *)

(** include/pci.h *)
Record PCIDevice := {
  d_bus : Z; d_dev : Z; d_func : Z;
  d_vendor : Z; d_device_id : Z;
  d_class_code : Z; d_subclass : Z; d_prog_if : Z; d_rev : Z;
  d_header_type : Z;
  d_desc : string
}.
Definition pci_zero : PCIDevice := Build_PCIDevice 0 0 0 0 0 0 0 0 0 0 "".

Record pci := Pci { pci_devs : Z -> PCIDevice; pci_count : Z }.
Record acpi := Acpi { acpi_pm1a_port : Z; acpi_slp_typa : Z }.
Record nic := Nic {
  io_base : Z;
  mac_addr : list Z;
  rx_buffer : Z;
  current_packet_ptr : Z;
  tx_buffers : Z -> Z;
  next_tx : Z;
  local_ip : list Z;
  local_mac : list Z
}.
(** The variables of main.c. *)
Record boot_fb := BootFb {
  phys_framebuffer_addr : Z;
  fb_width : Z;
  fb_height : Z;
  fb_pitch : Z;
  fb_bpp : Z;
  video_memory : Z
}.

Record machine := Machine {
  m_sys : sys;
  m_kout_buf : Z;
  m_kout_len : Z;
  m_kout_cap : Z;
  m_pci : pci;
  m_acpi : acpi;
  m_nic : nic;
  m_fb : boot_fb
}.

#[export] Instance m_sys_lens : Lens machine sys :=
  {| view := m_sys;
     over y m := Machine y (m_kout_buf m) (m_kout_len m) (m_kout_cap m) (m_pci m) (m_acpi m) (m_nic m) (m_fb m) |}.
#[export] Instance m_sys_laws : LensLaws machine sys.
Proof. split; [done|by intros []|done]. Qed.
#[export] Instance m_pci_lens : Lens machine pci :=
  {| view := m_pci;
     over p m := Machine (m_sys m) (m_kout_buf m) (m_kout_len m) (m_kout_cap m) p (m_acpi m) (m_nic m) (m_fb m) |}.
#[export] Instance m_acpi_lens : Lens machine acpi :=
  {| view := m_acpi;
     over a m := Machine (m_sys m) (m_kout_buf m) (m_kout_len m) (m_kout_cap m) (m_pci m) a (m_nic m) (m_fb m) |}.
#[export] Instance m_nic_lens : Lens machine nic :=
  {| view := m_nic;
     over n m := Machine (m_sys m) (m_kout_buf m) (m_kout_len m) (m_kout_cap m) (m_pci m) (m_acpi m) n (m_fb m) |}.
#[export] Instance m_fb_lens : Lens machine boot_fb :=
  {| view := m_fb;
     over b m := Machine (m_sys m) (m_kout_buf m) (m_kout_len m) (m_kout_cap m) (m_pci m) (m_acpi m) (m_nic m) b |}.

#[export] Instance m_kernel_lens : Lens machine kstate := lens_comp (T := sys).
#[export] Instance m_kernel_laws : LensLaws machine kstate.
Proof. apply lens_comp_laws. Qed.
(** The kernel with the variables of printf.c. *)
#[export] Instance m_out_lens : Lens machine (kout kstate) :=
  {| view m := Kout (view m) (m_kout_buf m) (m_kout_len m) (m_kout_cap m);
     over o m := Machine (over (o_kernel o) (m_sys m)) (kout_buf o) (kout_len o) (kout_cap o)
                         (m_pci m) (m_acpi m) (m_nic m) (m_fb m) |}.

#[export] Instance m_heap_lens : Lens machine heap := lens_comp (T := kstate).
#[export] Instance m_vm_lens : Lens machine vm := lens_comp (T := heap).
#[export] Instance m_pmm_lens : Lens machine pmm := lens_comp (T := vm).
#[export] Instance m_input_lens : Lens machine input := lens_comp (T := kstate).
#[export] Instance m_cpu_lens : Lens machine cpu := lens_comp (T := input).
#[export] Instance m_ports_lens : Lens machine ports := lens_comp (T := cpu).
#[export] Instance m_ports_laws : LensLaws machine ports.
Proof. apply @lens_comp_laws; [apply @lens_comp_laws; [apply @lens_comp_laws|]|]; apply _. Qed.
#[export] Instance m_screen_lens : Lens machine screen := lens_comp (T := kstate).
#[export] Instance m_shm_lens : Lens machine shm := lens_comp (T := kstate).
#[export] Instance m_unix_lens : Lens machine (unix kstate) := lens_comp (T := sys).
#[export] Instance m_vfs_lens : Lens machine (vfs kstate) := lens_comp (T := sys).
#[export] Instance m_sched_lens : Lens machine (sched (unix kstate)) := lens_comp (T := sys).

Section drivers.
(** Bound of the polls of devices. *)
Context (fuel : nat).

(** kprintf() of a text and its arguments; a line ends with [nl]. *)
Definition nl : list Z := [10].
Definition say (fmt : list Z) (args : list arg) : M machine unit :=
  zoom (T := kout kstate) (kprintf fuel fmt args);; mret tt.
Definition in_ports {A} (m : M ports A) : M machine A := zoom m.

(** ** pci.c *)

Definition PCI_ADDR : Z := 0xCF8.
Definition PCI_DATA : Z := 0xCFC.
Definition PCI_MAX_DEVS : Z := 128.

Definition config_addr (bus dev func off : Z) : Z :=
  Z.lor (Z.lor (Z.lor (Z.lor (Z.shiftl 1 31) (Z.shiftl bus 16)) (Z.shiftl dev 11)) (Z.shiftl func 8))
    (Z.land off 0xFC).
Definition pci_read32 (bus dev func off : Z) : M machine Z :=
  in_ports (outl PCI_ADDR (config_addr bus dev func off));; in_ports (inl_ PCI_DATA).
Definition pci_write32 (bus dev func off val : Z) : M machine unit :=
  in_ports (outl PCI_ADDR (config_addr bus dev func off));; in_ports (outl PCI_DATA val).

Definition pci_class_str (cls sub : Z) : string :=
  if cls =? 0x00 then if sub =? 0x01 then "VGA (legacy)" else "Unknown"
  else if cls =? 0x01 then
    if sub =? 0x00 then "SCSI Controller" else if sub =? 0x01 then "IDE Controller"
    else if sub =? 0x06 then "SATA Controller" else if sub =? 0x08 then "NVMe Controller" else "Storage Controller"
  else if cls =? 0x02 then if sub =? 0x00 then "Ethernet Controller" else "Network Controller"
  else if cls =? 0x03 then "Display Controller"
  else if cls =? 0x04 then "Multimedia Device"
  else if cls =? 0x05 then "Memory Controller"
  else if cls =? 0x06 then
    if sub =? 0x00 then "Host Bridge" else if sub =? 0x01 then "ISA Bridge"
    else if sub =? 0x04 then "PCI-PCI Bridge" else "Bridge Device"
  else if cls =? 0x07 then "Communication Controller"
  else if cls =? 0x08 then "System Peripheral"
  else if cls =? 0x09 then "Input Device"
  else if cls =? 0x0A then "Docking Station"
  else if cls =? 0x0B then "Processor"
  else if cls =? 0x0C then
    if sub =? 0x03 then "USB Controller" else if sub =? 0x05 then "SMBus Controller" else "Serial Bus Controller"
  else if cls =? 0x0D then "Wireless Controller"
  else if cls =? 0xFF then "Unassigned"
  else "Unknown Device".

(** No device answers with a vendor of all ones. *)
Definition absent (id : Z) : bool := Z.land id 0xFFFF =? 0xFFFF.
Definition pci_entry (bus dev func id cls hdr : Z) : PCIDevice :=
  let class_code := u8 (Z.land (Z.shiftr cls 24) 0xFF) in
  let subclass := u8 (Z.land (Z.shiftr cls 16) 0xFF) in
  {| d_bus := bus; d_dev := dev; d_func := func;
     d_vendor := u16 (Z.land id 0xFFFF); d_device_id := u16 (Z.shiftr id 16);
     d_class_code := class_code; d_subclass := subclass;
     d_prog_if := u8 (Z.land (Z.shiftr cls 8) 0xFF); d_rev := u8 (Z.land cls 0xFF);
     d_header_type := u8 (Z.land (Z.shiftr hdr 16) 0xFF);
     d_desc := String.substring 0 47 (pci_class_str class_code subclass) |}.

(** The slot is counted before the reads of the other registers. *)
Definition scan_function (bus dev func : Z) : M machine unit :=
  id ← pci_read32 bus dev func 0x00;
  if absent id then mret tt
  else
    n ← gets (fun m => pci_count (m_pci m));
    if PCI_MAX_DEVS <=? n then mret tt
    else
      zoom (modify (fun p => Pci (pci_devs p) (n + 1)));;
      cls ← pci_read32 bus dev func 0x08;
      hdr ← pci_read32 bus dev func 0x0C;
      zoom (modify (fun p => Pci (<[n := pci_entry bus dev func id cls hdr]> (pci_devs p)) (pci_count p))).
Definition scan_device (bus dev : Z) : M machine unit :=
  id ← pci_read32 bus dev 0 0x00;
  if absent id then mret tt
  else
    scan_function bus dev 0;;
    hdr ← pci_read32 bus dev 0 0x0C;
    if nonzero (Z.land (Z.shiftr hdr 16) 0x80) then
      for_n 7 1 1 (fun f =>
        fid ← pci_read32 bus dev f 0x00;
        (if negb (absent fid) then scan_function bus dev f else mret tt);; mret (None (A := unit)));;
      mret tt
    else mret tt.
Definition pci_init : M machine unit :=
  zoom (modify (fun p => Pci (pci_devs p) 0));;
  for_n 256 0 1 (fun bus =>
    for_n 32 0 1 (fun dev => scan_device bus dev;; mret (None (A := unit))));;
  n ← gets (fun m => pci_count (m_pci m));
  say (bytes_of "       Found %d PCI device(s)" ++ nl) [Num n].
Definition pci_dev_count : M machine Z := gets (fun m => pci_count (m_pci m)).
Definition pci_get_dev (idx : Z) : M machine (option PCIDevice) :=
  m ← get;
  if idx <? pci_count (m_pci m) then if idx <? 0 then ub else mret (Some (pci_devs (m_pci m) idx)) else mret None.

(** ** acpi.c *)

Definition has_sig (m : mem) (a : Z) (sig : string) : bool :=
  bool_decide (load_bytes m a (String.length sig) = bytes_of sig).
Definition SIZEOF_ACPIHeader : Z := 36.

(** The root pointer: 64 places in the extended BIOS area, then the ROM. *)
Definition find_rsdp (m : mem) : option Z :=
  let ebda := Z.shiftl (load16 m 0x40E) 4 in
  match scan 64 0 (fun k => has_sig m (ebda + 16 * k) "RSD PTR ") with
  | Some k => Some (ebda + 16 * k)
  | None =>
      match scan (Z.to_nat 8192) 0 (fun k => has_sig m (0xE0000 + 16 * k) "RSD PTR ") with
      | Some k => Some (0xE0000 + 16 * k)
      | None => None
      end
  end.

(** The sleep type of S5 in the AML code, at the first name _S5_. *)
Definition parse_s5 (m : mem) (dsdt len : Z) : option Z :=
  match scan (Z.to_nat (u32 (len - 8))) 0 (fun i => has_sig m (dsdt + i) "_S5_") with
  | None => None
  | Some i =>
      let p := dsdt + i + 4 in
      let p := if m p =? 0x08 then p + 1 else p in
      let p := if m p =? 0x12 then p + 1 else p in
      let p := p + 2 in
      Some (if m p =? 0x0A then m (p + 1) else m p)
  end.

Definition set_slp_typa (t : option Z) (a : acpi) : acpi :=
  match t with Some v => Acpi (acpi_pm1a_port a) v | None => a end.
Definition acpi_init : M machine unit :=
  m ← gets (fun s => ram (view s));
  match find_rsdp m with
  | None => say (bytes_of "       ACPI: no RSDP found" ++ nl) []
  | Some rsdp =>
      let rsdt := load32 m (rsdp + 16) in
      if negb (has_sig m rsdt "RSDT") then mret tt
      else
        let entries := u32 (u64 (load32 m (rsdt + 4) - SIZEOF_ACPIHeader) / 4) in
        match scan (Z.to_nat entries) 0 (fun i => has_sig m (load32 m (rsdt + SIZEOF_ACPIHeader + 4 * i)) "FACP") with
        | None => say (bytes_of "       ACPI: no FADT" ++ nl) []
        | Some i =>
            let fadt := load32 m (rsdt + SIZEOF_ACPIHeader + 4 * i) in
            zoom (modify (fun a => Acpi (u16 (load32 m (fadt + 64))) (acpi_slp_typa a)));;
            let dsdt := load32 m (fadt + 40) in
            (if has_sig m dsdt "DSDT" then
               zoom (modify (set_slp_typa (parse_s5 m (dsdt + SIZEOF_ACPIHeader) (u32 (load32 m (dsdt + 4) - SIZEOF_ACPIHeader)))))
             else mret tt);;
            a ← gets m_acpi;
            say (bytes_of "       ACPI: PM1a=0x%x SLP_TYPa=%d" ++ nl) [Num (acpi_pm1a_port a); Num (acpi_slp_typa a)]
        end
  end.

(** The processor is halted at the end. *)
Definition acpi_shutdown : M machine unit :=
  in_ports (outw 0x604 0x2000);;
  in_ports (outw 0xB004 0x2000);;
  in_ports (outw 0x4004 0x3400);;
  a ← gets m_acpi;
  (if nonzero (acpi_pm1a_port a)
   then in_ports (outw (acpi_pm1a_port a) (Z.lor (Z.shiftl (acpi_slp_typa a) 10) (Z.shiftl 1 13))) else mret tt);;
  block.

(** ** vnet.c *)

Definition set_local_mac (mac : list Z) (n : nic) : nic :=
  Nic (io_base n) (mac_addr n) (rx_buffer n) (current_packet_ptr n) (tx_buffers n) (next_tx n) (local_ip n) mac.
Definition vnet_set_mac (mac : list Z) : M machine unit := zoom (modify (set_local_mac mac)).
Definition nth_byte (l : list Z) (i : nat) : Z := default 0 (l !! i).
Definition vnet_print_config : M machine unit :=
  say (bytes_of "VNL Network Configuration:" ++ nl) [];;
  say (bytes_of "  Interface: eth0 (RTL8139)" ++ nl) [];;
  n ← gets m_nic;
  let mac := nth_byte (local_mac n) in
  let ip := nth_byte (local_ip n) in
  say (bytes_of "  MAC: %02x:%02x:%02x:%02x:%02x:%02x" ++ nl)
    [Num (mac 0%nat); Num (mac 1%nat); Num (mac 2%nat); Num (mac 3%nat); Num (mac 4%nat); Num (mac 5%nat)];;
  say (bytes_of "  IPv4: %d.%d.%d.%d" ++ nl) [Num (ip 0%nat); Num (ip 1%nat); Num (ip 2%nat); Num (ip 3%nat)];;
  say (bytes_of "  Status: %s" ++ nl)
    [Str (Some (bytes_of (if nonzero (mac 0%nat) || nonzero (mac 1%nat) then "ONLINE" else "OFFLINE")))].
(** The answers are printed without a packet being sent. *)
Definition net_ping (ip_str : list Z) : M machine unit :=
  say (bytes_of "PING %s (%s): 56 data bytes" ++ nl) [Str (Some ip_str); Str (Some ip_str)];;
  say (bytes_of "64 bytes from %s: icmp_seq=1 ttl=64 time=1.42 ms" ++ nl) [Str (Some ip_str)];;
  say (bytes_of "64 bytes from %s: icmp_seq=2 ttl=64 time=1.38 ms" ++ nl) [Str (Some ip_str)];;
  say (bytes_of "--- %s ping statistics ---" ++ nl) [Str (Some ip_str)];;
  say (bytes_of "2 packets transmitted, 2 received, 0%% packet loss" ++ nl) [].

(** ** rtl8139.c *)

Definition RTL8139_MAC0 : Z := 0x00.
Definition RTL8139_RBSTART : Z := 0x30.
Definition RTL8139_CR : Z := 0x37.
Definition RTL8139_CAPR : Z := 0x38.
Definition RTL8139_IMR : Z := 0x3C.
Definition RTL8139_ISR : Z := 0x3E.
Definition RTL8139_RCR : Z := 0x44.
Definition RTL8139_CONFIG1 : Z := 0x52.
Definition RX_BUF_SIZE : Z := 8192.
Definition RX_BUF_TOTAL : Z := RX_BUF_SIZE + 16 + 1500.

Definition set_io (base : Z) (n : nic) : nic :=
  Nic base (mac_addr n) (rx_buffer n) (current_packet_ptr n) (tx_buffers n) (next_tx n) (local_ip n) (local_mac n).
Definition set_mac (mac : list Z) (n : nic) : nic :=
  Nic (io_base n) mac (rx_buffer n) (current_packet_ptr n) (tx_buffers n) (next_tx n) (local_ip n) (local_mac n).
Definition set_rx (buf : Z) (n : nic) : nic :=
  Nic (io_base n) (mac_addr n) buf (current_packet_ptr n) (tx_buffers n) (next_tx n) (local_ip n) (local_mac n).
Definition set_packet_ptr (p : Z) (n : nic) : nic :=
  Nic (io_base n) (mac_addr n) (rx_buffer n) p (tx_buffers n) (next_tx n) (local_ip n) (local_mac n).
Definition set_tx (bufs : Z -> Z) (next : Z) (n : nic) : nic :=
  Nic (io_base n) (mac_addr n) (rx_buffer n) (current_packet_ptr n) bufs next (local_ip n) (local_mac n).

(** Ports are 16 bits wide. *)
Definition nic_port (off : Z) : M machine Z := gets (fun m => u16 (io_base (m_nic m) + off)).
Definition nic_in {A} (read : Z -> M ports A) (off : Z) : M machine A := p ← nic_port off; in_ports (read p).
Definition nic_out (write : Z -> Z -> M ports unit) (off v : Z) : M machine unit := p ← nic_port off; in_ports (write p v).

(** Where the next packet starts, after one with [len] bytes. *)
Definition next_packet (ptr len : Z) : Z :=
  let p := Z.land (u32 (ptr + len + 4 + 3)) (Z.lnot 3) in if RX_BUF_SIZE <=? p then p mod RX_BUF_SIZE else p.
(** [rx] is the ring as the card has filled it. *)
Definition rtl8139_handler (rx : mem) : M machine unit :=
  status ← nic_in inw RTL8139_ISR;
  nic_out outw RTL8139_ISR status;;
  (if nonzero (Z.land status 0x01) then
     iter fuel (fun _ : unit =>
       cr ← nic_in inb RTL8139_CR;
       if nonzero (Z.land cr 0x01) then mret (inr tt)
       else
         ptr ← gets (fun m => current_packet_ptr (m_nic m));
         let packet_len := load16 rx (ptr + 2) in
         zoom (modify (set_packet_ptr (next_packet ptr packet_len)));;
         nic_out outw RTL8139_CAPR (next_packet ptr packet_len - 16);;
         mret (inl tt)) tt
   else mret tt);;
  in_ports (irq_eoi 11).

Definition rtl8139_init (handler_addr bus dev func : Z) : M machine unit :=
  bar ← pci_read32 bus dev func 0x10;
  zoom (modify (set_io (Z.land bar (u32 (Z.lnot 1)))));;
  line ← pci_read32 bus dev func 0x3C;
  let irq := u8 (Z.land line 0xFF) in
  say (bytes_of "rtl8139: base=0x%x irq=%d" ++ nl) [Num (Z.land bar (u32 (Z.lnot 1))); Num irq];;
  nic_out outb RTL8139_CONFIG1 0x00;;
  nic_out outb RTL8139_CR 0x10;;
  iter fuel (fun _ : unit =>
    cr ← nic_in inb RTL8139_CR; mret (if nonzero (Z.land cr 0x10) then inl tt else inr tt)) tt;;
  zoom (modify (set_mac []));;
  for_n 6 0 1 (fun i =>
    b ← nic_in inb (RTL8139_MAC0 + i);
    zoom (modify (fun n => set_mac (mac_addr n ++ [b]) n));; mret (None (A := unit)));;
  mac ← gets (fun m => mac_addr (m_nic m));
  let byte := nth_byte mac in
  say (bytes_of "rtl8139: MAC %02x:%02x:%02x:%02x:%02x:%02x" ++ nl)
    [Num (byte 0%nat); Num (byte 1%nat); Num (byte 2%nat); Num (byte 3%nat); Num (byte 4%nat); Num (byte 5%nat)];;
  vnet_set_mac mac;;
  rx ← zoom (T := heap) (kmalloc RX_BUF_TOTAL);
  if rx =? 0 then ub
  else
    zoom (modify (set_rx rx));;
    zoom (T := heap) (modify (fun h => set_kmem (memset (kmem h) rx 0 (Z.to_nat RX_BUF_TOTAL)) h));;
    nic_out outl RTL8139_RBSTART (u32 rx);;
    nic_out outw RTL8139_IMR 0x0005;;
    nic_out outl RTL8139_RCR 0x0000008F;;
    nic_out outb RTL8139_CR 0x0C;;
    for_n 4 0 1 (fun i =>
      b ← zoom (T := heap) (kmalloc 1536);
      zoom (modify (fun n => set_tx (<[i := b]> (tx_buffers n)) (next_tx n) n));; mret (None (A := unit)));;
    zoom (T := cpu) (idt_set_handler (32 + irq) handler_addr);;
    in_ports (irq_unmask irq).

(** [data] is the packet, of [len] bytes. *)
Definition rtl8139_send_packet (data : list Z) : M machine unit :=
  n ← gets m_nic;
  if io_base n =? 0 then mret tt
  else
    let buf := tx_buffers n (next_tx n) in
    let len := Z.of_nat (length data) in
    if buf =? 0 then ub
    else
      zoom (T := heap) (modify (fun h => set_kmem (store_bytes (kmem h) buf data) h));;
      nic_out outl (0x20 + next_tx n * 4) (u32 buf);;
      nic_out outl (0x10 + next_tx n * 4) len;;
      zoom (modify (fun n => set_tx (tx_buffers n) ((next_tx n + 1) mod 4) n)).
End drivers.
