(* ===== verification/Boot.v ===== *)
(** * Boot (src/src/kernel/main.c, kernel/gui_env.c)

    kernel_main() up to the shell: what the boot loader left in memory is read, then
    every component is initialised in the order of the code. The invariant of the
    kernel holds when it is done, and so in every state that follows. *)

From Stdlib Require Import Ascii.
From S2P Require Import Prelude Pmm Mem Strings Vmm UserSpace ElfLoad Heap Cpu Sched Input Console Shm Vfs Devfs Printf VfsData VfsTree UnixSocket System Epoll Syscall KernelInv Machine.

(** What the linker puts into the kernel image: the files of the first file
    system, and the addresses of handlers and of the end of the image. *)
Record image := Image {
  vnl_x_elf : list Z;
  res_font_ttf : list Z;
  res_wallpaper_png : list Z;
  res_icon_files_png : list Z;
  res_icon_shell_png : list Z;
  res_icon_vibenet_png : list Z;
  res_icon_snake_png : list Z;
  res_icon_neovim_png : list Z;
  build_time : list Z;
  kernel_end : Z;
  tss_addr : Z;
  boot_stack_top : Z;
  isr_stub_table : Z -> Z;
  timer_irq_addr : Z;
  keyboard_irq_addr : Z;
  mouse_irq_addr : Z;
  nic_irq_addr : Z;
  syscall_addr : Z;
  timer_stub : Z;
  yield_stub : Z
}.

Section boot.
(** Bound of the polls of devices and of the walk over the boot information. *)
Context (fuel : nat) (img : image).
#[local] Instance devices : Devices kstate := kernel_devices fuel.

(** ** gui_env.c *)

Definition ensure_dir (path : string) : M (vfs kstate) unit :=
  r ← vfs_resolve path;
  if r <? 0 then vfs_mkdir path;; mret tt else mret tt.
Definition install (path : string) (data : list Z) : M (vfs kstate) unit :=
  fd ← vfs_open path (Z.lor (Z.lor VFS_O_WRITE VFS_O_CREATE) VFS_O_TRUNC);
  if 0 <=? fd then vfs_write fd data;; vfs_close fd;; mret tt else mret tt.
Definition gui_environment_init : M (vfs kstate) unit :=
  ensure_dir "/tmp";;
  ensure_dir "/var";;
  ensure_dir "/var/log";;
  ensure_dir "/etc";;
  ensure_dir "/usr";;
  ensure_dir "/usr/bin";;
  ensure_dir "/run";;
  install "/usr/bin/tinywl" (vnl_x_elf img);;
  install "/etc/vnl-gui.env" (bytes_of "VNL_GUI_ACTIVE=1" ++ nl ++ bytes_of "FRAMEBUFFER=/dev/fb0" ++ nl);;
  install "/usr/bin/gui" (bytes_of "#!/bin/sh" ++ nl ++ bytes_of "guiinfo" ++ nl);;
  install "/etc/font.ttf" (res_font_ttf img);;
  install "/etc/wallpaper.png" (res_wallpaper_png img);;
  install "/etc/icon_files.png" (res_icon_files_png img);;
  install "/etc/icon_shell.png" (res_icon_shell_png img);;
  install "/etc/icon_vibenet.png" (res_icon_vibenet_png img);;
  install "/etc/icon_snake.png" (res_icon_snake_png img);;
  install "/etc/icon_neovim.png" (res_icon_neovim_png img).

(** ** main.c: the boot information *)

Definition MB2_TAG_MEM : Z := 4.
Definition MB2_TAG_MMAP : Z := 6.
Definition MB1_MAGIC : Z := 0x2BADB002.

(** A walk over the tags at [mb]: [visit type size ptr] may stop it; tag sizes are
    rounded up to 8. A tag of size 0 never ends it. *)
Definition each_tag {R} (m : mem) (mb : Z) (round : Z -> Z -> Z) (visit : Z -> Z -> Z -> M machine (option R)) :
    M machine (option R) :=
  let stop := mb + load32 m mb in
  iter fuel (fun ptr =>
    if stop <=? ptr then mret (inr None)
    else
      let type := load32 m ptr in
      let size := load32 m (ptr + 4) in
      if type =? MB2_TAG_END then mret (inr None)
      else
        r ← visit type size ptr;
        match r with
        | Some v => mret (inr (Some v))
        | None => mret (inl (round ptr size))
        end) (mb + 8).
(** ALIGN_UP of a 32-bit size, and the rounding of the address. *)
Definition round_size (ptr size : Z) : Z := ptr + Z.land (u32 (size + 7)) (Z.lnot 7).
Definition round_addr (ptr size : Z) : Z := Z.land (ptr + size + 7) (Z.lnot 7).

Definition set_boot_fb (addr width height pitch bpp : Z) (b : boot_fb) : boot_fb :=
  BootFb addr width height pitch bpp (video_memory b).
Definition mb1_fb (m : mem) (mb : Z) : boot_fb -> boot_fb :=
  set_boot_fb (load64 m (mb + 88)) (load32 m (mb + 100)) (load32 m (mb + 104)) (load32 m (mb + 96)) (m (mb + 108)).
Definition mb2_fb (m : mem) (ptr : Z) : boot_fb -> boot_fb :=
  set_boot_fb (load64 m (ptr + 8)) (load32 m (ptr + 20)) (load32 m (ptr + 24)) (load32 m (ptr + 16)) (m (ptr + 28)).
(** The last framebuffer tag counts. *)
Definition read_fb_info (magic mb : Z) : M machine unit :=
  if mb =? 0 then mret tt
  else
    m ← gets (fun s => ram (view s));
    if magic =? MB1_MAGIC then
      if nonzero (Z.land (load32 m mb) (Z.shiftl 1 12)) then zoom (modify (mb1_fb m mb)) else mret tt
    else
      each_tag m mb round_addr (fun type _ ptr =>
        (if type =? MB2_TAG_FB then zoom (modify (mb2_fb m ptr)) else mret tt);; mret (None (A := unit)));;
      mret tt.

Definition reserve_entries (m : mem) (ptr : Z) (n : nat) : M machine unit :=
  for_n n 0 1 (fun i =>
    let e := ptr + 16 + 24 * i in
    (if negb (load32 m (e + 16) =? 1) then zoom (T := pmm) (pmm_reserve (load64 m e) (load64 m (e + 8))) else mret tt);;
    mret (None (A := unit)));;
  mret tt.
(** The number of entries is a signed int; an entry size of zero divides by zero. *)
Definition parse_mb2_mmap (mb : Z) : M machine unit :=
  m ← gets (fun s => ram (view s));
  each_tag m mb round_size (fun type size ptr =>
    if type =? MB2_TAG_MMAP then
      let entry_size := load32 m (ptr + 8) in
      if entry_size =? 0 then ub
      else reserve_entries m ptr (Z.to_nat (s32 (u32 (size - 16) / entry_size)));; mret (None (A := unit))
    else mret None);;
  mret tt.
Definition parse_mb2_memory (mb : Z) : M machine Z :=
  m ← gets (fun s => ram (view s));
  r ← each_tag m mb round_size (fun type _ ptr =>
    mret (if type =? MB2_TAG_MEM then Some (load32 m (ptr + 12) + 1024) else None));
  mret (match r with Some kb => kb | None => 128 * 1024 end).

(** The sum of the two sizes of a Multiboot 1 header is 32 bits wide. *)
Definition memory_kb (magic mb : Z) : M machine Z :=
  if mb =? 0 then mret (128 * 1024)
  else if magic =? MB1_MAGIC then
    m ← gets (fun s => ram (view s));
    mret (if nonzero (Z.land (load32 m mb) 1) then u32 (load32 m (mb + 4) + load32 m (mb + 8)) else 128 * 1024)
  else parse_mb2_memory mb.

(** ** main.c: the screen *)

Definition print_banner : M machine unit :=
  zoom (T := screen) (vga_set_color VGA_LGREEN VGA_BLACK);;
  say fuel (nl ++ bytes_of "  ____   ____  _   _   _  __  __" ++ nl
    ++ bytes_of " / ___| / ___|| \ | | | ||  \/  |" ++ nl
    ++ bytes_of " \___ \| |    |  \| | | || |\/| |" ++ nl
    ++ bytes_of "  ___) | |___ | |\  | | || |  | |" ++ nl
    ++ bytes_of " |____/ \____||_| \_| |_||_|  |_|" ++ nl ++ nl) [];;
  zoom (T := screen) (vga_set_color VGA_YELLOW VGA_BLACK);;
  say fuel (bytes_of "  Vibe Not Linux v0.3.0 - 64-bit kernel" ++ nl) [];;
  say fuel (bytes_of "  Built: " ++ build_time img ++ nl ++ nl) [];;
  zoom (T := screen) (vga_set_color VGA_LGREEN VGA_BLACK).

(** Stores through the mapped framebuffer. *)
Definition fill_screen (color : Z) : M machine unit :=
  b ← gets m_fb;
  if video_memory b =? 0 then mret tt
  else
    for_n (Z.to_nat (fb_height b)) 0 1 (fun y =>
      let row := video_memory b + u32 (y * fb_pitch b) in
      for_n (Z.to_nat (fb_width b)) 0 1 (fun x =>
        zoom (T := screen) (put_pixel (row + 4 * x) color);; mret (None (A := unit))));;
    mret tt.

Definition FB_VIRT : Z := 0xFFFFFFFFD0000000.
(** The bytes of the framebuffer under their new addresses. *)
Definition move_fb (virt phys : Z) (b : fbst) : fbst :=
  Fb (s_fb_ok b) (s_fb b) virt (fun a => fbmem b (a - virt + phys)) (fb_m_row b) (fb_m_col b).
Definition map_framebuffer : M machine unit :=
  b ← gets m_fb;
  if nonzero (phys_framebuffer_addr b) && (0 <? fb_height b) && (0 <? fb_pitch b) then
    let fb_size := u64 (fb_height b * fb_pitch b) in
    let phys_start := ALIGN_DOWN (phys_framebuffer_addr b) PAGE_SIZE in
    let phys_end := ALIGN_UP (u64 (phys_framebuffer_addr b + fb_size)) PAGE_SIZE in
    let map_size := u64 (phys_end - phys_start) in
    for_n (Z.to_nat ((map_size + (PAGE_SIZE - 1)) / PAGE_SIZE)) 0 PAGE_SIZE (fun offset =>
      zoom (T := vm) (vmm_map (u64 (FB_VIRT + offset)) (u64 (phys_start + offset)) VMM_FLAG_WRITE);;
      mret (None (A := unit)));;
    let virt := u64 (FB_VIRT + (phys_framebuffer_addr b - phys_start)) in
    zoom (modify (fun b => BootFb (phys_framebuffer_addr b) (fb_width b) (fb_height b) (fb_pitch b) (fb_bpp b) virt));;
    zoom (T := screen) (modify (set_fb (move_fb virt (phys_framebuffer_addr b))));;
    fill_screen 0x000000FF
  else mret tt.

(** ** main.c: kernel_main *)

Definition HEAP_START : Z := 0xFFFFC00000000000.
Definition step_message (s : string) : M machine unit := say fuel (bytes_of s ++ nl) [].

(** Steps 1 to 5: output, processor tables and frames. *)
Definition boot_memory (magic mb : Z) : M machine unit :=
  in_ports serial_init;;
  zoom (T := screen) vga_init;;
  read_fb_info magic mb;;
  step_message "[INIT] GDT...";;
  zoom (T := cpu) (gdt_init (tss_addr img) (boot_stack_top img));;
  step_message "[INIT] IDT...";;
  zoom (T := cpu) (idt_init (isr_stub_table img));;
  step_message "[INIT] IRQ/PIC...";;
  in_ports irq_init;;
  step_message "[INIT] PMM...";;
  mem_kb ← memory_kb magic mb;
  zoom (T := pmm) (pmm_init mem_kb);;
  (if nonzero mb && negb (magic =? MB1_MAGIC) then parse_mb2_mmap mb else mret tt);;
  let kern_phys_end := u64 (kernel_end img - 0xFFFFFFFF80000000) in
  zoom (T := pmm) (pmm_reserve 0x100000 (u64 (kern_phys_end - 0x100000)));;
  total ← zoom (T := pmm) pmm_total_pages;
  free ← zoom (T := pmm) pmm_free_pages;
  say fuel (bytes_of "       %llu MiB RAM detected (%llu free pages)" ++ nl)
    [Num (u64 (total * PAGE_SIZE) / (1024 * 1024)); Num free].

(** The framebuffer, virtual memory and the heap. *)
Definition boot_virtual (magic mb : Z) : M machine unit :=
  step_message "[INIT] Framebuffer...";;
  m ← gets (fun s => ram (view s));
  ok ← (if mb =? 0 then mret false else zoom (T := screen) (fb_multiboot_init fuel m magic mb));
  (if ok : bool then
     zoom (T := screen) fb_console_reset;;
     say fuel (bytes_of "       linear framebuffer OK (mirrored for VNC)" ++ nl) []
   else say fuel (bytes_of "       (none - text console only)" ++ nl) []);;
  print_banner;;
  step_message "[INIT] VMM...";;
  zoom (T := vm) vmm_init;;
  map_framebuffer;;
  step_message "[INIT] Heap...";;
  zoom (T := heap) (heap_init HEAP_START (4 * PAGE_SIZE)).

(** Steps 8 and 9: the timer and the input devices. *)
Definition boot_input : M machine unit :=
  step_message "[INIT] Timer (1000 Hz)...";;
  zoom (T := cpu) (timer_init (timer_irq_addr img) 1000);;
  step_message "[INIT] Keyboard...";;
  zoom (T := input) (keyboard_init (keyboard_irq_addr img));;
  step_message "[INIT] Mouse...";;
  zoom (T := input) (mouse_init (mouse_irq_addr img)).

(** Step 10: files, devices, sockets and the environment. *)
Definition boot_files : M machine unit :=
  step_message "[INIT] VFS (ramfs)...";;
  zoom (T := vfs kstate) vfs_init;;
  step_message "[INIT] devfs (/dev/fb0, /dev/null)...";;
  zoom (T := vfs kstate) devfs_init;;
  zoom (T := vfs kstate) (vfs_open_std "/dev/ttyS0" VFS_O_READ 0);;
  zoom (T := vfs kstate) (vfs_open_std "/dev/ttyS0" VFS_O_WRITE 1);;
  zoom (T := vfs kstate) (vfs_open_std "/dev/ttyS0" VFS_O_WRITE 2);;
  step_message "[INIT] AF_UNIX sockets + GUI environment layout...";;
  zoom (T := shm) shm_init;;
  zoom (T := unix kstate) unix_socket_init;;
  zoom (T := vfs kstate) gui_environment_init.

(** Steps 11 and 12: the buses and the first network card. *)
Definition boot_network : M machine unit :=
  step_message "[INIT] Networking (RTL8139)...";;
  n ← pci_dev_count;
  for_n (Z.to_nat n) 0 1 (fun i =>
    d ← pci_get_dev i;
    match d with
    | None => ub
    | Some d =>
        if (d_vendor d =? 0x10EC) && (d_device_id d =? 0x8139) then
          rtl8139_init fuel (nic_irq_addr img) (d_bus d) (d_dev d) (d_func d);; mret (Some tt)
        else mret None
    end);;
  mret tt.
Definition boot_buses : M machine unit :=
  step_message "[INIT] PCI...";;
  pci_init fuel;;
  step_message "[INIT] ACPI...";;
  acpi_init fuel;;
  boot_network.

(** Steps 13 to 15: system calls, tasks, interrupts. *)
Definition boot_tasks : M machine unit :=
  step_message "[INIT] Syscall (INT 0x80)...";;
  zoom (T := sys) (syscall_init (syscall_addr img));;
  step_message "[INIT] Scheduler...";;
  root ← gets (fun s => cr3 (view s));
  zoom (T := sched (unix kstate)) (sched_init (timer_stub img) (yield_stub img) root);;
  step_message "[INIT] Enabling interrupts...";;
  say fuel (bytes_of "[INIT] All subsystems ready." ++ nl ++ nl) [].

Definition boot_kernel (magic mb : Z) : M machine unit :=
  boot_memory magic mb;;
  boot_virtual magic mb;;
  boot_input;;
  boot_files;;
  boot_buses;;
  boot_tasks.
(** [shell_run] is the interactive shell, which does not return. *)
Definition kernel_main (shell_run : M machine unit) (magic mb : Z) : M machine unit :=
  boot_kernel magic mb;;
  shell_run;;
  panic "kernel_main returned!".
End boot.

(** ** Counting the nodes made *)

Lemma wlp_both {S A} (m : M S A) (s : S) (P Q : A -> S -> Prop) : wlp m s P -> wlp m s Q -> wlp m s (fun a s' => P a s' /\ Q a s').
Proof. intros HP HQ a s' Hr. split; [by apply HP|by apply HQ]. Qed.

Section counting.
Context {St : Type} `{Allocator St} `{Devices St}.
Implicit Types s : vfs St.

(** The next inode number is at most [n]. *)
Definition below (n : Z) s : Prop := 0 <= next_inode s <= n.
Definition within (n : Z) s : Prop := vfs_ok s /\ below n s.

Lemma new_node_below n s p mk : n + 1 < 2^31 -> below n s -> wlp (new_node p mk) s (fun _ s' => below (n + 1) s').
Proof.
  unfold below. intros Hn Hs. unfold new_node. wlp_steps; try lia. all: cbn [next_inode set_node set_nodes set_next]; try lia.
  rewrite u32_small; lia.
Qed.
Lemma below_mono n n' s : n <= n' -> below n s -> below n' s.
Proof. unfold below. lia. Qed.
Lemma node_maker_below {A} n s path mk (f : option Z -> A) (g : Z -> string -> bool) a : n + 1 < 2^31 -> below n s ->
  wlp ('(parent, leaf) ← resolve_parent path;
       if g parent leaf then mret a else k ← new_node parent (mk parent leaf); mret (f k)) s (fun _ s' => below (n + 1) s').
Proof.
  intros Hn Hs. apply wlp_bind. unfold resolve_parent, vfs_resolve.
  assert (forall p l, wlp (if g p l then mret a else k ← new_node p (mk p l); mret (f k)) s (fun _ s' => below (n + 1) s')) as Hk.
  { intros p l. wlp_step; [apply wlp_ret; unfold below in *; lia|]. apply wlp_bind.
    eapply wlp_mono; [by apply new_node_below|]. intros k s' Hs'. by apply wlp_ret. }
  destruct (split_last path) as [[before leaf]|]; apply wlp_bind, wlp_gets, wlp_ret, Hk.
Qed.
Lemma maker_below n s path mk : n + 1 < 2^31 -> below n s -> wlp (make_node path mk) s (fun _ s' => below (n + 1) s').
Proof.
  intros Hn Hs. unfold make_node, vfs_resolve. do 2 wlp_step. cbn beta. wlp_step; [apply wlp_ret; unfold below in *; lia|].
  exact (node_maker_below n s path (fun p l => mk p l) _ (fun p l => (p <? 0) || String.eqb l "") (-1) Hn Hs).
Qed.
Lemma open_inode_below n s path flags : n + 2 < 2^31 -> below n s -> wlp (open_inode path flags) s (fun _ s' => below (n + 2) s').
Proof.
  intros Hn Hs. unfold open_inode. apply wlp_bind. eapply (wlp_mono _ _ (fun _ s' => below (n + 1) s')).
  - assert (below (n + 1) s) as Hs1 by (unfold below in *; lia). destruct (String.prefix _ path); [|unfold vfs_resolve; by wlp_steps].
    apply wlp_bind, wlp_zoom_st. intros a t. cbn beta. wlp_step; [by apply wlp_ret|]. unfold vfs_resolve.
    do 2 wlp_step. cbn beta. wlp_step; [by apply wlp_ret|]. wlp_step; [by apply wlp_ret|]. apply wlp_bind.
    eapply wlp_mono; [exact (maker_below n (Vfs t (nodes s) (next_inode s) (vfs_cwd s) (fds s)) path _ ltac:(lia) Hs)|].
    intros r s' Hs'. by wlp_steps.
  - intros [x|e] s' Hs'; [|apply wlp_ret; unfold below in *; lia]. wlp_step; [apply wlp_ret; unfold below in *; lia|].
    wlp_step; [apply wlp_ret; unfold below in *; lia|]. replace (n + 2) with (n + 1 + 1) by lia.
    exact (node_maker_below (n + 1) s' path (fun p l => plain_node VFS_FILE p l) _ (fun p _ => p <? 0) (inr (-1)) ltac:(lia) Hs').
Qed.
Lemma open_below n s path flags : n + 2 < 2^31 -> below n s -> wlp (vfs_open path flags) s (fun _ s' => below (n + 2) s').
Proof.
  intros Hn Hs. unfold vfs_open. do 2 wlp_step. assert (below (n + 2) s) as Hs1 by (unfold below in *; lia).
  wlp_step; [|by apply wlp_ret]. apply wlp_bind. eapply wlp_mono; [by apply open_inode_below|].
  intros [x|e] s' Hs'; [|by apply wlp_ret]. by wlp_steps.
Qed.
Lemma write_below n fd data : preserves (below n) (vfs_write (St:=St) fd data).
Proof. intros s Hs. unfold vfs_write. by wlp_steps. Qed.

(** A computation that makes at most [a] nodes in a well-formed tree. *)
Definition makes (a : Z) {A} (m : M (vfs St) A) : Prop :=
  forall n s, n + a < 2^31 -> within n s -> wlp m s (fun _ s' => within (n + a) s').
Lemma makes_bind {A B} a b (m : M (vfs St) A) (f : A -> M (vfs St) B) : 0 <= b -> makes a m -> (forall x, makes b (f x)) -> makes (a + b) (m ≫= f).
Proof.
  intros Hb Hm Hf n s Hn Hs. apply wlp_bind. eapply wlp_mono; [apply (Hm n); [lia|done]|].
  intros x s' Hs'. rewrite Z.add_assoc. apply Hf; [lia|done].
Qed.
Lemma makes_ret {A} a (x : A) : 0 <= a -> makes a (mret x).
Proof. intros Ha n s Hn [Hs Hb]. apply wlp_ret. split; [done|]. by apply (below_mono n); [lia|]. Qed.
Lemma makes_none {A} (m : M (vfs St) A) : preserves vfs_ok m -> (forall n, preserves (below n) m) -> makes 0 m.
Proof. intros Hm Hb n s _ [Hs Hn]. rewrite Z.add_0_r. apply wlp_both; [by apply Hm|by apply Hb]. Qed.
Lemma makes_one path mk : (forall cwd, creatable cwd path) ->
  (forall p d leaf x, 0 <= d < 2^31 -> p = d -> let k := mk p leaf x in n_used k = true /\ n_inode k = x /\ n_parent k = d /\ n_name k = leaf) ->
  makes 1 (make_node path mk).
Proof.
  intros Hc Hmk n s Hn [Hs Hb]. apply wlp_both; [|by apply maker_below].
  eapply wlp_mono; [apply make_node_ok; [done|unfold below in Hb; lia|done|]|].
  - intros d leaf Hd. apply Hmk; [|done]. destruct Hs as [Hok _]. pose proof (to_next _ _ Hok). lia.
  - intros r s' (Hs' & _). exact Hs'.
Qed.
Lemma makes_open path flags : (forall cwd, creatable cwd path) -> makes 2 (vfs_open path flags).
Proof. intros Hc n s Hn [Hs Hb]. apply wlp_both; [apply open_ok; [done|unfold below in Hb; lia|done]|by apply open_below]. Qed.

(** Bounds of parts, for the steps of the boot. *)
Lemma makes_mono {A} a a' (m : M (vfs St) A) : a <= a' -> makes a m -> makes a' m.
Proof.
  intros Ha Hm n s Hn Hs. eapply wlp_mono; [apply (Hm n); [lia|done]|]. intros x s' [Hs' Hb]. split; [done|].
  by apply (below_mono (n + a)); [lia|].
Qed.
Lemma makes_keep {A B} a (m : M (vfs St) A) (f : A -> M (vfs St) B) : 0 <= a -> makes 0 m -> (forall x, makes a (f x)) -> makes a (m ≫= f).
Proof. intros Ha Hm Hf. by apply (makes_bind 0 a). Qed.
Lemma makes_mkdir path : (forall cwd, creatable cwd path) -> makes 1 (vfs_mkdir (St:=St) path).
Proof.
  intros Hc. apply (makes_one path (plain_node VFS_DIR) Hc). intros p d leaf x Hd ->. apply plain_node_fields. lia.
Qed.
Lemma makes_mknod path major minor : (forall cwd, creatable cwd path) -> makes 1 (vfs_mknod_chr (St:=St) path major minor).
Proof.
  intros Hc. apply (makes_one path (fun parent leaf inode =>
    Build_VFSNode true VFS_CHR inode (u32 parent) (u16 major) (u16 minor) leaf 0 0 0) Hc).
  intros p d leaf x Hd ->. cbn. rewrite u32_small; [done|lia].
Qed.
Lemma makes_call c {A} (m : M (vfs St) A) : creates c = false -> (forall s, run c s = (m;; mret tt) s) ->
  (forall n, preserves (below n) m) -> makes 0 m.
Proof. intros Hc Hm. apply makes_none. by apply (fs_call c). Qed.
Lemma makes_resolve path : makes 0 (vfs_resolve (St:=St) path).
Proof. apply makes_none; [|intros n]; apply preserves_gets. Qed.
Lemma makes_open_std path flags fd : makes 0 (vfs_open_std (St:=St) path flags fd).
Proof. apply (makes_call (OpenStd path flags fd)); [done..|]. intros n s Hs. unfold vfs_open_std, vfs_resolve. by wlp_steps. Qed.
Lemma makes_write fd data : makes 0 (vfs_write (St:=St) fd data).
Proof. apply (makes_call (Write fd data)); [done..|]. intros n. apply write_below. Qed.
Lemma makes_close fd : makes 0 (vfs_close (St:=St) fd).
Proof. apply (makes_call (Close fd)); [done..|]. intros n s Hs. unfold vfs_close. by wlp_steps. Qed.
End counting.

(** ** What the initialisations make *)

Section stages.
Context (fuel : nat) (img : image).
#[local] Instance stage_devices : Devices kstate := kernel_devices fuel.

(** A path of fixed names can be made from every directory. *)
Ltac fixed_path ns leaf := intros cwd; exact (creatable_abs cwd ns leaf eq_refl eq_refl).
(** The first step makes [a] nodes and the rest [b]. *)
Ltac first_makes a b t := apply (makes_bind a b); [lia|t|intros _].
Ltac root_dir leaf := apply makes_mkdir; fixed_path (@nil string) leaf.

Lemma init_within s : vfs_cwd s = VFS_INODE_ROOT -> wlp (vfs_init (St:=kstate)) s (fun _ s' => within 9 s').
Proof.
  intros Hcwd. unfold vfs_init. do 4 (apply wlp_bind, wlp_modify).
  match goal with |- wlp _ ?s1 _ => assert (within 1 s1) as Hs end.
  { split; [|split; cbn; lia]. unfold set_node, set_nodes, set_next, set_fds. cbn. rewrite Hcwd. apply root_ok. }
  match goal with |- wlp ?m ?s1 _ => assert (makes 8 m) as Hm; [|exact (Hm 1 s1 eq_refl Hs)] end.
  first_makes 1 7 ltac:(root_dir "bin"%string). first_makes 1 6 ltac:(root_dir "etc"%string).
  first_makes 1 5 ltac:(root_dir "tmp"%string). first_makes 1 4 ltac:(root_dir "home"%string).
  first_makes 1 3 ltac:(root_dir "usr"%string).
  first_makes 1 2 ltac:(apply makes_mkdir; fixed_path ["usr"%string] "bin"%string).
  first_makes 1 1 ltac:(root_dir "var"%string).
  first_makes 1 0 ltac:(apply makes_mkdir; fixed_path ["var"%string] "cache"%string).
  by apply makes_ret.
Qed.
Lemma devfs_makes : makes 8 (devfs_init (St:=kstate)).
Proof.
  unfold devfs_init. apply makes_keep; [lia|apply makes_resolve|intros r].
  first_makes 1 7 ltac:(destruct (r <? 0); [root_dir "dev"%string|by apply makes_ret]).
  first_makes 1 6 ltac:(apply makes_mkdir; fixed_path ["dev"%string] "shm"%string).
  first_makes 1 5 ltac:(apply makes_mkdir; fixed_path ["dev"%string] "input"%string).
  first_makes 1 4 ltac:(apply makes_mknod; fixed_path ["dev"%string] "fb0"%string).
  first_makes 1 3 ltac:(apply makes_mknod; fixed_path ["dev"%string] "null"%string).
  first_makes 1 2 ltac:(apply makes_mknod; fixed_path ["dev"; "input"]%string "keyboard"%string).
  first_makes 1 1 ltac:(apply makes_mknod; fixed_path ["dev"; "input"]%string "mouse"%string).
  first_makes 1 0 ltac:(apply makes_mknod; fixed_path ["dev"%string] "ttyS0"%string).
  by apply makes_ret.
Qed.
Lemma ensure_makes ns leaf : forallb component_b (ns ++ [leaf]) = true -> bool_decide (String.length (rel_path ns) < 255)%nat = true ->
  makes 1 (ensure_dir (abs_path (ns ++ [leaf]))).
Proof.
  intros Hc Hl. unfold ensure_dir. apply makes_keep; [lia|apply makes_resolve|intros r]. destruct (r <? 0); [|by apply makes_ret].
  first_makes 1 0 ltac:(by apply makes_mkdir; intros cwd; apply creatable_abs). by apply makes_ret.
Qed.
Lemma install_makes ns leaf data : forallb component_b (ns ++ [leaf]) = true -> bool_decide (String.length (rel_path ns) < 255)%nat = true ->
  makes 2 (install fuel (abs_path (ns ++ [leaf])) data).
Proof.
  intros Hc Hl. unfold install. apply (makes_bind 2 0); [lia|by apply makes_open; intros cwd; apply creatable_abs|intros fd].
  destruct (0 <=? fd); [|by apply makes_ret]. apply makes_keep; [lia|apply makes_write|intros _].
  apply makes_keep; [lia|apply makes_close|intros _]. by apply makes_ret.
Qed.
Lemma environment_makes : makes 27 (gui_environment_init fuel img).
Proof.
  unfold gui_environment_init.
  first_makes 1 26 ltac:(exact (ensure_makes [] "tmp" eq_refl eq_refl)).
  first_makes 1 25 ltac:(exact (ensure_makes [] "var" eq_refl eq_refl)).
  first_makes 1 24 ltac:(exact (ensure_makes ["var"%string] "log" eq_refl eq_refl)).
  first_makes 1 23 ltac:(exact (ensure_makes [] "etc" eq_refl eq_refl)).
  first_makes 1 22 ltac:(exact (ensure_makes [] "usr" eq_refl eq_refl)).
  first_makes 1 21 ltac:(exact (ensure_makes ["usr"%string] "bin" eq_refl eq_refl)).
  first_makes 1 20 ltac:(exact (ensure_makes [] "run" eq_refl eq_refl)).
  first_makes 2 18 ltac:(exact (install_makes ["usr"; "bin"]%string "tinywl" _ eq_refl eq_refl)).
  first_makes 2 16 ltac:(exact (install_makes ["etc"%string] "vnl-gui.env" _ eq_refl eq_refl)).
  first_makes 2 14 ltac:(exact (install_makes ["usr"; "bin"]%string "gui" _ eq_refl eq_refl)).
  first_makes 2 12 ltac:(exact (install_makes ["etc"%string] "font.ttf" _ eq_refl eq_refl)).
  first_makes 2 10 ltac:(exact (install_makes ["etc"%string] "wallpaper.png" _ eq_refl eq_refl)).
  first_makes 2 8 ltac:(exact (install_makes ["etc"%string] "icon_files.png" _ eq_refl eq_refl)).
  first_makes 2 6 ltac:(exact (install_makes ["etc"%string] "icon_shell.png" _ eq_refl eq_refl)).
  first_makes 2 4 ltac:(exact (install_makes ["etc"%string] "icon_vibenet.png" _ eq_refl eq_refl)).
  first_makes 2 2 ltac:(exact (install_makes ["etc"%string] "icon_snake.png" _ eq_refl eq_refl)).
  exact (install_makes ["etc"%string] "icon_neovim.png" _ eq_refl eq_refl).
Qed.
End stages.

(** ** What the initialisations below the files leave alone *)

(** A property of the kernel that says nothing of the memory, the devices and the output. *)
Definition blind (P : sys -> Prop) : Prop := forall y (k : kstate), P y -> P (over k y).
Definition on (P : sys -> Prop) (m : machine) : Prop := P (m_sys m).

(** The parts of the machine that such a property says nothing of. *)
Class Under T `{Lens machine T} := under : forall (t : T) m, exists k : kstate, m_sys (over t m) = over k (m_sys m).
Lemma under_kernel_part {T} `{Lens kstate T} : @Under T (lens_comp (T := kstate)).
Proof. intros t m. by eexists. Qed.
#[export] Instance under_ports : Under ports.
Proof. intros t m. by eexists. Qed.
#[export] Instance under_cpu : Under cpu.
Proof. intros t m. by eexists. Qed.
#[export] Instance under_input : Under input.
Proof. intros t m. by eexists. Qed.
#[export] Instance under_screen : Under screen.
Proof. intros t m. by eexists. Qed.
#[export] Instance under_heap : Under heap.
Proof. intros t m. by eexists. Qed.
#[export] Instance under_vm : Under vm.
Proof. intros t m. by eexists. Qed.
#[export] Instance under_pmm : Under pmm.
Proof. intros t m. by eexists. Qed.
#[export] Instance under_shm : Under shm.
Proof. intros t m. by eexists. Qed.
#[export] Instance under_out : Under (kout kstate).
Proof. intros t m. by eexists. Qed.
Lemma sys_itself (y : sys) : exists k : kstate, y = over k y.
Proof. exists (view y). symmetry. apply over_view. Qed.
#[export] Instance under_pci : Under pci.
Proof. intros t m. apply sys_itself. Qed.
#[export] Instance under_acpi : Under acpi.
Proof. intros t m. apply sys_itself. Qed.
#[export] Instance under_nic : Under nic.
Proof. intros t m. apply sys_itself. Qed.
#[export] Instance under_fb : Under boot_fb.
Proof. intros t m. apply sys_itself. Qed.

Section below_files.
Context (fuel : nat) (img : image) (P : sys -> Prop) (HP : blind P).
Abbreviation keeps m := (preserves (on P) m) (only parsing).

Lemma in_under {T A} `{Under T} (m : M T A) : keeps (zoom m).
Proof. intros s Hs. apply wlp_zoom. intros a t _. unfold on in *. destruct (under t s) as [k ->]. by apply HP. Qed.
#[local] Hint Extern 1 (preserves _ (zoom _)) => apply in_under : preserves.
#[local] Hint Extern 1 (preserves _ (in_ports _)) => apply in_under : preserves.

Lemma say_keeps fmt args : keeps (say fuel fmt args).
Proof. unfold say. preserves_steps. Qed.
Lemma message_keeps t : keeps (step_message fuel t).
Proof. apply say_keeps. Qed.
#[local] Hint Resolve say_keeps message_keeps : preserves.
Lemma pci_read32_keeps bus dev func off : keeps (pci_read32 bus dev func off).
Proof. unfold pci_read32. preserves_steps. Qed.
#[local] Hint Resolve pci_read32_keeps : preserves.
Lemma scan_function_keeps bus dev func : keeps (scan_function bus dev func).
Proof. unfold scan_function. preserves_steps. Qed.
#[local] Hint Resolve scan_function_keeps : preserves.
Lemma scan_device_keeps bus dev : keeps (scan_device bus dev).
Proof. unfold scan_device. preserves_steps. Qed.
#[local] Hint Resolve scan_device_keeps : preserves.
Lemma nic_in_keeps {A} (read : Z -> M ports A) off : keeps (nic_in read off).
Proof. unfold nic_in, nic_port. preserves_steps. Qed.
Lemma nic_out_keeps write off v : keeps (nic_out write off v).
Proof. unfold nic_out, nic_port. preserves_steps. Qed.
#[local] Hint Resolve nic_in_keeps nic_out_keeps : preserves.
Lemma rtl8139_keeps bus dev func : keeps (rtl8139_init fuel (nic_irq_addr img) bus dev func).
Proof. unfold rtl8139_init, vnet_set_mac. preserves_steps. Qed.
#[local] Hint Resolve rtl8139_keeps : preserves.
Lemma buses_keep : keeps (boot_buses fuel img).
Proof. unfold boot_buses, pci_init, acpi_init, boot_network, pci_dev_count, pci_get_dev. preserves_steps. Qed.
Lemma each_tag_keeps {R} m mb round (visit : Z -> Z -> Z -> M machine (option R)) :
  (forall t z p, keeps (visit t z p)) -> keeps (each_tag fuel m mb round visit).
Proof. intros Hv. unfold each_tag. preserves_steps. Qed.
#[local] Hint Extern 2 (preserves _ (each_tag _ _ _ _ _)) => apply each_tag_keeps; intros ? ? ? : preserves.
Lemma memory_keeps magic mb : keeps (boot_memory fuel img magic mb).
Proof.
  unfold boot_memory, read_fb_info, memory_kb, parse_mb2_memory, parse_mb2_mmap, reserve_entries.
  repeat first [preserves_step | apply each_tag_keeps; intros ? ? ?]; cbn beta iota zeta.
Qed.
Lemma virtual_keeps magic mb : keeps (boot_virtual fuel img magic mb).
Proof. unfold boot_virtual, print_banner, map_framebuffer, fill_screen. preserves_steps. Qed.
Lemma input_keeps : keeps (boot_input fuel img).
Proof. unfold boot_input. preserves_steps. Qed.
End below_files.

(** ** The invariant holds when the boot is done *)

Definition static_ok (y : sys) : Prop :=
  sinv (y_unix y) /\ (forall i, 0 <= i < MAX_EPOLLS -> ep_ok (y_epolls y i)) /\ y_pid y = 1.
(** Before vfs_init(), and after it with [n] nodes made. *)
Definition starting (y : sys) : Prop := static_ok y /\ vfs_cwd (u_vfs (y_unix y)) = VFS_INODE_ROOT.
Definition fresh (n : Z) (y : sys) : Prop := static_ok y /\ within n (u_vfs (y_unix y)).
Lemma starting_blind : blind starting.
Proof. intros y k Hy. exact Hy. Qed.
Lemma fresh_blind n : blind (fresh n).
Proof. intros y k Hy. exact Hy. Qed.

(** What the loader leaves in the static variables the theorem speaks of. *)
Record power_on (m : machine) : Prop := {
  po_cwd : vfs_cwd (u_vfs (y_unix (m_sys m))) = 0;
  po_socks : socks (y_unix (m_sys m)) = fun _ => sock_zero;
  po_epolls : forall i, y_epolls (m_sys m) i = epoll_zero;
  po_pid : y_pid (m_sys m) = 1
}.
Lemma power_on_starts m : power_on m -> on starting m.
Proof.
  intros [Hc Hs He Hp]. split; [|exact Hc]. split_and!; [|intros i _|exact Hp].
  - unfold sinv. rewrite Hs. exact (init_inv (u_vfs (y_unix (m_sys m)))).
  - rewrite He. split; cbn; [unfold MAX_EPOLL_FDS|intros]; lia.
Qed.

Section established.
Context (fuel : nat) (img : image).
#[local] Instance boot_devices : Devices kstate := kernel_devices fuel.

Lemma files_step a n {A B} (c : M (vfs kstate) A) (f : A -> M machine B) m (Q : B -> machine -> Prop) :
  makes a c -> n + a < 2^31 -> on (fresh n) m -> (forall x m', on (fresh (n + a)) m' -> wlp (f x) m' Q) ->
  wlp (x ← zoom (T := vfs kstate) c; f x) m Q.
Proof.
  intros Hc Hn [Hst Hw] Hf. apply wlp_bind, wlp_zoom. intros x v Hv. apply Hf. split; [exact Hst|]. by apply (Hc n _ Hn Hw x v).
Qed.
Lemma kept_step (P : sys -> Prop) {A B} (c : M machine A) (f : A -> M machine B) m (Q : B -> machine -> Prop) :
  preserves (on P) c -> on P m -> (forall x m', on P m' -> wlp (f x) m' Q) -> wlp (x ← c; f x) m Q.
Proof. intros Hc Hm Hf. apply wlp_bind. eapply wlp_mono; [by apply Hc|]. intros x m'. apply Hf. Qed.

Lemma files_establish m : on starting m -> wlp (boot_files fuel img) m (fun _ m' => on (fresh 44) m').
Proof.
  intros Hm. unfold boot_files.
  apply (kept_step starting); [apply message_keeps, starting_blind|exact Hm|]. clear m Hm. intros _ m [Hst Hc].
  apply wlp_bind, wlp_zoom. intros [] v Hv. assert (on (fresh 9) (over v m)) as Hm.
  { split; [exact Hst|]. exact (init_within _ Hc tt v Hv). }
  clear Hst Hc Hv. revert Hm. generalize (over v m). clear m v. intros m Hm.
  pose proof (fun n => message_keeps fuel (fresh n) (fresh_blind n)) as Hsay.
  apply (kept_step (fresh 9)); [apply Hsay|exact Hm|]. clear m Hm. intros _ m Hm.
  apply (files_step 8 9); [apply devfs_makes|lia|exact Hm|]. clear m Hm. intros _ m Hm.
  do 3 (apply (files_step 0 17); [apply makes_open_std|lia|exact Hm|]; clear m Hm; intros _ m Hm).
  apply (kept_step (fresh 17)); [apply Hsay|exact Hm|]. clear m Hm. intros _ m Hm.
  apply (kept_step (fresh 17)); [exact (in_under (fresh 17) (fresh_blind 17) (T := shm) shm_init)|exact Hm|]. clear m Hm. intros _ m [(_ & He & Hp) Hw].
  apply wlp_bind, wlp_zoom. intros [] u [= Hu]. subst u. assert (on (fresh 17) (over (Unix (u_vfs (view m : unix kstate)) (fun _ => sock_zero)) m)) as Hm.
  { split; [split_and!; [apply init_inv|exact He|exact Hp]|exact Hw]. }
  apply wlp_zoom. intros x v Hv. destruct Hm as [Hst Hw']. split; [exact Hst|].
  exact (environment_makes fuel img 17 _ ltac:(lia) Hw' x v Hv).
Qed.

(** sched_init() leaves one task, the running kernel. *)
Lemma sched_init_starts {St} a b root (s : sched St) : next_pid s = 1 ->
  wlp (sched_init a b root) s (fun _ s' => sched_wf s' /\ s_mem s' = s_mem s /\ num_tasks s' = 1).
Proof.
  intros Hp. unfold sched_init. repeat (wlp_step; cbn beta iota). cbn. rewrite Hp. split_and!; [|done|done].
  split; cbn; [unfold MAX_TASKS; lia|lia| | |by rewrite u32_small].
  - intros i Hi _. lia.
  - intros i Hi. by replace i with 0 by lia.
Qed.
Lemma below_blind (P : sys -> Prop) {T A} `{Below T} (c : M T A) : blind P -> preserves P (zoom c).
Proof. intros HP y Hy. apply wlp_zoom. intros a t _. destruct (KernelInv.below t y) as [k ->]. by apply HP. Qed.
Lemma in_sys (P : sys -> Prop) {A} (c : M sys A) : preserves P c -> preserves (on P) (zoom c).
Proof. intros Hc m Hm. apply wlp_zoom. intros a y Hr. exact (Hc _ Hm a y Hr). Qed.
Definition running (y : sys) : Prop := sys_inv y /\ y_num y = 1.
Lemma running_blind : blind running.
Proof. intros y k [Hy Hn]. split; [by apply sys_inv_kernel|exact Hn]. Qed.
Lemma sched_over y (s : sched (unix kstate)) : static_ok y -> within 44 (u_vfs (y_unix y)) -> s_mem s = y_unix y ->
  sched_wf s -> sys_inv (over s y).
Proof.
  intros (Hs & He & _) [Hv _] Hmem Hwf. cbn [over y_sched_lens].
  destruct (KernelInv.below (s_cpu s) (Sys (s_mem s) (tasks s) (num_tasks s) (current_idx s) (next_pid s)
    (sched_pending_cr3 s) (y_epolls y) (y_fs_base y))) as [k ->].
  apply sys_inv_kernel. split; cbn; [by apply (wf_tables s)|rewrite Hmem; by split|exact He].
Qed.
Lemma tasks_establish m : on (fresh 44) m -> wlp (boot_tasks fuel img) m (fun _ m' => on running m').
Proof.
  intros Hm. unfold boot_tasks.
  pose proof (message_keeps fuel (fresh 44) (fresh_blind 44)) as Hsay.
  apply (kept_step (fresh 44)); [apply Hsay|exact Hm|]. clear m Hm. intros _ m Hm.
  apply (kept_step (fresh 44)); [apply in_sys|exact Hm|].
  { unfold syscall_init. apply preserves_bind; [|intros _]; apply (below_blind (fresh 44)), fresh_blind. }
  clear m Hm. intros _ m Hm. apply (kept_step (fresh 44)); [apply Hsay|exact Hm|]. clear m Hm. intros _ m [Hst Hw].
  apply wlp_bind, wlp_gets, wlp_bind, wlp_zoom. intros [] s Hs.
  apply sched_init_starts in Hs as (Hwf & Hmem & Hnum); [|apply Hst].
  assert (on running (over s m)) as Hm by (split; [exact (sched_over _ s Hst Hw Hmem Hwf)|exact Hnum]).
  pose proof (message_keeps fuel running running_blind) as Hsay'.
  apply (kept_step running); [apply Hsay'|exact Hm|]. clear Hwf Hmem Hnum Hst Hw. intros _ m' Hm'.
  by apply say_keeps; [apply running_blind|].
Qed.
Lemma boot_establishes magic mb m : power_on m -> wlp (boot_kernel fuel img magic mb) m (fun _ m' => on running m').
Proof.
  intros Hm%power_on_starts. unfold boot_kernel.
  apply (kept_step starting); [apply memory_keeps, starting_blind|exact Hm|]. clear m Hm. intros _ m Hm.
  apply (kept_step starting); [apply virtual_keeps, starting_blind|exact Hm|]. clear m Hm. intros _ m Hm.
  apply (kept_step starting); [apply input_keeps, starting_blind|exact Hm|]. clear m Hm. intros _ m Hm.
  apply wlp_bind. eapply wlp_mono; [by apply files_establish|]. intros ? m1 Hm1; cbn beta in Hm1; clear m Hm.
  apply (kept_step (fresh 44)); [apply buses_keep, fresh_blind|exact Hm1|]. intros _ m Hm.
  by apply tasks_establish.
Qed.
End established.

(** ** The invariant holds from power on *)

Section life.
Context (fuel : nat) (img : image) (user_mem : sys -> Z -> Z) (set_user_mem : Z -> list Z -> sys -> sys).
Context (yield_frame : Z).
Hypothesis user_below : forall p bs y, exists k : kstate, set_user_mem p bs y = over k y.
Abbreviation step := (kernel_step fuel user_mem set_user_mem (boot_stack_top img) yield_frame) (only parsing).

(** The states of the kernel: after a boot, from whatever the boot loader left, and
    after the steps from there; a call that creates a name meets [names_ok]. *)
Inductive reached : sys -> Prop :=
| reached_boot magic mb m m' : power_on m -> boot_kernel fuel img magic mb m = Done (tt, m') -> reached (m_sys m')
| reached_step y y' : reached y -> step y y' -> reached y'.

(** C1: from power on the kernel keeps its invariant: in every state that the boot and
    then interrupts, stores of programs and system calls lead to, the task table, the
    file tree, the sockets and every epoll instance are well formed, whatever the
    memory map and the devices' answers were, as long as two conditions hold.
    [names_ok]: a call that creates a name (open with the create flag, mkdir, bind)
    gets a creatable path, with components of 1 to 63 characters and a parent shorter
    than 255, while the next inode is below 2^31 - 2; all other calls have any
    arguments. [user_below]: a store of a program changes nothing above the machine's
    memory and devices. Without the first the invariant is lost: an overlong component
    or a path that ends in a slash makes a name that no path finds. *)
Theorem kernel_sound y : reached y -> sys_inv y.
Proof.
  induction 1 as [magic mb m m' Hm Hr|y y' _ IH Hs].
  - by apply (boot_establishes fuel img magic mb m Hm tt m' Hr).
  - exact (kernel_invariant fuel user_mem set_user_mem (boot_stack_top img) yield_frame user_below y y' IH (rtc_once _ _ Hs)).
Qed.
End life.

(** ** A bus without devices *)

Definition ends (b : machine -> bool) (r : outcome (unit * machine)) : bool := match r with Done (_, m) => b m | _ => false end.

Section silent.
Definition silent_bus (p : ports) : bool := forallb (fun k => absent (u32 (oracle p (reads p + k)%nat))) (seq 0 (Z.to_nat 8192)).
(** What the scan of such a bus leaves: the accesses to the ports. *)
Definition scanned (n : nat) (tr : list port_event) (m : machine) : machine :=
  let p : ports := view m in over (Ports (oracle p) (reads p + n) tr) m.
Definition skip_scan (tr : list port_event) : M machine unit := fun m =>
  if silent_bus (view m) then Done (tt, scanned (Z.to_nat 8192) tr m) else Undefined.

Definition quiet (n : nat) (p : ports) : Prop := forall k, (k < n)%nat -> absent (u32 (oracle p (reads p + k)%nat)) = true.
Lemma scan_quiet_device bus dev m : quiet 1 (view m) -> exists tr, scan_device bus dev m = Done (tt, scanned 1 tr m).
Proof.
  intros Hq. specialize (Hq 0%nat ltac:(lia)). rewrite Nat.add_0_r in Hq. unfold scan_device.
  eexists. rewrite (bind_Done _ _ m (u32 (oracle (view m) (reads (view m)))) (scanned 1 _ m)) by
    (unfold scanned; rewrite Nat.add_1_r; reflexivity). by rewrite Hq.
Qed.
Lemma scanned_view n tr m : view (scanned n tr m) = Ports (oracle (view m)) (reads (view m) + n) tr.
Proof. done. Qed.
Lemma scanned_twice n k tr tr' m : scanned k tr' (scanned n tr m) = scanned (n + k) tr' m.
Proof. unfold scanned. rewrite Nat.add_assoc. reflexivity. Qed.
(** A loop whose turns are quiet scans of [w] reads each is one. *)
Lemma scan_loop w (body : Z -> M machine (option unit)) n : (forall i m, quiet w (view m) -> exists tr, body i m = Done (None, scanned w tr m)) ->
  forall i m, quiet (n * w) (view m) -> exists tr, for_n n i 1 body m = Done (None, scanned (n * w) tr m).
Proof.
  intros Hb. induction n as [|n IH]; intros i m Hq.
  - exists (trace (view m : ports)). cbn [for_n Nat.mul]. unfold scanned. rewrite Nat.add_0_r.
    replace (Ports _ _ _) with (view m : ports) by by destruct (view m). by rewrite over_view.
  - destruct (Hb i m) as [tr Htr].
    { intros k Hk. apply Hq. lia. }
    destruct (IH (i + 1) (scanned w tr m)) as [tr' Htr'].
    { intros k Hk. rewrite scanned_view. cbn [oracle reads]. rewrite <- Nat.add_assoc. apply Hq. lia. }
    exists tr'. cbn [for_n]. rewrite (bind_Done _ _ _ _ _ Htr).
    by rewrite Htr', scanned_twice.
Qed.
(** The loops of pci_init(). *)
Definition scan_buses : M machine (option unit) :=
  for_n 256 0 1 (fun bus => for_n 32 0 1 (fun dev => scan_device bus dev;; mret (None (A := unit)))).
Lemma scan_silent m : silent_bus (view m) = true -> exists tr, scan_buses m = Done (None, scanned (Z.to_nat 8192) tr m).
Proof.
  intros Hq. assert (quiet (256 * (32 * 1)) (view m)) as Hq'.
  { intros k Hk. apply (proj1 (forallb_forall _ _) Hq). apply in_seq. lia. }
  replace (Z.to_nat 8192) with (256 * (32 * 1))%nat by lia. apply (scan_loop (32 * 1)); [|exact Hq'].
  intros bus m' Hm'. apply (scan_loop 1); [|exact Hm']. intros dev m1 Hm1.
  destruct (scan_quiet_device bus dev m1 Hm1) as [tr Htr]. exists tr. by rewrite (bind_Done _ _ _ _ _ Htr).
Qed.

Lemma swap_middle {A X} (b : machine -> bool) (c d : M machine unit) (f : M machine A) (g : X -> M machine unit) (x0 : X) m :
  (forall m1, (exists x r m2, f m1 = Done (r, m2) /\ g x m1 = Done (tt, m2)) \/ g x0 m1 = Undefined) ->
  (forall x, ends b ((c;; g x;; d) m) = true) -> ends b ((c;; f;; d) m) = true.
Proof.
  intros Hf Hr. unfold mbind, M_bind in *. destruct (c m) as [[[] m1]| | | |]; try exact (Hr x0).
  destruct (Hf m1) as [(x & r & m2 & -> & Hg)|Hg]; [specialize (Hr x)|specialize (Hr x0)]; by rewrite Hg in Hr.
Qed.
Lemma skips m : (exists tr r m', scan_buses m = Done (r, m') /\ skip_scan tr m = Done (tt, m')) \/ skip_scan [] m = Undefined.
Proof.
  unfold skip_scan. destruct (silent_bus (view m)) eqn:Hq; [left|by right].
  destruct (scan_silent m Hq) as [tr Htr]. eexists tr, None, _. split; [exact Htr|reflexivity].
Qed.

(** The boot before and after the scan. *)
Context (fuel : nat) (img : image).
Definition boot_before (magic mb : Z) : M machine unit :=
  boot_memory fuel img magic mb;; boot_virtual fuel img magic mb;; boot_input fuel img;; boot_files fuel img;;
  step_message fuel "[INIT] PCI...";; zoom (modify (fun p => Pci (pci_devs p) 0)).
Definition boot_after : M machine unit :=
  (n ← gets (fun m => pci_count (m_pci m)); say fuel (bytes_of "       Found %d PCI device(s)" ++ nl) [Num n]);;
  (step_message fuel "[INIT] ACPI...";; acpi_init fuel;; boot_network fuel img);;
  boot_tasks fuel img.
Lemma boot_split magic mb m : boot_kernel fuel img magic mb m = (boot_before magic mb;; scan_buses;; boot_after) m.
Proof.
  unfold boot_kernel, boot_before, boot_buses, pci_init, boot_after. unfold mbind, M_bind.
  destruct (boot_memory fuel img magic mb m) as [[[] m1]| | | |]; [|done..].
  destruct (boot_virtual fuel img magic mb m1) as [[[] m2]| | | |]; [|done..].
  destruct (boot_input fuel img m2) as [[[] m3]| | | |]; [|done..].
  destruct (boot_files fuel img m3) as [[[] m4]| | | |]; [|done..].
  destruct (step_message fuel "[INIT] PCI..." m4) as [[[] m5]| | | |]; [|done..].
  destruct (zoom _ m5) as [[[] m6]| | | |]; [|done..]. unfold scan_buses.
  destruct (for_n 256 0 1 _ m6) as [[r m7]| | | |]; [|done..]. unfold gets. by destruct (say fuel _ _ m7) as [[[] m8]| | | |].
Qed.
Lemma silent_boot (b : machine -> bool) magic mb m :
  (forall tr, ends b ((boot_before magic mb;; skip_scan tr;; boot_after) m) = true) -> ends b (boot_kernel fuel img magic mb m) = true.
Proof. rewrite boot_split. exact (swap_middle b _ _ scan_buses skip_scan [] m skips). Qed.
End silent.

(** ** Witness: a machine with 2.6 MiB, a serial line and an empty bus boots *)

Definition img_sample : image := {|
  vnl_x_elf := [1; 2; 3]; res_font_ttf := [4]; res_wallpaper_png := [5]; res_icon_files_png := [6]; res_icon_shell_png := [7];
  res_icon_vibenet_png := [8]; res_icon_snake_png := [9]; res_icon_neovim_png := [10]; build_time := bytes_of "today";
  kernel_end := 0xFFFFFFFF80110000; tss_addr := 0; boot_stack_top := 0; isr_stub_table := fun _ => 0; timer_irq_addr := 1;
  keyboard_irq_addr := 2; mouse_irq_addr := 3; nic_irq_addr := 4; syscall_addr := 5; timer_stub := 6; yield_stub := 7 |}.
(** Until the bus is probed the answers are those of an idle line and keyboard;
    then all bits are ones. The firmware's root pointer leads nowhere. *)
Definition ports_sample : ports := Ports (fun n => if (n <? 1019)%nat then 0x21 else 0xFFFFFFFF) 0 [].
Definition mb_sample : Z := 0x500000.
Definition ram_sample : mem :=
  store_bytes (store_bytes (fun _ => 0) mb_sample [3; 0; 0; 0; 128; 2; 0; 0; 0; 8; 0; 0]) 0 (bytes_of "RSD PTR ").
Definition kernel_off : kstate :=
  let h := Heap (Vm (Pmm (fun _ => 0) 0 0) ram_sample 0 0x1000) (fun _ => 0) 0 0 in
  let i := over (over ports_sample (i_cpu input_zero)) input_zero in
  Kernel h (fun _ => shm_zero) i (set_fb (set_dev false (Build_FBInfo 0 0 0 0 0 0) 0) screen_zero).
Definition machine_off : machine :=
  Machine (Sys (Unix (Vfs kernel_off (fun _ => node_zero) 0 0 (fun _ => fd_zero)) (fun _ => sock_zero))
             (fun _ => task_zero) 0 0 1 0 (fun _ => epoll_zero) 0)
    0 0 0 (Pci (fun _ => pci_zero) 0) (Acpi 0 5) (Nic 0 [] 0 0 (fun _ => 0) 0 [10; 0; 2; 15] [0; 0; 0; 0; 0; 0]) (BootFb 0 0 0 0 0 0).
Abbreviation booting := (boot_kernel 100 img_sample MB1_MAGIC mb_sample machine_off) (only parsing).
Definition state_after (r : outcome (unit * machine)) : machine := match r with Done (_, m) => m | _ => machine_off end.
Definition machine_up : machine := state_after booting.
(** It returns with the program installed and the three descriptors open. *)
Definition booted_well (m : machine) : bool :=
  let v := u_vfs (y_unix (m_sys m)) in
  (0 <=? resolve v "/usr/bin/tinywl") && f_open (fds v 0) && f_open (fds v 1) && f_open (fds v 2).
Lemma ends_with (b : machine -> bool) (r : outcome (unit * machine)) : ends b r = true ->
  r = Done (tt, state_after r) /\ b (state_after r) = true.
Proof. by destruct r as [[[] m]| | | |]. Qed.
(** The run is evaluated with the scan of the silent bus replaced by what it does. *)
Lemma boot_runs tr : ends booted_well ((boot_before 100 img_sample MB1_MAGIC mb_sample;; skip_scan tr;; boot_after 100 img_sample) machine_off) = true.
Proof. vm_cast_no_check (eq_refl true). Qed.
Lemma machine_boots : booting = Done (tt, machine_up) /\ booted_well machine_up = true.
Proof. apply (ends_with booted_well booting), silent_boot, boot_runs. Qed.
Lemma machine_off_power : power_on machine_off.
Proof. by split. Qed.
Lemma kernel_sound_witness : reached 100 img_sample user_ram put_ram 0 (m_sys machine_up) /\ sys_inv (m_sys machine_up) /\
  booted_well machine_up = true.
Proof.
  destruct machine_boots as [Hb Hr].
  pose proof (reached_boot 100 img_sample user_ram put_ram 0 MB1_MAGIC mb_sample machine_off machine_up machine_off_power Hb) as Hup.
  split; [exact Hup|]. split; [|exact Hr]. refine (kernel_sound 100 img_sample user_ram put_ram 0 _ (m_sys machine_up) Hup).
  intros p bs y. by eexists.
Defined.
