(* ===== verification/ShellVars.v ===== *)
(** * Variables, functions and aliases of the shell (src/src/shell/sh.c)

    The three tables of the interpreter and its positional parameters. A string in a
    fixed array is the list of its characters; strncpy() into an array of n
    characters keeps the first n - 1. The body of a function is a block of the heap.
    The reference is a finite map from names to values. *)

From S2P Require Import Prelude Pmm Mem Strings Vmm Heap Printf Arith.

Abbreviation text := (list Z) (only parsing).

Definition SH_MAX_VARS : Z := 128.
Definition SH_VAR_VALSZ : Z := 512.
Definition SH_MAX_FUNCS : Z := 32.
Definition SH_MAX_ALIASES : Z := 32.

Record ShVar := Var_ { v_name : text; v_val : text; v_exported : bool }.
Record ShFunc := Func { f_name : text; f_body : Z }.
Record ShAlias := Alias { a_name : text; a_val : text }.

(** The static variables of sh.c. *)
Record shell := Shell {
  sh_vars : Z -> ShVar;
  sh_nvar : Z;
  sh_funcs : Z -> ShFunc;
  sh_nfunc : Z;
  sh_aliases : Z -> ShAlias;
  sh_nalias : Z;
  sh_argv : list text;
  sh_script_name : text;
  sh_flow : Z;
  sh_return_val : Z;
  sh_last_status : Z
}.

Definition set_vars (vars : Z -> ShVar) (n : Z) (s : shell) : shell :=
  Shell vars n (sh_funcs s) (sh_nfunc s) (sh_aliases s) (sh_nalias s) (sh_argv s) (sh_script_name s) (sh_flow s)
    (sh_return_val s) (sh_last_status s).
Definition set_funcs (funcs : Z -> ShFunc) (n : Z) (s : shell) : shell :=
  Shell (sh_vars s) (sh_nvar s) funcs n (sh_aliases s) (sh_nalias s) (sh_argv s) (sh_script_name s) (sh_flow s)
    (sh_return_val s) (sh_last_status s).
Definition set_aliases (aliases : Z -> ShAlias) (n : Z) (s : shell) : shell :=
  Shell (sh_vars s) (sh_nvar s) (sh_funcs s) (sh_nfunc s) aliases n (sh_argv s) (sh_script_name s) (sh_flow s)
    (sh_return_val s) (sh_last_status s).
Definition set_argv (args : list text) (s : shell) : shell :=
  Shell (sh_vars s) (sh_nvar s) (sh_funcs s) (sh_nfunc s) (sh_aliases s) (sh_nalias s) args (sh_script_name s) (sh_flow s)
    (sh_return_val s) (sh_last_status s).
Definition set_script_name (name : text) (s : shell) : shell :=
  Shell (sh_vars s) (sh_nvar s) (sh_funcs s) (sh_nfunc s) (sh_aliases s) (sh_nalias s) (sh_argv s) name (sh_flow s)
    (sh_return_val s) (sh_last_status s).
Definition set_flow (flow : Z) (s : shell) : shell :=
  Shell (sh_vars s) (sh_nvar s) (sh_funcs s) (sh_nfunc s) (sh_aliases s) (sh_nalias s) (sh_argv s) (sh_script_name s) flow
    (sh_return_val s) (sh_last_status s).
Definition set_return_val (v : Z) (s : shell) : shell :=
  Shell (sh_vars s) (sh_nvar s) (sh_funcs s) (sh_nfunc s) (sh_aliases s) (sh_nalias s) (sh_argv s) (sh_script_name s)
    (sh_flow s) v (sh_last_status s).
Definition set_status (v : Z) (s : shell) : shell :=
  Shell (sh_vars s) (sh_nvar s) (sh_funcs s) (sh_nfunc s) (sh_aliases s) (sh_nalias s) (sh_argv s) (sh_script_name s)
    (sh_flow s) (sh_return_val s) v.

(** What strncpy() of [size - 1] characters leaves in an array of [size]. *)
Definition field (size : Z) (s : text) : text := take (Z.to_nat (size - 1)) s.
(** The index of the first entry of [n] with a name. *)
Definition find_name (name_at : Z -> text) (n : Z) (name : text) : option Z :=
  scan (Z.to_nat n) 0 (fun i => bool_decide (name_at i = name)).

(** ** Variables *)

Definition var_index (s : shell) (name : text) : option Z := find_name (fun i => v_name (sh_vars s i)) (sh_nvar s) name.
Definition var_find (name : text) : M shell (option Z) := gets (fun s => var_index s name).
Definition var_set (name val : text) (exported : bool) : M shell unit :=
  s ← get;
  match var_index s name with
  | Some i =>
      let v := sh_vars s i in
      put (set_vars (<[i := Var_ (v_name v) (field SH_VAR_VALSZ val) (v_exported v || exported)]> (sh_vars s)) (sh_nvar s) s)
  | None =>
      if SH_MAX_VARS <=? sh_nvar s then mret tt
      else put (set_vars (<[sh_nvar s := Var_ (field SH_VAR_NAMSZ name) (field SH_VAR_VALSZ val) exported]> (sh_vars s)) (sh_nvar s + 1) s)
  end.
Definition lookup_var (s : shell) (name : text) : option text := (fun i => v_val (sh_vars s i)) <$> var_index s name.
Definition var_get (name : text) : M shell (option text) := gets (fun s => lookup_var s name).
(** The last entry takes the place of the removed one. *)
Definition var_unset (name : text) : M shell unit :=
  s ← get;
  match var_index s name with
  | Some i => put (set_vars (<[i := sh_vars s (sh_nvar s - 1)]> (sh_vars s)) (sh_nvar s - 1) s)
  | None => mret tt
  end.
(** [export NAME] of a variable that is there. *)
Definition var_export (i : Z) : M shell unit :=
  modify (fun s => let v := sh_vars s i in set_vars (<[i := Var_ (v_name v) (v_val v) true]> (sh_vars s)) (sh_nvar s) s).

(** ** Aliases *)

Definition alias_index (s : shell) (name : text) : option Z := find_name (fun i => a_name (sh_aliases s i)) (sh_nalias s) name.
Definition alias_get (name : text) : M shell (option text) :=
  gets (fun s => (fun i => a_val (sh_aliases s i)) <$> alias_index s name).
Definition alias_set (name val : text) : M shell unit :=
  s ← get;
  match alias_index s name with
  | Some i => put (set_aliases (<[i := Alias (a_name (sh_aliases s i)) (field SH_VAR_VALSZ val)]> (sh_aliases s)) (sh_nalias s) s)
  | None =>
      if SH_MAX_ALIASES <=? sh_nalias s then mret tt
      else put (set_aliases (<[sh_nalias s := Alias (field SH_VAR_NAMSZ name) (field SH_VAR_VALSZ val)]> (sh_aliases s)) (sh_nalias s + 1) s)
  end.

(** ** Tables as maps *)

Section table.
Context {E V : Type} (key : E -> text) (value : E -> V).
Implicit Types (ent : Z -> E) (n : Z).

Definition distinct ent n : Prop := forall i j, 0 <= i < n -> 0 <= j < n -> key (ent i) = key (ent j) -> i = j.
Definition table ent n : gmap text V := list_to_map ((fun i => (key (ent i), value (ent i))) <$> seqZ 0 n).

Lemma find_name_Some ent n name i : distinct ent n ->
  find_name (fun i => key (ent i)) n name = Some i <-> 0 <= i < n /\ key (ent i) = name.
Proof.
  intros Hd. unfold find_name. split.
  - intros (Hi & Hk%bool_decide_eq_true & _)%scan_Some. split; [lia|done].
  - intros [Hi Hk]. destruct (scan _ _ _) as [j|] eqn:Hs.
    + apply scan_Some in Hs as (Hj & Hkj%bool_decide_eq_true & _). f_equal. apply Hd; [lia|done|congruence].
    + pose proof (proj1 (scan_None _ _ _) Hs i ltac:(lia)) as Hf. by apply bool_decide_eq_false in Hf.
Qed.
Lemma find_name_None ent n name : find_name (fun i => key (ent i)) n name = None <-> forall i, 0 <= i < n -> key (ent i) <> name.
Proof.
  unfold find_name. rewrite scan_None. split; intros Hn i Hi.
  - specialize (Hn i ltac:(lia)). by apply bool_decide_eq_false in Hn.
  - apply bool_decide_eq_false, Hn. lia.
Qed.
Lemma table_lookup ent n name : distinct ent n ->
  table ent n !! name = (fun i => value (ent i)) <$> find_name (fun i => key (ent i)) n name.
Proof.
  intros Hd. assert (NoDup ((fun i => (key (ent i), value (ent i))) <$> seqZ 0 n).*1) as Hnd.
  { rewrite <- list_fmap_compose. apply NoDup_fmap_2_strong; [|apply NoDup_seqZ].
    intros i j Hi%elem_of_seqZ Hj%elem_of_seqZ. cbn. apply Hd; lia. }
  destruct (find_name _ n name) as [i|] eqn:Hf.
  - apply (find_name_Some ent n name i Hd) in Hf as [Hi <-]. apply elem_of_list_to_map_1; [done|].
    apply list_elem_of_fmap. exists i. split; [done|]. apply elem_of_seqZ. lia.
  - apply not_elem_of_list_to_map_1. intros Hin. rewrite <- list_fmap_compose in Hin.
    apply list_elem_of_fmap in Hin as (i & Hi & Hs%elem_of_seqZ). apply (proj1 (find_name_None ent n name) Hf i ltac:(lia)). by cbn in Hi.
Qed.
Lemma table_Some ent n name x : distinct ent n ->
  table ent n !! name = Some x <-> exists i, 0 <= i < n /\ key (ent i) = name /\ value (ent i) = x.
Proof.
  intros Hd. rewrite table_lookup by done. rewrite fmap_Some. split; intros (i & Hi & Hx).
  - apply (find_name_Some ent n name i Hd) in Hi as [? ?]. by exists i.
  - exists i. destruct Hx as [? ?]. split; [by apply find_name_Some|done].
Qed.
Lemma table_size ent n : 0 <= n -> distinct ent n -> Z.of_nat (size (table ent n)) = n.
Proof.
  intros Hn Hd. unfold table. rewrite map_size_list_to_map.
  - rewrite length_fmap, length_seqZ. lia.
  - rewrite <- list_fmap_compose. apply NoDup_fmap_2_strong; [|apply NoDup_seqZ].
    intros i j Hi%elem_of_seqZ Hj%elem_of_seqZ. cbn. apply Hd; lia.
Qed.

Lemma table_eq ent n (m : gmap text V) : distinct ent n ->
  (forall name x, m !! name = Some x <-> exists i, 0 <= i < n /\ key (ent i) = name /\ value (ent i) = x) -> table ent n = m.
Proof. intros Hd Hm. apply map_eq. intros name. apply option_eq. intros x. by rewrite table_Some, Hm. Qed.

(** An entry changed in place, a new entry, and one removed by moving the last. *)
Lemma distinct_update ent n i e : distinct ent n -> key e = key (ent i) -> distinct (<[i := e]> ent) n.
Proof. intros Hd He j k Hj Hk. rewrite !upd_case. destruct (Z.eqb_spec j i) as [->|], (Z.eqb_spec k i) as [->|]; rewrite ?He; auto. Qed.
Lemma table_update ent n i e : distinct ent n -> 0 <= i < n -> key e = key (ent i) ->
  table (<[i := e]> ent) n = <[key e := value e]> (table ent n).
Proof.
  intros Hd Hi He. apply table_eq; [by apply distinct_update|]. intros name x. rewrite lookup_insert_Some, table_Some by done. split.
  - intros [[<- <-]|[Hne (j & Hj & <- & <-)]].
    + exists i. by rewrite upd_same.
    + exists j. rewrite upd_other; [done|]. intros ->. by rewrite He in Hne.
  - intros (j & Hj & <- & <-). rewrite upd_case. destruct (Z.eqb_spec j i) as [->|Hne]; [by left|right].
    split; [|by exists j]. rewrite He. intros Heq. apply Hne. by apply Hd.
Qed.
Lemma distinct_append ent n e : distinct ent n -> (forall i, 0 <= i < n -> key (ent i) <> key e) -> distinct (<[n := e]> ent) (n + 1).
Proof.
  intros Hd Hn i j Hi Hj. rewrite !upd_case. destruct (Z.eqb_spec i n) as [->|], (Z.eqb_spec j n) as [->|]; intros Hk; try done.
  - destruct (Hn j); [lia|done].
  - destruct (Hn i); [lia|done].
  - apply Hd; [lia|lia|done].
Qed.
Lemma table_append ent n e : 0 <= n -> distinct ent n -> (forall i, 0 <= i < n -> key (ent i) <> key e) ->
  table (<[n := e]> ent) (n + 1) = <[key e := value e]> (table ent n).
Proof.
  intros Hn Hd Hf. apply table_eq; [by apply distinct_append|]. intros name x. rewrite lookup_insert_Some, table_Some by done. split.
  - intros [[<- <-]|[Hne (j & Hj & <- & <-)]]; [exists n|exists j]; [rewrite upd_same; split_and!; [lia|lia|done|done]|].
    rewrite upd_other by lia. split; [lia|done].
  - intros (j & Hj & <- & <-). rewrite upd_case. destruct (Z.eqb_spec j n) as [->|Hne]; [by left|right].
    split; [|exists j; split; [lia|done]]. intros Heq. apply (Hf j); [lia|done].
Qed.
Lemma distinct_remove ent n i : distinct ent n -> 0 <= i < n -> distinct (<[i := ent (n - 1)]> ent) (n - 1).
Proof.
  intros Hd Hi j k Hj Hk. rewrite !upd_case. destruct (Z.eqb_spec j i) as [->|], (Z.eqb_spec k i) as [->|]; intros He; try done.
  - apply Hd in He; lia.
  - apply Hd in He; lia.
  - apply Hd; [lia|lia|done].
Qed.
Lemma table_remove ent n i : distinct ent n -> 0 <= i < n ->
  table (<[i := ent (n - 1)]> ent) (n - 1) = delete (key (ent i)) (table ent n).
Proof.
  intros Hd Hi. apply table_eq; [by apply distinct_remove|]. intros name x. rewrite lookup_delete_Some, table_Some by done. split.
  - intros (Hne & j & Hj & <- & <-). assert (j <> i) as Hji by by intros ->.
    destruct (decide (j = n - 1)) as [->|Hn]; [exists i; rewrite upd_same; split; [lia|done]|].
    exists j. rewrite upd_other by done. split; [lia|done].
  - intros (j & Hj & <- & <-). rewrite upd_case. destruct (Z.eqb_spec j i) as [->|Hne].
    + split; [|exists (n - 1); split; [lia|done]]. intros Heq. apply Hd in Heq; lia.
    + split; [|exists j; split; [lia|done]]. intros Heq. apply Hd in Heq; lia.
Qed.
End table.

(** ** The variables are a map with at most 128 entries *)

Definition var_value (v : ShVar) : text * bool := (v_val v, v_exported v).
Definition variables (s : shell) : gmap text (text * bool) := table v_name var_value (sh_vars s) (sh_nvar s).
Definition vars_ok (s : shell) : Prop := 0 <= sh_nvar s <= SH_MAX_VARS /\ distinct v_name (sh_vars s) (sh_nvar s).
(** A name that fits its array; longer ones are cut when they are stored. *)
Definition short (name : text) : Prop := Z.of_nat (length name) < SH_VAR_NAMSZ.
Lemma field_short name : short name -> field SH_VAR_NAMSZ name = name.
Proof. unfold short, field. intros Hs. apply take_ge. lia. Qed.

(** The operations on the map. *)
Definition assign (name val : text) (exported : bool) (m : gmap text (text * bool)) : gmap text (text * bool) :=
  match m !! name with
  | Some (_, e) => <[name := (field SH_VAR_VALSZ val, e || exported)]> m
  | None => if SH_MAX_VARS <=? Z.of_nat (size m) then m else <[name := (field SH_VAR_VALSZ val, exported)]> m
  end.

(** The variables are a map from names to values and export marks, with at most
    128 entries: assigning sets the value, cut to 511 characters, and keeps an export
    mark; a new name needs room; getting looks up and unsetting deletes. *)
Theorem variables_refine name s : vars_ok s -> short name ->
  (forall val e, exists s', var_set name val e s = Done (tt, s') /\ vars_ok s' /\ variables s' = assign name val e (variables s)) /\
  var_get name s = Done (fst <$> variables s !! name, s) /\
  (exists s', var_unset name s = Done (tt, s') /\ vars_ok s' /\ variables s' = delete name (variables s)).
Proof.
  intros [Hn Hd] Hs. pose proof (table_lookup v_name var_value (sh_vars s) (sh_nvar s) name Hd) as Hl.
  fold (variables s) in Hl. fold (var_index s name) in Hl. unfold vars_ok, variables in *. split_and!.
  - intros val e. unfold var_set, assign, mbind, M_bind, get. rewrite Hl. destruct (var_index s name) as [i|] eqn:Hi; cbn [fmap option_fmap option_map].
    + apply (find_name_Some v_name _ _ _ _ Hd) in Hi as [Hi <-]. eexists. split; [reflexivity|]. cbn. split.
      * split; [done|]. by apply distinct_update.
      * by rewrite table_update.
    + pose proof (proj1 (find_name_None v_name _ _ _) Hi) as Hf. rewrite table_size by (lia || done).
      destruct (Z.leb_spec SH_MAX_VARS (sh_nvar s)); [by eexists|]. eexists. split; [reflexivity|]. cbn. rewrite (field_short name) by done.
      split; [split; [lia|by apply distinct_append]|]. by rewrite table_append by (lia || done).
  - unfold var_get, gets, lookup_var. rewrite Hl. by destruct (var_index s name).
  - unfold var_unset, mbind, M_bind, get. destruct (var_index s name) as [i|] eqn:Hi.
    + apply (find_name_Some v_name _ _ _ _ Hd) in Hi as [Hi <-]. eexists. split; [reflexivity|]. cbn.
      split; [split; [lia|by apply distinct_remove]|]. by rewrite table_remove.
    + exists s. split; [done|]. split; [done|]. by rewrite delete_id.
Qed.

(** ** Witness: a variable is set, changed and removed *)

Definition shell_zero : shell :=
  Shell (fun _ => Var_ [] [] false) 0 (fun _ => Func [] 0) 0 (fun _ => Alias [] []) 0 [] (bytes_of "sh") 0 0 0.
Definition var_step (m : M shell unit) (s : shell) : shell := match m s with Done (_, s') => s' | _ => s end.
Definition shell_sample : shell := var_step (var_set (bytes_of "x") (bytes_of "1") true) shell_zero.
Lemma shell_sample_ok : vars_ok shell_sample.
Proof. split; [by vm_compute|]. intros i j Hi Hj _. change (sh_nvar shell_sample) with 1 in *. lia. Qed.
Lemma variables_refine_witness :
  (exists s', var_set (bytes_of "x") (bytes_of "22") false shell_sample = Done (tt, s') /\ vars_ok s' /\
     variables s' !! bytes_of "x" = Some (bytes_of "22", true)) /\
  (exists s', var_unset (bytes_of "x") shell_sample = Done (tt, s') /\ variables s' !! bytes_of "x" = None).
Proof.
  destruct (variables_refine (bytes_of "x") shell_sample shell_sample_ok ltac:(by vm_compute)) as (Hset & _ & (s2 & Hu & _ & Hm)). split.
  - destruct (Hset (bytes_of "22") false) as (s1 & Hs & Hok & Hv). exists s1. split; [exact Hs|]. split; [exact Hok|].
    rewrite Hv. by vm_compute.
  - exists s2. split; [exact Hu|]. rewrite Hm. by vm_compute.
Defined.
