(* ===== verification/ShellWords.v ===== *)
(** * Words of the shell (expand_word() and tokenize() of src/src/shell/sh.c)

    Expansion of variables, arithmetic and commands, quoting, and splitting into
    arguments. A pointer into a string is the text that is left. Commands are run by
    [sh_exec], which ShellRun provides. expand_word() writes its buffer only with the
    first character, so the result of an empty expansion is never written: it is the
    empty text here, and reading it is undefined. *)

From Stdlib Require Import Ascii.
From S2P Require Import Prelude Pmm Mem Strings Vmm UserSpace ElfLoad Heap Cpu Sched Input Console Shm Vfs Devfs Printf Arith UnixSocket System Machine ShellVars.

Definition SH_MAX_ARGS : Z := 64.
Definition SH_PIPE_BUF : Z := 4096.
Definition SH_LINE_MAX : Z := 1024.
Definition SH_EXPAND_MAX : Z := 2048.
Definition SH_ARITH_MAX : Z := 64.

(** ** The shell in the machine *)

(** The static arrays of the pipeline: its stages and the names of redirected files. *)
Record pipes := Pipes { stages : Z -> text; out_name : text; app_name : text }.
Record world := World { w_shell : shell; w_pipes : pipes; w_machine : machine }.
#[export] Instance w_shell_lens : Lens world shell := {| view := w_shell; over s w := World s (w_pipes w) (w_machine w) |}.
#[export] Instance w_pipes_lens : Lens world pipes := {| view := w_pipes; over p w := World (w_shell w) p (w_machine w) |}.
#[export] Instance w_machine_lens : Lens world machine := {| view := w_machine; over m w := World (w_shell w) (w_pipes w) m |}.
#[export] Instance w_out_lens : Lens world (kout kstate) := lens_comp (T := machine).
#[export] Instance w_heap_lens : Lens world heap := lens_comp (T := machine).
#[export] Instance w_vfs_lens : Lens world (vfs kstate) := lens_comp (T := machine).
#[export] Instance w_input_lens : Lens world input := lens_comp (T := machine).
#[export] Instance w_cpu_lens : Lens world cpu := lens_comp (T := machine).
#[export] Instance w_screen_lens : Lens world screen := lens_comp (T := machine).

(** The addresses of the static buffers: of the two substitutions, of redirected
    output and of pipes. *)
Record buffers := Buffers { outbuf : Z; outbuf_bt : Z; redir_obuf : Z; pipe_buf : Z }.

(** ** Scanning texts *)

Definition char_at (l : text) (i : nat) : Z := default 0 (l !! i).
Fixpoint span (p : Z -> bool) (l : text) : text * text :=
  match l with
  | c :: l' => if p c then let '(a, b) := span p l' in (c :: a, b) else ([], l)
  | [] => ([], [])
  end.
(** At most [n] characters of a span. *)
Fixpoint span_max (n : nat) (p : Z -> bool) (l : text) : text * text :=
  match n, l with
  | S n', c :: l' => if p c then let '(a, b) := span_max n' p l' in (c :: a, b) else ([], l)
  | _, _ => ([], l)
  end.
(** Up to the parenthesis that closes [depth] open ones. *)
Fixpoint close_parens (depth : Z) (l : text) : text * text :=
  match l with
  | [] => ([], [])
  | c :: l' =>
      let depth := if c =? 40 then depth + 1 else if c =? 41 then depth - 1 else depth in
      if depth =? 0 then ([c], l') else let '(a, b) := close_parens depth l' in (c :: a, b)
  end.
Definition is_not (x c : Z) : bool := negb (c =? x).
Definition starts (s : string) (l : text) : bool := bool_decide (take (String.length s) l = bytes_of s).

Definition room (dstsz : Z) (dst : text) : bool := Z.of_nat (length dst) + 1 <? dstsz.
Definition OUT (dstsz c : Z) (dst : text) : text := if room dstsz dst then dst ++ [c] else dst.
Fixpoint OUTS (dstsz : Z) (s dst : text) : text :=
  match s with [] => dst | c :: s' => OUTS dstsz s' (OUT dstsz c dst) end.
(** [join] with single blanks: the positional parameters. *)
Fixpoint out_args (dstsz : Z) (first : bool) (args : list text) (dst : text) : text :=
  match args with
  | [] => dst
  | a :: args' => out_args dstsz false args' (OUTS dstsz a (if first then dst else OUT dstsz 32 dst))
  end.

(** Inside double quotes, up to the closing quote or, with [true], to a dollar or
    backtick that is handled outside of them. *)
Fixpoint dquote (dstsz : Z) (l dst : text) : text * text * bool :=
  match l with
  | [] => ([], dst, false)
  | c :: l' =>
      if c =? 34 then (l', dst, false)
      else if (c =? 36) || (c =? 96) then (l, dst, true)
      else if c =? 92 then
        match l' with
        | d :: l'' => if (d =? 34) || (d =? 92) || (d =? 36) || (d =? 96) then dquote dstsz l'' (OUT dstsz d dst)
                      else dquote dstsz l' (OUT dstsz c dst)
        | [] => dquote dstsz l' (OUT dstsz c dst)
        end
      else dquote dstsz l' (OUT dstsz c dst)
  end.

(** ksprintf() into a local array that is large enough. *)
Definition sprint (fmt : string) (args : list arg) : M world text := lift (formatted (bytes_of fmt) args).

(** The string at an address, in at most [n] bytes. *)
Definition string_at (n : nat) (a : Z) : M world text :=
  m ← gets (fun w => kmem (view w));
  match strlen n m a with Some k => mret (load_bytes m a (Z.to_nat k)) | None => ub end.
Definition is_newline (c : Z) : bool := (c =? 10) || (c =? 13).
(** Without what [p] takes at the end. *)
Fixpoint trim_end (p : Z -> bool) (l : text) : text :=
  match l with
  | [] => []
  | c :: l' => match trim_end p l' with [] => if p c then [] else [c] | r => c :: r end
  end.

Section words.
Context (fuel : nat) (bufs : buffers) (sh_exec : text -> M world Z).

(** ** Expansion *)

(** The output of a command, without the newlines at its end, which are overwritten
    in the buffer. *)
Definition substitute (buf : Z) (cmd : text) : M world text :=
  zoom (T := kout kstate) (kout_redirect buf SH_PIPE_BUF);;
  sh_exec cmd;;
  zoom (T := kout kstate) kout_reset;;
  out ← string_at (Z.to_nat SH_PIPE_BUF) buf;
  let kept := trim_end is_newline out in
  zoom (T := heap) (modify (fun h => set_kmem (store_bytes (kmem h) (buf + Z.of_nat (length kept)) (replicate (length out - length kept) 0)) h));;
  mret kept.

Definition variable (name : text) : M world (option text) := zoom (var_get name).
Definition out_variable (dstsz : Z) (name dst : text) : M world text :=
  v ← variable name; mret (match v with Some s => OUTS dstsz s dst | None => dst end).

(** After the two opening parentheses. A text that ends too early makes the length
    wrap, and memory behind it is copied. *)
Definition expand_arith (dstsz : Z) (src dst : text) : M world (text * text) :=
  let '(taken, rest) := close_parens 2 src in
  if (length taken <? 2)%nat then ub
  else
    let expr := take (Z.to_nat (SH_ARITH_MAX - 1)) (take (length taken - 2) taken) in
    vars ← gets w_shell;
    result ← lift (arith_eval (bytes_at (expr ++ [0])) (lookup_var vars) fuel 0);
    num ← sprint "%lld" [Num result];
    mret (rest, OUTS dstsz num dst).
Definition expand_command (dstsz : Z) (src dst : text) : M world (text * text) :=
  let '(taken, rest) := close_parens 1 src in
  if (length taken <? 1)%nat then ub
  else
    out ← substitute (outbuf bufs) (take (Z.to_nat (SH_LINE_MAX - 1)) (take (length taken - 1) taken));
    mret (rest, OUTS dstsz out dst).
Definition expand_backtick (dstsz : Z) (src dst : text) : M world (text * text) :=
  let '(cmd, rest) := span (is_not 96) src in
  out ← substitute (outbuf_bt bufs) (take (Z.to_nat (SH_LINE_MAX - 1)) cmd);
  mret (drop 1 rest, OUTS dstsz out dst).

(** After [${]; [expand] expands a default into an array of 512. *)
Definition expand_brace (expand : text -> M world text) (dstsz : Z) (src dst : text) : M world (text * text) :=
  let '(name, rest) := span_max 63 (fun c => is_not 125 c && is_not 58 c && is_not 35 c) src in
  if char_at rest 0 =? 35 then
    v ← variable name;
    num ← sprint "%u" [Num (match v with Some s => u32 (Z.of_nat (length s)) | None => 0 end)];
    mret (drop 1 (snd (span (is_not 125) (drop 1 rest))), OUTS dstsz num dst)
  else if (char_at rest 0 =? 58) && (char_at rest 1 =? 45) then
    let '(def, rest) := span (is_not 125) (drop 2 rest) in
    v ← variable name;
    dst ← (match v with
           | Some (c :: s) => mret (OUTS dstsz (c :: s) dst)
           | _ =>
               expdef ← expand (take (Z.to_nat (SH_VAR_VALSZ - 1)) def);
               match expdef with [] => ub | _ => mret (OUTS dstsz expdef dst) end
           end);
    mret (drop 1 rest, dst)
  else
    dst ← out_variable dstsz name dst;
    mret (if char_at rest 0 =? 125 then drop 1 rest else rest, dst).

(** After the dollar. *)
Definition expand_dollar (expand : text -> M world text) (dstsz : Z) (src dst : text) : M world (text * text) :=
  s ← gets w_shell;
  let c := char_at src 0 in
  let number fmt v := num ← sprint fmt [Num v]; mret (drop 1 src, OUTS dstsz num dst) in
  if c =? 40 then
    if char_at src 1 =? 40 then expand_arith dstsz (drop 2 src) dst else expand_command dstsz (drop 1 src) dst
  else if c =? 123 then expand_brace expand dstsz (drop 1 src) dst
  else if c =? 63 then number "%d" (sh_last_status s)
  else if c =? 35 then number "%d" (Z.of_nat (length (sh_argv s)))
  else if c =? 36 then mret (drop 1 src, OUTS dstsz [49] dst)
  else if (c =? 42) || (c =? 64) then mret (drop 1 src, out_args dstsz true (sh_argv s) dst)
  else if c =? 48 then mret (drop 1 src, OUTS dstsz (sh_script_name s) dst)
  else if (49 <=? c) && (c <=? 57) then
    mret (drop 1 src, match sh_argv s !! Z.to_nat (c - 49) with Some a => OUTS dstsz a dst | None => dst end)
  else if starts "RANDOM" src then
    t ← gets (fun w => tick_count (view w));
    num ← sprint "%llu" [Num (t mod 32768)];
    mret (drop 6 src, OUTS dstsz num dst)
  else
    let '(name, rest) := span_max 63 name_char src in
    dst ← out_variable dstsz name dst;
    mret (rest, dst).

Definition expand_special (expand : text -> M world text) (dstsz c : Z) (src dst : text) : M world (text * text) :=
  if c =? 36 then expand_dollar expand dstsz src dst
  else if c =? 96 then expand_backtick dstsz src dst
  else mret (src, OUT dstsz c dst).
Definition expand_step (expand : text -> M world text) (dstsz c : Z) (src dst : text) : M world (text * text) :=
  if c =? 92 then mret (match src with [] => ([], dst) | d :: src' => (src', OUT dstsz d dst) end)
  else if c =? 39 then let '(lit, rest) := span (is_not 39) src in mret (drop 1 rest, OUTS dstsz lit dst)
  else if c =? 34 then
    let '(rest, dst, special) := dquote dstsz src dst in
    if special : bool then
      match rest with d :: rest' => expand_special expand dstsz d rest' dst | [] => mret (rest, dst) end
    else mret (rest, dst)
  else expand_special expand dstsz c src dst.

(** Every turn takes a character, and a default is shorter than its word. *)
Fixpoint expand_from (n : nat) (dstsz : Z) (src dst : text) : M world text := fun w =>
  match src with
  | [] => Done (dst, w)
  | c :: src' =>
      if negb (room dstsz dst) then Done (dst, w)
      else
        match n with
        | O => OutOfFuel
        | S n' =>
            ('(src, dst) ← expand_step (fun def => expand_from n' SH_VAR_VALSZ def []) dstsz c src' dst;
             expand_from n' dstsz src dst) w
        end
  end.
Definition expand_word (dstsz : Z) (src : text) : M world text := expand_from (length src) dstsz src [].
(** The result used as a string. *)
Definition expanded (dstsz : Z) (src : text) : M world text :=
  dst ← expand_word dstsz src; match dst with [] => ub | _ => mret dst end.

(** ** Splitting *)

(** A token and the number of bytes used of the buffer for all of them. *)
Definition put_char (bufsz c : Z) (t : text * Z) : text * Z :=
  if snd t + 1 <? bufsz then (fst t ++ [c], snd t + 1) else t.
Definition put_text (bufsz : Z) (s : text) (t : text * Z) : text * Z :=
  if snd t + Z.of_nat (length s) <? bufsz then (fst t ++ s, snd t + Z.of_nat (length s)) else t.

(** The inside of double quotes, and the rest from the closing one. *)
Fixpoint quoted_part (l : text) : text * text :=
  match l with
  | [] => ([], [])
  | c :: l' =>
      if c =? 34 then ([], l)
      else if c =? 92 then
        match l' with
        | d :: l'' => let '(a, b) := quoted_part l'' in (c :: d :: a, b)
        | [] => ([c], [])
        end
      else let '(a, b) := quoted_part l' in (c :: a, b)
  end.
Definition special_char (c : Z) : bool :=
  name_char c || (c =? 63) || (c =? 35) || (c =? 42) || (c =? 64) || (c =? 36).
(** The piece that starts with a dollar or backtick, and the rest. *)
Definition dollar_piece (c : Z) (l : text) : text * text :=
  let back '(a, b) := (c :: a, b) in
  if c =? 36 then
    match l with
    | 40 :: l' => let '(a, b) := close_parens 1 l' in (c :: 40 :: a, b)
    | 123 :: l' => let '(a, b) := span (is_not 125) l' in (c :: 123 :: a ++ take 1 b, drop 1 b)
    | _ => back (span special_char l)
    end
  else let '(a, b) := span (is_not 96) l in (c :: a ++ take 1 b, drop 1 b).

Definition token_end (c : Z) : bool := (c =? 32) || (c =? 9) || (c =? 10) || (c =? 59) || (c =? 35).
Definition token_step (bufsz c : Z) (p : text) (t : text * Z) : M world (text * (text * Z)) :=
  if c =? 39 then
    let '(lit, rest) := span (is_not 39) p in
    mret (drop 1 rest, fold_left (fun t c => put_char bufsz c t) lit t)
  else if c =? 34 then
    let '(inside, rest) := quoted_part p in
    tmp ← expanded SH_EXPAND_MAX (take (Z.to_nat (SH_LINE_MAX - 1)) (34 :: inside ++ take 1 rest));
    mret (drop 1 rest, put_text bufsz tmp t)
  else if (c =? 36) || (c =? 96) then
    let '(piece, rest) := dollar_piece c p in
    e ← expanded SH_EXPAND_MAX (take (Z.to_nat (SH_EXPAND_MAX - 1)) piece);
    mret (rest, put_text bufsz e t)
  else mret (p, put_char bufsz c t).
Fixpoint token (n : nat) (bufsz : Z) (p : text) (t : text * Z) : M world (text * (text * Z)) := fun w =>
  match p with
  | [] => Done (([], t), w)
  | c :: p' =>
      if token_end c then Done ((p, t), w)
      else
        match n with
        | O => OutOfFuel
        | S n' => ('(p, t) ← token_step bufsz c p' t; token n' bufsz p t) w
        end
  end.
(** A token that starts behind the end of the buffer is not terminated. *)
Fixpoint tokens (n : nat) (bufsz : Z) (p : text) (used : Z) : M world (list text) := fun w =>
  match n with
  | O => Done ([], w)
  | S n' =>
      let p := snd (span (fun c => (c =? 32) || (c =? 9)) p) in
      match p with
      | [] => Done ([], w)
      | c :: _ =>
          if (c =? 35) || (c =? 10) || (c =? 59) then Done ([], w)
          else
            ('(p, (t, used)) ← token (length p) bufsz p ([], used);
             if bufsz <=? used then ub else ts ← tokens n' bufsz p (used + 1); mret (t :: ts)) w
      end
  end.
Definition tokenize (bufsz : Z) (line : text) : M world (list text) := tokens (Z.to_nat (SH_MAX_ARGS - 1)) bufsz line 0.
End words.

(** ** Words as lists of segments *)

(** A piece of a word: a character, one behind a backslash, quoted texts, parameters
    and substitutions. *)
Inductive segment :=
| Plain (c : Z)
| Escaped (c : Z)
| Single (s : text)
| Double (s : text)
| Named (name : text)
| Status
| Count
| Positional (d : Z)
| AllArgs
| Substitution (cmd : text)
| Backtick (cmd : text).

Definition dq_special (c : Z) : bool := (c =? 34) || (c =? 92) || (c =? 36) || (c =? 96).
Definition quote_dq (c : Z) : text := if dq_special c then [92; c] else [c].
Definition show_segment (s : segment) : text :=
  match s with
  | Plain c => [c]
  | Escaped c => [92; c]
  | Single s => 39 :: s ++ [39]
  | Double s => 34 :: concat (quote_dq <$> s) ++ [34]
  | Named name => 36 :: 123 :: name ++ [125]
  | Status => [36; 63]
  | Count => [36; 35]
  | Positional d => [36; 48 + d]
  | AllArgs => [36; 42]
  | Substitution cmd => 36 :: 40 :: cmd ++ [41]
  | Backtick cmd => 96 :: cmd ++ [96]
  end.
Definition show_word (segs : list segment) : text := concat (show_segment <$> segs).

(** The depth of the parentheses after a text that does not close the first. *)
Fixpoint paren_depth (depth : Z) (l : text) : option Z :=
  match l with
  | [] => Some depth
  | c :: l' =>
      let depth := if c =? 40 then depth + 1 else if c =? 41 then depth - 1 else depth in
      if depth =? 0 then None else paren_depth depth l'
  end.
Definition plain_char (c : Z) : bool := negb ((c =? 92) || (c =? 39) || (c =? 34) || (c =? 36) || (c =? 96)).
Definition segment_ok (s : segment) : bool :=
  match s with
  | Plain c => plain_char c
  | Single s => forallb (is_not 39) s
  | Named name => forallb name_char name && (length name <=? 63)%nat
  | Positional d => (1 <=? d) && (d <=? 9)
  | Substitution cmd => bool_decide (paren_depth 1 cmd = Some 1) && is_not 40 (char_at cmd 0) && (Z.of_nat (length cmd) <? SH_LINE_MAX)
  | Backtick cmd => forallb (is_not 96) cmd && (Z.of_nat (length cmd) <? SH_LINE_MAX)
  | _ => true
  end.

Definition decimal (v : Z) : text := print_field false false false 0 false Signed (Num v).
Fixpoint join (ws : list text) : text :=
  match ws with [] => [] | [w] => w | w :: ws' => w ++ 32 :: join ws' end.

Section values.
Context (fuel : nat) (bufs : buffers) (sh_exec : text -> M world Z).

Definition segment_value (s : segment) : M world text :=
  match s with
  | Plain c | Escaped c => mret [c]
  | Single s | Double s => mret s
  | Named name => gets (fun w => default [] (lookup_var (w_shell w) name))
  | Status => gets (fun w => decimal (sh_last_status (w_shell w)))
  | Count => gets (fun w => decimal (Z.of_nat (length (sh_argv (w_shell w)))))
  | Positional d => gets (fun w => default [] (sh_argv (w_shell w) !! Z.to_nat (d - 1)))
  | AllArgs => gets (fun w => join (sh_argv (w_shell w)))
  | Substitution cmd => substitute sh_exec (outbuf bufs) cmd
  | Backtick cmd => substitute sh_exec (outbuf_bt bufs) cmd
  end.
(** The values in order, cut to [cap] characters; what follows a full text is not
    evaluated. *)
Fixpoint word_value (cap : nat) (segs : list segment) (dst : text) : M world text := fun w =>
  match segs with
  | [] => Done (dst, w)
  | s :: segs' =>
      if (cap <=? length dst)%nat then Done (dst, w)
      else (v ← segment_value s; word_value cap segs' (take cap (dst ++ v))) w
  end.
End values.

(** ** Lemmas *)

Lemma span_app p l c rest : forallb p l = true -> p c = false -> span p (l ++ c :: rest) = (l, c :: rest).
Proof.
  intros Hl Hc. induction l as [|d l IH]; cbn [app span forallb] in *; [by rewrite Hc|].
  apply andb_prop in Hl as [-> Hl]. by rewrite IH.
Qed.
Lemma span_max_app n p l c rest : forallb p l = true -> p c = false -> (length l <= n)%nat ->
  span_max n p (l ++ c :: rest) = (l, c :: rest).
Proof.
  intros Hl Hc. revert n. induction l as [|d l IH]; intros n Hn; cbn [app length forallb] in *.
  - destruct n; cbn [span_max]; [done|]. by rewrite Hc.
  - apply andb_prop in Hl as [Hd Hl]. destruct n as [|n]; [lia|]. cbn [span_max]. rewrite Hd, IH by (done || lia). done.
Qed.
Lemma is_not_same c : is_not c c = false.
Proof. unfold is_not. by rewrite Z.eqb_refl. Qed.

Lemma OUT_take dstsz c dst : (length dst <= Z.to_nat (dstsz - 1))%nat ->
  OUT dstsz c dst = take (Z.to_nat (dstsz - 1)) (dst ++ [c]).
Proof.
  intros Hl. unfold OUT, room. destruct (Z.ltb_spec (Z.of_nat (length dst) + 1) dstsz).
  - rewrite take_ge; [done|]. rewrite length_app. cbn [length]. lia.
  - rewrite take_app_le by lia. by rewrite take_ge by lia.
Qed.
Lemma take_take_app {A} n (a b : list A) : take n (take n a ++ b) = take n (a ++ b).
Proof.
  destruct (decide (length a <= n)%nat); [by rewrite (take_ge a) by lia|].
  rewrite take_app_le by (rewrite length_take; lia). rewrite (take_app_le a) by lia. by rewrite take_take, Nat.min_id.
Qed.
Lemma OUTS_take dstsz s dst : (length dst <= Z.to_nat (dstsz - 1))%nat ->
  OUTS dstsz s dst = take (Z.to_nat (dstsz - 1)) (dst ++ s).
Proof.
  revert dst. induction s as [|c s IH]; intros dst Hl; cbn [OUTS].
  - by rewrite app_nil_r, take_ge.
  - rewrite IH, OUT_take by (rewrite ?OUT_take, ?length_take; lia). rewrite take_take_app, <- app_assoc. done.
Qed.
Lemma quote_dq_length c : (1 <= length (quote_dq c))%nat.
Proof. unfold quote_dq. destruct (dq_special c); cbn; lia. Qed.
Lemma dquote_shown dstsz s rest dst : (length dst <= Z.to_nat (dstsz - 1))%nat ->
  dquote dstsz (concat (quote_dq <$> s) ++ 34 :: rest) dst = (rest, take (Z.to_nat (dstsz - 1)) (dst ++ s), false).
Proof.
  revert dst. induction s as [|c s IH]; intros dst Hl.
  - cbn. by rewrite app_nil_r, take_ge.
  - assert (length (OUT dstsz c dst) <= Z.to_nat (dstsz - 1))%nat as Hl' by (rewrite OUT_take, length_take; lia).
    specialize (IH _ Hl'). rewrite (OUT_take dstsz c dst Hl), take_take_app, <- app_assoc in IH.
    cbn [fmap list_fmap concat]. rewrite <- app_assoc. unfold quote_dq at 1. destruct (dq_special c) eqn:Hc.
    + cbn [app dquote]. cbn [Z.eqb Pos.eqb orb]. fold (dq_special c). rewrite Hc, (OUT_take dstsz c dst Hl). exact IH.
    + cbn [app dquote]. unfold dq_special in Hc. repeat (apply orb_false_elim in Hc as [Hc ->]). rewrite Hc. cbn [orb].
      rewrite (OUT_take dstsz c dst Hl). exact IH.
Qed.
Lemma close_parens_open d cmd rest e : paren_depth d cmd = Some e -> e = 1 ->
  close_parens d (cmd ++ 41 :: rest) = (cmd ++ [41], rest).
Proof.
  intros Hd ->. revert d Hd. induction cmd as [|c cmd IH]; intros d Hd; cbn [paren_depth app close_parens] in *.
  - by injection Hd as ->.
  - destruct (_ =? 0); [done|]. by rewrite (IH _ Hd).
Qed.
Lemma out_args_join dstsz first args dst : (length dst <= Z.to_nat (dstsz - 1))%nat ->
  out_args dstsz first args dst =
  take (Z.to_nat (dstsz - 1)) (dst ++ (if first then join args else match args with [] => [] | _ => 32 :: join args end)).
Proof.
  revert first dst. induction args as [|a args IH]; intros first dst Hl.
  { cbn [out_args join]. replace (if first then [] else []) with (@nil Z) by by destruct first. by rewrite app_nil_r, take_ge. }
  cbn [out_args]. assert (forall d, length (take (Z.to_nat (dstsz - 1)) d : text) <= Z.to_nat (dstsz - 1))%nat as Hcut
    by (intros; rewrite length_take; lia).
  assert (OUTS dstsz a (if first then dst else OUT dstsz 32 dst) =
    take (Z.to_nat (dstsz - 1)) ((if first then dst else dst ++ [32]) ++ a)) as ->.
  { destruct first; [by apply OUTS_take|]. rewrite OUT_take, OUTS_take by auto. by rewrite take_take_app. }
  rewrite IH, take_take_app by done. f_equal. destruct first, args; cbn [join]; by rewrite <- ?app_assoc, ?app_nil_r.
Qed.

Lemma formatted_decimal v : formatted (bytes_of "%d") [Num v] = Done (decimal v).
Proof.
  rewrite <- (app_nil_r (decimal v)). refine (formatted_renders [Field false false false 0 false Signed] [Num v] _ _ _ eq_refl _);
    [by apply Forall_singleton|by apply Forall_singleton|].
  unfold decimal, print_field, signed_arg, BUF_SIZE, fill. assert (- 2^31 <= s32 v < 2^31) by (unfold s32; pose proof (Z.mod_pos_bound (v + 2^31) (2^32)); lia).
  rewrite (number_dec (Z.abs (s32 v))) by lia.
  unfold dec_bytes. pose proof (length_digits 64 10 (Z.abs (s32 v))).
  rewrite !length_app, length_replicate, length_fmap. destruct (s32 v <? 0); cbn [length]; lia.
Qed.

Section expansion.
Context (fuel : nat) (bufs : buffers) (sh_exec : text -> M world Z).
Abbreviation step := (expand_step fuel bufs sh_exec).
Abbreviation value := (segment_value bufs sh_exec).

Lemma name_not_special name : forallb name_char name = true ->
  forallb (fun c => is_not 125 c && is_not 58 c && is_not 35 c) name = true.
Proof.
  rewrite !forallb_forall. intros Hn c Hc. specialize (Hn c Hc). unfold name_char in Hn. unfold is_not. to_prop. lia.
Qed.
Lemma expand_named expand dstsz name rest dst w : forallb name_char name && (length name <=? 63)%nat = true ->
  (length dst <= Z.to_nat (dstsz - 1))%nat ->
  step expand dstsz 36 (123 :: name ++ 125 :: rest) dst w =
  Done (rest, take (Z.to_nat (dstsz - 1)) (dst ++ default [] (lookup_var (w_shell w) name)), w).
Proof.
  intros [Hn Hlen%Nat.leb_le]%andb_prop Hl.
  change (step expand dstsz 36 (123 :: name ++ 125 :: rest) dst w)
    with (expand_brace expand dstsz (name ++ 125 :: rest) dst w).
  unfold expand_brace. rewrite (span_max_app 63 _ name 125 rest (name_not_special name Hn) eq_refl Hlen).
  change (char_at (125 :: rest) 0) with 125. cbn [Z.eqb Pos.eqb andb]. destruct w as [sh pi ma].
  unfold out_variable, variable, var_get, zoom, gets, mbind, M_bind, mret, M_ret. cbn.
  destruct (lookup_var sh name) as [v|]; cbn; rewrite ?OUTS_take, ?app_nil_r, ?take_ge by done; done.
Qed.
Lemma expand_number expand dstsz c v rest dst w :
  step expand dstsz 36 (c :: rest) dst w = (num ← sprint "%d" [Num v]; mret (rest, OUTS dstsz num dst)) w ->
  (length dst <= Z.to_nat (dstsz - 1))%nat ->
  step expand dstsz 36 (c :: rest) dst w = Done (rest, take (Z.to_nat (dstsz - 1)) (dst ++ decimal v), w).
Proof.
  intros -> Hl. unfold sprint. rewrite formatted_decimal. unfold mbind, M_bind, lift, mret, M_ret. by rewrite OUTS_take.
Qed.
Lemma expand_positional expand dstsz d rest dst w : 1 <= d <= 9 -> (length dst <= Z.to_nat (dstsz - 1))%nat ->
  step expand dstsz 36 (48 + d :: rest) dst w =
  Done (rest, take (Z.to_nat (dstsz - 1)) (dst ++ default [] (sh_argv (w_shell w) !! Z.to_nat (d - 1))), w).
Proof.
  intros Hd Hl. transitivity (Done (rest, match sh_argv (w_shell w) !! Z.to_nat (48 + d - 49) with
    | Some a => OUTS dstsz a dst | None => dst end, w)).
  - assert (d = 1 \/ d = 2 \/ d = 3 \/ d = 4 \/ d = 5 \/ d = 6 \/ d = 7 \/ d = 8 \/ d = 9) as Hc by lia.
    by repeat (destruct Hc as [->|Hc]; [reflexivity|]); subst.
  - replace (48 + d - 49) with (d - 1) by lia. destruct (_ !! _); cbn [default id]; rewrite ?OUTS_take, ?app_nil_r, ?take_ge by done; done.
Qed.
Lemma expand_substitution expand dstsz cmd rest dst w : segment_ok (Substitution cmd) = true ->
  (length dst <= Z.to_nat (dstsz - 1))%nat ->
  step expand dstsz 36 (40 :: cmd ++ 41 :: rest) dst w =
  (v ← value (Substitution cmd); mret (rest, take (Z.to_nat (dstsz - 1)) (dst ++ v))) w.
Proof.
  intros [[Hp%bool_decide_eq_true Hc]%andb_prop Hn%Z.ltb_lt]%andb_prop Hl.
  transitivity (expand_command bufs sh_exec dstsz (cmd ++ 41 :: rest) dst w).
  { destruct cmd as [|c cmd]; [reflexivity|]. change (char_at (c :: cmd) 0) with c in Hc.
    change (step expand dstsz 36 (40 :: (c :: cmd) ++ 41 :: rest) dst w) with
      ((if c =? 40 then expand_arith fuel dstsz (cmd ++ 41 :: rest) dst
        else expand_command bufs sh_exec dstsz ((c :: cmd) ++ 41 :: rest) dst) w).
    apply negb_true_iff in Hc. by rewrite Hc. }
  unfold expand_command. rewrite (close_parens_open 1 cmd rest 1 Hp eq_refl), length_app. cbn [length].
  replace (_ <? 1)%nat with false by (symmetry; apply Nat.ltb_ge; lia). rewrite Nat.add_sub, take_app_length, take_ge by (unfold SH_LINE_MAX in *; lia).
  cbn [segment_value]. unfold mbind, M_bind. destruct (substitute _ _ _ w) as [[v w']| | | |]; try done. unfold mret, M_ret. by rewrite OUTS_take.
Qed.
Lemma expand_backticks dstsz cmd rest dst w : segment_ok (Backtick cmd) = true ->
  (length dst <= Z.to_nat (dstsz - 1))%nat ->
  expand_backtick bufs sh_exec dstsz (cmd ++ 96 :: rest) dst w =
  (v ← value (Backtick cmd); mret (rest, take (Z.to_nat (dstsz - 1)) (dst ++ v))) w.
Proof.
  intros [Hp Hn%Z.ltb_lt]%andb_prop Hl. unfold expand_backtick. rewrite (span_app _ cmd 96 rest Hp eq_refl).
  rewrite take_ge by (unfold SH_LINE_MAX in *; lia). cbn [segment_value]. unfold mbind, M_bind.
  destruct (substitute _ _ _ w) as [[v w']| | | |]; try done. unfold mret, M_ret. by rewrite OUTS_take.
Qed.

(** One turn of expand_word() takes one segment. *)
Lemma segment_step expand dstsz s rest dst w : segment_ok s = true -> (length dst <= Z.to_nat (dstsz - 1))%nat ->
  exists c src, show_segment s ++ rest = c :: src /\
    step expand dstsz c src dst w = (v ← value s; mret (rest, take (Z.to_nat (dstsz - 1)) (dst ++ v))) w.
Proof.
  intros Hok Hl. destruct s as [c|c|t|t|name| | |d| |cmd|cmd]; cbn [show_segment app segment_ok] in *; eexists _, _; split; try reflexivity;
    rewrite <- ?app_assoc; cbn [app].
  - unfold plain_char in Hok. apply negb_true_iff in Hok. repeat (apply orb_false_elim in Hok as [Hok ?]).
    unfold expand_step, expand_special. repeat match goal with H : ?b = false |- _ => rewrite H; clear H end. unfold mret, M_ret. by rewrite OUT_take.
  - unfold expand_step. cbn [Z.eqb Pos.eqb]. unfold mret, M_ret. by rewrite OUT_take.
  - unfold expand_step. cbn [Z.eqb Pos.eqb]. rewrite (span_app _ t 39 rest Hok (is_not_same 39)). cbn [drop].
    unfold mret, M_ret. by rewrite OUTS_take.
  - unfold expand_step. cbn [Z.eqb Pos.eqb]. by rewrite (dquote_shown dstsz t rest dst Hl).
  - rewrite (expand_named expand dstsz name rest dst w) by done. reflexivity.
  - cbn [segment_value]; rewrite bind_gets. by apply (expand_number expand dstsz 63 (sh_last_status (w_shell w))).
  - cbn [segment_value]; rewrite bind_gets. by apply (expand_number expand dstsz 35 (Z.of_nat (length (sh_argv (w_shell w))))).
  - cbn [segment_value]; rewrite bind_gets. to_prop. apply expand_positional; [lia|done].
  - cbn [segment_value]; rewrite bind_gets. rewrite <- (out_args_join dstsz true _ dst Hl). reflexivity.
  - by apply expand_substitution.
  - by apply expand_backticks.
Qed.
End expansion.

Lemma show_segment_length s : (1 <= length (show_segment s))%nat.
Proof. destruct s; cbn; lia. Qed.

(** Enough turns: one for every segment. *)
Lemma expand_from_segments fuel bufs sh_exec dstsz segs : 1 <= dstsz -> forallb segment_ok segs = true ->
  forall dst n w, (length dst <= Z.to_nat (dstsz - 1))%nat -> (length (show_word segs) <= n)%nat ->
  expand_from fuel bufs sh_exec n dstsz (show_word segs) dst w = word_value bufs sh_exec (Z.to_nat (dstsz - 1)) segs dst w.
Proof.
  intros Hd Hok. induction segs as [|s segs IH]; intros dst n w Hl Hn.
  { by destruct n. }
  cbn [forallb] in Hok. apply andb_prop in Hok as [Hs Hok]. change (show_word (s :: segs)) with (show_segment s ++ show_word segs) in *.
  pose proof (show_segment_length s) as Hlen. rewrite length_app in Hn.
  destruct (segment_step fuel bufs sh_exec (fun def => expand_from fuel bufs sh_exec (pred n) SH_VAR_VALSZ def []) dstsz s
    (show_word segs) dst w Hs Hl) as (c & src & Hsrc & Hstep).
  rewrite Hsrc. destruct n as [|n]; [lia|]. cbn [pred] in Hstep. cbn [expand_from word_value].
  unfold room. destruct (Z.ltb_spec (Z.of_nat (length dst) + 1) dstsz); cbn [negb].
  - replace (_ <=? _)%nat with false by (symmetry; apply Nat.leb_gt; lia).
    unfold mbind, M_bind in Hstep |- *. rewrite Hstep. destruct (segment_value _ _ s w) as [[v w2]| | | |]; try done.
    cbn. apply IH; [done|rewrite length_take; lia|lia].
  - by replace (_ <=? _)%nat with true by (symmetry; apply Nat.leb_le; lia).
Qed.
Lemma show_plain l : show_word (Plain <$> l) = l.
Proof. induction l as [|c l IH]; [done|]. change (c :: show_word (Plain <$> l) = c :: l). by rewrite IH. Qed.
Lemma plain_value bufs sh_exec cap l dst w : (length dst <= cap)%nat ->
  word_value bufs sh_exec cap (Plain <$> l) dst w = Done (take cap (dst ++ l), w).
Proof.
  revert dst. induction l as [|c l IH]; intros dst Hl; cbn [fmap list_fmap word_value].
  - by rewrite app_nil_r, take_ge.
  - destruct (Nat.leb_spec cap (length dst)).
    + rewrite take_app_le by lia. by rewrite take_ge by lia.
    + unfold mbind, M_bind. cbn [segment_value]. unfold mret at 1, M_ret at 1. rewrite IH by (rewrite length_take; lia).
      by rewrite take_take_app, <- app_assoc.
Qed.
Lemma expanded_plain fuel bufs sh_exec dstsz l w : forallb plain_char l = true -> Z.of_nat (length l) < dstsz -> l <> [] ->
  expanded fuel bufs sh_exec dstsz l w = Done (l, w).
Proof.
  intros Hp Hl Hne. unfold expanded, expand_word. unfold mbind, M_bind. pose proof (show_plain l) as Hs.
  assert (forallb segment_ok (Plain <$> l) = true) as Hok.
  { rewrite forallb_forall in *. intros s (c & -> & Hc)%list_elem_of_In%list_elem_of_fmap. apply Hp. by apply list_elem_of_In. }
  pose proof (expand_from_segments fuel bufs sh_exec dstsz _ ltac:(lia) Hok [] (length l) w) as He.
  rewrite Hs in He. rewrite He by (cbn; lia). rewrite plain_value by (cbn; lia). cbn [app]. rewrite take_ge by lia. by destruct l.
Qed.

(** C33: expand_word() of a word built of characters, escapes, single and double
    quotes, parameters and command substitutions gives the values of its pieces one
    after the other, cut to the size of the array; nothing after a full array is
    evaluated, and no turn is missing. *)
Theorem expand_word_segments fuel bufs sh_exec dstsz segs w : 1 <= dstsz -> forallb segment_ok segs = true ->
  expand_word fuel bufs sh_exec dstsz (show_word segs) w =
  word_value bufs sh_exec (Z.to_nat (dstsz - 1)) segs [] w.
Proof. intros Hd Hok. apply expand_from_segments; [done|done|cbn; lia|done]. Qed.

(** ** Arguments *)

Definition token_plain (c : Z) : bool := plain_char c && negb (token_end c).
(** A word as an argument: as it is, or in single quotes. *)
Definition quote_arg (w : text) : text :=
  match w with [] => [39; 39] | _ => if forallb token_plain w then w else 39 :: w ++ [39] end.
Definition arg_bytes (ws : list text) : Z := foldr (fun w n => Z.of_nat (length w) + 1 + n) 0 ws.

Lemma arg_bytes_nonneg ws : 0 <= arg_bytes ws.
Proof. induction ws as [|l ws IH]; [done|]. change (0 <= Z.of_nat (length l) + 1 + arg_bytes ws). lia. Qed.

Section splitting.
Context (fuel : nat) (bufs : buffers) (sh_exec : text -> M world Z) (bufsz : Z).

Lemma put_chars lit t : snd t + Z.of_nat (length lit) < bufsz ->
  fold_left (fun t c => put_char bufsz c t) lit t = (fst t ++ lit, snd t + Z.of_nat (length lit)).
Proof.
  revert t. induction lit as [|c lit IH]; intros [a k] Hk; cbn [fst snd length fold_left] in *.
  - by rewrite app_nil_r, Z.add_0_r.
  - unfold put_char at 2. cbn [fst snd]. replace (k + 1 <? bufsz) with true by blia. rewrite IH; cbn [fst snd]; [|lia].
    rewrite <- app_assoc. cbn [app].
    by replace (k + 1 + Z.of_nat (length lit)) with (k + Z.of_nat (S (length lit))) by lia.
Qed.
Lemma token_step_plain c p t w : token_plain c = true -> snd t + 1 < bufsz ->
  token_step fuel bufs sh_exec bufsz c p t w = Done ((p, (fst t ++ [c], snd t + 1)), w).
Proof.
  intros [Hp _]%andb_prop Ht. unfold plain_char in Hp. apply negb_true_iff in Hp. repeat (apply orb_false_elim in Hp as [Hp ?]).
  unfold token_step, put_char. repeat match goal with H : ?b = false |- _ => rewrite H; clear H end. cbn [orb].
  by replace (snd t + 1 <? bufsz) with true by blia.
Qed.
(** A token ends with its text or at a blank. *)
Definition token_stops (rest : text) : Prop := match rest with [] => True | c :: _ => token_end c = true end.
Lemma token_stop n rest t w : token_stops rest -> token fuel bufs sh_exec n bufsz rest t w = Done ((rest, t), w).
Proof. destruct rest as [|c rest]; intros Hs; [by destruct n|]. destruct n; cbn; by rewrite Hs. Qed.
Lemma token_plain_run l rest n t w : forallb token_plain l = true -> token_stops rest -> (length l <= n)%nat ->
  snd t + Z.of_nat (length l) < bufsz ->
  token fuel bufs sh_exec n bufsz (l ++ rest) t w = Done ((rest, (fst t ++ l, snd t + Z.of_nat (length l))), w).
Proof.
  revert n t. induction l as [|c l IH]; intros n t Hl Hs Hn Ht; cbn [app length forallb] in *.
  - rewrite app_nil_r, Z.add_0_r, token_stop by done. by destruct t.
  - apply andb_prop in Hl as [Hc Hl]. destruct n as [|n]; [lia|]. cbn [token].
    pose proof Hc as [_ He%negb_true_iff]%andb_prop. rewrite He. unfold mbind, M_bind.
    rewrite token_step_plain by (done || lia). rewrite IH; cbn [fst snd]; [|done|done|lia|lia].
    rewrite <- app_assoc. cbn [app]. by replace (snd t + 1 + Z.of_nat (length l)) with (snd t + Z.of_nat (S (length l))) by lia.
Qed.
Lemma token_quoted_run l rest n t w : forallb (is_not 39) l = true -> token_stops rest -> (1 <= n)%nat ->
  snd t + Z.of_nat (length l) < bufsz ->
  token fuel bufs sh_exec n bufsz (39 :: l ++ 39 :: rest) t w = Done ((rest, (fst t ++ l, snd t + Z.of_nat (length l))), w).
Proof.
  intros Hl Hs Hn Ht. destruct n as [|n]; [lia|]. cbn [token]. change (token_end 39) with false. cbn iota.
  unfold mbind, M_bind, token_step. cbn [Z.eqb Pos.eqb]. rewrite (span_app _ l 39 rest Hl (is_not_same 39)). unfold mret at 1, M_ret at 1.
  cbn [drop]. rewrite put_chars by done. by apply token_stop.
Qed.
Lemma token_run l rest n t w : forallb (is_not 39) l = true -> token_stops rest -> (length (quote_arg l ++ rest) <= n)%nat ->
  snd t + Z.of_nat (length l) < bufsz ->
  token fuel bufs sh_exec n bufsz (quote_arg l ++ rest) t w = Done ((rest, (fst t ++ l, snd t + Z.of_nat (length l))), w).
Proof.
  intros Hl Hs Hn Ht. unfold quote_arg in *. destruct l as [|c l].
  { apply (token_quoted_run [] rest n t w); [done|done|cbn in Hn; lia|done]. }
  destruct (forallb token_plain (c :: l)) eqn:Hp; [|replace ((39 :: (c :: l) ++ [39]) ++ rest) with (39 :: (c :: l) ++ 39 :: rest)
    in * by (cbn; by rewrite <- app_assoc)].
  - apply token_plain_run; try done. rewrite length_app in Hn. lia.
  - apply token_quoted_run; try done. cbn in Hn. lia.
Qed.
Lemma quote_arg_head l rest : exists c p, quote_arg l ++ rest = c :: p /\ (c =? 32) || (c =? 9) = false /\
  (c =? 35) || (c =? 10) || (c =? 59) = false.
Proof.
  unfold quote_arg. destruct l as [|c l]; [by exists 39, (39 :: rest)|].
  destruct (forallb token_plain (c :: l)) eqn:Hp; [|by eexists 39, _].
  exists c, (l ++ rest). split; [done|]. cbn [forallb] in Hp. apply andb_prop in Hp as [[_ He]%andb_prop _].
  unfold token_end in He. to_prop. split; to_prop; lia.
Qed.
Definition blank_prefix (first : bool) (ws : list text) : text := if first then [] else match ws with [] => [] | _ => [32] end.
Lemma join_cons l ws : join (quote_arg <$> (l :: ws)) = quote_arg l ++ blank_prefix false ws ++ join (quote_arg <$> ws).
Proof. destruct ws; cbn; [by rewrite app_nil_r|done]. Qed.
Lemma tokens_run ws first n used w : forallb (forallb (is_not 39)) ws = true -> (length ws <= n)%nat ->
  used + arg_bytes ws <= bufsz ->
  tokens fuel bufs sh_exec n bufsz (blank_prefix first ws ++ join (quote_arg <$> ws)) used w = Done (ws, w).
Proof.
  revert first n used. induction ws as [|l ws IH]; intros first n used Hws Hn Hb.
  { replace (blank_prefix first [] ++ join (quote_arg <$> [])) with (@nil Z) by by destruct first. by destruct n. }
  cbn [forallb length arg_bytes foldr] in Hws, Hn, Hb. fold (arg_bytes ws) in Hb. apply andb_prop in Hws as [Hl Hws].
  pose proof (arg_bytes_nonneg ws).
  destruct n as [|n]; [lia|]. cbn [tokens]. rewrite join_cons.
  set (rest := blank_prefix false ws ++ join (quote_arg <$> ws)).
  destruct (quote_arg_head l rest) as (c & p & Hp & Hblank & Hstop).
  assert (snd (span (fun c => (c =? 32) || (c =? 9)) (blank_prefix first (l :: ws) ++ quote_arg l ++ rest)) = quote_arg l ++ rest) as ->.
  { destruct first; cbn [blank_prefix app]; rewrite Hp; cbn [span Z.eqb Pos.eqb orb snd]; rewrite Hblank; done. }
  rewrite Hp, Hstop, <- Hp. unfold mbind, M_bind.
  rewrite (token_run l rest _ ([], used) w); cbn [fst snd app]; [|done| |lia|lia].
  - replace (bufsz <=? _) with false by blia. unfold rest. by rewrite (IH false) by (done || lia).
  - unfold rest. destruct ws; done.
Qed.
End splitting.

(** Tokenize() reads back what was quoted: words without single quotes, written
    as they are or in single quotes and separated by blanks, are split into exactly
    these words, empty ones included, when they fit the array and the buffer. *)
Theorem tokenize_quoted fuel bufs sh_exec bufsz ws w : forallb (forallb (is_not 39)) ws = true ->
  Z.of_nat (length ws) < SH_MAX_ARGS -> arg_bytes ws <= bufsz ->
  tokenize fuel bufs sh_exec bufsz (join (quote_arg <$> ws)) w = Done (ws, w).
Proof.
  intros Hws Hn Hb. unfold SH_MAX_ARGS in Hn. apply (tokens_run fuel bufs sh_exec bufsz ws true); [done|unfold SH_MAX_ARGS; lia|lia].
Qed.

(** ** Witnesses: a command prints itself *)

Definition world_words : world :=
  World (set_argv [bytes_of "p"; bytes_of "q"] shell_sample) (Pipes (fun _ => []) [] [])
    (Machine sys_boot 0 0 0 (Pci (fun _ => pci_zero) 0) (Acpi 0 5) (Nic 0 [] 0 0 (fun _ => 0) 0 [] []) (BootFb 0 0 0 0 0 0)).
Definition bufs_words : buffers := Buffers 0x100000 0x110000 0x120000 0x130000.
Definition exec_words (cmd : text) : M world Z := zoom (T := kout kstate) (kputs_raw 10 cmd);; mret 0.
Definition segs_words : list segment :=
  [Plain 97; Single (bytes_of "$ "); Double [34; 36]; Named (bytes_of "x"); Count; Positional 2; Status; AllArgs;
   Substitution (bytes_of "ls (a)"); Escaped 39].
Definition text_words (r : outcome (text * world)) : option text := match r with Done (t, _) => Some t | _ => None end.
Lemma expand_word_segments_witness :
  show_word segs_words = bytes_of "a'$ '" ++ [34; 92; 34; 92; 36; 34] ++ bytes_of "${x}$#$2$?$*$(ls (a))\'" /\
  text_words (expand_word 10 bufs_words exec_words 512 (show_word segs_words) world_words) =
    Some (bytes_of "a$ " ++ [34; 36] ++ bytes_of "12q0p qls (a)'").
Proof.
  split; [by vm_compute|]. rewrite (expand_word_segments 10 bufs_words exec_words 512 segs_words world_words); [by vm_compute|lia|reflexivity].
Defined.
Lemma tokenize_quoted_witness :
  join (quote_arg <$> [bytes_of "ls"; []; bytes_of "a b"]) = bytes_of "ls '' 'a b'" /\
  tokenize 10 bufs_words exec_words 32 (bytes_of "ls '' 'a b'") world_words = Done ([bytes_of "ls"; []; bytes_of "a b"], world_words).
Proof.
  split; [by vm_compute|].
  refine (tokenize_quoted 10 bufs_words exec_words 32 [bytes_of "ls"; []; bytes_of "a b"] world_words _ _ _); [reflexivity|by vm_compute|by vm_compute].
Defined.
