(* ===== verification/ShellRun.v ===== *)
(** * Commands of the shell (sh_run_simple() and the pipelines of src/src/shell/sh.c)

    The commands of the interpreter itself, calls of functions, aliases, redirections
    and pipelines. sh_exec() and sh_run_string(), which they call, are parameters
    here; ShellScript ties the knot. [live] lists the bodies of the functions being
    run: freeing one of them is undefined, since it is still read. *)

From Stdlib Require Import Ascii.
From S2P Require Import Prelude Pmm Mem Strings Vmm UserSpace ElfLoad Heap Cpu Sched Input Console Shm Vfs Devfs Printf Arith UnixSocket System Machine ShellVars ShellWords.

(** ** Texts *)

Definition string_of (l : text) : string := String.string_of_list_ascii ((fun c => Ascii.ascii_of_N (Z.to_N c)) <$> l).
(** Up to the terminator. *)
Definition cstring (l : text) : text := fst (span (is_not 0) l).
Definition eqs (s : string) (l : text) : bool := bool_decide (l = bytes_of s).
(** strstr() *)
Fixpoint find_sub (s : string) (l : text) : option nat :=
  if starts s l then Some O else match l with [] => None | _ :: l' => S <$> find_sub s l' end.
Definition cut_at (s : string) (l : text) : text := match find_sub s l with Some i => take i l | None => l end.
(** strtol(): the end of the text bounds the loops. *)
Definition strtol_text (base : Z) (s : text) : outcome Z :=
  match strtol (S (S (length s))) (bytes_at (s ++ [0])) 0 base with Some (v, _) => Done v | None => OutOfFuel end.
(** strncat() into an array of [size], all of the room that is left. *)
Definition strncat_text (size : Z) (dst s : text) : text := dst ++ take (Z.to_nat (size - 1) - length dst) s.
Definition blanks (l : text) : text := snd (span (fun c => c =? 32) l).

Definition in_shell {A} (m : M shell A) : M world A := zoom m.
Definition on_heap {A} (m : M heap A) : M world A := zoom m.
Definition on_vfs {A} (m : M (vfs kstate) A) : M world A := zoom m.

(** ** Functions *)

Definition func_index (s : shell) (name : text) : option Z := find_name (fun i => f_name (sh_funcs s i)) (sh_nfunc s) name.
Definition func_find (name : text) : M world (option Z) := gets (fun w => func_index (w_shell w) name).
(** strdup() of a text outside of the memory of the model. *)
Definition dup_text (s : text) : M heap Z :=
  p ← kmalloc (Z.of_nat (length s) + 1);
  if p =? 0 then mret 0
  else modify (fun h => set_kmem (store_bytes (kmem h) p (s ++ [0])) h);; mret p.
Definition func_set (live : list Z) (name body : text) : M world unit :=
  s ← gets w_shell;
  match func_index s name with
  | None =>
      if SH_MAX_FUNCS <=? sh_nfunc s then mret tt
      else
        let i := sh_nfunc s in
        in_shell (put (set_funcs (<[i := Func (field SH_VAR_NAMSZ name) 0]> (sh_funcs s)) (i + 1) s));;
        p ← on_heap (dup_text body);
        in_shell (modify (fun s => set_funcs (<[i := Func (f_name (sh_funcs s i)) p]> (sh_funcs s)) (sh_nfunc s) s))
  | Some i =>
      if bool_decide (f_body (sh_funcs s i) ∈ live) then ub
      else
        on_heap (kfree (f_body (sh_funcs s i)));;
        p ← on_heap (dup_text body);
        in_shell (modify (fun s => set_funcs (<[i := Func (f_name (sh_funcs s i)) p]> (sh_funcs s)) (sh_nfunc s) s))
  end.
(** The body of a function: at most what the array it is collected in holds. *)
Definition SH_BODY_MAX : Z := SH_LINE_MAX * 8.
Definition body_text (a : Z) : M world text := string_at (Z.to_nat SH_BODY_MAX) a.

Section run.
Context (fuel : nat) (bufs : buffers).
#[local] Instance shell_devices : Devices kstate := kernel_devices fuel.

(** kprintf() *)
Definition print (fmt : text) (args : list arg) : M world unit := zoom (T := machine) (say fuel fmt args).
Definition str (s : text) : arg := Str (Some s).

(** ** Commands of the interpreter *)

Fixpoint echo_text (s : text) : M world unit :=
  match s with
  | [] => mret tt
  | c :: s' =>
      if c =? 92 then
        match s' with
        | [] => print (bytes_of "%c") [Num c]
        | d :: s'' =>
            (if d =? 110 then print nl []
             else if d =? 116 then print [9] []
             else if d =? 114 then print [13] []
             else if d =? 92 then print [92] []
             else if (d =? 101) || (d =? 69) then mret tt
             else print [92] [];; print (bytes_of "%c") [Num d]);;
            echo_text s''
        end
      else print (bytes_of "%c") [Num c];; echo_text s'
  end.
Fixpoint echo_args (first : bool) (args : list text) : M world unit :=
  match args with
  | [] => mret tt
  | a :: args' => (if first then mret tt else print [32] []);; echo_text a;; echo_args false args'
  end.
Definition sh_echo (args : list text) : M world Z :=
  let n := match args with a :: _ => eqs "-n" a | [] => false end in
  echo_args true (if n then tail args else args);;
  (if n then mret tt else print nl []);;
  mret 0.

(** A number for a conversion: the next argument, or 0. *)
Definition next_number (base : Z) (args : list text) : M world (Z * list text) :=
  match args with [] => mret (0, []) | a :: args' => v ← lift (strtol_text base a); mret (s32 v, args') end.
Definition printf_directive (d : Z) (args : list text) : M world (list text) :=
  let unsigned fmt := '(v, args) ← next_number 0 args; print (bytes_of fmt) [Num (u32 v)];; mret args in
  if d =? 115 then print (bytes_of "%s") [str (default [] (head args))];; mret (tail args)
  else if d =? 100 then '(v, args) ← next_number 10 args; print (bytes_of "%d") [Num v];; mret args
  else if d =? 105 then '(v, args) ← next_number 0 args; print (bytes_of "%d") [Num v];; mret args
  else if d =? 120 then unsigned "%x"%string
  else if d =? 88 then unsigned "%X"%string
  else if d =? 111 then unsigned "%o"%string
  else if d =? 37 then print (bytes_of "%%") [];; mret args
  else print (bytes_of "%%%c") [Num d];; mret args.
Definition printf_escape (d : Z) : M world unit :=
  if d =? 110 then print nl []
  else if d =? 116 then print [9] []
  else if d =? 92 then print [92] []
  else print [92; 37; 99] [Num d].
(** The format with what follows it in memory: a backslash at its end also takes the
    terminator. *)
Fixpoint printf_text (fmt : text) (args : list text) : M world unit :=
  match fmt with
  | [] => ub
  | c :: fmt' =>
      if c =? 0 then mret tt
      else
        match fmt' with
        | [] => ub
        | d :: fmt'' =>
            if (c =? 37) && nonzero d then args ← printf_directive d args; printf_text fmt'' args
            else if c =? 92 then printf_escape d;; printf_text fmt'' args
            else print (bytes_of "%c") [Num c];; printf_text fmt' args
        end
  end.
Definition sh_printf (args : list text) : M world Z :=
  match args with
  | [] => mret 1
  | fmt :: args' => printf_text (concat ((fun a => a ++ [0]) <$> args)) args';; mret 0
  end.

(** At most [KBD_BUF_SIZE] keys are queued. *)
Definition sh_read (args : list text) : M world Z :=
  buf ← iter (Z.to_nat KBD_BUF_SIZE) (fun buf : text =>
    c ← zoom (T := input) keyboard_getkey;
    if (c =? 10) || (c =? 13) || (255 <=? Z.of_nat (length buf)) then mret (inr buf)
    else mret (inl (if c =? 8 then removelast buf else buf ++ [u8 c]))) [];
  print nl [];;
  match args with a :: _ => in_shell (var_set a (cstring buf) false) | [] => mret tt end;;
  mret 0.

(** NAME=VALUE *)
Definition split_assign (a : text) : option (text * text) :=
  let '(name, rest) := span (is_not 61) a in
  match rest with [] => None | _ :: val => Some (field SH_VAR_NAMSZ name, val) end.

Definition export_one (a : text) : M world unit :=
  match split_assign a with
  | Some (name, val) => in_shell (var_set name val true)
  | None => i ← in_shell (var_find a); in_shell (match i with Some i => var_export i | None => var_set a [] true end)
  end.
Fixpoint each {A} (f : A -> M world unit) (l : list A) : M world unit :=
  match l with [] => mret tt | a :: l' => f a;; each f l' end.
Definition sh_export (args : list text) : M world Z := each export_one args;; mret 0.
Definition sh_unset (args : list text) : M world Z := each (fun a => in_shell (var_unset a)) args;; mret 0.

(** A negative count reads before the array. *)
Definition sh_shift (args : list text) : M world Z :=
  n ← (match args with a :: _ => v ← lift (strtol_text 10 a); mret (s32 v) | [] => mret 1 end);
  argv ← gets (fun w => sh_argv (w_shell w));
  if n <? 0 then ub
  else in_shell (modify (set_argv (drop (Z.to_nat n) argv)));; mret 0.

Definition strip_quotes (val : text) : text :=
  match val with
  | c :: rest => if ((c =? 39) || (c =? 34)) && (List.last val 0 =? c) then removelast rest else val
  | [] => []
  end.
Definition alias_line (name val : text) : M world unit := print (bytes_of "alias %s='%s'" ++ nl) [str name; str val].
Definition alias_one (a : text) : M world unit :=
  match split_assign a with
  | Some (name, val) => in_shell (alias_set name (strip_quotes val))
  | None => v ← in_shell (alias_get a); match v with Some v => alias_line a v | None => mret tt end
  end.
Definition sh_alias (args : list text) : M world Z :=
  s ← gets w_shell;
  match args with
  | [] => each (fun i => alias_line (a_name (sh_aliases s i)) (a_val (sh_aliases s i))) (seqZ 0 (sh_nalias s))
  | _ => each alias_one args
  end;;
  mret 0.

Definition type_one (a : text) : M world unit :=
  al ← in_shell (alias_get a);
  fn ← func_find a;
  match al, fn with
  | Some v, _ => print (bytes_of "%s: aliased to %s" ++ nl) [str a; str v]
  | None, Some _ => print (bytes_of "%s is a shell function" ++ nl) [str a]
  | None, None => print (bytes_of "%s is a shell builtin/command" ++ nl) [str a]
  end.
Definition sh_type (args : list text) : M world Z := each type_one args;; mret 0.
Definition sh_env : M world Z :=
  s ← gets w_shell;
  each (fun i => let v := sh_vars s i in
    if v_exported v then print (bytes_of "%s=%s" ++ nl) [str (v_name v); str (v_val v)] else mret tt) (seqZ 0 (sh_nvar s));;
  mret 0.

(** ** test *)

Definition status_of (b : bool) : Z := if b then 0 else 1.
Definition is_type (t : VFSNodeType) (path : text) : M world Z :=
  '(r, t', _) ← on_vfs (vfs_stat (string_of path)); mret (status_of ((r =? 0) && bool_decide (t' = t))).
Definition test_one (op x : text) : M world Z :=
  if eqs "-z" op then mret (status_of (length x =? 0)%nat)
  else if eqs "-n" op then mret (status_of (negb (length x =? 0)%nat))
  else if eqs "-f" op then is_type VFS_FILE x
  else if eqs "-d" op then is_type VFS_DIR x
  else if eqs "-e" op then r ← on_vfs (vfs_resolve (string_of x)); mret (status_of (0 <=? r))
  else mret 1.
Definition compare_op (op : text) : option (Z -> Z -> bool) :=
  if eqs "-eq" op then Some Z.eqb
  else if eqs "-ne" op then Some (fun a b => negb (a =? b))
  else if eqs "-lt" op then Some Z.ltb
  else if eqs "-le" op then Some Z.leb
  else if eqs "-gt" op then Some Z.gtb
  else if eqs "-ge" op then Some Z.geb
  else None.
Definition test_two (a op b : text) : M world Z :=
  if eqs "=" op then mret (status_of (bool_decide (a = b)))
  else if eqs "!=" op then mret (status_of (bool_decide (a <> b)))
  else
    x ← lift (strtol_text 10 a);
    y ← lift (strtol_text 10 b);
    mret (match compare_op op with Some f => status_of (f x y) | None => 1 end).
Definition sh_test (bracket : bool) (args : list text) : M world Z :=
  let args := if bracket && eqs "]" (List.last args []) then removelast args else args in
  match args with
  | [] => mret 1
  | [a] => mret (status_of (negb (length a =? 0)%nat))
  | [op; x] => test_one op x
  | [a; op; b] => test_two a op b
  | _ => mret 1
  end.

Definition builtin (cmd : text) (args : list text) : option (M world Z) :=
  if eqs "true" cmd then Some (mret 0)
  else if eqs "false" cmd then Some (mret 1)
  else if eqs ":" cmd then Some (mret 0)
  else if eqs "echo" cmd then Some (sh_echo args)
  else if eqs "printf" cmd then Some (sh_printf args)
  else if eqs "read" cmd then Some (sh_read args)
  else if eqs "export" cmd then Some (sh_export args)
  else if eqs "unset" cmd then Some (sh_unset args)
  else if eqs "shift" cmd then Some (sh_shift args)
  else if eqs "alias" cmd then Some (sh_alias args)
  else if eqs "type" cmd || eqs "which" cmd then Some (sh_type args)
  else if eqs "env" cmd then Some sh_env
  else if eqs "test" cmd then Some (sh_test false args)
  else if eqs "[" cmd then Some (sh_test true args)
  else None.

Section knot.
Context (sh_exec sh_run_string : list Z -> text -> M world Z).
(** The commands outside of the interpreter. *)
Context (shell_exec_builtin : list Z -> list text -> M world Z).

Definition expand_to (live : list Z) (size : Z) (src : text) : M world text := expanded fuel bufs (sh_exec live) size src.

Definition call_function (live : list Z) (body : Z) (args : list text) : M world Z :=
  saved ← gets (fun w => sh_argv (w_shell w));
  in_shell (modify (set_argv args));;
  script ← body_text body;
  ret ← sh_run_string (body :: live) script;
  in_shell (modify (set_argv saved));;
  mret ret.
Definition run_alias (live : list Z) (val : text) (args : list text) : M world Z :=
  e ← expand_to live SH_LINE_MAX val;
  sh_exec live (fold_left (fun e a => strncat_text SH_LINE_MAX (strncat_text SH_LINE_MAX e [32]) a) args e).
Definition run_other (live : list Z) (cmd : text) (args : list text) : M world Z :=
  s ← gets w_shell;
  let body := match func_index s cmd with Some i => f_body (sh_funcs s i) | None => 0 end in
  if nonzero body then call_function live body args
  else
    al ← in_shell (alias_get cmd);
    match al with
    | Some val => run_alias live val args
    | None => shell_exec_builtin live (cmd :: args)
    end.
Fixpoint sh_run_simple (live : list Z) (argv : list text) : M world Z :=
  match argv with
  | [] => mret 0
  | cmd :: args =>
      match builtin cmd args with
      | Some m => m
      | None =>
          match split_assign cmd with
          | Some (name, val) =>
              if char_at cmd 0 =? 61 then run_other live cmd args
              else
                e ← expand_to live SH_VAR_VALSZ val;
                in_shell (var_set name e false);;
                match args with [] => mret 0 | _ => sh_run_simple live args end
          | None => run_other live cmd args
          end
      end
  end.

(** ** Pipelines *)

(** The text of a stage so far, the quotes and parentheses that are open, and the
    number of stages before it. *)
Record splitter := Split { in_sq : bool; in_dq : bool; depth_paren : Z; nstages : Z; stage : text }.
Definition split_start : splitter := Split false false 0 0 [].
Definition split_char (c next : Z) (s : splitter) : splitter + text :=
  let add := if Z.of_nat (length (stage s)) <? SH_LINE_MAX - 1 then stage s ++ [c] else stage s in
  if (c =? 39) && negb (in_dq s) then inl (Split (negb (in_sq s)) (in_dq s) (depth_paren s) (nstages s) add)
  else if (c =? 34) && negb (in_sq s) then inl (Split (in_sq s) (negb (in_dq s)) (depth_paren s) (nstages s) add)
  else if negb (in_sq s) && negb (in_dq s) then
    if c =? 40 then inl (Split false false (depth_paren s + 1) (nstages s) add)
    else if c =? 41 then inl (Split false false (depth_paren s - 1) (nstages s) add)
    else if (c =? 124) && (depth_paren s =? 0) && negb (next =? 124) then inr (stage s)
    else inl (Split false false (depth_paren s) (nstages s) add)
  else inl (Split (in_sq s) (in_dq s) (depth_paren s) (nstages s) add).
(** After eight stages the rest is dropped. *)
Fixpoint split_stages (l : text) (s : splitter) : list text :=
  match l with
  | [] => [stage s]
  | c :: l' =>
      if 8 <=? nstages s then [stage s]
      else
        match split_char c (char_at l' 0) s with
        | inl s' => split_stages l' s'
        | inr done => done :: split_stages l' (Split false false 0 (nstages s + 1) [])
        end
  end.
Definition put_stages (ss : list text) : M world unit :=
  zoom (modify (fun p => Pipes (fun i => if 0 <=? i then default (stages p i) (ss !! Z.to_nat i) else stages p i) (out_name p) (app_name p))).

(** The command without its redirections, and the files they name. *)
Record redirections := Redirections { stripped : text; redir_out : option text; redir_app : option text; redir_in : option text }.
Fixpoint redirects (n : nat) (l : text) (r : redirections) : redirections :=
  let file l := span_max 127 (is_not 32) (blanks l) in
  match n, l with
  | S n', c :: l' =>
      if (c =? 62) && (char_at l' 0 =? 62) then
        let '(name, rest) := file (drop 1 l') in redirects n' rest (Redirections (stripped r) (redir_out r) (Some name) (redir_in r))
      else if starts "2>&1" l then redirects n' (drop 4 l) r
      else if starts "2>" l then redirects n' (snd (file (drop 2 l))) r
      else if c =? 62 then
        let '(name, rest) := file l' in redirects n' rest (Redirections (stripped r) (Some name) (redir_app r) (redir_in r))
      else if c =? 60 then
        let '(name, rest) := file l' in redirects n' rest (Redirections (stripped r) (redir_out r) (redir_app r) (Some name))
      else redirects n' l' (Redirections (stripped r ++ [c]) (redir_out r) (redir_app r) (redir_in r))
  | _, _ => r
  end.
Definition put_names (r : redirections) : M world unit :=
  zoom (modify (fun p => Pipes (stages p) (default (out_name p) (redir_out r)) (default (app_name p) (redir_app r)))).

Definition stdin_var : text := bytes_of "STDIN_CONTENT".
Definition read_stdin (name : text) : M world unit :=
  fd ← on_vfs (vfs_open (string_of name) VFS_O_READ);
  if fd <? 0 then mret tt
  else
    '(n, bytes) ← on_vfs (vfs_read fd (SH_PIPE_BUF - 1));
    on_vfs (vfs_close fd);;
    in_shell (var_set stdin_var (cstring (take (Z.to_nat n) bytes)) false).
(** The output of the command, in the buffer [buf]. *)
Definition captured (live : list Z) (buf : Z) (cmd : text) : M world Z :=
  zoom (T := kout kstate) (kout_redirect buf SH_PIPE_BUF);;
  ret ← sh_exec live cmd;
  zoom (T := kout kstate) kout_reset;;
  mret ret.
Definition write_file (name : pipes -> text) (flags : Z) : M world unit :=
  path ← gets (fun w => name (w_pipes w));
  fd ← on_vfs (vfs_open (string_of path) flags);
  if fd <? 0 then mret tt
  else
    content ← string_at (Z.to_nat SH_PIPE_BUF) (redir_obuf bufs);
    on_vfs (vfs_write fd content);;
    on_vfs (vfs_close fd);;
    mret tt.
(** The files are named by static arrays, which the command may overwrite. *)
Definition run_redirected (live : list Z) (r : redirections) : M world Z :=
  put_names r;;
  match redir_in r with Some name => read_stdin name | None => mret tt end;;
  match redir_out r, redir_app r with
  | Some _, _ =>
      ret ← captured live (redir_obuf bufs) (stripped r);
      write_file out_name (Z.lor VFS_O_WRITE (Z.lor VFS_O_CREATE VFS_O_TRUNC));;
      mret ret
  | None, Some _ =>
      ret ← captured live (redir_obuf bufs) (stripped r);
      write_file app_name (Z.lor VFS_O_WRITE VFS_O_CREATE);;
      mret ret
  | None, None => sh_exec live (stripped r)
  end.
(** A command that fills the array leaves its copy without a terminator. *)
Definition run_single (live : list Z) (cmd : text) : M world Z :=
  if SH_LINE_MAX - 1 <=? Z.of_nat (length cmd) then ub
  else run_redirected live (redirects (length cmd) cmd (Redirections [] None None None)).

(** [k] stages from stage [i] of [n]; the previous one left [ret]. *)
Fixpoint run_stages (live : list Z) (k : nat) (i n ret : Z) : M world Z :=
  match k with
  | O => mret ret
  | S k' =>
      src ← gets (fun w => stages (w_pipes w) i);
      cmd ← expand_to live SH_LINE_MAX src;
      (if 0 <? i then
         input ← string_at (Z.to_nat SH_PIPE_BUF) (pipe_buf bufs);
         in_shell (var_set stdin_var input false)
       else mret tt);;
      ret ← (if i <? n - 1 then captured live (pipe_buf bufs) cmd else sh_exec live cmd);
      run_stages live k' (i + 1) n ret
  end.
Definition sh_run_pipeline (live : list Z) (line : text) : M world Z :=
  let ss := split_stages line split_start in
  put_stages ss;;
  match ss with
  | [cmd] => run_single live cmd
  | _ =>
      on_heap (modify (fun h => set_kmem (store_bytes (kmem h) (pipe_buf bufs) [0]) h));;
      run_stages live (length ss) 0 (Z.of_nat (length ss)) 0
  end.
End knot.
End run.
