(* ===== verification/ShellScript.v ===== *)
(** * Scripts of the shell (sh_exec_block() of src/src/shell/sh.c and what calls it)

    Control flow: function definitions, conditionals, loops, case, and the calls that
    run a string, a file or a line. The pointer into the script is the text that is
    left. Every turn of a block takes a line, so the length of the script bounds the
    block; [fuel] bounds while loops, and [n] the depth of calls. *)

From S2P Require Import Prelude Pmm Mem Strings Vmm UserSpace ElfLoad Heap Cpu Sched Input Console Shm Vfs Devfs Printf Arith UnixSocket System Machine ShellVars ShellWords ShellRun.

Definition SH_FLOW_NONE : Z := 0.
Definition SH_FLOW_BREAK : Z := 1.
Definition SH_FLOW_CONTINUE : Z := 2.
Definition SH_FLOW_RETURN : Z := 3.

(** ** Lines *)

Definition skip_blank (l : text) : text := snd (span is_blank l).
Definition to_newline (l : text) : text := snd (span (is_not 10) l).
(** After the end of the line. *)
Definition next_line (l : text) : text := drop 1 (to_newline l).

(** A logical line, and the rest from its end. *)
Fixpoint logical_line (l acc : text) : text * text :=
  match l with
  | [] => (acc, [])
  | c :: l' =>
      if (c =? 10) || (c =? 59) then (acc, l)
      else if c =? 35 then (acc, to_newline l)
      else
        let keep := if Z.of_nat (length acc) <? SH_LINE_MAX - 1 then acc ++ [c] else acc in
        match l' with
        | d :: l'' => if (c =? 92) && (d =? 10) then logical_line l'' acc else logical_line l' keep
        | [] => logical_line l' keep
        end
  end.
Definition ends_word (c : Z) : bool := (c =? 0) || (c =? 32).
(** A keyword at the start of a line. *)
Definition keyword (k : string) (line : text) : bool := starts k line && ends_word (char_at line (String.length k)).

(** The name of the function that a line starts to define. The array for the name of
    the second form is filled without a bound. *)
Definition function_head (line : text) : outcome (option text) :=
  let fl := blanks line in
  if starts "function " fl then
    Done (Some (fst (span_max 63 (fun c => is_not 32 c && is_not 40 c) (blanks (drop 9 fl)))))
  else
    let '(name, tp) := span (fun c => is_not 40 c && is_not 32 c) fl in
    if SH_VAR_NAMSZ <=? Z.of_nat (length name) then Undefined
    else Done (if starts "()" tp && (char_at (blanks (drop 2 tp)) 0 =? 123) then Some name else None).
(** Lines without their indentation, up to one that [stop] takes; an array of [cap]
    bytes holds them. *)
Fixpoint lines_until (stop : text -> option text) (cap : Z) (n : nat) (p acc : text) : text * text :=
  match n, p with
  | S n', _ :: _ =>
      let p := skip_blank p in
      match stop p with
      | Some rest => (acc, rest)
      | None =>
          let '(line, rest) := span (is_not 10) p in
          lines_until stop cap n' (drop 1 rest) (take (Z.to_nat (cap - 1)) (acc ++ line ++ [10]))
      end
  | _, _ => (acc, p)
  end.
Definition function_body (p : text) : text * text :=
  lines_until (fun p => if char_at p 0 =? 125 then Some (next_line p) else None) SH_BODY_MAX (length p) p [].

(** The line after a keyword of [k] characters and a blank; behind a keyword alone
    the array was not written. *)
Definition after_keyword (k : nat) (raw line : text) : M world text :=
  if (length raw <? k)%nat then ub else mret (drop k line).
(** The condition of [elif], up to [then] or the end of the line. *)
Fixpoint elif_text (l : text) : text * text :=
  match l with
  | [] => ([], [])
  | c :: l' =>
      if (c =? 10) || starts " then" l then ([], l)
      else let '(a, b) := elif_text l' in (c :: a, b)
  end.

(** The patterns between bars, without blanks. *)
Fixpoint patterns (l acc : text) : list text :=
  let trimmed := trim_end (fun c => c =? 32) (blanks acc) in
  match l with
  | [] => [trimmed]
  | c :: l' => if c =? 124 then trimmed :: patterns l' [] else patterns l' (acc ++ [c])
  end.
Definition pattern_matches (word pat : text) : bool := eqs "*" pat || bool_decide (pat = word).
Definition case_body (p : text) : text * text :=
  lines_until (fun p => if starts ";;" p then Some (next_line (drop 2 p)) else if starts "esac" p then Some p else None)
    (SH_LINE_MAX * 4) (length p) p [].

Section script.
Context (fuel : nat) (bufs : buffers).

Section turn.
Context (sh_exec sh_run_string : list Z -> text -> M world Z).
Context (live : list Z).
(** sh_exec_block() of the text, executed or skipped. *)
Context (block : bool -> text -> M world (Z * text)).

Abbreviation expand := (expanded fuel bufs (sh_exec live)).
(** Go on with the block, after a command that left this status; or return from it. *)
Definition turned : Type := (Z * text) + (Z * text).
Definition go_on {A B} (x : A) : M world (A + B) := mret (inl x).
Definition leave {A B} (x : B) : M world (A + B) := mret (inr x).

(** ** if *)

(** The state is whether a branch was taken, and the text. *)
Definition if_tail (execute : bool) (st : bool * text) : M world (bool * text + text) :=
  let '(taken, p) := st in
  let p := skip_blank p in
  if starts "elif " p then
    let '(cond, rest) := elif_text (drop 5 p) in
    if SH_LINE_MAX - 1 <? Z.of_nat (length cond) then no_fuel
    else
      r ← (if execute && negb taken then sh_exec live cond else mret 1);
      let now := r =? 0 in
      '(_, p) ← block (execute && negb taken && now) (next_line rest);
      go_on (taken || now, p)
  else if starts "else" p && ((char_at p 4 =? 10) || (char_at p 4 =? 32) || (char_at p 4 =? 59)) then
    '(_, p) ← block (execute && negb taken) (next_line p);
    go_on (taken, p)
  else if starts "fi" p && (ends_word (char_at p 2) || (char_at p 2 =? 10) || (char_at p 2 =? 59)) then leave (next_line p)
  else leave p.
Definition if_tails (execute taken : bool) (p : text) : M world text :=
  iter (S (length p)) (fun st => match snd st with [] => leave [] | _ => if_tail execute st end) (taken, p).
(** A line [if then] has a length that wraps. *)
Definition if_condition (raw line : text) : M world text :=
  kw ← after_keyword 3 raw line;
  match find_sub " then" line with
  | Some i => if (i <? 3)%nat then ub else mret (take (i - 3) kw)
  | None => mret kw
  end.
Definition run_if (execute : bool) (raw line p : text) : M world turned :=
  cond ← if_condition raw line;
  taken ← (if execute then r ← sh_exec live cond; mret (r =? 0) else mret false);
  '(_, p) ← block (execute && taken) p;
  p ← if_tails execute taken p;
  go_on (0, p).

(** ** Loops *)

Definition flow : M world Z := gets (fun w => sh_flow (w_shell w)).
Definition signal (f : Z) : M world unit := in_shell (modify (set_flow f)).
Definition without_do (l : text) : text := cut_at " do" (cut_at "; do" l).
Definition skip_body (last : Z) (p : text) : M world turned := '(_, p) ← block false p; go_on (last, p).
(** One turn of the body at [start]: where the next turn finds the text, or the end
    of the loop. *)
Definition loop_turn (start : text) : M world ((Z * text) + (Z * text)) :=
  '(last, lp) ← block true start;
  f ← flow;
  if f =? SH_FLOW_BREAK then signal SH_FLOW_NONE;; leave (last, lp)
  else if f =? SH_FLOW_CONTINUE then signal SH_FLOW_NONE;; go_on (last, lp)
  else if f =? SH_FLOW_RETURN then leave (last, lp)
  else go_on (last, start).
Definition run_while (execute : bool) (last : Z) (raw line p : text) : M world turned :=
  cond ← after_keyword 6 raw line;
  let cond := without_do cond in
  if execute then
    r ← iter fuel (fun st =>
      r ← sh_exec live cond;
      if nonzero r then leave st else loop_turn p) (last, p);
    go_on r
  else skip_body last p.

Fixpoint for_words (name : text) (ws : list text) (start : text) (st : Z * text) : M world (Z * text) :=
  match ws with
  | [] => mret st
  | w :: ws' =>
      in_shell (var_set name w false);;
      r ← loop_turn start;
      match r with inl st => for_words name ws' start st | inr st => mret st end
  end.
(** A name that fills its array is never passed. *)
Definition run_for (execute : bool) (last : Z) (line p : text) : M world turned :=
  let '(name, fp) := span (is_not 32) (drop 4 line) in
  if SH_VAR_NAMSZ - 1 <? Z.of_nat (length name) then no_fuel
  else
    let fp := blanks fp in
    wl ← expand SH_EXPAND_MAX (without_do (if starts "in " fp then drop 3 fp else fp));
    ws ← tokenize fuel bufs (sh_exec live) SH_LINE_MAX wl;
    if execute then r ← for_words name ws p (last, p); go_on r
    else skip_body last p.

(** ** case *)

(** The state is whether a pattern matched, the last status and the text. *)
Definition case_turn (execute : bool) (word : text) (st : bool * Z * text) : M world (bool * Z * text + (Z * text)) :=
  let '(matched, last, p) := st in
  match p with
  | [] => leave (last, [])
  | _ =>
      let p := snd (span (fun c => is_blank c || (c =? 10)) p) in
      if starts "esac" p && (ends_word (char_at p 4) || (char_at p 4 =? 10)) then leave (last, next_line p)
      else
        let '(pat, rest) := span_max 127 (is_not 41) p in
        let rest := if char_at rest 0 =? 41 then drop 1 rest else rest in
        let here := negb matched && execute
          && existsb (pattern_matches word) (patterns (trim_end (fun c => c =? 32) pat) []) in
        let '(body, rest) := case_body rest in
        last ← (if here then sh_run_string live body else mret last);
        go_on (matched || here, last, rest)
  end.
Definition run_case (execute : bool) (last : Z) (line p : text) : M world turned :=
  word ← expand SH_LINE_MAX (cut_at " in" (drop 5 line));
  r ← iter (S (length p)) (case_turn execute word) (false, last, p);
  go_on r.

(** ** One line *)

Definition set_last_status (r : Z) : M world unit := in_shell (modify (set_status r)).
Definition run_return (last : Z) (line p : text) : M world turned :=
  v ← (match blanks (drop 6 line) with
       | [] => mret last
       | rv => v ← lift (strtol_text 10 rv); mret (s32 v)
       end);
  in_shell (modify (set_return_val v));;
  signal SH_FLOW_RETURN;;
  leave (v, p).
(** The first of the two operators; the command after it starts four characters on. *)
Definition logical_op (line : text) : option (bool * nat) :=
  match find_sub " && " line, find_sub " || " line with
  | Some a, Some o => Some (if (a <? o)%nat then (true, a) else (false, o))
  | Some a, None => Some (true, a)
  | None, Some o => Some (false, o)
  | None, None => None
  end.
Definition run_logical (execute is_and : bool) (op : nat) (line p : text) : M world turned :=
  r1 ← (if execute then sh_exec live (take op line) else mret 0);
  set_last_status r1;;
  ret ← (if execute && Bool.eqb is_and (r1 =? 0) then sh_exec live (drop (op + 4) line) else mret r1);
  set_last_status ret;;
  go_on (ret, p).
Definition run_line (line p : text) : M world turned :=
  e ← expand SH_LINE_MAX line;
  ret ← sh_run_pipeline fuel bufs sh_exec live e;
  set_last_status ret;;
  go_on (ret, p).
Definition block_end (line : text) : bool :=
  keyword "fi" line || keyword "done" line || keyword "esac" line || (char_at line 0 =? 125).

Definition run_command (execute : bool) (last : Z) (raw line start p : text) : M world turned :=
  if starts "if " line || eqs "if" line then run_if execute raw line p
  else if block_end line then leave (last, p)
  else if keyword "then" line || keyword "do" line then go_on (last, p)
  else if keyword "else" line then leave (last, p)
  else if starts "elif" line then leave (last, start)
  else if starts "while " line || eqs "while" line then run_while execute last raw line p
  else if starts "for " line then run_for execute last line p
  else if starts "case " line then run_case execute last line p
  else if eqs "break" line then signal SH_FLOW_BREAK;; leave (last, p)
  else if eqs "continue" line then signal SH_FLOW_CONTINUE;; leave (last, p)
  else if starts "return" line then if execute then run_return last line p else go_on (last, p)
  else
    match logical_op line with
    | Some (is_and, op) => run_logical execute is_and op line p
    | None => if execute then run_line line p else go_on (last, p)
    end.
Definition block_line (execute : bool) (last : Z) (start : text) : M world turned :=
  let '(raw, rest) := logical_line start [] in
  let p := drop 1 rest in
  match trim_end is_blank raw with
  | [] => go_on (last, p)
  | line =>
      f ← lift (function_head line);
      match f with
      | Some name =>
          let '(body, p) := function_body p in
          (if execute then func_set live name body else mret tt);;
          go_on (last, p)
      | None => run_command execute last raw line start p
      end
  end.
Definition turn (execute : bool) (last : Z) (p : text) : M world turned :=
  let p := skip_blank p in
  match p with
  | [] => leave (last, [])
  | c :: p' =>
      if c =? 10 then go_on (last, p')
      else if c =? 35 then go_on (last, to_newline p)
      else block_line execute last p
  end.
End turn.

(** ** Blocks, files and lines *)

Record interpreter := Interpreter { i_exec : list Z -> text -> M world Z; i_string : list Z -> text -> M world Z }.

Definition on_sys {A} (m : M sys A) : M world A := zoom (T := machine) (zoom m).

Section calls.
(** The interpreter that the calls of this one reach, and the commands of shell.c
    that are not modelled: [Some None] is an entry of the table without a function. *)
Context (calls : interpreter) (commands : text -> option (option (list text -> M world unit))).
#[local] Instance script_devices : Devices kstate := kernel_devices fuel.

Definition sh_run_file (live : list Z) (path : text) : M world Z :=
  fd ← on_vfs (vfs_open (string_of path) VFS_O_READ);
  if fd <? 0 then print fuel (bytes_of "sh: %s: not found" ++ nl) [str path];; mret 127
  else
    buf ← on_heap (kmalloc (SH_LINE_MAX * 32));
    if buf =? 0 then on_vfs (vfs_close fd);; mret 1
    else
      '(n, bytes) ← on_vfs (vfs_read fd (SH_LINE_MAX * 32 - 1));
      on_heap (modify (fun h => set_kmem (store_bytes (kmem h) buf (take (Z.to_nat n) bytes ++ [0])) h));;
      on_vfs (vfs_close fd);;
      content ← string_at (Z.to_nat (SH_LINE_MAX * 32)) buf;
      in_shell (modify (set_script_name path));;
      ret ← i_string calls live (if starts "#!" content then next_line content else content);
      on_heap (kfree buf);;
      mret ret.

(** ** shell.c: the commands that run scripts, and programs *)

Definition CMD_MAX : Z := 256.
Definition cmd_interpreter (name indent : string) (live : list Z) (args : list text) : M world unit :=
  match args with
  | path :: _ => sh_run_file live path;; mret tt
  | [] =>
      print fuel (bytes_of name ++ bytes_of ": interactive sub-shell disabled. Please use the primary VNL shell." ++ nl) [];;
      print fuel (bytes_of indent ++ bytes_of "Usage: " ++ bytes_of name ++ bytes_of " <script_file>" ++ nl) []
  end.
Fixpoint eval_text (args : list text) (script : text) : text :=
  match args with
  | [] => script
  | [a] => strncat_text (CMD_MAX * 4) script a
  | a :: args' => eval_text args' (strncat_text (CMD_MAX * 4) (strncat_text (CMD_MAX * 4) script a) [32])
  end.
Definition cmd_eval (live : list Z) (args : list text) : M world unit :=
  match args with
  | [] => print fuel (bytes_of "Usage: eval <script>" ++ nl) []
  | _ => i_string calls live (eval_text args []);; mret tt
  end.
Definition cmd_source (live : list Z) (args : list text) : M world unit :=
  match args with
  | [] => print fuel (bytes_of "Usage: source <file>" ++ nl) []
  | path :: _ => sh_run_file live path;; mret tt
  end.
(** The table of commands. *)
Definition command (live : list Z) (name : text) : option (option (list text -> M world unit)) :=
  if eqs "sh" name then Some (Some (cmd_interpreter "sh" "    " live))
  else if eqs "bash" name then Some (Some (cmd_interpreter "bash" "      " live))
  else if eqs "eval" name then Some (Some (cmd_eval live))
  else if eqs "source" name || eqs "." name then Some (Some (cmd_source live))
  else commands name.

Definition elf_magic : list Z := [0x7f; 69; 76; 70].
Definition is_elf_file (path : text) : M world bool :=
  fd ← on_vfs (vfs_open (string_of path) VFS_O_READ);
  if fd <? 0 then mret false
  else
    '(n, magic) ← on_vfs (vfs_read fd 4);
    on_vfs (vfs_close fd);;
    mret ((n =? 4) && bool_decide (magic = elf_magic)).
Definition run_program (live : list Z) (path : text) : M world Z :=
  elf ← is_elf_file path;
  if elf : bool then
    pid ← on_sys (vnl_spawn_elf_path fuel (string_of path));
    if 0 <=? pid then on_sys (zoom (T := sched (unix kstate)) (sched_wait_pid (u32 pid)));; mret 0
    else print fuel (bytes_of "sh: cannot execute binary %s" ++ nl) [str path];; mret 126
  else sh_run_file live path.
(** The path of a program: an absolute one fills its array without a terminator when
    it is too long. *)
Definition program_path (name : text) : outcome text :=
  if char_at name 0 =? 47 then if (127 <=? length name)%nat then Undefined else Done name
  else Done (take 127 (bytes_of "/usr/bin/" ++ name)).
Definition shell_exec_builtin (live : list Z) (argv : list text) : M world Z :=
  match argv with
  | [] => mret 0
  | name :: args =>
      match command live name with
      | Some (Some fn) => fn args;; gets (fun w => sh_last_status (w_shell w))
      | Some None => ub
      | None =>
          tpath ← lift (program_path name);
          found ← on_vfs (vfs_resolve (string_of tpath));
          if 0 <=? found then run_program live tpath
          else
            found ← on_vfs (vfs_resolve (string_of name));
            if 0 <=? found then run_program live name
            else print fuel (bytes_of "sh: %s: command not found" ++ nl) [str name];; mret 127
      end
  end.

(** ** The interpreter *)

Fixpoint sh_exec_block (n : nat) (live : list Z) (execute : bool) (last : Z) (p : text) : M world (Z * text) := fun w =>
  match n with
  | O => OutOfFuel
  | S n' =>
      match p with
      | [] => Done ((last, []), w)
      | _ =>
          (r ← turn (i_exec calls) (i_string calls) live (fun e q => sh_exec_block n' live e 0 q) execute last p;
           match r with
           | inl (last, p) => sh_exec_block n' live execute last p
           | inr r => mret r
           end) w
      end
  end.
Definition run_string (live : list Z) (script : text) : M world Z :=
  in_shell (modify (set_flow SH_FLOW_NONE));;
  '(ret, _) ← sh_exec_block (S (length script)) live true 0 script;
  mret ret.
Definition exec_line (live : list Z) (cmdline : text) : M world Z :=
  e ← expanded fuel bufs (i_exec calls live) SH_LINE_MAX cmdline;
  argv ← tokenize fuel bufs (i_exec calls live) (SH_LINE_MAX * 2) e;
  sh_run_simple fuel bufs (i_exec calls) (i_string calls) shell_exec_builtin live argv.
End calls.

Section interpreter.
Context (commands : text -> option (option (list text -> M world unit))).

Fixpoint interp (n : nat) : interpreter :=
  match n with
  | O => Interpreter (fun _ _ => no_fuel) (fun _ _ => no_fuel)
  | S n' => let calls := interp n' in Interpreter (exec_line calls commands) (run_string calls)
  end.
Definition sh_exec (n : nat) (cmdline : text) : M world Z := i_exec (interp n) [] cmdline.
Definition sh_run_string (n : nat) (script : text) : M world Z := i_string (interp n) [] script.
Definition sh_getvar (name : text) : M world (option text) := in_shell (var_get name).

(** ** The interactive loop *)

Definition VGA_LCYAN : Z := 11.
Definition VGA_WHITE : Z := 15.
Definition colored (fg : Z) (m : M world unit) : M world unit :=
  zoom (T := screen) (vga_set_color fg VGA_BLACK);; m;; zoom (T := screen) (vga_set_color VGA_WHITE VGA_BLACK).
Definition put_key (c : Z) : M world unit := zoom (T := screen) (vga_putchar (s8 c)).
(** The prompt with \w, \u and \$ replaced, in an array of 128; the directory is
    [None] where vfs_getcwd() wrote nothing. *)
Fixpoint prompt (cwd : option text) (ps1 dst : text) : outcome text :=
  match ps1 with
  | [] => Done dst
  | c :: l =>
      if (127 <=? length dst)%nat then Done dst
      else
        match l with
        | d :: l' =>
            if (c =? 92) && (d =? 119) then
              match cwd with
              | None => Undefined
              | Some wd => prompt cwd l' (if (length dst + length wd <? 127)%nat then dst ++ wd else dst)
              end
            else if (c =? 92) && (d =? 117) then prompt cwd l' (dst ++ [114])
            else if (c =? 92) && (d =? 36) then prompt cwd l' (dst ++ [35])
            else prompt cwd l (dst ++ [c])
        | [] => prompt cwd l (dst ++ [c])
        end
  end.
Definition show_prompt (bash_mode multiline : bool) : M world unit :=
  if multiline then colored VGA_LCYAN (print fuel (bytes_of "> ") [])
  else
    ps1 ← in_shell (var_get (bytes_of "PS1"));
    cwd ← on_vfs (vfs_getcwd 128 128);
    text ← lift (prompt (c_text <$> cwd) (default (bytes_of (if bash_mode then "bash$ " else "$ ")) ps1) []);
    colored VGA_LCYAN (print fuel (bytes_of "%s") [str text]).
(** At most [KBD_BUF_SIZE] keys are queued. *)
Definition read_line : M world text :=
  iter (Z.to_nat KBD_BUF_SIZE) (fun line : text =>
    k ← zoom (T := input) keyboard_getkey;
    if (k =? 10) || (SH_LINE_MAX - 1 <=? Z.of_nat (length line)) then mret (inr line)
    else if k =? 8 then
      match line with [] => mret (inl line) | _ => put_key 8;; mret (inl (removelast line)) end
    else if k <? KEY_UP then put_key k;; mret (inl (line ++ [k]))
    else mret (inl line)) [].

Definition start_session (bash_mode : bool) : M world unit :=
  in_shell (
    (if bash_mode then
       alias_set (bytes_of "ll") (bytes_of "ls -l");;
       alias_set (bytes_of "la") (bytes_of "ls");;
       alias_set (bytes_of "grep") (bytes_of "grep");;
       var_set (bytes_of "BASH_VERSION") (bytes_of "5.2.0(1)-vnl") false;;
       var_set (bytes_of "PS1") (bytes_of "\u@vnl:\w\$ ") false
     else var_set (bytes_of "PS1") (bytes_of "$ ") false);;
    var_set (bytes_of "SHELL") (bytes_of (if bash_mode then "/bin/bash" else "/bin/sh")) false;;
    var_set (bytes_of "PATH") (bytes_of "/bin:/usr/bin") false);;
  print fuel (bytes_of "%s interactive session. Type 'exit' to return." ++ nl) [str (bytes_of (if bash_mode then "bash" else "sh"))].
(** The lines of a command so far, and whether it goes on with the next line. *)
Definition interactive_turn (n : nat) (bash_mode : bool) (st : bool * text) : M world (bool * text + unit) :=
  let '(multiline, mlbuf) := st in
  show_prompt bash_mode multiline;;
  line ← read_line;
  put_key 10;;
  if eqs "exit" (cstring line) || eqs "quit" (cstring line) then mret (inr tt)
  else if (length line =? 0)%nat && negb multiline then mret (inl (multiline, mlbuf))
  else
    let cont := List.last line 0 =? 92 in
    let line := if cont then removelast line ++ [10] else line in
    let mlbuf := if Z.of_nat (length mlbuf + length line) + 1 <? SH_LINE_MAX * 8 then mlbuf ++ line ++ [10] else mlbuf in
    if cont then mret (inl (true, mlbuf))
    else
      ret ← sh_run_string n (cstring mlbuf);
      set_last_status ret;;
      mret (inl (false, [])).
Definition sh_interactive (n : nat) (bash_mode : bool) : M world unit :=
  start_session bash_mode;; iter fuel (interactive_turn n bash_mode) (false, []).
End interpreter.
End script.
