(* ===== verification/ShellProgram.v ===== *)
(** * Programs of the shell and what running their text does

    Programs of commands and conditionals, their text, and their meaning as calls of
    sh_run_simple(): running the text with sh_run_string() has that meaning, where no
    conditional is the last of the body of another. *)

From S2P Require Import Prelude Pmm Mem Strings Vmm UserSpace ElfLoad Heap Cpu Sched Input Console Shm Vfs Devfs Printf Arith UnixSocket System Machine ShellVars ShellWords ShellRun ShellScript.

(** ** Programs *)

Inductive program :=
| Nop
| Simple (ws : list text) (next : program)
| If (cond : list text) (body next : program).

Definition newline : text := [10].
Fixpoint render (p : program) : text :=
  match p with
  | Nop => []
  | Simple ws next => join ws ++ newline ++ render next
  | If cond body next =>
      bytes_of "if " ++ join cond ++ bytes_of "; then" ++ newline ++ render body ++ bytes_of "fi" ++ newline ++ render next
  end.

Section meaning.
Context (simple : list text -> M world Z).
(** [execute] is false in a branch that is not taken; [last] is the status before. *)
Fixpoint meaning (execute : bool) (last : Z) (p : program) : M world Z :=
  match p with
  | Nop => mret last
  | Simple ws next =>
      ret ← (if execute then put_stages [join ws];; ret ← simple ws; set_last_status ret;; mret ret else mret last);
      meaning execute ret next
  | If cond body next =>
      taken ← (if execute then r ← simple cond; mret (r =? 0) else mret false);
      meaning (execute && taken) 0 body;;
      meaning execute 0 next
  end.
End meaning.

(** Words that no part of the shell treats specially. *)
Definition word_char (c : Z) : bool :=
  (33 <=? c) && (c <? 256) && negb (bool_decide (c ∈ [34; 35; 36; 38; 39; 40; 41; 59; 60; 62; 92; 96; 124])).
Definition word_ok (w : text) : bool := negb (length w =? 0)%nat && forallb word_char w.
(** The first words that are not commands. *)
Definition reserved_words : list string :=
  ["function"; "if"; "fi"; "done"; "esac"; "then"; "do"; "else"; "while"; "for"; "case"; "break"; "continue"]%string.
Definition reserved (w : text) : bool :=
  existsb (fun k => eqs k w) reserved_words || starts "elif" w || starts "return" w || (char_at w 0 =? 125).
Definition words_ok (ws : list text) : bool :=
  forallb word_ok ws && negb (length ws =? 0)%nat && (length ws <? 64)%nat && (length (join ws) <? 1000)%nat.
Definition command_ok (ws : list text) : bool :=
  words_ok ws && negb (reserved (List.hd [] ws)) && (length (List.hd [] ws) <? 64)%nat.
Definition condition_ok (ws : list text) : bool :=
  words_ok ws && words_ok (bytes_of "if" :: ws) && forallb (fun w => negb (starts "then" w)) ws.
(** [inner] programs are bodies: the end of a conditional must not meet the end of
    the one around it. *)
Fixpoint program_ok (inner : bool) (p : program) : bool :=
  match p with
  | Nop => true
  | Simple ws next => command_ok ws && program_ok inner next
  | If cond body next =>
      condition_ok cond && program_ok true body && program_ok inner next
      && match next with Nop => negb inner | _ => true end
  end.

(** ** Equal computations *)

Lemma bind_cong {S A B} (m m' : M S A) (f : A -> M S B) s : m s = m' s -> (m ≫= f) s = (m' ≫= f) s.
Proof. unfold mbind, M_bind. by intros ->. Qed.
Lemma bind_ext {S A B} (m : M S A) (f g : A -> M S B) s : (forall a s', f a s' = g a s') -> (m ≫= f) s = (m ≫= g) s.
Proof. intros Hfg. unfold mbind, M_bind. destruct (m s) as [[a s']| | | |]; [apply Hfg|done..]. Qed.

(** ** Lines of words *)

Lemma span_all p l : forallb p l = true -> span p l = (l, []).
Proof. induction l as [|c l IH]; [done|]. cbn [forallb span]. intros [-> Hl]%andb_prop. by rewrite IH. Qed.

Definition line_char (c : Z) : bool := word_char c || (c =? 32).
Lemma word_char_facts c : word_char c = true ->
  33 <= c < 256 /\ c <> 34 /\ c <> 35 /\ c <> 36 /\ c <> 38 /\ c <> 39 /\ c <> 40 /\ c <> 41 /\ c <> 59 /\ c <> 60 /\ c <> 62 /\
  c <> 92 /\ c <> 96 /\ c <> 124.
Proof.
  intros [[Hc%Z.leb_le Hc'%Z.ltb_lt]%andb_prop Hn%negb_true_iff%bool_decide_eq_false]%andb_prop. split; [done|].
  split_and!; intros ->; apply Hn; set_solver.
Qed.
Lemma line_char_facts c : line_char c = true ->
  32 <= c < 256 /\ c <> 34 /\ c <> 35 /\ c <> 36 /\ c <> 38 /\ c <> 39 /\ c <> 40 /\ c <> 41 /\ c <> 59 /\ c <> 60 /\ c <> 62 /\
  c <> 92 /\ c <> 96 /\ c <> 124.
Proof. intros [Hc|Hc]%orb_prop; [apply word_char_facts in Hc|to_prop]; lia. Qed.
Lemma forallb_impl {A} (p q : A -> bool) l : (forall x, p x = true -> q x = true) -> forallb p l = true -> forallb q l = true.
Proof. intros Hpq. rewrite !forallb_forall. auto. Qed.
Lemma forallb_app {A} (p : A -> bool) l k : forallb p l = true -> forallb p k = true -> forallb p (l ++ k) = true.
Proof. intros Hl Hk. rewrite List.forallb_app. by rewrite Hl, Hk. Qed.
Lemma join_line ws : forallb word_ok ws = true -> forallb line_char (join ws) = true.
Proof.
  induction ws as [|w ws IH]; [done|]. intros [[_ Hw]%andb_prop Hws]%andb_prop.
  assert (forallb line_char w = true) as Hlw by (eapply forallb_impl; [|exact Hw]; intros c Hc; unfold line_char; by rewrite Hc).
  destruct ws as [|w' ws]; [done|]. change (join (w :: w' :: ws)) with (w ++ 32 :: join (w' :: ws)).
  apply forallb_app; [done|]. cbn [forallb]. by rewrite IH.
Qed.
Lemma trim_end_app p a b : trim_end p b = b -> b <> [] -> trim_end p (a ++ b) = a ++ b.
Proof.
  intros Hb Hne. induction a as [|c a IH]; [done|]. cbn [app trim_end]. rewrite IH. destruct (a ++ b) eqn:Hab; [|done].
  apply app_eq_nil in Hab as [_ ->]. done.
Qed.
Lemma trim_end_none p l : forallb (fun c => negb (p c)) l = true -> trim_end p l = l.
Proof.
  induction l as [|c l IH]; [done|]. cbn [forallb trim_end]. intros [Hc%negb_true_iff Hl]%andb_prop. rewrite (IH Hl), Hc. by destruct l.
Qed.
Lemma join_trimmed ws : forallb word_ok ws = true -> trim_end is_blank (join ws) = join ws.
Proof.
  induction ws as [|w ws IH]; [done|]. intros [[Hne Hw]%andb_prop Hws]%andb_prop.
  assert (trim_end is_blank w = w) as Ht.
  { apply trim_end_none. eapply forallb_impl; [|exact Hw]. intros c Hc%word_char_facts. unfold is_blank. apply negb_true_iff. to_prop. lia. }
  destruct ws as [|w' ws]; [done|]. change (join (w :: w' :: ws)) with (w ++ [32] ++ join (w' :: ws)).
  rewrite app_assoc. apply trim_end_app; [by apply IH|]. destruct w' as [|c w']; [|by destruct ws].
  by cbn in Hws.
Qed.
Lemma join_ne ws : forallb word_ok ws = true -> ws <> [] -> join ws <> [].
Proof. destruct ws as [|[|c w] [|w' ws]]; done. Qed.

(** ** The parts of the shell on such lines *)

Lemma logical_line_run l e rest acc : forallb line_char l = true -> e = 10 \/ e = 59 ->
  Z.of_nat (length acc + length l) < SH_LINE_MAX -> logical_line (l ++ e :: rest) acc = (acc ++ l, e :: rest).
Proof.
  intros Hl He. revert acc. induction l as [|c l IH]; intros acc Hn.
  - rewrite app_nil_r. by destruct He as [-> | ->].
  - cbn [forallb length] in Hl, Hn. apply andb_prop in Hl as [Hc%line_char_facts Hl]. cbn [app logical_line].
    replace ((c =? 10) || (c =? 59)) with false by blia. replace (c =? 35) with false by blia.
    replace (c =? 92) with false by blia. cbn [andb].
    replace (_ <? _) with true by (symmetry; apply Z.ltb_lt; lia).
    destruct (l ++ e :: rest) as [|d k] eqn:Hk; [by destruct l|]. rewrite IH; [by rewrite <- app_assoc|done|].
    rewrite length_app. cbn [length]. lia.
Qed.
Lemma split_stages_run l acc : forallb line_char l = true -> Z.of_nat (length acc + length l) < SH_LINE_MAX ->
  split_stages l (Split false false 0 0 acc) = [acc ++ l].
Proof.
  revert acc. induction l as [|c l IH]; intros acc Hl Hn; [by rewrite app_nil_r|].
  cbn [forallb length] in Hl, Hn. apply andb_prop in Hl as [Hc%line_char_facts Hl]. cbn [split_stages nstages].
  unfold split_char. cbn [in_sq in_dq negb andb depth_paren nstages stage Z.leb Z.compare].
  replace (c =? 39) with false by blia. replace (c =? 34) with false by blia. replace (c =? 40) with false by blia.
  replace (c =? 41) with false by blia. replace (c =? 124) with false by blia. cbn [andb].
  replace (_ <? _) with true by (symmetry; apply Z.ltb_lt; lia).
  rewrite IH; [by rewrite <- app_assoc|done|rewrite length_app; cbn [length]; lia].
Qed.
Lemma redirects_run l : forall n s, forallb line_char l = true -> (length l <= n)%nat ->
  redirects n l (Redirections s None None None) = Redirections (s ++ l) None None None.
Proof.
  induction l as [|c l IH]; intros n s Hl Hn; [rewrite app_nil_r; by destruct n|].
  cbn [forallb length] in Hl, Hn. apply andb_prop in Hl as [Hc%line_char_facts Hl]. destruct n as [|n]; [lia|]. cbn [redirects].
  assert (starts "2>" (c :: l) = false) as Hs.
  { apply bool_decide_eq_false. destruct l as [|d l]; [done|]. apply andb_prop in Hl as [Hd%line_char_facts _].
    cbn. intros [= -> ->]. lia. }
  assert (starts "2>&1" (c :: l) = false) as Hs'.
  { apply bool_decide_eq_false. destruct l as [|d l]; [done|]. apply andb_prop in Hl as [Hd%line_char_facts _].
    cbn. intros [= -> -> _]. lia. }
  rewrite Hs, Hs'. replace (c =? 62) with false by blia. replace (c =? 60) with false by blia. cbn [andb stripped redir_out redir_app redir_in].
  rewrite IH by (done || lia). by rewrite <- app_assoc.
Qed.
Lemma quote_word w : word_ok w = true -> quote_arg w = w.
Proof.
  intros [Hne Hw]%andb_prop. unfold quote_arg. destruct w as [|c w]; [done|]. replace (forallb token_plain (c :: w)) with true; [done|].
  symmetry. eapply forallb_impl; [|exact Hw]. intros d Hd%word_char_facts. unfold token_plain, plain_char, token_end. to_prop. lia.
Qed.
Lemma quote_words ws : forallb word_ok ws = true -> quote_arg <$> ws = ws.
Proof.
  induction ws as [|w ws IH]; [done|]. intros [Hw Hws]%andb_prop. cbn [fmap list_fmap]. by rewrite quote_word, IH.
Qed.
Lemma arg_bytes_join ws : ws <> [] -> arg_bytes ws = Z.of_nat (length (join ws)) + 1.
Proof.
  induction ws as [|w ws IH]; [done|]. intros _. change (arg_bytes (w :: ws)) with (Z.of_nat (length w) + 1 + arg_bytes ws).
  destruct ws as [|w' ws]; [cbn; lia|]. change (join (w :: w' :: ws)) with (w ++ 32 :: join (w' :: ws)).
  rewrite IH, length_app by done. cbn [length]. lia.
Qed.

(** ** The first word of a line *)

Definition word_stops (l : text) : Prop := match l with [] => True | c :: _ => word_char c = false end.
Lemma join_head w ws : exists tl, join (w :: ws) = w ++ tl /\ word_stops tl /\ (tl = [] \/ exists t, tl = 32 :: t).
Proof.
  destruct ws as [|w' ws]; [exists []; cbn; rewrite app_nil_r; auto|].
  exists (32 :: join (w' :: ws)). split_and!; [done|done|right; by eexists].
Qed.
Lemma words_split a b tl r : forallb word_char a = true -> forallb word_char b = true -> word_stops tl -> word_stops r ->
  a ++ tl = b ++ r -> a = b.
Proof.
  intros Ha Hb Ht Hr. revert b Hb. induction a as [|c a IH]; intros [|d b] Hb He; cbn [app forallb] in *; [done| | |].
  - subst tl. cbn in Ht. apply andb_prop in Hb as [Hd _]. congruence.
  - subst r. cbn in Hr. apply andb_prop in Ha as [Hc _]. congruence.
  - injection He as -> He. apply andb_prop in Ha as [_ Ha], Hb as [_ Hb]. f_equal. by apply IH.
Qed.
Lemma word_prefix a b tl r : forallb word_char b = true -> word_stops tl -> a ++ tl = b ++ r -> exists r', a = b ++ r'.
Proof.
  intros Hb Ht. revert b Hb. induction a as [|c a IH]; intros [|d b] Hb He; cbn [app forallb] in *; [by exists []| |by eexists|].
  - subst tl. cbn in Ht. apply andb_prop in Hb as [Hd _]. congruence.
  - injection He as -> He. apply andb_prop in Hb as [_ Hb]. destruct (IH b) as [r' ->]; [done..|]. by exists r'.
Qed.
Lemma starts_inv s l : starts s l = true -> exists r, l = bytes_of s ++ r.
Proof. intros Hs%bool_decide_eq_true. exists (drop (String.length s) l). rewrite <- Hs. symmetry. apply take_drop. Qed.
Lemma starts_app s r : starts s (bytes_of s ++ r) = true.
Proof. apply bool_decide_eq_true. by rewrite <- length_bytes_of, take_app_length. Qed.
Lemma char_at_app b r : char_at (b ++ r) (length b) = char_at r 0.
Proof. unfold char_at. rewrite lookup_app_r by lia. by rewrite Nat.sub_diag. Qed.

Section first_word.
Context (w : text) (tl : text) (Hw : forallb word_char w = true) (Htl : word_stops tl).

Lemma keyword_word k : forallb word_char (bytes_of k) = true -> keyword k (w ++ tl) = true -> w = bytes_of k.
Proof.
  intros Hk [Hs He]%andb_prop. apply starts_inv in Hs as [r Hr]. apply (words_split w (bytes_of k) tl r); try done.
  rewrite Hr, <- length_bytes_of, char_at_app in He. destruct r as [|c r]; [done|]. cbn in He |- *.
  unfold ends_word in He. destruct (word_char c) eqn:Hc; [|done]. apply word_char_facts in Hc. to_prop. lia.
Qed.
Lemma starts_word k k' : bytes_of k' = bytes_of k ++ [32] -> forallb word_char (bytes_of k) = true ->
  starts k' (w ++ tl) = true -> w = bytes_of k.
Proof.
  intros Hk' Hk Hs. apply starts_inv in Hs as [r Hr]. apply (words_split w (bytes_of k) tl (32 :: r)); try done.
  by rewrite Hr, Hk', <- app_assoc.
Qed.
Lemma eqs_word k : forallb word_char (bytes_of k) = true -> eqs k (w ++ tl) = true -> w = bytes_of k.
Proof. intros Hk He%bool_decide_eq_true. apply (words_split w (bytes_of k) tl []); try done. by rewrite app_nil_r. Qed.
Lemma starts_prefix k : forallb word_char (bytes_of k) = true -> starts k (w ++ tl) = true -> starts k w = true.
Proof.
  intros Hk Hs. apply starts_inv in Hs as [r Hr]. destruct (word_prefix w (bytes_of k) tl r) as [r' ->]; [done..|]. apply starts_app.
Qed.
End first_word.

Lemma not_true b : (b = true -> False) -> b = false.
Proof. by destruct b; [intros []|]. Qed.
Lemma find_sub_absent s x l : x ∈ bytes_of s -> x ∉ l -> find_sub s l = None.
Proof.
  intros Hx. induction l as [|c l IH]; intros Hl; cbn [find_sub].
  - destruct (starts s []) eqn:Hs; [|done]. apply starts_inv in Hs as [r Hr]. symmetry in Hr.
    apply app_eq_nil in Hr as [Hr _]. rewrite Hr in Hx. by apply not_elem_of_nil in Hx.
  - pose proof Hl as [_ Hl']%not_elem_of_cons. rewrite (IH Hl'). destruct (starts s (c :: l)) eqn:Hs; [|done].
    apply starts_inv in Hs as [r Hr]. destruct Hl. rewrite Hr. apply elem_of_app. by left.
Qed.
Lemma line_no c l : line_char c = false -> forallb line_char l = true -> c ∉ l.
Proof. intros Hc Hl Hin. rewrite forallb_forall in Hl. rewrite Hl in Hc; [done|]. by apply list_elem_of_In. Qed.
Lemma logical_op_none l : forallb line_char l = true -> logical_op l = None.
Proof.
  intros Hl. unfold logical_op.
  rewrite (find_sub_absent " && " 38 l), (find_sub_absent " || " 124 l); [done| |by apply line_no| |by apply line_no].
  all: apply list_elem_of_In; cbn; auto.
Qed.
Lemma find_then_word w l : forallb word_char w = true -> find_sub " then" l = None -> find_sub " then" (w ++ l) = None.
Proof.
  intros Hw Hl. induction w as [|c w IH]; [done|]. cbn [forallb app find_sub] in *. apply andb_prop in Hw as [Hc Hw].
  rewrite (IH Hw). destruct (starts " then" (c :: w ++ l)) eqn:Hs; [|done]. apply starts_inv in Hs as [r Hr]. by injection Hr as -> _.
Qed.
Lemma find_then_join ws : forallb word_ok ws = true -> forallb (fun w => negb (starts "then" w)) ws = true ->
  find_sub " then" (32 :: join ws) = None.
Proof.
  induction ws as [|w ws IH]; [done|]. intros [[Hne Hw]%andb_prop Hws]%andb_prop [Hn%negb_true_iff Hns]%andb_prop.
  destruct (join_head w ws) as (tl & Hj & Hs & _). cbn [find_sub]. destruct (starts " then" (32 :: join (w :: ws))) eqn:Hst.
  2: { assert (find_sub " then" (join (w :: ws)) = None) as ->; [|done].
    destruct ws as [|w' ws]; [rewrite <- (app_nil_r (join _)); by apply find_then_word|].
    change (join (w :: w' :: ws)) with (w ++ 32 :: join (w' :: ws)). apply find_then_word; [done|by apply IH]. }
  apply starts_inv in Hst as [r Hr]. rewrite Hj in Hr. injection Hr as Hr.
  rewrite (starts_prefix w tl Hw Hs "then") in Hn; [done|done|]. rewrite Hr. apply (starts_app "then").
Qed.

(** ** Lines that are commands *)

Section ordinary.
Context (w : text) (ws : list text) (Hok : command_ok (w :: ws) = true).
Abbreviation line := (join (w :: ws)).

Lemma ordinary_facts : word_ok w = true /\ forallb word_ok (w :: ws) = true /\ (length line < 1000)%nat /\
  reserved w = false /\ (length w < 64)%nat /\ (length (w :: ws) < 64)%nat.
Proof.
  unfold command_ok, words_ok in Hok. cbn [List.hd] in Hok.
  apply andb_prop in Hok as [[[[[Hws _]%andb_prop Hn%Nat.ltb_lt]%andb_prop Hl%Nat.ltb_lt]%andb_prop Hr%negb_true_iff]%andb_prop Hlw%Nat.ltb_lt].
  pose proof Hws as [Hw _]%andb_prop. by split_and!.
Qed.
Lemma not_reserved k : List.In k reserved_words -> w <> bytes_of k.
Proof.
  intros Hk Heq. destruct ordinary_facts as (_ & _ & _ & Hr & _). rewrite Heq in Hr. unfold reserved in Hr.
  apply orb_false_elim in Hr as [[[Hr _]%orb_false_elim _]%orb_false_elim _]. enough (existsb (fun k' => eqs k' (bytes_of k)) reserved_words = true) by congruence.
  apply existsb_exists. exists k. split; [done|]. by apply bool_decide_eq_true.
Qed.
Lemma ordinary_keyword k : List.In k reserved_words -> forallb word_char (bytes_of k) = true -> keyword k line = false.
Proof.
  intros Hin Hk. destruct ordinary_facts as ([_ Hw]%andb_prop & _). destruct (join_head w ws) as (tl & Hj & Hs & _).
  apply not_true. rewrite Hj. intros He. by apply (not_reserved k Hin), (keyword_word w tl).
Qed.
Lemma ordinary_starts k k' : List.In k reserved_words -> bytes_of k' = bytes_of k ++ [32] -> forallb word_char (bytes_of k) = true ->
  starts k' line = false.
Proof.
  intros Hin Hk' Hk. destruct ordinary_facts as ([_ Hw]%andb_prop & _). destruct (join_head w ws) as (tl & Hj & Hs & _).
  apply not_true. rewrite Hj. intros He. by apply (not_reserved k Hin), (starts_word w tl Hw Hs k k').
Qed.
Lemma ordinary_eqs k : List.In k reserved_words -> forallb word_char (bytes_of k) = true -> eqs k line = false.
Proof.
  intros Hin Hk. destruct ordinary_facts as ([_ Hw]%andb_prop & _). destruct (join_head w ws) as (tl & Hj & Hs & _).
  apply not_true. rewrite Hj. intros He. by apply (not_reserved k Hin), (eqs_word w tl).
Qed.
Lemma ordinary_prefix k : forallb word_char (bytes_of k) = true -> starts k w = false -> starts k line = false.
Proof.
  intros Hk Hf. destruct ordinary_facts as ([_ Hw]%andb_prop & _). destruct (join_head w ws) as (tl & Hj & Hs & _).
  apply not_true. rewrite Hj. intros He. by rewrite (starts_prefix w tl Hw Hs k Hk He) in Hf.
Qed.
Lemma ordinary_head : exists c l, line = c :: l /\ word_char c = true /\ (c =? 125) = false.
Proof.
  destruct ordinary_facts as ([Hne Hw]%andb_prop & _ & _ & Hr & _). destruct (join_head w ws) as (tl & -> & _).
  destruct w as [|c w']; [done|]. exists c, (w' ++ tl). split; [done|]. unfold reserved in Hr. apply orb_false_elim in Hr as [_ Hr].
  cbn [forallb] in Hw. by apply andb_prop in Hw as [Hw _].
Qed.
Lemma ordinary_no_function : function_head line = Done None.
Proof.
  pose proof (ordinary_starts "function" "function " ltac:(cbn; auto) eq_refl eq_refl) as Hf.
  destruct ordinary_facts as ([_ Hw]%andb_prop & _ & _ & _ & Hl & _). destruct ordinary_head as (c & l & Hc & Hcw & _).
  assert (blanks line = line) as Hb.
  { rewrite Hc. unfold blanks. cbn [span]. apply word_char_facts in Hcw. by replace (c =? 32) with false by blia. }
  unfold function_head. rewrite Hb, Hf. destruct (join_head w ws) as (tl & -> & _ & Ht).
  assert (forallb (fun c => is_not 40 c && is_not 32 c) w = true) as Hsp.
  { eapply forallb_impl; [|exact Hw]. intros d Hd%word_char_facts. unfold is_not. to_prop. lia. }
  assert (span (fun c => is_not 40 c && is_not 32 c) (w ++ tl) = (w, tl)) as ->.
  { destruct Ht as [-> | [t ->]]; [|by apply span_app]. rewrite app_nil_r. by apply span_all. }
  unfold SH_VAR_NAMSZ. replace (64 <=? _) with false by blia. by destruct Ht as [-> | [t ->]].
Qed.
End ordinary.

(** ** Running lines *)

Section running.
Context (fuel : nat) (bufs : buffers) (commands : text -> option (option (list text -> M world unit))) (depth : nat) (live : list Z).
(** The interpreter that commands call, and the one of the script. *)
Abbreviation inner := (interp fuel bufs commands depth).
Abbreviation outer := (interp fuel bufs commands (S depth)).
Definition simple : list text -> M world Z :=
  sh_run_simple fuel bufs (i_exec inner) (i_string inner) (shell_exec_builtin fuel inner commands) live.

Lemma words_facts ws : words_ok ws = true -> forallb word_ok ws = true /\ ws <> [] /\ (length ws < 64)%nat /\ (length (join ws) < 1000)%nat.
Proof.
  intros [[[Hws Hne%negb_true_iff]%andb_prop Hn%Nat.ltb_lt]%andb_prop Hl%Nat.ltb_lt]%andb_prop. split_and!; try done.
  by intros ->.
Qed.
Lemma line_plain ws : forallb word_ok ws = true -> forallb plain_char (join ws) = true.
Proof.
  intros Hws. eapply forallb_impl; [|by apply join_line]. intros c Hc%line_char_facts. unfold plain_char. to_prop. lia.
Qed.
Lemma expand_words sh_exec size ws w : words_ok ws = true -> 1000 <= size ->
  expanded fuel bufs sh_exec size (join ws) w = Done (join ws, w).
Proof.
  intros (Hws & Hne & _ & Hl)%words_facts Hs. apply expanded_plain; [by apply line_plain|lia|by apply join_ne].
Qed.
Lemma exec_words_run ws w : words_ok ws = true -> i_exec outer live (join ws) w = simple ws w.
Proof.
  intros Hok. pose proof (words_facts ws Hok) as (Hws & Hne & Hn & Hl). change (i_exec outer) with (exec_line fuel bufs inner commands).
  unfold exec_line. rewrite (bind_Done _ _ _ _ _ (expand_words _ SH_LINE_MAX ws w Hok ltac:(done))).
  assert (tokenize fuel bufs (i_exec inner live) (SH_LINE_MAX * 2) (join ws) w = Done (ws, w)) as Ht.
  { rewrite <- (quote_words ws Hws) at 1. apply (tokens_run fuel bufs _ _ ws true).
    - eapply forallb_impl; [|exact Hws]. intros l [_ Hl']%andb_prop. eapply forallb_impl; [|exact Hl'].
      intros c Hc%word_char_facts. unfold is_not. to_prop. lia.
    - unfold SH_MAX_ARGS. lia.
    - rewrite arg_bytes_join by done. unfold SH_LINE_MAX. lia. }
  by rewrite (bind_Done _ _ _ _ _ Ht).
Qed.
Lemma pipeline_words_run ws w : words_ok ws = true ->
  sh_run_pipeline fuel bufs (i_exec outer) live (join ws) w = (put_stages [join ws];; simple ws) w.
Proof.
  intros Hok. pose proof (words_facts ws Hok) as (Hws & Hne & Hn & Hl). pose proof (join_line ws Hws) as Hline.
  unfold sh_run_pipeline, split_start. rewrite (split_stages_run (join ws) [] Hline) by (cbn; unfold SH_LINE_MAX; lia). cbn [app].
  unfold mbind, M_bind. destruct (put_stages [join ws] w) as [[[] w']| | | |]; try done.
  unfold run_single. unfold SH_LINE_MAX. replace (_ <=? _) with false by blia.
  rewrite (redirects_run _ _ _ Hline) by lia. unfold run_redirected, put_names. cbn [app redir_in redir_out redir_app stripped].
  unfold mbind, M_bind, zoom, modify, mret, M_ret. cbn [default view]. destruct w' as [s [st o a] m]. cbn. by apply exec_words_run.
Qed.
Lemma run_line_words ws p w : words_ok ws = true ->
  run_line fuel bufs (i_exec outer) live (join ws) p w =
  (ret ← (put_stages [join ws];; ret ← simple ws; set_last_status ret;; mret ret); go_on (ret, p)) w.
Proof.
  intros Hok. unfold run_line. rewrite (bind_Done _ _ _ _ _ (expand_words _ SH_LINE_MAX ws w Hok ltac:(done))).
  unfold mbind at 1, M_bind at 1. rewrite (pipeline_words_run ws w Hok).
  unfold mbind, M_bind. destruct (put_stages _ w) as [[[] w']| | | |]; try done.
  by destruct (simple ws w') as [[r w2]| | | |].
Qed.

Abbreviation turn_of := (turn fuel bufs (i_exec outer) (i_string outer) live).
Abbreviation run_simple ws := (put_stages [join ws];; ret ← simple ws; set_last_status ret;; mret ret) (only parsing).

(** A line of words up to its end, as the block reads it. *)
Lemma turn_words block execute last ws e rest w : words_ok ws = true -> e = 10 \/ e = 59 ->
  function_head (join ws) = Done None ->
  turn_of block execute last (join ws ++ e :: rest) w =
  run_command fuel bufs (i_exec outer) (i_string outer) live block execute last (join ws) (join ws) (join ws ++ e :: rest) rest w.
Proof.
  intros Hok He Hf. pose proof (words_facts ws Hok) as (Hws & Hne & _ & Hl). pose proof (join_line ws Hws) as Hline.
  unfold turn. destruct (join ws) as [|c l] eqn:Hj; [by apply join_ne in Hj|].
  assert (word_char c = true) as Hcw.
  { destruct ws as [|[|d x] ws]; [done|done|]. pose proof Hws as [[_ [Hd _]%andb_prop]%andb_prop _]%andb_prop.
    destruct ws as [|y ws]; injection Hj as -> _; done. }
  apply word_char_facts in Hcw. unfold skip_blank. cbn [app span].
  assert (is_blank c = false) as Hb by (unfold is_blank; to_prop; lia). rewrite Hb. cbn [snd].
  replace (c =? 10) with false by blia. replace (c =? 35) with false by blia.
  unfold block_line. change (c :: l ++ e :: rest) with ((c :: l) ++ e :: rest).
  rewrite (logical_line_run (c :: l) e rest [] Hline He) by (cbn; cbn in Hl; unfold SH_LINE_MAX; lia). cbn [app drop].
  pose proof (join_trimmed ws Hws) as Ht. rewrite Hj in Ht. rewrite Ht. unfold mbind at 1, M_bind at 1, lift at 1. by rewrite Hf.
Qed.
Lemma turn_simple block execute last ws rest w : command_ok ws = true ->
  turn_of block execute last (join ws ++ 10 :: rest) w =
  (ret ← (if execute then run_simple ws else mret last); go_on (ret, rest)) w.
Proof.
  intros Hok. destruct ws as [|x ws]; [done|]. assert (words_ok (x :: ws) = true) as Hws.
  { unfold command_ok in Hok. by apply andb_prop in Hok as [[? _]%andb_prop _]. }
  rewrite turn_words by (auto using ordinary_no_function). unfold run_command, block_end.
  rewrite (ordinary_starts x ws Hok "if" "if "), (ordinary_eqs x ws Hok "if") by (done || cbn; auto).
  rewrite (ordinary_keyword x ws Hok "fi"), (ordinary_keyword x ws Hok "done"), (ordinary_keyword x ws Hok "esac"),
    (ordinary_keyword x ws Hok "then"), (ordinary_keyword x ws Hok "do"), (ordinary_keyword x ws Hok "else") by (done || cbn; auto 20).
  destruct (ordinary_head x ws Hok) as (c & l & Hc & _ & H125). assert ((char_at (join (x :: ws)) 0 =? 125) = false) as -> by by rewrite Hc.
  pose proof (ordinary_facts x ws Hok) as (_ & Hall & _ & Hr & _). unfold reserved in Hr.
  apply orb_false_elim in Hr as [[[_ He]%orb_false_elim Hret]%orb_false_elim _].
  rewrite (ordinary_prefix x ws Hok "elif" eq_refl He), (ordinary_prefix x ws Hok "return" eq_refl Hret).
  rewrite (ordinary_starts x ws Hok "while" "while "), (ordinary_starts x ws Hok "for" "for "),
    (ordinary_starts x ws Hok "case" "case ") by (done || cbn; auto 20).
  rewrite (ordinary_eqs x ws Hok "while"), (ordinary_eqs x ws Hok "break"), (ordinary_eqs x ws Hok "continue") by (done || cbn; auto 20).
  cbn [orb]. rewrite logical_op_none by by apply join_line. destruct execute; [by apply run_line_words|done].
Qed.

(** The lines of a conditional. *)
Lemma turn_if block execute last ws rest w : condition_ok ws = true ->
  turn_of block execute last (bytes_of "if " ++ join ws ++ 59 :: rest) w =
  (taken ← (if execute then r ← simple ws; mret (r =? 0) else mret false);
   '(_, p) ← block (execute && taken) rest;
   p ← if_tails (i_exec outer) live block execute taken p;
   go_on (0, p)) w.
Proof.
  intros [[Hok Hif]%andb_prop Ht]%andb_prop. pose proof (words_facts ws Hok) as (Hws & Hne & _).
  pose proof (turn_words block execute last (bytes_of "if" :: ws) 59 rest w Hif (or_intror eq_refl)) as Hturn.
  assert (join (bytes_of "if" :: ws) = bytes_of "if " ++ join ws) as Hj by by destruct ws.
  rewrite Hj in Hturn. rewrite app_assoc, Hturn; [|reflexivity]. unfold run_command.
  rewrite starts_app. cbn [orb]. unfold run_if.
  assert (if_condition (bytes_of "if " ++ join ws) (bytes_of "if " ++ join ws) w = Done (join ws, w)) as Hc.
  { pose proof (find_then_word (bytes_of "if") _ eq_refl (find_then_join ws Hws Ht)) as Hf.
    change (bytes_of "if" ++ 32 :: join ws) with (bytes_of "if " ++ join ws) in Hf.
    assert ((length (bytes_of "if " ++ join ws) <? 3)%nat = false) as Hl by reflexivity.
    unfold if_condition, after_keyword, mbind, M_bind. rewrite Hl, Hf. reflexivity. }
  rewrite (bind_Done _ _ _ _ _ Hc). unfold mbind, M_bind. destruct execute; [|done].
  rewrite exec_words_run by done. by destruct (simple ws w) as [[r w']| | | |].
Qed.
Lemma turn_then block execute last rest w :
  turn_of block execute last (bytes_of " then" ++ newline ++ rest) w = Done (inl (last, rest), w).
Proof. reflexivity. Qed.
Lemma turn_fi block execute last rest w :
  turn_of block execute last (bytes_of "fi" ++ newline ++ rest) w = Done (inr (last, rest), w).
Proof. reflexivity. Qed.

(** After a conditional comes the end of the text, or another line. *)
Lemma if_tails_end block execute taken w : if_tails (i_exec outer) live block execute taken [] w = Done ([], w).
Proof. reflexivity. Qed.
Lemma if_tails_word block execute taken x tl w : word_ok x = true -> word_stops tl -> starts "elif" x = false ->
  x <> bytes_of "else" -> x <> bytes_of "fi" -> if_tails (i_exec outer) live block execute taken (x ++ tl) w = Done (x ++ tl, w).
Proof.
  intros [Hne Hx]%andb_prop Hs Helif Helse Hfi. unfold if_tails. cbn [iter].
  destruct (x ++ tl) as [|c l] eqn:Hl; [by destruct x|]. rewrite <- Hl. cbn [snd].
  assert (skip_blank (x ++ tl) = x ++ tl) as Hb.
  { destruct x as [|d x']; [done|]. cbn [forallb] in Hx. apply andb_prop in Hx as [Hd%word_char_facts _]. unfold skip_blank. cbn [app span].
    assert (is_blank d = false) as -> by (unfold is_blank; to_prop; lia). done. }
  assert (forall k, forallb word_char (bytes_of k) = true -> x <> bytes_of k ->
    forall b, (b = true -> word_stops (drop (String.length k) (x ++ tl))) -> starts k (x ++ tl) && b = false) as Hk.
  { intros k Hkw Hxk b Hd. apply not_true. intros [Hst Hbt]%andb_prop. apply starts_inv in Hst as [r Hr]. apply Hxk.
    apply (words_split x (bytes_of k) tl r); try done. specialize (Hd Hbt). by rewrite Hr, <- length_bytes_of, drop_app_length in Hd. }
  assert (forall k, word_char (char_at (x ++ tl) k) = false -> word_stops (drop k (x ++ tl))) as Hstop.
  { intros k Hc. unfold char_at in Hc. rewrite <- (Nat.add_0_r k), <- lookup_drop in Hc. by destruct (drop k _). }
  unfold if_tail. rewrite Hb.
  assert (starts "elif " (x ++ tl) = false) as ->.
  { apply not_true. intros [r Hr]%starts_inv. change (bytes_of "elif ") with (bytes_of "elif" ++ [32]) in Hr. rewrite <- app_assoc in Hr.
    apply (words_split x (bytes_of "elif") tl (32 :: r)) in Hr; [|done..]. rewrite Hr in Helif. by vm_compute in Helif. }
  rewrite (Hk "else"), (Hk "fi"); [by rewrite Hl|done|done| |done|done|]; intros Hc; apply Hstop.
  all: change (String.length _) with 2%nat || change (String.length _) with 4%nat.
  all: apply not_true; intros Hw%word_char_facts; unfold ends_word in Hc; to_prop; lia.
Qed.

(** ** Blocks *)

Abbreviation blk := (sh_exec_block fuel bufs outer).
Lemma block_step n execute last p w : p <> [] ->
  blk (S n) live execute last p w =
  (r ← turn_of (fun e q => blk n live e 0 q) execute last p;
   match r with inl (last, p) => blk n live execute last p | inr r => mret r end) w.
Proof. by destruct p. Qed.
(** The turns of a block over a program. *)
Fixpoint turns (p : program) : nat :=
  match p with Nop => O | Simple _ next => S (turns next) | If _ _ next => S (turns next) end.
Lemma turns_length p : (turns p <= length (render p))%nat.
Proof. induction p as [|ws p IH|cond body _ p IH]; cbn [turns render]; rewrite ?length_app; cbn [length newline]; lia. Qed.

(** What follows a conditional does not go on with it. *)
Lemma if_tails_program block execute taken inner p tail w : program_ok inner p = true ->
  match p with Nop => tail = [] | _ => True end ->
  if_tails (i_exec outer) live block execute taken (render p ++ tail) w = Done (render p ++ tail, w).
Proof.
  intros Hok Hp. destruct p as [|ws p|cond body p]; cbn [render].
  - by subst tail.
  - cbn [program_ok] in Hok. apply andb_prop in Hok as [Hws _]. destruct ws as [|x ws]; [done|].
    pose proof (ordinary_facts x ws Hws) as (Hx & _ & _ & Hr & _). destruct (join_head x ws) as (tl & Hj & Hs & Ht).
    rewrite Hj, <- !app_assoc. unfold reserved in Hr. apply orb_false_elim in Hr as [[[_ He]%orb_false_elim _]%orb_false_elim _].
    apply if_tails_word; [done| |done|by apply (not_reserved x ws Hws); cbn; auto 20..].
    by destruct Ht as [-> | [t ->]].
  - rewrite <- !app_assoc. by apply (if_tails_word block execute taken (bytes_of "if") (32 :: _)).
Qed.

(** The block runs the program and goes on with the text behind it. *)
Lemma block_program p : forall inner n execute last tail w, program_ok inner p = true -> inner = true \/ tail = [] ->
  (length (render p ++ tail) < n)%nat ->
  blk n live execute last (render p ++ tail) w =
  (ret ← meaning simple execute last p; blk (n - turns p) live execute ret tail) w.
Proof.
  induction p as [|ws p IH|cond body IHb p IH]; intros inner n execute last tail w Hok Hin Hn.
  { cbn [render turns meaning app]. by rewrite Nat.sub_0_r. }
  - cbn [program_ok] in Hok. apply andb_prop in Hok as [Hws Hok]. cbn [render] in Hn |- *. rewrite <- !app_assoc in Hn |- *.
    rewrite !length_app in Hn. cbn [length newline app] in Hn. destruct n as [|n]; [lia|].
    rewrite block_step by by destruct (join ws). cbn [newline app meaning turns Nat.sub].
    rewrite (bind_cong _ _ _ _ (turn_simple _ _ _ _ _ _ Hws)), <- !bind_assoc. apply bind_ext. intros r w'.
    apply (IH inner); [done|done|rewrite length_app; lia].
  - cbn [program_ok] in Hok. apply andb_prop in Hok as [[[Hc Hb]%andb_prop Hok]%andb_prop Hnext].
    cbn [render] in Hn |- *. rewrite <- !app_assoc in Hn |- *. set (rest := render p ++ tail) in *.
    change (bytes_of "; then" ++ ?x) with (59 :: bytes_of " then" ++ x) in Hn |- *.
    rewrite !length_app in Hn. cbn [length] in Hn. rewrite !length_app in Hn.
    destruct n as [|n]; [lia|]. rewrite block_step by done. cbn [meaning turns Nat.sub].
    rewrite (bind_cong _ _ _ _ (turn_if _ _ _ _ _ _ Hc)), <- !bind_assoc. apply bind_ext. intros taken w'.
    assert (blk n live (execute && taken) 0 (bytes_of " then" ++ newline ++ render body ++ bytes_of "fi" ++ newline ++ rest) w' =
      (ret ← meaning simple (execute && taken) 0 body; mret (ret, rest)) w') as Hbody.
    { destruct n as [|[|n]]; [cbn in Hn; lia..|]. pose proof (turns_length body). cbn [length newline] in Hn. rewrite block_step by done.
      rewrite (bind_Done _ _ _ _ _ (turn_then _ _ _ _ _)).
      rewrite (IHb true); [|done|by left|rewrite !length_app; cbn [length newline]; lia]. apply bind_ext. intros r w2.
      destruct (S n - turns body)%nat as [|k] eqn:Hk; [cbn in Hn; lia|]. rewrite block_step by done.
      by rewrite (bind_Done _ _ _ _ _ (turn_fi _ _ _ _ _)). }
    rewrite <- bind_assoc, (bind_cong _ _ _ _ Hbody), <- !bind_assoc. apply bind_ext. intros r w2. rewrite bind_assoc.
    unfold rest. assert (if_tails (i_exec outer) live (fun e q => blk n live e 0 q) execute taken (render p ++ tail) w2 =
      Done (render p ++ tail, w2)) as Ht.
    { apply (if_tails_program _ _ _ inner); [done|]. destruct p; try done. by destruct Hin as [-> | ?]. }
    rewrite <- !bind_assoc, (bind_Done (mret _) _ _ (r, rest) w2 eq_refl). cbn beta iota.
    rewrite <- bind_assoc, (bind_Done _ _ _ _ _ Ht). apply (IH inner); [done|done|]. fold rest. lia.
Qed.
End running.

(** C32: sh_run_string() of the text of a program of commands and conditionals does what
    the program means: every command is run with its words and sets $?, a condition is
    run once and its body exactly when it returned 0, and nothing of a branch that is
    not taken is run. [program_ok] says for which programs: the words are plain (no
    quotes, expansions or keywords), fewer than 64 and 1000 characters a line, and
    conditionals nest, but none is the last of the body of another, since the code
    takes two successive ends for one ([nested_ends_taken]). Lines, expansion,
    splitting, pipelines and the bounds of all arrays are those of the code. *)
Theorem program_refines fuel bufs commands depth p w : program_ok false p = true ->
  sh_run_string fuel bufs commands (S (S depth)) (render p) w =
  (in_shell (modify (set_flow SH_FLOW_NONE));; meaning (simple fuel bufs commands depth []) true 0 p) w.
Proof.
  intros Hok. unfold sh_run_string. change (i_string (interp fuel bufs commands (S (S depth))))
    with (run_string fuel bufs (interp fuel bufs commands (S depth))). unfold run_string. apply bind_ext. intros [] w'.
  pose proof (block_program fuel bufs commands depth [] p false (S (length (render p))) true 0 [] w' Hok (or_intror eq_refl)) as Hb.
  rewrite app_nil_r in Hb. rewrite (bind_cong _ _ _ _ (Hb (le_n _))).
  rewrite <- bind_assoc. unfold mbind at 1, M_bind at 1.
  destruct (meaning _ true 0 p w') as [[r w2]| | | |]; try done. unfold mbind, M_bind. pose proof (turns_length p).
  destruct (S (length (render p)) - turns p)%nat as [|k] eqn:Hk; [lia|done].
Qed.

(** ** Samples *)

Definition no_commands (name : text) : option (option (list text -> M world unit)) := None.
Definition world_off : world := World shell_zero (Pipes (fun _ => []) [] []) (w_machine world_words).
(** The variables after a script. *)
Definition values_after (names : list string) (r : outcome (Z * world)) : option (list (option text)) :=
  match r with Done (_, w) => Some ((fun s => lookup_var (w_shell w) (bytes_of s)) <$> names) | _ => None end.
Definition script_of (lines : list string) : text := concat ((fun s => bytes_of s ++ newline) <$> lines).
Definition run_sample (lines : list string) : outcome (Z * world) := sh_run_string 100 bufs_words no_commands 9 (script_of lines) world_off.
Definition value (s : string) : option text := Some (bytes_of s).

Definition words (l : list string) : list text := bytes_of <$> l.
Definition program_sample : program :=
  Simple (words ["a=1"]%string)
    (If (words ["test"; "1"; "-lt"; "2"]%string) (If (words ["false"]%string) (Simple (words ["b=1"]%string) Nop) (Simple (words ["c=2"]%string) Nop))
    (If (words ["["; "x"; "="; "y"; "]"]%string) (Simple (words ["d=3"]%string) Nop) Nop)).
Lemma program_refines_witness :
  render program_sample = script_of ["a=1"; "if test 1 -lt 2; then"; "if false; then"; "b=1"; "fi"; "c=2"; "fi";
    "if [ x = y ]; then"; "d=3"; "fi"]%string /\
  values_after ["a"; "b"; "c"; "d"]%string (sh_run_string 100 bufs_words no_commands 9 (render program_sample) world_off) =
    Some [value "1"; None; value "2"; None].
Proof.
  split; [by vm_compute|]. rewrite (program_refines 100 bufs_words no_commands 7 program_sample world_off); [by vm_compute|by vm_compute].
Defined.

(** ** Scripts that do something else than they say *)

(** The branch after [else] is run although the condition held, and what follows the
    conditional is not. *)
Example else_branch_runs :
  values_after ["a"; "b"]%string (run_sample ["if true; then"; "a=1"; "else"; "a=2"; "fi"; "b=3"]%string) = Some [value "2"; None].
Proof. by vm_compute. Qed.
(** The body of a loop is run once more than there are words, and the block ends. *)
Example loop_body_runs_again :
  values_after ["n"; "b"]%string (run_sample ["n=x"; "for i in 1 2; do"; "n=${n}x"; "done"; "b=1"]%string) = Some [value "xxxx"; None].
Proof. by vm_compute. Qed.
(** The end of a conditional right before the end of the one around it takes both:
    the rest of the script belongs to the branch that is not taken. *)
Example nested_ends_taken :
  values_after ["b"]%string (run_sample ["if false; then"; "if false; then"; "a=1"; "fi"; "fi"; "b=1"]%string) = Some [None].
Proof. by vm_compute. Qed.
(** [break] in a branch that is not taken ends the loop. *)
Example untaken_break_ends_loop :
  values_after ["n"]%string (run_sample ["n=x"; "for i in 1 2 3; do"; "if false; then"; "break"; "fi"; "n=${n}x"; "done"]%string) = Some [value "xx"].
Proof. by vm_compute. Qed.
(** The number of parameters starts a comment. *)
Example count_is_comment :
  values_after ["n"]%string (run_sample ["n=x$#"]%string) = Some [value "x"].
Proof. by vm_compute. Qed.
(** Quotes are removed before the words are split. *)
Example quotes_lost :
  values_after ["n"]%string (run_sample ["f() {"; "n=$1"; "}"; "f 'a b'"]%string) = Some [value "a"].
Proof. by vm_compute. Qed.
