(* ===== verification/ShellOutput.v ===== *)
(** * Output of commands and what is substituted for it

    While kout_redirect() is in force the output of a command is a text in memory.
    What echo prints is what a command substitution of it gives. *)

From S2P Require Import Prelude Pmm Mem Strings Vmm UserSpace ElfLoad Heap Cpu Sched Input Console Shm Vfs Devfs Printf Arith UnixSocket System Machine ShellVars ShellWords ShellRun ShellScript ShellProgram.

(** ** Memory and redirection of a world *)

Definition mem_of (w : world) : mem := kmem (view w : heap).
Definition with_mem (mm : mem) (w : world) : world := over (set_kmem mm (view w : heap)) w.
Definition with_kout (b l c : Z) (w : world) : world := over (Kout (o_kernel (view w : kout kstate)) b l c) w.

Lemma mem_of_with mm b l c w : mem_of (with_kout b l c (with_mem mm w)) = mm.
Proof. by destruct w as [s p [[[[[] ? ? ? ?] ?] ? ? ? ? ? ?] ? ? ? ? ? ? ?]]. Qed.
Lemma with_mem_twice m2 m1 w : with_mem m2 (with_mem m1 w) = with_mem m2 w.
Proof. by destruct w as [s p [[[[[[]] ? ? ? ?] ?] ? ? ? ? ? ?] ? ? ? ? ? ? ?]]. Qed.
Lemma with_kout_mem b l c b' l' c' mm w : with_kout b l c (with_mem mm (with_kout b' l' c' w)) = with_kout b l c (with_mem mm w).
Proof. by destruct w as [s p [[[[[[]] ? ? ? ?] ?] ? ? ? ? ? ? ?] ? ? ? ? ? ? ?]]. Qed.
Lemma with_kout_twice b l c b' l' c' w : with_kout b l c (with_kout b' l' c' w) = with_kout b l c w.
Proof. by destruct w as [s p [[[[[[]] ? ? ? ?] ?] ? ? ? ? ? ? ?] ? ? ? ? ? ? ?]]. Qed.
Lemma with_mem_same w : with_mem (mem_of w) w = w.
Proof. by destruct w as [s p [[[[[[]] ? ? ? ?] ?] ? ? ? ? ? ? ?] ? ? ? ? ? ? ?]]. Qed.
Lemma mem_of_kout b l c w : mem_of (with_kout b l c w) = mem_of w.
Proof. by destruct w as [s p [[[[[[]] ? ? ? ?] ?] ? ? ? ? ? ? ?] ? ? ? ? ? ? ?]]. Qed.

#[export] Instance w_out_laws : LensLaws world (kout kstate).
Proof.
  split; [intros t w|intros w|intros t t' w]; destruct w as [s p [[[[[[]] ? ? ? ?] ?] ? ? ? ? ? ? ?] ? ? ? ? ? ? ?]]; by try destruct t as [[]].
Qed.
Lemma zoom_bind {S T A B} `{LensLaws S T} (m : M T A) (f : A -> M T B) (s : S) :
  zoom (m ≫= f) s = (zoom m ≫= fun a => zoom (f a)) s.
Proof.
  unfold mbind, M_bind, zoom. destruct (m (view s)) as [[a t]| | | |]; try done. rewrite view_over.
  destruct (f a t) as [[b t']| | | |]; try done. by rewrite over_over.
Qed.

#[export] Instance w_machine_laws : LensLaws world machine.
Proof. split; by intros; repeat match goal with w : world |- _ => destruct w end. Qed.
Lemma zoom_inner {A} (m : M (kout kstate) A) (w : world) : zoom (T := machine) (zoom (T := kout kstate) m) w = zoom (T := kout kstate) m w.
Proof. unfold zoom. cbn. by destruct (m _) as [[a o]| | | |]. Qed.

(** ** Capturing *)

(** The memory [mm] holds the text at [b], and outside of the buffer what it held in [m]. *)
Definition holds (b : Z) (t : text) (m mm : mem) : Prop :=
  (forall i c, t !! i = Some c -> mm (b + Z.of_nat i) = c) /\ (t <> [] -> mm (b + Z.of_nat (length t)) = 0) /\
  (forall a, a < b \/ b + SH_PIPE_BUF <= a -> mm a = m a).
(** In [w] the text was written since the redirection in [w0]. *)
Definition captured_text (b : Z) (t : text) (w0 w : world) : Prop :=
  exists mm, w = with_kout b (Z.of_nat (length t)) SH_PIPE_BUF (with_mem mm w0) /\ holds b t (mem_of w0) mm.

Lemma holds_store b t m mm c : holds b t m mm -> 0 < c < 256 -> Z.of_nat (length t) + 1 < SH_PIPE_BUF ->
  holds b (t ++ [c]) m (store_bytes mm (b + Z.of_nat (length t)) [u8 c; 0]).
Proof.
  intros (Hi & _ & Hout) Hc Hl. set (n := Z.of_nat (length t)) in *.
  assert (forall x, store_bytes mm (b + n) [u8 c; 0] x = if x =? b + n then c else if x =? b + n + 1 then 0 else mm x) as Hat.
  { intros x. rewrite store_bytes_at, (u8_small c) by lia. destruct (Z.eqb_spec x (b + n)) as [->|].
    - rewrite Z.sub_diag. cbn -[u8]. rewrite Z.leb_refl. apply u8_small. lia.
    - destruct (Z.eqb_spec x (b + n + 1)) as [->|]; [replace (Z.to_nat _) with 1%nat by lia; cbn; by replace (_ <=? _) with true by blia|].
      destruct (Z.leb_spec (b + n) x); [|by case_match]. destruct (Z.to_nat (x - (b + n))) as [|[|k]] eqn:Hk; [lia|lia|done]. }
  split_and!.
  - intros i d Hd. rewrite Hat. apply lookup_app_Some in Hd as [Hd|[Hge Hd]].
    + pose proof (lookup_lt_Some _ _ _ Hd). replace (_ =? _) with false by blia. replace (_ =? _) with false by blia. by apply Hi.
    + destruct (i - length t)%nat as [|k] eqn:Hk; [|done]. injection Hd as ->. by replace (_ =? _) with true by blia.
  - intros _. rewrite Hat, length_app. cbn [length]. replace (_ =? _) with false by blia. by replace (_ =? _) with true by blia.
  - intros a Ha. rewrite Hat. unfold SH_PIPE_BUF in *. replace (_ =? _) with false by blia. replace (_ =? _) with false by blia. by apply Hout.
Qed.

Section capture.
Context (fuel : nat) (b : Z) (Hb : b <> 0).

Lemma kputchar_step n c w : 0 <= n -> u64 (n + 1) < SH_PIPE_BUF ->
  zoom (T := kout kstate) (kputchar fuel c) (with_kout b n SH_PIPE_BUF w) =
  Done (tt, with_kout b (n + 1) SH_PIPE_BUF (with_mem (store_bytes (mem_of w) (b + n) [u8 c; 0]) w)).
Proof.
  intros Hn Hl. destruct w as [s p [[[[[[]] ? ? ? ?] ?] ? ? ? ? ? ? ?] ? ? ? ? ? ? ?]].
  unfold zoom, kputchar, get, mbind, M_bind. cbn -[u64 store_bytes SH_PIPE_BUF].
  assert (nonzero b = true) as -> by (unfold nonzero; by replace (b =? 0) with false by blia).
  by replace (u64 (n + 1) <? SH_PIPE_BUF) with true by blia.
Qed.
Lemma putchar_captured c t w0 w : captured_text b t w0 w -> 0 < c < 256 -> Z.of_nat (length t) + 1 < SH_PIPE_BUF ->
  exists w', zoom (T := kout kstate) (kputchar fuel c) w = Done (tt, w') /\ captured_text b (t ++ [c]) w0 w'.
Proof.
  intros (mm & -> & Hm) Hc Hl. eexists. split; [apply kputchar_step; [lia|unfold SH_PIPE_BUF in *; rewrite u64_small; lia]|].
  replace (mem_of (with_mem mm w0)) with mm by (symmetry; exact (mem_of_with mm 0 0 0 w0)).
  exists (store_bytes mm (b + Z.of_nat (length t)) [u8 c; 0]). rewrite with_mem_twice. split; [|by apply holds_store].
  rewrite length_app. cbn [length]. do 2 f_equal. lia.
Qed.
Lemma puts_captured l t w0 w : captured_text b t w0 w -> Forall (fun c => 0 < c < 256) l ->
  Z.of_nat (length t + length l) < SH_PIPE_BUF ->
  exists w', zoom (T := kout kstate) (kputs_raw fuel l) w = Done (tt, w') /\ captured_text b (t ++ l) w0 w'.
Proof.
  revert t w. induction l as [|c l IH]; intros t w Hw Hl Hn; cbn [kputs_raw].
  { exists w. rewrite app_nil_r. split; [|done]. unfold zoom, mret, M_ret. by destruct w as [s p [[[[[[]] ? ? ? ?] ?] ? ? ? ? ? ? ?] ? ? ? ? ? ? ?]]. }
  apply Forall_cons_iff in Hl as [Hc Hl]. cbn [length] in Hn. replace (c =? 0) with false by blia.
  destruct (putchar_captured c t w0 w Hw Hc ltac:(lia)) as (w1 & Hr1 & Hw1).
  destruct (IH (t ++ [c]) w1 Hw1 Hl ltac:(rewrite length_app; cbn [length]; lia)) as (w2 & Hr2 & Hw2).
  exists w2. rewrite <- app_assoc in Hw2. split; [|exact Hw2]. by rewrite zoom_bind, (bind_Done _ _ _ _ _ Hr1).
Qed.

Lemma kprintf_captured fmt args l t w0 w : formatted fmt args = Done l -> captured_text b t w0 w -> Forall (fun c => 0 < c < 256) l ->
  Z.of_nat (length t + length l) < SH_PIPE_BUF ->
  exists w', print fuel fmt args w = Done (tt, w') /\ captured_text b (t ++ l) w0 w'.
Proof.
  intros Hf Hw Hl Hn. destruct (puts_captured l t w0 w Hw Hl Hn) as (w' & Hr & Hw'). exists w'. split; [|exact Hw'].
  unfold print, say. rewrite zoom_bind.
  assert (zoom (T := machine) (zoom (T := kout kstate) (kprintf fuel fmt args)) w = Done (Z.of_nat (length l), w')) as Hp.
  { rewrite zoom_inner. unfold kprintf, kvsnprintf. rewrite Hf. cbn beta iota zeta. rewrite zoom_bind, (bind_Done _ _ _ _ _ Hr).
    unfold zoom, mret, M_ret. by rewrite over_view. }
  rewrite (bind_Done _ _ _ _ _ Hp). unfold zoom, mret, M_ret. by rewrite over_view.
Qed.
Lemma print_char c t w0 w : captured_text b t w0 w -> 0 < c < 256 -> Z.of_nat (length t) + 1 < SH_PIPE_BUF ->
  exists w', print fuel (bytes_of "%c") [Num c] w = Done (tt, w') /\ captured_text b (t ++ [c]) w0 w'.
Proof.
  intros Hw Hc Hn. apply kprintf_captured; [|done|by apply Forall_singleton|cbn [length]; lia].
  rewrite <- (u8_small c) at 2 by lia. unfold formatted, format. reflexivity.
Qed.

(** ** echo *)

Lemma echo_text_captured l : forall t w0 w, forallb word_char l = true -> captured_text b t w0 w ->
  Z.of_nat (length t + length l) < SH_PIPE_BUF ->
  exists w', echo_text fuel l w = Done (tt, w') /\ captured_text b (t ++ l) w0 w'.
Proof.
  induction l as [|c l IH]; intros t w0 w Hl Hw Hn; cbn [echo_text forallb length] in *.
  { exists w. by rewrite app_nil_r. }
  apply andb_prop in Hl as [Hc%word_char_facts Hl]. replace (c =? 92) with false by blia.
  destruct (print_char c t w0 w Hw ltac:(lia) ltac:(lia)) as (w1 & Hr1 & Hw1).
  destruct (IH (t ++ [c]) w0 w1 Hl Hw1 ltac:(rewrite length_app; cbn [length]; lia)) as (w2 & Hr2 & Hw2).
  exists w2. rewrite <- app_assoc in Hw2. split; [|exact Hw2]. by rewrite (bind_Done _ _ _ _ _ Hr1).
Qed.
Definition join_rest (first : bool) (ws : list text) : text :=
  if first then join ws else match ws with [] => [] | _ => 32 :: join ws end.
Lemma echo_args_captured ws : forall first t w0 w, forallb word_ok ws = true -> captured_text b t w0 w ->
  Z.of_nat (length t + length (join_rest first ws)) < SH_PIPE_BUF ->
  exists w', echo_args fuel first ws w = Done (tt, w') /\ captured_text b (t ++ join_rest first ws) w0 w'.
Proof.
  induction ws as [|x ws IH]; intros first t w0 w Hws Hw Hn.
  { exists w. replace (join_rest first []) with (@nil Z) by by destruct first. by rewrite app_nil_r. }
  cbn [forallb] in Hws. apply andb_prop in Hws as [[_ Hx]%andb_prop Hws]. cbn [echo_args].
  assert (join_rest first (x :: ws) = (if first then [] else [32]) ++ x ++ join_rest false ws) as Hj.
  { destruct first, ws; cbn; by rewrite ?app_nil_r. }
  rewrite Hj, !length_app in Hn.
  assert (exists w1, (if first then mret tt else print fuel [32] []) w = Done (tt, w1) /\
    captured_text b (t ++ if first then [] else [32]) w0 w1) as (w1 & Hr1 & Hw1).
  { destruct first; [exists w; by rewrite app_nil_r|]. apply kprintf_captured; [done|done|by apply Forall_singleton|cbn [length] in *; lia]. }
  destruct (echo_text_captured x _ w0 w1 Hx Hw1) as (w2 & Hr2 & Hw2); [rewrite length_app; lia|].
  destruct (IH false _ w0 w2 Hws Hw2) as (w3 & Hr3 & Hw3); [rewrite !length_app; lia|].
  exists w3. rewrite Hj, !app_assoc. split; [|by rewrite <- !app_assoc in * ].
  rewrite (bind_Done _ _ _ _ _ Hr1), (bind_Done _ _ _ _ _ Hr2). exact Hr3.
Qed.
End capture.

(** ** Substitution *)

Lemma redirect_step b w : zoom (T := kout kstate) (kout_redirect b SH_PIPE_BUF) w = Done (tt, with_kout b 0 SH_PIPE_BUF w).
Proof. reflexivity. Qed.
Lemma reset_step b l c w : zoom (T := kout kstate) kout_reset (with_kout b l c w) = Done (tt, with_kout 0 0 0 w).
Proof. transitivity (Done (tt, with_kout 0 0 0 (with_kout b l c w)) : outcome (unit * world)); [done|]. by rewrite with_kout_twice. Qed.
Lemma captured_start b w : captured_text b [] w (with_kout b 0 SH_PIPE_BUF w).
Proof. exists (mem_of w). split; [by rewrite with_mem_same|]. by split_and!. Qed.
Lemma captured_string b t m w : holds b t m (mem_of w) -> t <> [] -> Forall (fun c => 0 < c < 256) t -> Z.of_nat (length t) < SH_PIPE_BUF ->
  string_at (Z.to_nat SH_PIPE_BUF) b w = Done (t, w).
Proof.
  intros (Hi & Hz & _) Hne Ht Hl. unfold string_at. rewrite bind_gets. fold (mem_of w). unfold strlen.
  rewrite (strlen_from_cstr (mem_of w) b t); [|by split_and!; auto|lia|lia|unfold SH_PIPE_BUF in *; lia].
  rewrite Z.add_0_l, Nat2Z.id. unfold mret, M_ret. do 2 f_equal. apply list_eq. intros i. rewrite lookup_load_bytes. case_decide.
  - destruct (lookup_lt_is_Some_2 t i) as [c Hc]; [done|]. by rewrite Hc, (Hi i c Hc).
  - symmetry. apply lookup_ge_None. lia.
Qed.

Section substitution.
Context (fuel : nat) (bufs : buffers) (commands : text -> option (option (list text -> M world unit))) (depth : nat) (live : list Z).

Lemma echo_captured b ws w0 w : b <> 0 -> forallb word_ok ws = true -> (length (join ws) < 1000)%nat -> eqs "-n" (List.hd [] ws) = false ->
  captured_text b [] w0 w ->
  exists w', simple fuel bufs commands depth live (bytes_of "echo" :: ws) w = Done (0, w') /\ captured_text b (join ws ++ newline) w0 w'.
Proof.
  intros Hb Hws Hl Hn Hw. unfold simple. change (sh_run_simple _ _ _ _ _ live (bytes_of "echo" :: ws) w) with (sh_echo fuel ws w).
  unfold sh_echo. assert (match ws with a :: _ => eqs "-n" a | [] => false end = false) as -> by by destruct ws.
  destruct (echo_args_captured fuel b Hb ws true [] w0 w Hws Hw) as (w1 & Hr1 & Hw1); [cbn [length join_rest app]; unfold SH_PIPE_BUF; lia|].
  destruct (kprintf_captured fuel b Hb nl [] newline (join ws) w0 w1 eq_refl Hw1) as (w2 & Hr2 & Hw2);
    [by apply Forall_singleton|cbn [length newline]; unfold SH_PIPE_BUF; lia|].
  exists w2. split; [|exact Hw2]. by rewrite (bind_Done _ _ _ _ _ Hr1), (bind_Done _ _ _ _ _ Hr2).
Qed.
Lemma join_echo ws : ws <> [] -> join (bytes_of "echo" :: ws) = bytes_of "echo " ++ join ws.
Proof. by destruct ws. Qed.
Lemma join_bytes ws : forallb word_ok ws = true -> Forall (fun c => 0 < c < 256) (join ws).
Proof.
  intros Hws. apply List.Forall_forall. intros c Hc. pose proof (join_line ws Hws) as Hl. rewrite forallb_forall in Hl.
  apply Hl, line_char_facts in Hc. lia.
Qed.
Lemma no_newline_end ws : forallb word_ok ws = true -> trim_end is_newline (join ws ++ newline) = join ws.
Proof.
  intros Hws. assert (forall l, forallb line_char l = true -> trim_end is_newline (l ++ newline) = l) as H; [|by apply H, join_line].
  induction l as [|c l IH]; [done|]. cbn [forallb app trim_end]. intros [Hc%line_char_facts Hl]%andb_prop. rewrite (IH Hl).
  assert (is_newline c = false) as -> by (unfold is_newline; to_prop; lia). by destruct l.
Qed.
Lemma substitute_echo b ws w : b <> 0 -> words_ok (bytes_of "echo" :: ws) = true -> ws <> [] -> eqs "-n" (List.hd [] ws) = false ->
  exists mm, substitute (i_exec (interp fuel bufs commands (S depth)) live) b (join (bytes_of "echo" :: ws)) w =
    Done (join ws, with_kout 0 0 0 (with_mem mm w)) /\ forall a, a < b \/ b + SH_PIPE_BUF <= a -> mm a = mem_of w a.
Proof.
  intros Hb Hok Hne Hn. pose proof (words_facts _ Hok) as ([_ Hws]%andb_prop & _ & _ & Hlen). rewrite (join_echo ws Hne), length_app in Hlen.
  unfold substitute. rewrite (bind_Done _ _ _ _ _ (redirect_step b w)).
  destruct (echo_captured b ws w _ Hb Hws ltac:(lia) Hn (captured_start b w)) as (w1 & Hr1 & (mm & -> & Hm)).
  rewrite <- (exec_words_run fuel bufs commands depth live (bytes_of "echo" :: ws) _ Hok) in Hr1.
  rewrite (bind_Done _ _ _ _ _ Hr1), (bind_Done _ _ _ _ _ (reset_step _ _ _ _)).
  set (t := join ws ++ newline) in *. assert (Z.of_nat (length t) < SH_PIPE_BUF) as Hlt.
  { unfold t, SH_PIPE_BUF. rewrite length_app. cbn [length newline]. lia. }
  assert (string_at (Z.to_nat SH_PIPE_BUF) b (with_kout 0 0 0 (with_mem mm w)) = Done (t, with_kout 0 0 0 (with_mem mm w))) as Hs.
  { apply (captured_string b t (mem_of w)); [by rewrite mem_of_with|by destruct (join ws)| |done].
    apply Forall_app. split; [by apply join_bytes|by apply Forall_singleton]. }
  rewrite (bind_Done _ _ _ _ _ Hs). replace (trim_end is_newline t) with (join ws) by (symmetry; by apply no_newline_end). cbn [replicate].
  replace (length t - length (join ws))%nat with 1%nat by (unfold t; rewrite length_app; cbn [length newline]; lia).
  exists (store_bytes mm (b + Z.of_nat (length (join ws))) [0]). split.
  - by destruct w as [s p [[[[[[]] ? ? ? ?] ?] ? ? ? ? ? ? ?] ? ? ? ? ? ? ?]].
  - intros a Ha. rewrite store_bytes_at. destruct Hm as (_ & _ & Hout). unfold SH_PIPE_BUF in *.
    destruct (Z.leb_spec (b + Z.of_nat (length (join ws))) a); [|by rewrite (Hout a Ha); case_match].
    rewrite (lookup_ge_None_2 [0]) by (cbn [length]; lia). by apply Hout.
Qed.
End substitution.

Lemma parens_closed l d : forallb line_char l = true -> 0 < d -> paren_depth d l = Some d.
Proof.
  intros Hl Hd. induction l as [|c l IH]; [done|]. cbn [forallb paren_depth] in *. apply andb_prop in Hl as [Hc%line_char_facts Hl].
  replace (c =? 40) with false by blia. replace (c =? 41) with false by blia. replace (d =? 0) with false by blia. by apply IH.
Qed.

