(* ===== verification/ShellCommands.v ===== *)
(** * Commands of the kernel shell (src/src/shell/shell.c, apps.c, vpkg.c, vinstall.c, vsnake.c)

    The commands behind the table of shell.c, the line editor with its history, and
    the loop that reads lines and runs them. What a command prints goes through
    kprintf(); a wait for ticks blocks, since nothing else runs in the model. *)

From S2P Require Import Prelude Pmm Mem Strings Vmm UserSpace ElfLoad Heap Cpu Sched Input Console Shm Vfs Devfs Printf Arith UnixSocket System Machine ShellVars ShellWords ShellRun ShellScript.

Definition ARG_MAX : Z := 16.
Definition HIST_MAX : Z := 32.

(** ** Texts as lines *)

(** The lines of a text, without their ends. *)
Fixpoint lines_from (n : nat) (l : text) : list text :=
  match n, l with
  | S n', _ :: _ => let '(line, rest) := span (is_not 10) l in line :: lines_from n' (drop 1 rest)
  | _, _ => []
  end.
Definition lines_of (l : text) : list text := lines_from (length l) l.
(** A line in an array of 256. *)
Definition line_buffer (l : text) : text := take 255 l.
(** strstr() finds [pat]. *)
Fixpoint contains (pat l : text) : bool :=
  bool_decide (take (length pat) l = pat) || match l with [] => false | _ :: l' => contains pat l' end.

Definition is_space (c : Z) : bool := (c =? 32) || (c =? 9) || (c =? 10).
(** Lines, words and characters; [inw] is true inside a word. *)
Fixpoint count_text (l : text) (lines words chars : Z) (inw : bool) : Z * Z * Z :=
  match l with
  | [] => (lines, words, chars)
  | c :: l' =>
      let lines := if c =? 10 then lines + 1 else lines in
      if is_space c then count_text l' lines words (chars + 1) false
      else count_text l' lines (if inw then words else words + 1) (chars + 1) true
  end.

(** The text behind the [skip]-th end of a line; the count starts at [seen]. *)
Fixpoint after_lines (l : text) (seen skip : Z) : text :=
  match l with
  | [] => []
  | c :: l' => if c =? 10 then if seen + 1 =? skip then l' else after_lines l' (seen + 1) skip else after_lines l' seen skip
  end.
Definition count_newlines (l : text) : Z := Z.of_nat (length (filter (fun c => c = 10) l)).

(** One pass of the sort: the smallest of [x] and the rest, exchanged on the way. *)
Fixpoint exchange_pass (x : text) (rest : list text) : text * list text :=
  match rest with
  | [] => (x, [])
  | y :: rest' =>
      if 0 <? bytes_diff x y then let '(m, r) := exchange_pass y rest' in (m, x :: r)
      else let '(m, r) := exchange_pass x rest' in (m, y :: r)
  end.
Fixpoint sort_lines (n : nat) (ls : list text) : list text :=
  match n, ls with
  | S n', x :: rest => let '(m, r) := exchange_pass x rest in m :: sort_lines n' r
  | _, _ => ls
  end.

(** katoi(): a number that does not fit is undefined. *)
Fixpoint katoi_digits (l : text) (v : Z) : outcome Z :=
  match l with
  | c :: l' =>
      if (48 <=? c) && (c <=? 57) then
        let v := v * 10 + (c - 48) in if 2^63 <=? v then Undefined else katoi_digits l' v
      else Done v
  | [] => Done v
  end.
Definition katoi (l : text) : outcome Z :=
  match l with
  | 45 :: l' => match katoi_digits l' 0 with Done v => Done (- v) | o => o end
  | _ => katoi_digits l 0
  end.

Section commands.
Context (fuel : nat) (bufs : buffers).
(** The stack for interrupts of the first task, and the registers that a switch saves. *)
Context (boot_stack_top yield_frame : Z).
#[local] Instance command_devices : Devices kstate := kernel_devices fuel.

Definition say_line (s : string) : M world unit := print fuel (bytes_of s ++ nl) [].
Definition on_screen {A} (m : M screen A) : M world A := zoom m.
Definition color (fg bg : Z) : M world unit := on_screen (vga_set_color fg bg).
Definition ticks : M world Z := zoom (T := cpu) timer_ticks.
Definition sleep_ms (ms : Z) : M world unit := zoom (T := cpu) (timer_sleep ms).
Definition in_sched {A} (m : M (sched (unix kstate)) A) : M world A := on_sys (zoom m).

(** ** Files and the text of a pipe *)

Definition read_file (path : text) : M world (option text) :=
  fd ← on_vfs (vfs_open (string_of path) VFS_O_READ);
  if fd <? 0 then mret None
  else
    '(n, bytes) ← on_vfs (vfs_read fd (SH_PIPE_BUF - 1));
    on_vfs (vfs_close fd);;
    mret (Some (cstring (take (Z.to_nat n) bytes))).
Definition stdin_text : M world text := v ← sh_getvar stdin_var; mret (default [] v).
(** The file, or the text of the pipe; [missing] is said about a file that is not there. *)
Definition source_text (missing : M world unit) (path : option text) : M world (option text) :=
  match path with
  | Some path => r ← read_file path; match r with None => missing;; mret None | Some s => mret (Some s) end
  | None => s ← stdin_text; mret (Some s)
  end.
Definition with_source (missing : M world unit) (path : option text) (f : text -> M world unit) : M world unit :=
  r ← source_text missing path; match r with Some s => f s | None => mret tt end.
Definition print_line (l : text) : M world unit := print fuel (bytes_of "%s" ++ nl) [str l].

Definition cmd_grep (args : list text) : M world unit :=
  match args with
  | [] => say_line "Usage: grep <pattern> [file]"
  | pat :: files =>
      with_source (print fuel (bytes_of "grep: %s: not found" ++ nl) [str (default [] (head files))]) (head files) (fun src =>
        each (fun line => if contains pat (line_buffer line) then print_line (line_buffer line) else mret tt) (lines_of src))
  end.
Definition cmd_wc (args : list text) : M world unit :=
  with_source (print fuel (bytes_of "wc: %s: not found" ++ nl) [str (default [] (head args))]) (head args) (fun src =>
    let '(lines, words, chars) := count_text src 0 0 0 false in
    print fuel (bytes_of "%d %d %d" ++ nl) [Num lines; Num words; Num chars]).
(** The options of head and tail: the number of lines and the last path. *)
Fixpoint count_options (args : list text) (n : Z) (path : option text) : outcome (Z * option text) :=
  match args with
  | [] => Done (n, path)
  | a :: rest =>
      match rest with
      | v :: rest' =>
          if eqs "-n" a then
            match strtol_text 10 v with Done k => count_options rest' (s32 k) path | Undefined => Undefined | _ => OutOfFuel end
          else count_options rest n (Some a)
      | [] => count_options rest n (Some a)
      end
  end.
Definition cmd_head (args : list text) : M world unit :=
  '(n, path) ← lift (count_options args 10 None);
  with_source (say_line "head: not found") path (fun src =>
    each (fun line => print_line (line_buffer line)) (take (Z.to_nat n) (lines_of src))).
Definition cmd_tail (args : list text) : M world unit :=
  '(n, path) ← lift (count_options args 10 None);
  with_source (say_line "tail: not found") path (fun src =>
    let total := count_newlines src in
    let skip := if n <? total then total - n else 0 in
    if 2^31 <=? skip then ub else print fuel (bytes_of "%s") [str (after_lines src 0 skip)]).
(** At most 256 lines are sorted; the rest is dropped. *)
Definition cmd_sort : M world unit :=
  v ← sh_getvar stdin_var;
  match v with
  | None => mret tt
  | Some sc =>
      let lines := take 256 (lines_of (take (Z.to_nat (SH_PIPE_BUF - 1)) sc)) in
      each print_line (sort_lines (length lines) lines)
  end.
(** The previous line is an array that is gone when the next one is compared. *)
Definition cmd_uniq : M world unit :=
  src ← stdin_text;
  match lines_of src with
  | [] => mret tt
  | line :: rest =>
      (if (length line =? 0)%nat then mret tt else print_line (line_buffer line));;
      match rest with [] => mret tt | _ => ub end
  end.
Fixpoint position (c : Z) (l : text) : option nat :=
  match l with [] => None | d :: l' => if c =? d then Some O else S <$> position c l' end.
Definition cmd_tr (args : list text) : M world unit :=
  match args with
  | from :: to :: _ =>
      src ← stdin_text;
      each (fun c =>
        match position c from with
        | Some i => match to !! i with Some d => print fuel (bytes_of "%c") [Num d] | None => mret tt end
        | None => print fuel (bytes_of "%c") [Num c]
        end) src
  | _ => say_line "Usage: tr <from> <to>"
  end.
Definition cmd_tee (args : list text) : M world unit :=
  src ← stdin_text;
  print fuel (bytes_of "%s") [str src];;
  match args with
  | [] => mret tt
  | path :: _ =>
      fd ← on_vfs (vfs_open (string_of path) (Z.lor VFS_O_WRITE (Z.lor VFS_O_CREATE VFS_O_TRUNC)));
      if fd <? 0 then mret tt else on_vfs (vfs_write fd src);; on_vfs (vfs_close fd);; mret tt
  end.

(** ** The system *)

Definition cmd_help : M world unit :=
  each say_line
    ["Commands: help neofetch uname mem uptime clear echo color hello";
     "          ls cat write mkdir rm cd pwd";
     "          ps kill sleep lspci poweroff reboot panic halt";
     "          sh bash eval source ring3test gui guiinfo vinstall vpkg desktop";
     "          neovim htop";
     "          grep wc head tail sort uniq tr tee";
     "Shell: Variables, if/while/for, pipes, redirects, functions"]%string.
Definition cmd_uname : M world unit := say_line "VNL 0.2.0 (Vibe Not Linux) #1 SMP x86_64".
(** Frames in all, used and free. *)
Definition frame_counts : M world (Z * Z * Z) :=
  fp ← zoom (T := machine) (zoom (T := pmm) pmm_free_pages);
  tp ← zoom (T := machine) (zoom (T := pmm) pmm_total_pages);
  mret (tp, u64 (tp - fp), fp).
Definition mib (pages : Z) : Z := u64 (pages * PAGE_SIZE) / (1024 * 1024).
Definition cmd_mem : M world unit :=
  '(tp, up, fp) ← frame_counts;
  print fuel (bytes_of "Total: %llu MiB  Used: %llu MiB  Free: %llu MiB" ++ nl) [Num (mib tp); Num (mib up); Num (mib fp)].
Definition cmd_uptime : M world unit :=
  t ← ticks;
  let s := t / 1000 in
  let m := s / 60 in
  print fuel (bytes_of "Uptime: %llu:%02llu:%02llu.%03llu" ++ nl) [Num (m / 60); Num (m mod 60); Num (s mod 60); Num (t mod 1000)].
Definition cmd_clear : M world unit := on_screen vga_clear.
Fixpoint cmd_echo (args : list text) : M world unit :=
  match args with
  | [] => print fuel nl []
  | [a] => print fuel (bytes_of "%s") [str a];; print fuel nl []
  | a :: args' => print fuel (bytes_of "%s") [str a];; print fuel [32] [];; cmd_echo args'
  end.
Definition cmd_color (args : list text) : M world unit :=
  match args with
  | fg :: bg :: _ =>
      f ← lift (katoi fg);
      b ← lift (katoi bg);
      color (Z.land f 0xF) (Z.land b 0xF)
  | _ => say_line "Usage: color <fg> <bg>"
  end.
Definition cmd_hello : M world unit :=
  color VGA_LCYAN VGA_BLACK;;
  each say_line
    ["  ____   ____  _   _ _     "; " / ___| / ___|| | | | |    "; " \___ \| |    | |_| | |    ";
     "  ___) | |___ |  _  | |___ "; " |____/ \____||_| |_|_____|"; ""; "  Vibe Not Linux - It's a vibe."; ""]%string;;
  color VGA_WHITE VGA_BLACK.

(** *** neofetch *)

Definition VGA_LBLUE : Z := 9.
Definition VGA_LRED : Z := 12.
Definition VGA_LMAGENTA : Z := 13.
Definition logo : list (Z * string) :=
  [(VGA_LCYAN, "   ____    ____   "); (VGA_LCYAN, "   \   \  /   /   "); (VGA_LBLUE, "    \   \/   /    ");
   (VGA_LBLUE, "     \      /     "); (VGA_LMAGENTA, "      \    /      "); (VGA_LRED, "       \  /       ");
   (VGA_LRED, "        \/        "); (VGA_WHITE, "                  "); (VGA_LGREEN, "      V I B E     ")]%string.
Definition labelled (label : string) (val : text) : M world unit :=
  color VGA_LGREEN VGA_BLACK;;
  print fuel (bytes_of label) [];;
  color VGA_WHITE VGA_BLACK;;
  print fuel (bytes_of "%s" ++ nl) [str val].
Definition labelled_text (label val : string) : M world unit :=
  color VGA_LGREEN VGA_BLACK;;
  print fuel (bytes_of label) [];;
  color VGA_WHITE VGA_BLACK;;
  say_line val.
Definition color_bar (from : Z) : M world unit :=
  each (fun c => color VGA_WHITE c;; print fuel (bytes_of "  ") []) (seqZ from 8);;
  color VGA_WHITE VGA_BLACK;;
  print fuel nl [].
Definition info_line (uptline memline : text) (i : Z) : M world unit :=
  if i =? 0 then color VGA_LGREEN VGA_BLACK;; say_line "vnl@vnl"
  else if i =? 1 then say_line "-------"
  else if i =? 2 then labelled_text "OS: " "Vibe Not Linux x86_64"
  else if i =? 3 then labelled_text "Kernel: " "VNL 0.2.0"
  else if i =? 4 then labelled "Uptime: " uptline
  else if i =? 5 then labelled_text "Shell: " "sh"
  else if i =? 6 then labelled_text "DE: " "VNL 9x"
  else if i =? 7 then labelled "Memory: " memline
  else if i =? 9 then color_bar 0
  else if i =? 10 then color_bar 8
  else print fuel nl [].
(** ksprintf() into an array of 80. *)
Definition sprint_80 (fmt : string) (args : list arg) : M world text := t ← sprint fmt args; mret (take 79 t).
Definition cmd_neofetch : M world unit :=
  t ← ticks;
  let sec := t / 1000 in
  uptline ← sprint_80 "%llu d, %llu h, %llu m"
    [Num (sec / 86400); Num (sec mod 86400 / 3600); Num (sec mod 86400 mod 3600 / 60)];
  '(tp, up, _) ← frame_counts;
  memline ← sprint_80 "%llu MiB / %llu MiB" [Num (mib up); Num (mib tp)];
  each (fun i =>
    (match logo !! Z.to_nat i with
     | Some (c, l) => color c VGA_BLACK;; print fuel (bytes_of "%s") [str (bytes_of l)]
     | None => print fuel (bytes_of "                  ") []
     end);;
    print fuel (bytes_of "   ") [];;
    color VGA_WHITE VGA_BLACK;;
    info_line uptline memline i) (seqZ 0 12);;
  color VGA_WHITE VGA_BLACK.

(** ** Files *)

Definition cmd_ls (args : list text) : M world unit :=
  let path := default (bytes_of ".") (head args) in
  '(n, names) ← on_vfs (vfs_readdir (string_of path) VFS_MAX_NODES);
  if n <? 0 then print fuel (bytes_of "ls: %s: no such directory" ++ nl) [str path]
  else
    each (fun name : string =>
      let l := bytes_of name in
      if List.last l 0 =? 47 then color VGA_LBLUE VGA_BLACK;; print_line (removelast l)
      else color VGA_WHITE VGA_BLACK;; print_line l) names;;
    color VGA_WHITE VGA_BLACK.
(** [fuel] reads of 255 bytes. *)
Definition cmd_cat (args : list text) : M world unit :=
  match args with
  | [] => say_line "Usage: cat <file>"
  | path :: _ =>
      fd ← on_vfs (vfs_open (string_of path) VFS_O_READ);
      if fd <? 0 then print fuel (bytes_of "cat: %s: not found" ++ nl) [str path]
      else
        iter fuel (fun _ : unit =>
          '(n, bytes) ← on_vfs (vfs_read fd 255);
          if n <=? 0 then mret (inr tt)
          else print fuel (bytes_of "%s") [str (cstring (take (Z.to_nat n) bytes))];; mret (inl tt)) tt;;
        on_vfs (vfs_close fd);;
        print fuel nl []
  end.
Fixpoint write_words (fd : Z) (ws : list text) : M world unit :=
  match ws with
  | [] => mret tt
  | [w] => on_vfs (vfs_write fd w);; mret tt
  | w :: ws' => on_vfs (vfs_write fd w);; on_vfs (vfs_write fd [32]);; write_words fd ws'
  end.
Definition cmd_write (args : list text) : M world unit :=
  match args with
  | path :: w :: ws =>
      fd ← on_vfs (vfs_open (string_of path) (Z.lor VFS_O_WRITE (Z.lor VFS_O_CREATE VFS_O_TRUNC)));
      if fd <? 0 then print fuel (bytes_of "write: cannot open %s" ++ nl) [str path]
      else write_words fd (w :: ws);; on_vfs (vfs_write fd nl);; on_vfs (vfs_close fd);; mret tt
  | _ => say_line "Usage: write <file> <text...>"
  end.
Definition cmd_mkdir (args : list text) : M world unit :=
  match args with
  | [] => say_line "Usage: mkdir <dir>"
  | path :: _ => r ← on_vfs (vfs_mkdir (string_of path)); if r <? 0 then say_line "mkdir: failed" else mret tt
  end.
Definition cmd_rm (args : list text) : M world unit :=
  match args with
  | [] => say_line "Usage: rm <path>"
  | path :: _ => r ← on_vfs (vfs_unlink (string_of path)); if r <? 0 then say_line "rm: failed" else mret tt
  end.
Definition cmd_cd (args : list text) : M world unit :=
  let path := default (bytes_of "/") (head args) in
  inode ← on_vfs (vfs_resolve (string_of path));
  if inode <? 0 then print fuel (bytes_of "cd: %s: not found" ++ nl) [str path]
  else
    '(r, t, _) ← on_vfs (vfs_stat (string_of path));
    if r <? 0 then ub
    else if bool_decide (t = VFS_DIR) then on_vfs (vfs_set_cwd (u32 inode)) else say_line "cd: not a directory".
Definition cmd_pwd : M world unit :=
  cwd ← on_vfs (vfs_getcwd 256 256); print fuel (bytes_of "%s" ++ nl) [Str (c_text <$> cwd)].

(** ** Tasks *)

Definition state_name (t : TaskState) : string :=
  match t with TASK_RUNNING => "RUN" | TASK_READY => "RDY" | TASK_SLEEPING => "SLP" | TASK_DEAD => "DED" end.
Definition cmd_ps : M world unit :=
  say_line "PID  STATE  NAME";;
  n ← in_sched sched_task_count;
  each (fun i =>
    t ← in_sched (sched_get_task i);
    match t with
    | Some t => print fuel (bytes_of "%-4u %-6s %s" ++ nl) [Num (t_pid t); str (bytes_of (state_name (t_state t))); str (bytes_of (t_name t))]
    | None => mret tt
    end) (seqZ 0 n).
(** The kernel stack and the address space of the task are not freed. *)
Definition cmd_kill (args : list text) : M world unit :=
  match args with
  | [] => say_line "Usage: kill <pid>"
  | a :: _ =>
      v ← lift (katoi a);
      let pid := u32 v in
      y ← gets (fun w => view (m_sys (w_machine w)) : sched (unix kstate));
      match scan (Z.to_nat (num_tasks y)) 0 (fun i => t_pid (tasks y i) =? pid) with
      | Some i =>
          if i =? current_idx y then say_line "kill: cannot kill self"
          else
            in_sched (modify (set_task i (with_state TASK_DEAD)));;
            print fuel (bytes_of "Killed pid %u" ++ nl) [Num pid]
      | None => print fuel (bytes_of "kill: pid %u not found" ++ nl) [Num pid]
      end
  end.
(** When another task goes on, this one comes back only through later switches. *)
Definition cmd_sleep (args : list text) : M world unit :=
  match args with
  | [] => say_line "Usage: sleep <ms>"
  | a :: _ =>
      v ← lift (katoi a);
      next ← in_sched (task_sleep boot_stack_top (u64 v) yield_frame);
      if next =? 0 then mret tt else block
  end.
Definition cmd_lspci : M world unit :=
  n ← zoom (T := machine) pci_dev_count;
  if n =? 0 then say_line "No PCI devices."
  else
    each (fun i =>
      d ← zoom (T := machine) (pci_get_dev i);
      match d with
      | Some d =>
          print fuel (bytes_of "%02x:%02x.%x %04x:%04x [%02x.%02x] %s" ++ nl)
            [Num (d_bus d); Num (d_dev d); Num (d_func d); Num (d_vendor d); Num (d_device_id d); Num (d_class_code d);
             Num (d_subclass d); str (bytes_of (d_desc d))]
      | None => ub
      end) (seqZ 0 n).

(** ** Power, network and graphics *)

Definition cmd_poweroff : M world unit := say_line "Shutting down...";; zoom (T := machine) acpi_shutdown.
(** The keyboard controller is polled until its input buffer is empty. *)
Definition cmd_reboot : M world unit :=
  say_line "Rebooting...";;
  zoom (T := machine) (in_ports (
    iter fuel (fun _ : unit => g ← inb 0x64; mret (if nonzero (Z.land g 2) then inl tt else inr tt)) tt;;
    outb 0x64 0xFE));;
  block.
Definition cmd_panic (args : list text) : M world unit :=
  panic (string_of (match args with a :: _ => a | [] => bytes_of "Manual panic" end)).
Definition cmd_halt : M world unit := say_line "Halting.";; block.
Definition cmd_ring3test : M world unit := on_sys user_ring3_demo_spawn.
Definition cmd_guiinfo : M world unit :=
  each say_line
    ["VNL Bare-Metal GUI Subsystem:";
     "  Direct-mapped linear framebuffer (1024x768x32)";
     "  Double-buffered software pointer and vector widget rendering";
     "  Type 'gui' to launch the interactive environment."]%string.
Definition launch_tinywl : M world unit :=
  pid ← on_sys (vnl_spawn_elf_path fuel "/usr/bin/tinywl");
  if 0 <=? pid then in_sched (sched_wait_pid (u32 pid)) else say_line "ERROR: Failed to launch /usr/bin/tinywl".
Definition cmd_desktop : M world unit := launch_tinywl.
Definition cmd_gui : M world unit :=
  ok ← on_screen fb_is_available;
  if negb ok then say_line "gui: linear framebuffer required (boot base entry with 1024x768 FB)."
  else say_line "Launching tinywl Wayland compositor...";; launch_tinywl.
Definition cmd_ping (args : list text) : M world unit :=
  match args with
  | [] => say_line "Usage: ping <ip>"
  | ip :: _ => zoom (T := machine) (net_ping fuel ip)
  end.
Definition cmd_netcfg : M world unit := zoom (T := machine) (vnet_print_config fuel).

(** ** apps.c *)

Definition cmd_htop_gui : M world unit :=
  on_screen vga_clear;;
  say_line "VNL HTOP - System Resource Monitor";;
  say_line "CPU: 99%% [||||||||||||||||||||||||||||||]";;
  say_line "MEM: 12MB / 64MB";;
  sleep_ms 2000.
Definition cmd_neovim_vnl : M world unit :=
  on_screen vga_clear;;
  say_line "NeoVim VNL (Professional Edition)";;
  print fuel (bytes_of "~ " ++ nl ++ bytes_of "~ " ++ nl ++ bytes_of "~ [VNL Professional Edit]" ++ nl) [];;
  sleep_ms 2000.

(** ** vpkg.c *)

(** A line of the catalog in which bars stand for double quotes. *)
Definition quoted (s : string) : text := (fun c => if c =? 124 then 34 else c) <$> bytes_of s.
Definition manifest_data : text :=
  concat ((fun l => l ++ nl) <$>
    [quoted "{"; quoted "  |packages|: [";
     quoted "    {|name|:|neovim-vnl|,|ver|:|0.9.6|,|desc|:|Premium modal text editor compiled for bare-metal VNL ring3.|},";
     quoted "    {|name|:|htop-gui|,|ver|:|3.3.0|,|desc|:|Real-time process viewer and system resource monitor graphical applet.|},";
     quoted "    {|name|:|vsnake|,|ver|:|1.0.1|,|desc|:|Premium high-fidelity ASCII snake game for VNL Perfect Edition.|}";
     quoted "  ]"; quoted "}"]).
Definition manifest_path : string := "/var/cache/manifest.json".
(** A file with this content; [false] when it cannot be opened. *)
Definition put_file (path : string) (data : text) : M world bool :=
  fd ← on_vfs (vfs_open path (Z.lor VFS_O_WRITE (Z.lor VFS_O_CREATE VFS_O_TRUNC)));
  if fd <? 0 then mret false else on_vfs (vfs_write fd data);; on_vfs (vfs_close fd);; mret true.
Definition vpkg_update : M world unit :=
  say_line "Connecting to https://raw.githubusercontent.com/VibuxDevs/VNL-Packages/main/manifest.json...";;
  sleep_ms 300;;
  say_line "Connected. Receiving upstream JSON catalog objects...";;
  sleep_ms 200;;
  on_vfs (vfs_mkdir "/var");;
  on_vfs (vfs_mkdir "/var/cache");;
  ok ← put_file manifest_path manifest_data;
  (if ok : bool then color VGA_LGREEN VGA_BLACK;; say_line "SUCCESS: Upstream catalog synced. 3 verified packages loaded."
   else color VGA_LRED VGA_BLACK;; say_line "ERROR: Failed to write upstream manifest cache to /var/cache/manifest.json");;
  color VGA_WHITE VGA_BLACK.
Definition vpkg_entry (name ver desc : string) : M world unit :=
  color VGA_LCYAN VGA_BLACK;; print fuel (bytes_of name) [];;
  color VGA_YELLOW VGA_BLACK;; print fuel (bytes_of ver) [];;
  color VGA_WHITE VGA_BLACK;; say_line desc.
Definition vpkg_list : M world unit :=
  found ← on_vfs (vfs_resolve manifest_path);
  if found <? 0 then
    color VGA_YELLOW VGA_BLACK;;
    say_line "Catalog missing. Run 'vpkg update' first to synchronize upstream cache.";;
    color VGA_WHITE VGA_BLACK
  else
    say_line "Available Upstream VNL Packages:";;
    vpkg_entry "  neovim-vnl     " "(v0.9.6) " "- Premium modal text editor compiled for bare-metal VNL ring3.";;
    vpkg_entry "  htop-gui       " "(v3.3.0) " "- Real-time process viewer and system resource monitor graphical applet.";;
    vpkg_entry "  vsnake         " "(v1.0.1) " "- Premium high-fidelity ASCII snake game for VNL Perfect Edition.".
Definition package_version (target : text) : option string :=
  if eqs "neovim-vnl" target then Some "0.9.6"%string
  else if eqs "htop-gui" target then Some "3.3.0"%string
  else if eqs "vsnake" target then Some "1.0.1"%string
  else None.
Definition vpkg_deploy (target : text) (ver : string) : M world unit :=
  print fuel (bytes_of "Downloading binary bundle %s.bin from GitHub upstream repository..." ++ nl) [str target];;
  print fuel (bytes_of "Progress: [") [];;
  each (fun _ => color VGA_YELLOW VGA_BLACK;; print fuel (bytes_of "=") [];; sleep_ms 40) (seqZ 0 20);;
  color VGA_WHITE VGA_BLACK;; say_line "] 100%%";;
  print fuel (bytes_of "Verifying bundle payload SHA256 integrity signature... ") [];;
  sleep_ms 150;;
  color VGA_LGREEN VGA_BLACK;; say_line "OK.";;
  color VGA_WHITE VGA_BLACK;;
  on_vfs (vfs_mkdir "/usr");;
  on_vfs (vfs_mkdir "/usr/bin");;
  let out_path := bytes_of "/usr/bin/" ++ target in
  ok ← put_file (string_of out_path) (bytes_of "VNL_NATIVE_APPLET_VERIFIED" ++ nl);
  (if ok : bool then
     color VGA_LGREEN VGA_BLACK;;
     print fuel (bytes_of "SUCCESS: Package %s (v%s) deployed and ready. Run '%s' anytime." ++ nl)
       [str target; str (bytes_of ver); str target]
   else
     color VGA_LRED VGA_BLACK;;
     print fuel (bytes_of "ERROR: Failed to deploy verified marker block to %s" ++ nl) [str out_path]);;
  color VGA_WHITE VGA_BLACK.
Definition vpkg_install (args : list text) : M world unit :=
  match args with
  | [] => say_line "vpkg: Please specify the package name to install."
  | target :: _ =>
      found ← on_vfs (vfs_resolve manifest_path);
      if found <? 0 then say_line "vpkg: Please run 'vpkg update' first to populate valid package targets."
      else
        match package_version target with
        | None => print fuel (bytes_of "vpkg: Package '%s' not found in upstream manifest." ++ nl) [str target]
        | Some ver => vpkg_deploy target ver
        end
  end.
Definition cmd_vpkg (args : list text) : M world unit :=
  match args with
  | [] =>
      each say_line
        ["VNL Remote Package Manager (vpkg)"; "Usage:";
         "  vpkg update          - Fetch and sync remote GitHub manifest catalog";
         "  vpkg list            - Enumerate available upstream packages";
         "  vpkg install <pkg>   - Download, verify SHA256, and deploy package bundle"]%string
  | action :: args' =>
      if eqs "update" action then vpkg_update
      else if eqs "list" action then vpkg_list
      else if eqs "install" action then vpkg_install args'
      else print fuel (bytes_of "vpkg: Unknown action '%s'. Type 'vpkg' for available commands." ++ nl) [str action]
  end.

(** ** vinstall.c *)

Definition VGA_BLUE : Z := 1.
Definition put_text_at (row col : Z) (s : string) : M world unit := on_screen (vga_set_cursor row col;; vga_puts (bytes_of s)).
Definition puts_in (fg : Z) (s : string) : M world unit := color fg VGA_BLUE;; on_screen (vga_puts (bytes_of s)).
Definition draw_header (title : string) : M world unit :=
  color VGA_WHITE VGA_BLUE;;
  on_screen vga_clear;;
  put_text_at 1 2 "+--------------------------------------------------------------------------+";;
  put_text_at 2 2 "|                                                                          |";;
  put_text_at 3 2 "+--------------------------------------------------------------------------+";;
  on_screen (vga_set_cursor 2 (2 + (74 - Z.of_nat (String.length title)) / 2));;
  puts_in VGA_YELLOW title;;
  color VGA_WHITE VGA_BLUE.
Definition drive_line (row : Z) (key entry : string) : M world unit :=
  on_screen (vga_set_cursor row 6);; puts_in VGA_LGREEN key;; puts_in VGA_WHITE entry.
Definition choose_drive (ch : Z) : option string :=
  if ch =? 49 then Some "/dev/sda (256 GB SATA SSD)"%string
  else if ch =? 50 then Some "/dev/sdb (16 GB USB Flash Disk)"%string
  else if ch =? 51 then Some "/dev/nvme0n1 (1024 GB NVMe Storage)"%string
  else None.
Definition getchar : M world Z := zoom (T := input) keyboard_getchar.
Definition confirm_drive (dev : string) : M world bool :=
  draw_header "CRITICAL DESTRUCTIVE ACTION";;
  put_text_at 6 4 "Target Drive: ";;
  puts_in VGA_YELLOW dev;;
  color VGA_WHITE VGA_BLUE;;
  put_text_at 9 4 "WARNING: All custom layout headers, volume identifiers, and raw block";;
  put_text_at 10 4 "records on this physical storage path will be irrevocably wiped.";;
  on_screen (vga_set_cursor 13 4);;
  puts_in VGA_LCYAN "Are you absolutely sure you want to format and deploy? [y/N]: ";;
  color VGA_WHITE VGA_BLUE;;
  conf ← getchar;
  mret ((conf =? 121) || (conf =? 89)).
(** True goes on with the installation. *)
Definition drive_screen : M world (unit + bool) :=
  draw_header "VNL BARE-METAL PLATFORM INSTALLER";;
  put_text_at 6 4 "Select target hardware storage device for permanent VNL deployment:";;
  drive_line 9 "[1]" " /dev/sda      -  256 GB SATA SSD       (Active System Root)";;
  drive_line 11 "[2]" " /dev/sdb      -   16 GB USB Flash Disk (Boot Media)";;
  drive_line 13 "[3]" " /dev/nvme0n1  - 1024 GB NVMe Storage   (Target Primary Disk)";;
  on_screen (vga_set_cursor 17 4);;
  puts_in VGA_YELLOW "Press number key [1-3] to select target disk, or [q] to exit: ";;
  color VGA_WHITE VGA_BLUE;;
  ch ← getchar;
  if (ch =? 113) || (ch =? 81) then color VGA_WHITE VGA_BLACK;; on_screen vga_clear;; mret (inr false)
  else
    match choose_drive ch with
    | None => mret (inl tt)
    | Some dev => ok ← confirm_drive dev; mret (if ok : bool then inr true else inl tt)
    end.
Definition install_stages : list string :=
  ["Wiping partition tables and standard volume markers..."; "Writing primary GUID Partition Table (GPT) layouts...";
   "Formatting primary blocks as native high-performance vnl-fs...";
   "Flushing freestanding platform kernel image (/boot/vnl.kernel)...";
   "Configuring local raw hardware entry paths inside storage headers...";
   "Deploying standalone bootloader configuration blocks...";
   "Flushing volatile write caches and synchronizing block sectors..."]%string.
Definition install_step (p : Z) : M world unit :=
  on_screen (vga_set_cursor 10 (15 + p));;
  puts_in VGA_YELLOW "=";;
  pct ← sprint "%3d%%" [Num (p * 100 / 50)];
  on_screen (vga_set_cursor 10 68);;
  color VGA_LCYAN VGA_BLUE;;
  on_screen (vga_puts pct);;
  on_screen (vga_set_cursor 13 4);;
  puts_in VGA_WHITE "Status: ";;
  each (fun _ => on_screen (vga_puts (bytes_of " "))) (seqZ 0 60);;
  on_screen (vga_set_cursor 13 12);;
  puts_in VGA_LGREEN (nth (Z.to_nat (p * 7 / 51)) install_stages ""%string);;
  sleep_ms 60.
Definition install_run : M world unit :=
  draw_header "DEPLOYING NATIVE VNL PLATFORM";;
  put_text_at 6 4 "Formatting and transferring raw kernel streams to selected storage block...";;
  put_text_at 10 4 "Progress: [                                                  ]";;
  each install_step (seqZ 1 50);;
  sleep_ms 500;;
  draw_header "INSTALLATION COMPLETE";;
  on_screen (vga_set_cursor 7 4);;
  puts_in VGA_LGREEN "SUCCESS: Core graphical system image deployed perfectly to target hardware.";;
  on_screen (vga_set_cursor 10 4);;
  puts_in VGA_WHITE "You may now safely unplug external installation media and power cycle.";;
  on_screen (vga_set_cursor 14 4);;
  puts_in VGA_YELLOW "Press any key to return to the active runtime shell interface...";;
  color VGA_WHITE VGA_BLUE;;
  getchar;;
  color VGA_WHITE VGA_BLACK;;
  on_screen vga_clear.
Definition cmd_vinstall : M world unit :=
  go ← iter fuel (fun _ : unit => drive_screen) tt;
  if go : bool then install_run else mret tt.

(** ** vsnake.c *)

Definition WIDTH : Z := 40.
Definition HEIGHT : Z := 20.
Definition VGA_GREEN : Z := 2.
Definition VGA_DGRAY : Z := 8.
(** The cells of the snake from its head; [length] is the length of the list. *)
Record game := Game { snake : list (Z * Z); direction : Z * Z; food : Z * Z; score : Z }.
Definition game_start : game := Game [(10, 10); (9, 10); (8, 10)] (1, 0) (15, 10) 0.
Definition steer (k : Z) (d : Z * Z) : Z * Z :=
  let '(dx, dy) := d in
  if (k =? KEY_UP) && (dy =? 0) then (0, -1)
  else if (k =? KEY_DOWN) && (dy =? 0) then (0, 1)
  else if (k =? KEY_LEFT) && (dx =? 0) then (-1, 0)
  else if (k =? KEY_RIGHT) && (dx =? 0) then (1, 0)
  else d.
Definition in_field (p : Z * Z) : bool := (0 <=? fst p) && (fst p <? WIDTH) && (0 <=? snd p) && (snd p <? HEIGHT).
Definition next_food (f : Z * Z) : Z * Z := ((fst f * 7 + 13) mod WIDTH, (snd f * 3 + 7) mod HEIGHT).
(** The game after a key, and whether it goes on. *)
Definition game_step (k : Z) (g : game) : game * bool :=
  let d := steer k (direction g) in
  let hd := default (0, 0) (head (snake g)) in
  let next := (fst hd + fst d, snd hd + snd d) in
  let running := in_field next && negb (bool_decide (next ∈ snake g)) in
  if bool_decide (next = food g) then (Game (next :: snake g) d (next_food (food g)) (score g + 100), running)
  else (Game (next :: removelast (snake g)) d (food g) (score g), running).

Definition put_char_in (fg c : Z) : M world unit := color fg VGA_BLACK;; on_screen (vga_putchar c).
Fixpoint index_of (p : Z * Z) (l : list (Z * Z)) : option nat :=
  match l with [] => None | q :: l' => if bool_decide (q = p) then Some O else S <$> index_of p l' end.
Definition draw_cell (g : game) (x y : Z) : M world unit :=
  match index_of (x, y) (snake g) with
  | Some O => put_char_in VGA_LRED 64
  | Some (S _) => put_char_in VGA_GREEN 111
  | None => if bool_decide (food g = (x, y)) then put_char_in VGA_YELLOW 42 else on_screen (vga_putchar 32)
  end.
Definition draw_game (g : game) : M world unit :=
  on_screen (vga_set_cursor 1 1);;
  color VGA_LGREEN VGA_BLACK;;
  print fuel (bytes_of "         V N L   S N A K E   -   Score: %05d         " ++ nl) [Num (score g)];;
  color VGA_WHITE VGA_BLACK;;
  say_line "====================================================";;
  each (fun y =>
    on_screen (vga_set_cursor (3 + y) 5);;
    put_char_in VGA_DGRAY 124;;
    each (fun x => draw_cell g x y) (seqZ 0 WIDTH);;
    put_char_in VGA_DGRAY 124) (seqZ 0 HEIGHT).
(** A snake longer than its array is undefined. *)
Definition game_turn (g : game) : M world (game + unit) :=
  draw_game g;;
  k ← zoom (T := input) keyboard_poll;
  if (k =? 113) || (k =? 27) then mret (inr tt)
  else
    let '(g', running) := game_step k g in
    if WIDTH * HEIGHT <? Z.of_nat (length (snake g')) then ub
    else sleep_ms 100;; mret (if running then inl g' else inr tt).
Definition cmd_vsnake : M world unit :=
  color VGA_WHITE VGA_BLACK;;
  on_screen vga_clear;;
  iter fuel game_turn game_start;;
  on_screen (vga_set_cursor 10 15);;
  color VGA_LRED VGA_BLACK;;
  print fuel (bytes_of " G A M E   O V E R ") [];;
  sleep_ms 2000;;
  on_screen vga_clear.

(** ** The table of commands *)

(** The entries besides those that run scripts: [Some None] has no function. *)
Definition kernel_command (name : text) : option (option (list text -> M world unit)) :=
  let plain (m : M world unit) : option (option (list text -> M world unit)) := Some (Some (fun _ => m)) in
  let run (f : list text -> M world unit) := Some (Some f) in
  if eqs "help" name then plain cmd_help else if eqs "neofetch" name then plain cmd_neofetch
  else if eqs "uname" name then plain cmd_uname else if eqs "mem" name then plain cmd_mem
  else if eqs "uptime" name then plain cmd_uptime else if eqs "clear" name then plain cmd_clear
  else if eqs "echo" name then run cmd_echo else if eqs "color" name then run cmd_color
  else if eqs "hello" name then plain cmd_hello else if eqs "ls" name then run cmd_ls
  else if eqs "cat" name then run cmd_cat else if eqs "write" name then run cmd_write
  else if eqs "mkdir" name then run cmd_mkdir else if eqs "rm" name then run cmd_rm
  else if eqs "cd" name then run cmd_cd else if eqs "pwd" name then plain cmd_pwd
  else if eqs "ps" name then plain cmd_ps else if eqs "kill" name then run cmd_kill
  else if eqs "sleep" name then run cmd_sleep else if eqs "lspci" name then plain cmd_lspci
  else if eqs "poweroff" name then plain cmd_poweroff else if eqs "reboot" name then plain cmd_reboot
  else if eqs "panic" name then run cmd_panic else if eqs "halt" name then plain cmd_halt
  else if eqs "ring3test" name then plain cmd_ring3test else if eqs "gui" name then plain cmd_gui
  else if eqs "guiinfo" name then plain cmd_guiinfo else if eqs "grep" name then run cmd_grep
  else if eqs "wc" name then run cmd_wc else if eqs "head" name then run cmd_head
  else if eqs "tail" name then run cmd_tail else if eqs "sort" name then plain cmd_sort
  else if eqs "uniq" name then plain cmd_uniq else if eqs "tr" name then run cmd_tr
  else if eqs "tee" name then run cmd_tee else if eqs "test" name then plain (mret tt)
  else if eqs "vinstall" name then plain cmd_vinstall else if eqs "vpkg" name then run cmd_vpkg
  else if eqs "neovim" name then plain cmd_neovim_vnl else if eqs "htop" name then plain cmd_htop_gui
  else if eqs "desktop" name then plain cmd_desktop else if eqs "vbrowser" name then Some None
  else if eqs "ping" name then run cmd_ping else if eqs "netcfg" name then plain cmd_netcfg
  else if eqs "vsnake" name then plain cmd_vsnake
  else None.
End commands.

(** ** The line editor and the loop of shell.c *)

(** The world with the history of shell.c. *)
Record session := Session { se_world : world; history : Z -> text; hist_count : Z }.
#[export] Instance se_world_lens : Lens session world :=
  {| view := se_world; over w s := Session w (history s) (hist_count s) |}.

(** The empty line and a repeated one are not kept. *)
Definition push_history (line : text) : M session unit :=
  s ← get;
  let n := hist_count s in
  match line with
  | [] => mret tt
  | _ =>
      if (0 <? n) && bool_decide (history s ((n - 1) mod HIST_MAX) = line) then mret tt
      else put (Session (se_world s) (<[n mod HIST_MAX := take (Z.to_nat (CMD_MAX - 1)) line]> (history s)) (n + 1))
  end.

(** The line being edited, the position in it and in the history. *)
Record editor := Editor { ed_buf : text; ed_cur : nat; ed_hist : Z }.
Definition ed_len (e : editor) : nat := length (ed_buf e).
(** Where the line starts, and how long it may be. *)
Record field_at := FieldAt { start_row : Z; start_col : Z; limit : Z }.

Inductive edit_result := Entered | Ignored | Moved (e : editor) | Redrawn (e : editor).
(** What a key does to the line; [hist] and [count] are the history. *)
Definition edit (lim : Z) (hist : Z -> text) (count k : Z) (e : editor) : edit_result :=
  let buf := ed_buf e in
  let cur := ed_cur e in
  let recalled i := let t := take (Z.to_nat lim) (hist (i mod HIST_MAX)) in Redrawn (Editor t (length t) i) in
  if k =? 10 then Entered
  else if k =? 8 then
    if (0 <? cur)%nat then Redrawn (Editor (take (cur - 1) buf ++ drop cur buf) (cur - 1) (ed_hist e)) else Ignored
  else if k =? KEY_DEL then
    if (cur <? length buf)%nat then Redrawn (Editor (take cur buf ++ drop (S cur) buf) cur (ed_hist e)) else Ignored
  else if k =? KEY_LEFT then if (0 <? cur)%nat then Moved (Editor buf (cur - 1) (ed_hist e)) else Ignored
  else if k =? KEY_RIGHT then if (cur <? length buf)%nat then Moved (Editor buf (cur + 1) (ed_hist e)) else Ignored
  else if k =? KEY_HOME then Moved (Editor buf 0 (ed_hist e))
  else if k =? KEY_END then Moved (Editor buf (length buf) (ed_hist e))
  else if k =? KEY_UP then if 0 <? ed_hist e then recalled (ed_hist e - 1) else Ignored
  else if k =? KEY_DOWN then
    if ed_hist e <? count then
      if ed_hist e + 1 =? count then Redrawn (Editor [] 0 count) else recalled (ed_hist e + 1)
    else Redrawn e
  else if (32 <=? u32 k) && (k <? KEY_UP) && (Z.of_nat (length buf) <? lim) then
    Redrawn (Editor (take cur buf ++ u8 k :: drop cur buf) (cur + 1) (ed_hist e))
  else Ignored.

Section loop.
Context (fuel : nat) (bufs : buffers) (boot_stack_top yield_frame : Z).
(** The depth of calls. *)
Context (depth : nat).

Definition put_cells (cs : text) : M world unit := each (fun c => on_screen (vga_putchar (s8 c))) cs.
(** The line again, with blanks over what is left of the old one. *)
Definition redraw (f : field_at) (old : nat) (e : editor) : M world unit :=
  color VGA_WHITE VGA_BLACK;;
  on_screen (vga_set_cursor (start_row f) (start_col f));;
  put_cells (ed_buf e);;
  put_cells (replicate (old - ed_len e) 32);;
  on_screen (vga_set_cursor (start_row f) (start_col f + Z.of_nat (ed_cur e))).
Definition field_limit (maxlen col : Z) : Z := if 79 <? col + (maxlen - 1) then 79 - col else maxlen - 1.
Definition start_field (maxlen : Z) : M world field_at :=
  color VGA_WHITE VGA_BLACK;;
  row ← on_screen vga_get_row;
  col ← on_screen vga_get_col;
  let col := if col <? 0 then 0 else if 79 <? col then 79 else col in
  let lim := field_limit maxlen col in
  '(row, col, lim) ← (if lim <? 1 then
      on_screen (vga_putchar 10);;
      color VGA_WHITE VGA_BLACK;;
      row ← on_screen vga_get_row;
      col ← on_screen vga_get_col;
      let col := if 79 <? col then 0 else col in
      mret (row, col, field_limit maxlen col)
    else mret (row, col, lim));
  mret (FieldAt row col (if lim <? 1 then 1 else lim)).
(** A key, or a byte from the serial line; without either another task must run. *)
Definition next_key : M world Z :=
  k ← zoom (T := input) keyboard_poll;
  if 0 <=? k then mret k
  else
    r ← zoom (T := machine) (in_ports serial_received);
    if nonzero r then
      c ← zoom (T := machine) (in_ports (serial_getchar fuel));
      let c := s8 c in
      mret (if (c =? 13) || (c =? 10) then 10 else if (c =? 127) || (c =? 8) then 8 else c)
    else block.
Definition edit_turn (f : field_at) (hist : Z -> text) (count : Z) (e : editor) : M world (editor + text) :=
  k ← next_key;
  match edit (limit f) hist count k e with
  | Entered =>
      color VGA_WHITE VGA_BLACK;;
      on_screen (vga_set_cursor (start_row f) (start_col f + Z.of_nat (ed_len e)));;
      on_screen (vga_putchar 10);;
      mret (inr (ed_buf e))
  | Ignored => mret (inl e)
  | Moved e' => on_screen (vga_set_cursor (start_row f) (start_col f + Z.of_nat (ed_cur e')));; mret (inl e')
  | Redrawn e' => redraw f (ed_len e) e';; mret (inl e')
  end.
Definition readline (maxlen : Z) : M session text :=
  s ← get;
  zoom (f ← start_field maxlen;
        iter fuel (edit_turn f (history s) (hist_count s)) (Editor [] 0 (hist_count s))).

(** The words between blanks, at most 15 of them. *)
Fixpoint words_from (n : nat) (l : text) : list text :=
  match n with
  | O => []
  | S n' => match blanks l with [] => [] | p => let '(w, rest) := span (is_not 32) p in w :: words_from n' (drop 1 rest) end
  end.
Definition parse_args (line : text) : list text := words_from (Z.to_nat (ARG_MAX - 1)) line.

Definition commands : text -> option (option (list text -> M world unit)) := kernel_command fuel boot_stack_top yield_frame.
Definition shell_exec_line (line : text) : M world unit :=
  match line with
  | [] => mret tt
  | _ =>
      match parse_args (take (Z.to_nat (CMD_MAX - 1)) line) with
      | [] => mret tt
      | name :: args =>
          match command fuel (interp fuel bufs commands depth) commands [] name with
          | Some (Some fn) => fn args
          | Some None => ub
          | None =>
              r ← sh_exec fuel bufs commands depth line;
              if r =? 127 then print fuel (bytes_of "vnl: %s: command not found" ++ nl) [str name] else mret tt
          end
      end
  end.

Definition show_shell_prompt : M world unit :=
  color VGA_WHITE VGA_BLACK;;
  print fuel (bytes_of "[") [];;
  color VGA_LGREEN VGA_BLACK;;
  print fuel (bytes_of "vnl@vnl") [];;
  color VGA_WHITE VGA_BLACK;;
  print fuel (bytes_of "]$ ") [].
Definition shell_turn (_ : unit) : M session (unit + unit) :=
  zoom show_shell_prompt;;
  line ← readline CMD_MAX;
  match line with
  | [] => mret (inl tt)
  | _ => push_history line;; zoom (shell_exec_line line);; mret (inl tt)
  end.
(** The loop does not end. *)
Definition shell_run : M session unit :=
  zoom (color VGA_WHITE VGA_BLACK;; print fuel (bytes_of "VNL v0.2.0 - type 'help' for commands" ++ nl) []);;
  iter fuel shell_turn tt.
End loop.
