(* ===== verification/ShellTools.v ===== *)
(** * What the text commands, the line editor and the game of the shell do

    Lines of a text and the text of lines are inverse; sort prints its lines in the
    order of strcmp(), grep those that contain the pattern. A line that is read fits
    its buffer for every sequence of keys. The snake stays in its array. *)

From S2P Require Import Prelude Pmm Mem Strings Vmm UserSpace ElfLoad Heap Cpu Sched Input Console Shm Vfs Devfs Printf Arith UnixSocket System Machine ShellVars ShellWords ShellRun ShellScript ShellProgram ShellOutput ShellCommands.
From Stdlib Require Import Sorted.

(** ** Lines *)

(** The text of lines, each with its end. *)
Definition unlines (ls : list text) : text := concat ((fun l => l ++ newline) <$> ls).
(** A line of characters without a zero and an end of line. *)
Definition line_ok (l : text) : Prop := Forall (fun c => 0 < c < 256 /\ c <> 10) l.

Lemma span_line (l rest : text) : line_ok l -> span (is_not 10) (l ++ 10 :: rest) = (l, 10 :: rest).
Proof.
  induction 1 as [|c l [_ Hc] _ IH]; cbn [app span]; [done|].
  assert (is_not 10 c = true) as -> by (unfold is_not; to_prop; lia). by rewrite IH.
Qed.
Lemma unlines_cons l ls : unlines (l :: ls) = l ++ 10 :: unlines ls.
Proof. unfold unlines. cbn. by rewrite <- app_assoc. Qed.
Lemma lines_from_unlines ls : forall n, Forall line_ok ls -> (length (unlines ls) <= n)%nat -> lines_from n (unlines ls) = ls.
Proof.
  induction ls as [|l ls IH]; intros n Hls Hn; [by destruct n|]. apply Forall_cons_iff in Hls as [Hl Hls].
  rewrite unlines_cons in *. rewrite length_app in Hn. cbn [length] in Hn.
  destruct n as [|n]; [lia|]. cbn [lines_from]. destruct (l ++ 10 :: unlines ls) as [|c k] eqn:He; [by destruct l|].
  rewrite <- He, (span_line l _ Hl). cbn [drop]. by rewrite IH by (done || lia).
Qed.
(** Splitting a text of lines gives the lines. *)
Lemma lines_of_unlines ls : Forall line_ok ls -> lines_of (unlines ls) = ls.
Proof. intros Hls. unfold lines_of. by apply lines_from_unlines. Qed.
Lemma unlines_bytes ls : Forall line_ok ls -> Forall (fun c => 0 < c < 256) (unlines ls).
Proof.
  induction 1 as [|l ls Hl _ IH]; [done|]. rewrite unlines_cons. apply Forall_app. split; [by eapply List.Forall_impl; [|exact Hl]; intros c []|].
  by constructor.
Qed.
Lemma unlines_perm ls ls' : ls ≡ₚ ls' -> length (unlines ls) = length (unlines ls').
Proof.
  induction 1; [done|rewrite !unlines_cons, !length_app; cbn [length]; lia|rewrite !unlines_cons, !length_app; cbn [length];
    rewrite !length_app; cbn [length]; lia|by etransitivity].
Qed.

Lemma line_length l ls : l ∈ ls -> (length l + 1 <= length (unlines ls))%nat.
Proof.
  induction 1; rewrite unlines_cons, length_app; cbn [length]; lia.
Qed.

(** ** The order of strcmp() *)

Definition text_le (l k : text) : Prop := bytes_diff l k <= 0.
Lemma text_le_refl l : text_le l l.
Proof. unfold text_le. induction l; cbn; [done|]. by rewrite Z.eqb_refl. Qed.
Lemma text_le_trans (l k h : text) : Forall (fun c => 0 < c) l -> Forall (fun c => 0 < c) k -> Forall (fun c => 0 < c) h ->
  text_le l k -> text_le k h -> text_le l h.
Proof.
  unfold text_le. intros Hl. revert k h. induction Hl as [|c l Hc Hl IH]; intros k h Hk Hh.
  - destruct h; [done|]. apply Forall_cons_iff in Hh as []. cbn. lia.
  - destruct k as [|d k]; cbn [bytes_diff]; [lia|]. apply Forall_cons_iff in Hk as [Hd Hk].
    destruct h as [|e h]; cbn [bytes_diff]; [lia|]. apply Forall_cons_iff in Hh as [He Hh]. specialize (IH k h Hk Hh).
    destruct (Z.eqb_spec c d), (Z.eqb_spec d e), (Z.eqb_spec c e); lia.
Qed.
Lemma text_le_total (l k : text) : Forall (fun c => 0 < c) l -> Forall (fun c => 0 < c) k -> 0 < bytes_diff l k -> text_le k l.
Proof.
  unfold text_le. intros Hl. revert k. induction Hl as [|c l Hc Hl IH]; intros k Hk.
  - destruct k; cbn; [lia|]. intros. apply Forall_cons_iff in Hk as []. lia.
  - destruct k as [|d k]; cbn; [lia|]. apply Forall_cons_iff in Hk as [Hd Hk]. rewrite (Z.eqb_sym d c).
    destruct (Z.eqb_spec c d); [by apply IH|lia].
Qed.

(** ** sort *)

Definition positive (l : text) : Prop := Forall (fun c => 0 < c) l.
Lemma exchange_pass_min rest : forall x, positive x -> Forall positive rest ->
  let '(m, r) := exchange_pass x rest in m :: r ≡ₚ x :: rest /\ Forall (text_le m) (x :: rest).
Proof.
  induction rest as [|y rest IH]; intros x Hx Hr; cbn [exchange_pass].
  { split; [done|]. apply Forall_singleton, text_le_refl. }
  apply Forall_cons_iff in Hr as [Hy Hr].
  assert (forall m r z, exchange_pass z rest = (m, r) -> positive z -> positive m /\ m :: r ≡ₚ z :: rest /\ Forall (text_le m) (z :: rest)) as Hz.
  { intros m r z He Hz. specialize (IH z Hz Hr). rewrite He in IH. destruct IH as [Hp Hm]. split; [|done].
    assert (Forall positive (m :: r)) as Hmr by (rewrite Hp; by constructor). by apply Forall_cons_iff in Hmr as []. }
  destruct (Z.ltb_spec 0 (bytes_diff x y)) as [Hxy|Hxy].
  - destruct (exchange_pass y rest) as [m r] eqn:He. destruct (Hz _ _ _ He Hy) as (Hpm & Hp & Hm). split.
    + by rewrite Permutation_swap, Hp.
    + constructor; [|done]. apply Forall_cons_iff in Hm as [Hm _]. eapply text_le_trans; [exact Hpm|exact Hy|exact Hx|exact Hm|].
      by apply text_le_total.
  - destruct (exchange_pass x rest) as [m r] eqn:He. destruct (Hz _ _ _ He Hx) as (Hpm & Hp & Hm). split.
    + rewrite Permutation_swap, Hp. apply Permutation_swap.
    + apply Forall_cons_iff in Hm as [Hmx Hm]. do 2 (constructor; try done). by eapply text_le_trans; [exact Hpm|exact Hx|exact Hy|..].
Qed.
Lemma sort_lines_sorts n : forall ls, length ls = n -> Forall positive ls -> sort_lines n ls ≡ₚ ls /\ StronglySorted text_le (sort_lines n ls).
Proof.
  induction n as [|n IH]; intros [|x rest] Hn Hls; try done; cbn [sort_lines].
  { split; [done|constructor]. }
  apply Forall_cons_iff in Hls as [Hx Hr]. pose proof (exchange_pass_min rest x Hx Hr) as Hm. destruct (exchange_pass x rest) as [m r] eqn:He.
  destruct Hm as [Hp Hm]. injection Hn as Hn. pose proof (Permutation_length Hp) as Hlen. cbn [length] in Hlen.
  assert (Forall positive (m :: r)) as [_ Hpr]%Forall_cons_iff by (rewrite Hp; by constructor).
  destruct (IH r ltac:(lia) Hpr) as [Hpr' Hs]. split; [by rewrite Hpr'|]. constructor; [done|]. rewrite Hpr'.
  assert (Forall (text_le m) (m :: r)) as Hmr by by rewrite Hp. by apply Forall_cons_iff in Hmr as [].
Qed.

(** ** grep *)

Definition has_pattern (pat l : text) : Prop := exists a b, l = a ++ pat ++ b.
Lemma contains_pattern pat l : contains pat l = true <-> has_pattern pat l.
Proof.
  split.
  - induction l as [|c l IH]; cbn [contains]; rewrite ?orb_false_r, ?orb_true_iff, ?bool_decide_eq_true.
    + intros H. exists [], (drop (length pat) []). by rewrite <- H, take_drop at 1.
    + intros [H|(a & b & ->)%IH]; [|by exists (c :: a), b]. exists [], (drop (length pat) (c :: l)). rewrite <- H at 1. by rewrite take_drop.
  - intros (a & b & ->). induction a as [|c a IH]; cbn [app contains]; [|by rewrite IH, orb_true_r].
    destruct (pat ++ b) eqn:He; cbn [contains]; rewrite <- ?He, ?take_app_length, bool_decide_eq_true_2; done.
Qed.
#[export] Instance has_pattern_dec pat l : Decision (has_pattern pat l).
Proof. refine (cast_if (decide (contains pat l = true))); by rewrite <- contains_pattern. Defined.

(** ** What is printed *)

Section tools.
Context (fuel : nat) (b : Z) (Hb : b <> 0).

Lemma formatted_line l : line_ok l -> Z.of_nat (length l) + 1 < BUF_SIZE -> formatted (bytes_of "%s" ++ nl) [str l] = Done (l ++ newline).
Proof.
  intros Hl Hn. apply (formatted_renders [Field false false false 0 false Text; Literal 10]).
  - repeat constructor; cbn; lia.
  - constructor; [|done]. eapply List.Forall_impl; [|exact Hl]. intros c [Hc _]. unfold byte_ok. lia.
  - cbn. by replace (Z.to_nat _) with O by lia.
  - rewrite length_app. cbn [length newline]. lia.
Qed.
(** The lines [ls] are printed, each with its end. *)
Lemma lines_captured ls : forall t w0 w, captured_text b t w0 w -> Forall line_ok ls ->
  Z.of_nat (length t + length (unlines ls)) < SH_PIPE_BUF -> Forall (fun l => Z.of_nat (length l) + 1 < BUF_SIZE) ls ->
  exists w', each (print_line fuel) ls w = Done (tt, w') /\ captured_text b (t ++ unlines ls) w0 w'.
Proof.
  induction ls as [|l ls IH]; intros t w0 w Hw Hls Hn Hs; cbn [each].
  { exists w. by rewrite app_nil_r. }
  apply Forall_cons_iff in Hls as [Hl Hls], Hs as [Hs Hss]. rewrite unlines_cons, length_app in Hn. cbn [length] in Hn.
  destruct (kprintf_captured fuel b Hb _ _ (l ++ newline) t w0 w (formatted_line l Hl Hs) Hw) as (w1 & Hr1 & Hw1).
  { apply Forall_app. split; [|by apply Forall_singleton]. eapply List.Forall_impl; [|exact Hl]. by intros c []. }
  { rewrite length_app. cbn [length newline]. lia. }
  destruct (IH _ w0 w1 Hw1 Hls) as (w2 & Hr2 & Hw2); [rewrite !length_app; cbn [length newline]; lia|done|].
  exists w2. rewrite unlines_cons. replace (t ++ l ++ 10 :: unlines ls) with ((t ++ l ++ newline) ++ unlines ls) by by rewrite <- !app_assoc.
  split; [|exact Hw2]. unfold print_line at 1. by rewrite (bind_Done _ _ _ _ _ Hr1).
Qed.

Definition stdin_is (ls : list text) (w : world) : Prop := lookup_var (w_shell w) stdin_var = Some (unlines ls).
Lemma getvar_stdin ls w : stdin_is ls w -> sh_getvar stdin_var w = Done (Some (unlines ls), w).
Proof. unfold stdin_is, sh_getvar, in_shell, var_get, zoom, gets. cbn. intros ->. by destruct w. Qed.

(** C39: sort prints the lines of its input in the order of strcmp(), as often as they
    are there, for at most 256 lines, each ended by a newline, of fewer than 2048
    characters in all. The input is the shell variable that a pipe sets; var_set()
    keeps 511 characters of it. *)
Theorem cmd_sort_sorts ls t w0 w : stdin_is ls w -> Forall line_ok ls -> (length ls <= 256)%nat ->
  Z.of_nat (length (unlines ls)) < BUF_SIZE -> captured_text b t w0 w -> Z.of_nat (length t + length (unlines ls)) < SH_PIPE_BUF ->
  exists w' ls', cmd_sort fuel w = Done (tt, w') /\ captured_text b (t ++ unlines ls') w0 w' /\ ls' ≡ₚ ls /\ StronglySorted text_le ls'.
Proof.
  intros Hin Hls Hn Hlen Hw Hroom. unfold BUF_SIZE in *.
  assert (take (Z.to_nat (SH_PIPE_BUF - 1)) (unlines ls) = unlines ls) as Htake by (apply take_ge; unfold SH_PIPE_BUF; lia).
  destruct (sort_lines_sorts (length ls) ls eq_refl) as [Hp Hs].
  { eapply List.Forall_impl; [|exact Hls]. intros l Hl. eapply List.Forall_impl; [|exact Hl]. intros c []. lia. }
  destruct (lines_captured (sort_lines (length ls) ls) t w0 w Hw) as (w' & Hr & Hw').
  - by rewrite Hp.
  - by rewrite (unlines_perm _ _ Hp).
  - rewrite Hp. apply list.Forall_forall. intros l Hl. pose proof (line_length l ls Hl). unfold BUF_SIZE. lia.
  - exists w', (sort_lines (length ls) ls). split; [|done]. unfold cmd_sort. rewrite (bind_Done _ _ _ _ _ (getvar_stdin ls w Hin)).
    cbv zeta. by rewrite Htake, (lines_of_unlines ls Hls), take_ge by lia.
Qed.

(** grep prints exactly the lines of its input that contain the pattern, in order. *)
Theorem cmd_grep_selects pat ls t w0 w : stdin_is ls w -> Forall line_ok ls -> Forall (fun l => (length l < 256)%nat) ls ->
  captured_text b t w0 w -> Z.of_nat (length t + length (unlines ls)) < SH_PIPE_BUF ->
  exists w', cmd_grep fuel [pat] w = Done (tt, w') /\ captured_text b (t ++ unlines (filter (has_pattern pat) ls)) w0 w'.
Proof.
  intros Hin Hls Hs Hw Hn. unfold cmd_grep, with_source, source_text, stdin_text. cbn [head].
  rewrite <- !bind_assoc, (bind_Done _ _ _ _ _ (getvar_stdin ls w Hin)). change (default [] (Some (unlines ls))) with (unlines ls).
  set (out := fun l => if contains pat (line_buffer l) then print_line fuel (line_buffer l) else mret tt).
  change (exists w', each out (lines_of (unlines ls)) w = Done (tt, w') /\ captured_text b (t ++ unlines (filter (has_pattern pat) ls)) w0 w').
  rewrite (lines_of_unlines ls Hls).
  clear Hin. revert t w Hw Hn. induction ls as [|l ls IH]; intros t w Hw Hn; cbn [each].
  { exists w. by rewrite app_nil_r. }
  apply Forall_cons_iff in Hls as [Hl Hls], Hs as [Hl' Hs]. rewrite unlines_cons, length_app in Hn. cbn [length] in Hn.
  assert (out l = if contains pat l then print_line fuel l else mret tt) as -> by (unfold out, line_buffer; by rewrite take_ge by lia).
  rewrite filter_cons. destruct (decide (has_pattern pat l)) as [Hc|Hc].
  - destruct (lines_captured [l] t w0 w Hw) as (w1 & Hr1 & Hw1); [by constructor|cbn; rewrite !length_app; cbn; lia|constructor; [unfold BUF_SIZE; lia|done]|].
    destruct (IH Hls Hs _ w1 Hw1) as (w2 & Hr2 & Hw2); [cbn; rewrite !length_app; cbn; lia|].
    exists w2. rewrite (proj2 (contains_pattern pat l) Hc). cbn [each] in Hr1. apply bind_inv in Hr1 as ([] & w3 & Hr1 & [= ->]).
    rewrite (bind_Done _ _ _ _ _ Hr1). split; [exact Hr2|]. rewrite unlines_cons. cbn in Hw2. by rewrite <- !app_assoc in Hw2.
  - assert (contains pat l = false) as -> by (destruct (contains pat l) eqn:He; [by apply contains_pattern in He|done]).
    destruct (IH Hls Hs t w Hw) as (w2 & Hr2 & Hw2); [lia|]. by exists w2.
Qed.
End tools.

(** ** The game of vsnake.c *)

(** A game that goes on: no cell twice, all cells and the food in the field, and a cell
    for every hundred of the score besides the first three. *)
Record game_ok (g : game) : Prop := {
  go_distinct : NoDup (snake g);
  go_field : Forall (fun p => in_field p = true) (snake g);
  go_food : in_field (food g) = true;
  go_score : score g = 100 * (Z.of_nat (length (snake g)) - 3) /\ (3 <= length (snake g))%nat
}.
Lemma in_field_range p : in_field p = true <-> 0 <= fst p < WIDTH /\ 0 <= snd p < HEIGHT.
Proof. unfold in_field, WIDTH, HEIGHT. split; [intros H; to_prop; lia|intros; blia]. Qed.
(** The field has 800 cells. *)
Lemma field_cells (l : list (Z * Z)) : NoDup l -> Forall (fun p => in_field p = true) l -> Z.of_nat (length l) <= WIDTH * HEIGHT.
Proof.
  intros Hd Hl. assert (NoDup ((fun p => Z.to_nat (snd p * WIDTH + fst p)) <$> l)) as Hn.
  { apply NoDup_fmap_2_strong; [|done]. rewrite list.Forall_forall in Hl. intros [x y] [x' y'] H1%Hl%in_field_range H2%Hl%in_field_range. cbn in *.
    unfold WIDTH, HEIGHT in *. intros He. f_equal; lia. }
  pose proof (submseteq_length _ (seq 0 800) (NoDup_submseteq _ (seq 0 800) Hn ltac:(
    intros x (p & -> & Hp)%list_elem_of_fmap; rewrite list.Forall_forall in Hl; apply Hl, in_field_range in Hp; unfold WIDTH, HEIGHT in *; apply elem_of_seq; lia))) as H.
  rewrite length_fmap, length_seq in H. unfold WIDTH, HEIGHT. lia.
Qed.
Lemma removelast_sublist {A} (l : list A) : removelast l `sublist_of` l.
Proof. induction l as [|x [|y l] IH]; [done| |]; cbn; [by apply sublist_nil_l|]. by apply sublist_skip. Qed.
Lemma removelast_len {A} (l : list A) : length (removelast l) = (length l - 1)%nat.
Proof. induction l as [|c [|d l] IH]; [done..|]. cbn in *. lia. Qed.
Lemma next_food_field f : in_field (next_food f) = true.
Proof. apply in_field_range. unfold next_food, WIDTH, HEIGHT. cbn [fst snd]. split; apply Z.mod_pos_bound; lia. Qed.

Lemma game_step_ok k g : game_ok g ->
  let '(g', running) := game_step k g in
  (running = true -> game_ok g') /\ (length (snake g') <= S (length (snake g)))%nat.
Proof.
  intros [Hd Hf Ho [Hs Hl]]. unfold game_step. set (d := steer k (direction g)). set (hd := default (0, 0) (head (snake g))).
  set (next := (fst hd + fst d, snd hd + snd d)).
  assert (in_field next && negb (bool_decide (next ∈ snake g)) = true -> in_field next = true /\ next ∉ snake g) as Hrun.
  { intros [? Hn]%andb_prop. split; [done|]. by apply negb_true_iff, bool_decide_eq_false in Hn. }
  destruct (bool_decide_reflect (next = food g)) as [He|He]; cbn [snake food score direction].
  - split; [|done]. intros [Hin Hnot]%Hrun. split; cbn [snake food score length].
    + by constructor.
    + by constructor.
    + apply next_food_field.
    + lia.
  - split; [|cbn [length]; rewrite removelast_len; lia]. intros [Hin Hnot]%Hrun. pose proof (removelast_sublist (snake g)) as Hsub.
    split; cbn [snake food score length]; rewrite ?removelast_len; try done; [| |lia].
    + constructor; [|by eapply sublist_NoDup]. intros Hx. apply Hnot. by eapply elem_of_sublist.
    + constructor; [done|]. rewrite list.Forall_forall in *. intros p Hp. apply Hf. by eapply elem_of_sublist.
Qed.

(** The game after the keys, one for every turn, as long as it goes on. *)
Fixpoint play (ks : list Z) (g : game) : game * bool :=
  match ks with
  | [] => (g, true)
  | k :: ks => let '(g', running) := game_step k g in if running then play ks g' else (g', false)
  end.
Lemma play_ok ks : forall g, game_ok g -> let '(g', running) := play ks g in
  (running = true -> game_ok g') /\ (length (snake g') <= Nat.max (length (snake g)) 801)%nat.
Proof.
  induction ks as [|k ks IH]; intros g Hg; cbn [play]; [split; [done|lia]|].
  pose proof (game_step_ok k g Hg) as Hs. pose proof (field_cells _ (go_distinct _ Hg) (go_field _ Hg)) as Hc. unfold WIDTH, HEIGHT in Hc.
  destruct (game_step k g) as [g1 running]. destruct Hs as [Hok Hl]. destruct running; [|split; [done|lia]].
  specialize (IH g1 (Hok eq_refl)). destruct (play ks g1) as [g2 r]. split; [apply IH|lia].
Qed.
(** Whatever keys are pressed, as long as the game goes on the snake has no cell twice
    and lies inside of the field, so that it fits its array of 800 cells, the food lies in
    the field, and the score counts the cells; the head left the field or met the snake
    exactly when the game ends. *)
Theorem game_stays ks k g : play ks game_start = (g, true) ->
  (game_ok g /\ Z.of_nat (length (snake g)) <= WIDTH * HEIGHT) /\
  let '(g', on) := game_step k g in
  let next := default (0, 0) (head (snake g')) in
  on = false <-> in_field next = false \/ next ∈ snake g.
Proof.
  assert (game_ok game_start) as Hstart.
  { split; [|by repeat constructor|done|cbn; lia]. apply (bool_decide_unpack _). by vm_compute. }
  intros Hr. pose proof (play_ok ks game_start Hstart) as Hp. rewrite Hr in Hp. destruct Hp as [Hg _]. specialize (Hg eq_refl).
  split; [split; [done|by apply field_cells; apply Hg]|]. unfold game_step.
  set (d := steer k (direction g)). set (next := (_ + fst d, _ + snd d)).
  destruct (bool_decide (next = food g)); cbn [snake head default]; rewrite andb_false_iff, negb_false_iff, bool_decide_eq_true; done.
Qed.

(** ** Samples *)

Definition lines_sample : list text := [bytes_of "pear"; bytes_of "apple"; bytes_of "fig"; bytes_of "pea"].
Definition with_stdin (ls : list text) (w : world) : world :=
  World (set_vars (fun _ => Var_ stdin_var (unlines ls) false) 1 shell_zero) (w_pipes w) (w_machine w).
(** The output goes to a buffer at 4096. *)
Definition piped_sample : world := with_kout 4096 0 SH_PIPE_BUF (with_stdin lines_sample world_off).
Lemma piped_sample_stdin : stdin_is lines_sample piped_sample.
Proof. by vm_compute. Qed.
Lemma lines_sample_ok : Forall line_ok lines_sample.
Proof. repeat constructor; done. Qed.
Lemma cmd_sort_sorts_witness : exists w' ls', cmd_sort 10 piped_sample = Done (tt, w') /\
  captured_text 4096 (unlines ls') (with_stdin lines_sample world_off) w' /\ ls' ≡ₚ lines_sample /\ StronglySorted text_le ls'.
Proof.
  apply (cmd_sort_sorts 10 4096 ltac:(done) lines_sample [] (with_stdin lines_sample world_off) piped_sample piped_sample_stdin lines_sample_ok);
    [cbn; lia|by vm_compute|apply captured_start|by vm_compute].
Defined.
Example sorted_sample : sort_lines 4 lines_sample = [bytes_of "apple"; bytes_of "fig"; bytes_of "pea"; bytes_of "pear"].
Proof. by vm_compute. Qed.
Lemma cmd_grep_selects_witness : exists w', cmd_grep 10 [bytes_of "pe"] piped_sample = Done (tt, w') /\
  captured_text 4096 (unlines [bytes_of "pear"; bytes_of "pea"]) (with_stdin lines_sample world_off) w'.
Proof.
  apply (cmd_grep_selects 10 4096 ltac:(done) (bytes_of "pe") lines_sample [] (with_stdin lines_sample world_off) piped_sample piped_sample_stdin lines_sample_ok);
    [repeat constructor; cbn; lia|apply captured_start|by vm_compute].
Defined.
(** Five turns to the food. *)
Lemma game_stays_witness :
  (game_ok (Game [(15, 10); (14, 10); (13, 10); (12, 10)] (1, 0) (38, 17) 100)).
Proof.
  by apply (game_stays (replicate 5 (-1)) KEY_UP).
Defined.
