(* ===== verification/ShellReadline.v ===== *)
(** * The line editor of the shell (readline() of src/src/shell/shell.c)

    The reference is a line as the text before the cursor and the text behind it.
    Reading a line from a queue of keys gives the line that the reference makes of
    them, for every queue with an end of line, and the line fits its buffer. *)

From S2P Require Import Prelude Pmm Mem Strings Vmm UserSpace ElfLoad Heap Cpu Sched Input Console Shm Vfs Devfs Printf Arith UnixSocket System Machine ShellVars ShellWords ShellRun ShellScript ShellProgram ShellCommands.

(** ** The reference *)

(** Before the cursor, behind it, and the place in the history. *)
Record line := Line { before : text; behind : text; place : Z }.
Section reference.
Context (lim : Z) (hist : Z -> text) (count : Z).

Definition recall (i : Z) : line := Line (take (Z.to_nat lim) (hist (i mod HIST_MAX))) [] i.
Definition line_key (k : Z) (l : line) : line :=
  let '(b, a, h) := (before l, behind l, place l) in
  if k =? 8 then Line (removelast b) a h
  else if k =? KEY_DEL then Line b (tail a) h
  else if k =? KEY_LEFT then match b with [] => l | _ => Line (removelast b) (List.last b 0 :: a) h end
  else if k =? KEY_RIGHT then match a with [] => l | c :: a' => Line (b ++ [c]) a' h end
  else if k =? KEY_HOME then Line [] (b ++ a) h
  else if k =? KEY_END then Line (b ++ a) [] h
  else if k =? KEY_UP then if 0 <? h then recall (h - 1) else l
  else if k =? KEY_DOWN then
    if h <? count then if h + 1 =? count then Line [] [] count else recall (h + 1) else l
  else if (32 <=? k) && (k <? 128) && (Z.of_nat (length (b ++ a)) <? lim) then Line (b ++ [k]) a h
  else l.
(** The line after the keys. *)
Definition typed (ks : list Z) : text := let l := foldl (fun l k => line_key k l) (Line [] [] count) ks in before l ++ behind l.
End reference.

(** ** The editor implements it *)

Definition shows (l : line) (e : editor) : Prop := ed_buf e = before l ++ behind l /\ ed_cur e = length (before l) /\ ed_hist e = place l.
Definition fits (lim : Z) (l : line) : Prop := Z.of_nat (length (before l ++ behind l)) <= lim.

Lemma removelast_length (l : text) : length (removelast l) = (length l - 1)%nat.
Proof. induction l as [|c [|d l] IH]; [done..|]. cbn in *. lia. Qed.
Lemma removelast_take (l : text) : take (length l - 1) l = removelast l.
Proof. induction l as [|c [|d l] IH]; [done..|]. cbn in *. rewrite Nat.sub_0_r in IH. by rewrite IH. Qed.
Lemma removelast_last (l a : text) : l <> [] -> removelast l ++ List.last l 0 :: a = l ++ a.
Proof. induction l as [|c [|d l] IH]; [done..|]. intros _. cbn in *. by rewrite IH. Qed.

(** What a key does to the editor. *)
Definition after_key (e : editor) (r : edit_result) : option editor :=
  match r with Entered => None | Ignored => Some e | Moved e' | Redrawn e' => Some e' end.
Ltac shown := eexists; split; [reflexivity|]; unfold shows, fits in *; cbn [before behind place ed_buf ed_cur ed_hist] in *; try done.
Ltac recalled := unfold recall; cbn [before behind place]; rewrite ?app_nil_r, ?length_take in *; split_and!; try done; rewrite ?length_take; cbn; lia.
Lemma edit_shows lim hist count k l e : 0 <= k < 256 -> k <> 10 -> 0 <= lim -> shows l e -> fits lim l ->
  exists e', after_key e (edit lim hist count k e) = Some e' /\ shows (line_key lim hist count k l) e' /\ fits lim (line_key lim hist count k l).
Proof.
  intros Hk Hne Hlim (Hb & Hc & Hh) Hf. unfold edit, line_key. rewrite Hb, Hc, Hh. replace (k =? 10) with false by blia.
  destruct l as [b a h]. unfold fits in *. cbn [before behind place] in *.
  destruct (Z.eqb_spec k 8).
  { destruct (Nat.ltb_spec 0 (length b)); [|destruct b; [by shown|cbn [length] in *; lia]]. shown.
    rewrite take_app_le, removelast_take, drop_app_length by lia. rewrite !length_app, removelast_length in *. split_and!; [done..|lia]. }
  destruct (Z.eqb_spec k KEY_DEL).
  { destruct a as [|c a]; rewrite ?app_nil_r, ?Nat.ltb_irrefl; [shown; by rewrite ?app_nil_r in * |].
    rewrite length_app in *. cbn [length] in *. replace (_ <? _)%nat with true by (symmetry; apply Nat.ltb_lt; lia). shown.
    cbn [list.tail]. rewrite take_app_length. split_and!; [|done..|rewrite length_app; lia]. f_equal. rewrite drop_app_ge by lia. by replace (S (length b) - length b)%nat with 1%nat by lia. }
  destruct (Z.eqb_spec k KEY_LEFT).
  { destruct (Nat.ltb_spec 0 (length b)); [|destruct b; [by shown|cbn [length] in *; lia]]. shown. destruct b; [done|].
    cbn [before behind place]. rewrite removelast_last, removelast_length by done. done. }
  destruct (Z.eqb_spec k KEY_RIGHT).
  { destruct a as [|c a]; rewrite ?app_nil_r, ?Nat.ltb_irrefl; [by shown; rewrite ?app_nil_r in * |].
    rewrite length_app in *. cbn [length] in *. replace (_ <? _)%nat with true by (symmetry; apply Nat.ltb_lt; lia). shown.
    rewrite <- app_assoc, !length_app in *. cbn [app length]. split_and!; try done; lia. }
  destruct (Z.eqb_spec k KEY_HOME); [by shown|]. destruct (Z.eqb_spec k KEY_END); [shown; by rewrite app_nil_r|].
  destruct (Z.eqb_spec k KEY_UP); [destruct (0 <? h); shown; recalled|].
  destruct (Z.eqb_spec k KEY_DOWN); [destruct (h <? count); [destruct (_ =? count)|]; shown; recalled|].
  rewrite u32_small by lia. change KEY_UP with 128. destruct (_ && _) eqn:Hin; shown.
  apply andb_prop in Hin as [_ Hin]. rewrite take_app_length, drop_app_length, u8_small, <- app_assoc by lia. cbn [app].
  rewrite !length_app in *. cbn [length] in *. split_and!; try done; to_prop; lia.
Qed.

(** ** The screen during a session *)

(** The console invariant holds afterwards. *)
Definition screen_safe {A} (m : M screen A) : Prop := forall s, con_inv s -> returns m s (fun _ s' => con_inv s').
Lemma set_color_safe fg bg : screen_safe (vga_set_color fg bg).
Proof. intros s [? ? ? ?]. by apply wp_modify. Qed.
Lemma putchar_safe c : screen_safe (vga_putchar c).
Proof. intros s Hs. eapply wp_mono; [by apply vga_putchar_ok|]. by intros _ s' []. Qed.
Lemma clamp_range n hi : 0 < hi -> 0 <= clamp n hi < hi.
Proof. unfold clamp. repeat case_test; lia. Qed.
Lemma clamp_id n hi : 0 <= n < hi -> clamp n hi = n.
Proof. unfold clamp. repeat case_test; lia. Qed.
Lemma set_cursor_safe row col : screen_safe (vga_set_cursor row col).
Proof.
  intros s [Hr Hc Hf Hm]. unfold vga_set_cursor. wp_step. wp_step. wp_step. apply hw_cursor_wp. intros p. wp_step.
  pose proof (clamp_range row VGA_HEIGHT ltac:(done)). pose proof (clamp_range col VGA_WIDTH ltac:(done)).
  unfold fb_console_mirror_cursor. do 2 wp_step. unfold mirrored in Hm. cbn. destruct (s_fb_ok (sc_fb s)) eqn:Hok; cbn [negb].
  - apply wp_modify. unfold set_vga, call_hook. cbn. destruct (nonzero _); split; cbn; try done; intros _; cbn; split; by apply clamp_id.
  - apply wp_ret. unfold set_vga, call_hook. cbn. destruct (nonzero _); split; cbn; try done; unfold mirrored; cbn; by rewrite Hok.
Qed.

(** Only the screen and the keyboard differ from [w0]; the keys [ks] are queued. *)
Record ready (w0 : world) (ks : list Z) (w : world) : Prop := {
  rd_only : forall (sc : screen) (i : input), over sc (over i w) = over sc (over i w0);
  rd_screen : con_inv (view w);
  rd_keys : ring_rel KBD_BUF_SIZE ks (kbd_buf (view w : input))
}.
Ltac open_world w :=
  destruct w as [? ? [[[[[[]] ? ? ? ?] ?] ? ? ? ? ? ? ?] ? ? ? ? ? ? ?]];
  repeat match goal with i : input |- _ => destruct i | s : screen |- _ => destruct s | v : vm |- _ => destruct v | v : vgast |- _ => destruct v | c : cpu |- _ => destruct c end.
Lemma only_screen (sc sc' : screen) (i : input) (w : world) : over sc (over i (over sc' w)) = over sc (over i w).
Proof. by open_world w. Qed.
Lemma only_input (sc : screen) (i i' : input) (w : world) : over sc (over i (over i' w)) = over sc (over i w).
Proof. by open_world w. Qed.
Lemma view_screen (sc : screen) (w : world) : view (over sc w) = sc.
Proof. by open_world w. Qed.
Lemma keys_screen (sc : screen) (w : world) : kbd_buf (view (over sc w) : input) = kbd_buf (view w : input).
Proof. by open_world w. Qed.
Lemma console_input (i : input) (w : world) : con_inv (view w) -> con_inv (view (over i w)).
Proof. open_world w. intros [Hr Hc Hf Hm]. by split. Qed.
Lemma view_input (i : input) (w : world) : (view (over i w) : input) = i.
Proof. by open_world w. Qed.

Section session.
Context (w0 : world).
(** The operation only draws. *)
Definition draws_only {A} (m : M world A) : Prop := forall ks w, ready w0 ks w -> returns m w (fun _ w' => ready w0 ks w').
Lemma draws_screen {A} (m : M screen A) : screen_safe m -> draws_only (on_screen m).
Proof.
  intros Hm ks w [Ho Hs Hk]. apply wp_zoom. eapply wp_mono; [by apply Hm|]. intros a sc' Hs'. split.
  - intros sc i. by rewrite only_screen.
  - by rewrite view_screen.
  - by rewrite keys_screen.
Qed.
Lemma draws_bind {A B} (m : M world A) (f : A -> M world B) : draws_only m -> (forall a, draws_only (f a)) -> draws_only (m ≫= f).
Proof. intros Hm Hf ks w Hw. apply wp_bind. eapply wp_mono; [by apply Hm|]. intros a w' Hw'. by apply Hf. Qed.
Lemma draws_each {A} (f : A -> M world unit) l : (forall x, draws_only (f x)) -> draws_only (each f l).
Proof. intros Hf. induction l as [|x l IH]; cbn [each]; [intros ks w Hw; by apply wp_ret|]. by apply draws_bind. Qed.
Lemma draws_cursor row col : draws_only (on_screen (vga_set_cursor row col)).
Proof. apply draws_screen, set_cursor_safe. Qed.
Lemma draws_color fg bg : draws_only (color fg bg).
Proof. apply draws_screen, set_color_safe. Qed.
Lemma draws_char c : draws_only (on_screen (vga_putchar c)).
Proof. apply draws_screen, putchar_safe. Qed.
#[local] Hint Resolve draws_cursor draws_color draws_char : vnl.
Lemma draws_redraw f n e : draws_only (redraw f n e).
Proof. repeat (apply draws_bind; [|intros _]); auto with vnl; by apply draws_each; auto with vnl. Qed.

Lemma key_taken fuel k ks w : 0 <= k -> ready w0 (k :: ks) w -> returns (next_key fuel) w (fun k' w' => k' = k /\ ready w0 ks w').
Proof.
  intros Hk [Ho Hs Hr]. unfold next_key. apply wp_bind, wp_zoom. apply ring_pop_rel in Hr as (b & Hp & Hb). unfold keyboard_poll.
  do 2 wp_step. rewrite Hp. do 2 wp_step. wp_step. replace (0 <=? k) with true by blia. apply wp_ret. split; [done|]. split.
  - intros sc i. by rewrite only_input.
  - by apply console_input.
  - by rewrite view_input.
Qed.
End session.

(** ** Reading a line *)

(** The room for a line at this column; in the last one it starts on the next row. *)
Definition room (maxlen col : Z) : Z := if col =? 79 then Z.min 79 (maxlen - 1) else Z.min (79 - col) (maxlen - 1).
Definition column (w : world) : Z := cur_col (sc_vga (view w : screen)).
Definition key_ok (k : Z) : Prop := 0 <= k < 256 /\ k <> 10.

Section reading.
Context (fuel : nat) (w0 : world).

Lemma field_limit_min maxlen col : field_limit maxlen col = Z.min (79 - col) (maxlen - 1).
Proof. unfold field_limit. case_test; lia. Qed.
Lemma color_column fg bg ks w : ready w0 ks w -> returns (color fg bg) w (fun _ w' => ready w0 ks w' /\ column w' = column w).
Proof.
  intros Hw. pose proof (draws_color w0 fg bg ks w Hw) as Hr. unfold color, on_screen, wp, zoom in *. cbn in Hr |- *. split; [exact Hr|].
  clear. by open_world w.
Qed.
Lemma get_column ks w : ready w0 ks w -> returns (on_screen vga_get_col) w (fun c w' => c = column w /\ ready w0 ks w' /\ column w' = column w).
Proof.
  intros Hw. assert (screen_safe vga_get_col) as Hs by (intros s Hs; by apply wp_gets). pose proof (draws_screen w0 _ Hs ks w Hw) as Hr.
  unfold on_screen, wp, zoom in *. cbn in Hr |- *. split; [done|]. split; [exact Hr|]. clear. by open_world w.
Qed.
Lemma get_row ks w : ready w0 ks w -> returns (on_screen vga_get_row) w (fun _ w' => ready w0 ks w' /\ column w' = column w).
Proof.
  intros Hw. assert (screen_safe vga_get_row) as Hs by (intros s Hs; by apply wp_gets). pose proof (draws_screen w0 _ Hs ks w Hw) as Hr.
  unfold on_screen, wp, zoom in *. cbn in Hr |- *. split; [exact Hr|]. clear. by open_world w.
Qed.
Lemma newline_column ks w : ready w0 ks w -> returns (on_screen (vga_putchar 10)) w (fun _ w' => ready w0 ks w' /\ column w' = 0).
Proof.
  intros Hw. pose proof (draws_char w0 10 ks w Hw) as Hr. pose proof (vga_putchar_ok 10 _ (rd_screen _ _ _ Hw)) as Hc.
  unfold wp, on_screen, zoom in *. destruct (vga_putchar 10 (view w)) as [[[] sc]| | | |]; try done. split; [exact Hr|].
  unfold column. rewrite view_screen. destruct Hc as [_ Hc]. unfold after_char, con_step, con_state, advance in Hc. cbn -[VGA_HEIGHT Z.add] in Hc.
  destruct (VGA_HEIGHT <=? _); by destruct Hc as (_ & _ & -> & _).
Qed.
Ltac get_position w Hw Hc :=
  wp_step; eapply wp_mono; [by apply get_row|]; cbn beta; intros ? w [Hw Hc];
  wp_step; eapply wp_mono; [by apply get_column|]; cbn beta; intros ? ? (-> & ? & ?); rewrite ?Hc.
Lemma start_field_ok maxlen ks w : 2 <= maxlen -> ready w0 ks w ->
  returns (start_field maxlen) w (fun f w' => ready w0 ks w' /\ limit f = room maxlen (column w)).
Proof.
  intros Hm Hw. unfold start_field. wp_step. eapply wp_mono; [by apply color_column|]. cbn beta. intros _ w1 [Hw1 Hc1].
  get_position w2 Hw2 Hc2.
  pose proof (ci_col _ (rd_screen _ _ _ Hw)) as Hcol. fold (column w) in Hcol. unfold VGA_WIDTH in Hcol. rewrite Hc1 in *.
  replace (column w <? 0) with false by blia. replace (79 <? column w) with false by blia. rewrite field_limit_min. unfold room.
  destruct (Z.eqb_spec (column w) 79) as [He|He].
  - rewrite He. replace (_ <? 1) with true by blia. wp_step. wp_step. eapply wp_mono; [by apply newline_column|]. cbn beta. intros _ w4 [Hw4 Hc4].
    wp_step. eapply wp_mono; [by apply color_column|]. cbn beta. intros _ w5 [Hw5 Hc5]. get_position w6 Hw6 Hc6.
    rewrite Hc5, Hc4. change (79 <? 0) with false. cbn iota. rewrite field_limit_min.
    apply wp_ret. apply wp_ret. split; [done|]. cbn [limit]. case_test; lia.
  - replace (_ <? 1) with false by blia. wp_step. apply wp_ret. apply wp_ret. split; [done|]. cbn [limit]. replace (_ <? 1) with false by blia. done.
Qed.

Lemma turn_edits f hist count k ks l e w : key_ok k -> 0 <= limit f -> shows l e -> fits (limit f) l -> ready w0 (k :: ks) w ->
  returns (edit_turn fuel f hist count e) w (fun r w' => exists e', r = inl e' /\ shows (line_key (limit f) hist count k l) e' /\
    fits (limit f) (line_key (limit f) hist count k l) /\ ready w0 ks w').
Proof.
  intros [Hk Hne] Hlim Hs Hf Hw. unfold edit_turn. wp_step. eapply wp_mono; [apply key_taken; [|exact Hw]; lia|]. cbn beta. intros k' w1 [-> Hw1].
  destruct (edit_shows (limit f) hist count k l e Hk Hne Hlim Hs Hf) as (e' & He & Hs' & Hf').
  destruct (edit (limit f) hist count k e) as [| |e1|e1]; cbn [after_key] in He; [done|injection He as <-..].
  - apply wp_ret. by exists e.
  - wp_step. eapply wp_mono; [by apply draws_cursor|]. cbn beta. intros _ w2 Hw2. apply wp_ret. by exists e1.
  - wp_step. eapply wp_mono; [by apply draws_redraw|]. cbn beta. intros _ w2 Hw2. apply wp_ret. by exists e1.
Qed.
Lemma turn_enters f hist count ks e w : ready w0 (10 :: ks) w ->
  returns (edit_turn fuel f hist count e) w (fun r w' => r = inr (ed_buf e) /\ ready w0 ks w').
Proof.
  intros Hw. unfold edit_turn. wp_step. eapply wp_mono; [apply key_taken; [|exact Hw]; lia|]. cbn beta. intros k' w1 [-> Hw1].
  change (edit (limit f) hist count 10 e) with Entered. cbn iota. wp_step. eapply wp_mono; [by apply draws_color|]. cbn beta. intros _ w2 Hw2. wp_step. eapply wp_mono; [by apply draws_cursor|]. cbn beta. intros _ w3 Hw3.
  wp_step. eapply wp_mono; [by apply draws_char|]. cbn beta. intros _ w4 Hw4. by apply wp_ret.
Qed.
Lemma turns_edit f hist count rest ks : forall n l e w, Forall key_ok ks -> 0 <= limit f -> shows l e -> fits (limit f) l ->
  (length ks < n)%nat -> ready w0 (ks ++ 10 :: rest) w ->
  returns (iter n (edit_turn fuel f hist count) e) w (fun t w' =>
    let l' := foldl (fun l k => line_key (limit f) hist count k l) l ks in t = before l' ++ behind l' /\ fits (limit f) l' /\ ready w0 rest w').
Proof.
  induction ks as [|k ks IH]; intros [|n] l e w Hks Hlim Hs Hf Hn Hw; cbn [length] in *; try lia; cbn [iter foldl app]; wp_step.
  - eapply wp_mono; [by apply turn_enters|]. cbn beta. intros r w' [-> Hw']. apply wp_ret. by destruct Hs as [-> _].
  - apply Forall_cons_iff in Hks as [Hk Hks]. eapply wp_mono; [by apply turn_edits|]. cbn beta. intros r w' (e' & -> & Hs' & Hf' & Hw').
    apply (IH n _ e' w'); try done. lia.
Qed.
End reading.

(** C38: whatever keys are queued before an end of line, readline() gives the line that a
    plain editor of two texts makes of them, with the history and with the room that the
    column leaves; the line is shorter than its buffer. Only the screen and the record of
    the input devices (the keyboard with the mouse and the processor's interrupt state)
    change, and the keys behind the end of line stay in the queue. *)
Theorem readline_edits fuel maxlen ks rest s :
  2 <= maxlen -> con_inv (view (se_world s)) -> ring_rel KBD_BUF_SIZE (ks ++ 10 :: rest) (kbd_buf (view (se_world s) : input)) ->
  Forall key_ok ks -> (length ks < fuel)%nat ->
  exists w', readline fuel maxlen s = Done (typed (room maxlen (column (se_world s))) (history s) (hist_count s) ks, Session w' (history s) (hist_count s)) /\
    ready (se_world s) rest w' /\
    Z.of_nat (length (typed (room maxlen (column (se_world s))) (history s) (hist_count s) ks)) < maxlen.
Proof.
  intros Hm Hc Hr Hks Hfuel. assert (ready (se_world s) (ks ++ 10 :: rest) (se_world s)) as Hw by done.
  pose proof (ci_col _ Hc) as Hcol. fold (column (se_world s)) in Hcol. unfold VGA_WIDTH in Hcol.
  set (lim := room maxlen (column (se_world s))). assert (0 <= lim < maxlen) as Hlim by (unfold lim, room; case_test; lia).
  assert (returns (readline fuel maxlen) s (fun t s' => t = typed lim (history s) (hist_count s) ks /\
    fits lim (foldl (fun l k => line_key lim (history s) (hist_count s) k l) (Line [] [] (hist_count s)) ks) /\
    exists w', s' = Session w' (history s) (hist_count s) /\ ready (se_world s) rest w')) as Hrun.
  { unfold readline. wp_step. apply wp_get. apply wp_zoom. wp_step. eapply wp_mono; [by apply start_field_ok|].
    cbn beta. intros f w1 [Hw1 Hf]. change (limit f = lim) in Hf. assert (0 <= limit f) as Hl by lia.
    eapply wp_mono; [by apply (turns_edit fuel (se_world s) f (history s) (hist_count s) rest ks fuel (Line [] [] (hist_count s)))|].
    cbn beta zeta. rewrite Hf. intros t w' (-> & Hfit & Hw'). split; [done|]. split; [done|]. by exists w'. }
  unfold wp in Hrun. destruct (readline fuel maxlen s) as [[t s']| | | |]; try done. destruct Hrun as (-> & Hfit & w' & -> & Hw').
  exists w'. split; [done|]. split; [done|]. unfold fits, typed in *. cbn zeta. lia.
Qed.

(** A plain text that fits is read as it was typed. *)
Lemma typed_plain lim hist count ks : Forall (fun k => 32 <= k < 128) ks -> Z.of_nat (length ks) <= lim -> typed lim hist count ks = ks.
Proof.
  intros Hks Hl. unfold typed. cbn zeta. assert (forall b, Z.of_nat (length (b ++ ks)) <= lim ->
    foldl (fun l k => line_key lim hist count k l) (Line b [] count) ks = Line (b ++ ks) [] count) as Hg.
  { clear Hl. induction Hks as [|k ks Hk _ IH]; intros b Hb; cbn [foldl]; [by rewrite app_nil_r|].
    rewrite length_app in Hb. cbn [length] in Hb.
    assert (line_key lim hist count k (Line b [] count) = Line (b ++ [k]) [] count) as ->.
    { unfold line_key, KEY_DEL, KEY_LEFT, KEY_RIGHT, KEY_HOME, KEY_END, KEY_UP, KEY_DOWN. cbn [before behind place].
      repeat match goal with |- context [k =? ?c] => replace (k =? c) with false by blia end. rewrite app_nil_r. by replace (_ && _) with true by blia. }
    rewrite IH; [by rewrite <- app_assoc|]. rewrite <- app_assoc, length_app. cbn [app length]. lia. }
  rewrite Hg by done. cbn. by rewrite app_nil_r.
Qed.

(** ** Samples *)

(** s, the left arrow, l, z, backspace, end of line, and a key after it. *)
Definition keys_sample : list Z := [115; KEY_LEFT; 108; 122; 8].
Definition queue_sample : ring Z :=
  foldl (fun r k => ring_push KBD_BUF_SIZE k r) (Ring (fun _ => 0) 0 0) (keys_sample ++ [10; 120]).
Definition typing_sample : session :=
  Session (over screen_zero (over (set_kbd_buf queue_sample input_zero) world_off)) (fun _ => []) 0.
Lemma queue_sample_holds : ring_rel KBD_BUF_SIZE (keys_sample ++ 10 :: [120]) queue_sample.
Proof.
  unfold queue_sample, keys_sample. cbn [foldl app]. do 7 (match goal with |- ring_rel _ ?l (ring_push _ ?k _) =>
    let l' := eval cbn in (removelast l) in change l with (queue_push KBD_BUF_SIZE k l'); apply ring_push_rel end). by apply ring_empty_rel.
Qed.
Lemma readline_edits_witness :
  exists w', readline 10 CMD_MAX typing_sample = Done (bytes_of "ls", Session w' (fun _ => []) 0) /\
    ring_rel KBD_BUF_SIZE [120] (kbd_buf (view w' : input)).
Proof.
  destruct (readline_edits 10 CMD_MAX keys_sample [120] typing_sample) as (w' & Hr & Hw & _).
  - done.
  - cbn [se_world typing_sample]. rewrite view_screen. exact screen_zero_inv.
  - cbn [se_world typing_sample]. rewrite keys_screen, view_input. exact queue_sample_holds.
  - repeat constructor; done.
  - cbn. lia.
  - exists w'. split; [|exact (rd_keys _ _ _ Hw)]. etransitivity; [exact Hr|]. reflexivity.
Defined.
