(* ===== verification/Process.v ===== *)
(** * Programs on the kernel (include/syscall.h, the entry of src/src/kernel/syscall.c)

    A program sees the bytes of its pages through the page tables and enters the
    kernel by int 0x80 with its arguments in registers. [Process] is what the C
    library needs of that; [ProcessLaws] is what its memory allocator relies on, and
    the kernel keeps it: a store is read back and an anonymous mapping is a fresh
    region of zeroes behind the last one. *)

From S2P Require Import Prelude Pmm Mem Strings Vmm UserSpace Heap Cpu Sched Vfs Devfs UnixSocket System Syscall SyscallMem.

(** A program: its bytes ([None] where an access faults), a store, and a system call
    with its number and six arguments. *)
Class Process (S : Type) := {
  byte_at : S -> Z -> option Z;
  store_at : Z -> list Z -> S -> S;
  syscall : Z -> Z -> Z -> Z -> Z -> Z -> Z -> M S Z
}.

Definition MAP_PRIVATE_ANONYMOUS : Z := 0x22.
Definition PROT_READ_WRITE : Z := 3.

Class ProcessLaws (S : Type) `{Process S} := {
  (** The pages that are backed, and where the next mapping goes. *)
  pages : S -> gset Z -> Prop;
  next_region : S -> Z;
  page_byte : forall s W v, pages s W -> user_va v -> v / 4096 ∈ W -> exists b, byte_at s v = Some b /\ 0 <= b < 256;
  store_pages : forall s W p bs, pages s W -> 0 <= p -> p + Z.of_nat (length bs) <= 2^47 ->
    (forall k, (k < length bs)%nat -> (p + Z.of_nat k) / 4096 ∈ W) -> Forall (fun b => 0 <= b < 256) bs ->
    pages (store_at p bs s) W /\ next_region (store_at p bs s) = next_region s /\
    forall v, user_va v -> v / 4096 ∈ W -> byte_at (store_at p bs s) v = image_write p bs (byte_at s) v;
  map_pages : forall s W len, pages s W -> 0 < len <= MMAP_MAX ->
    next_region s mod 4096 = 0 -> 0 <= next_region s -> next_region s + ALIGN_UP len PAGE_SIZE <= 2^47 ->
    safe (syscall SYS_MMAP 0 len PROT_READ_WRITE MAP_PRIVATE_ANONYMOUS (-1) 0) s (fun r s' => exists k,
      let va := next_region s in
      pages s' (page_set (va / 4096) k ∪ W) /\ next_region s' = va + ALIGN_UP len PAGE_SIZE /\
      (forall v, user_va v -> va <= v < va + 4096 * Z.of_nat k -> byte_at s' v = Some 0) /\
      (forall v, user_va v -> v / 4096 ∈ W -> ~ (va <= v < va + 4096 * Z.of_nat k) -> byte_at s' v = byte_at s v) /\
      ((r = va /\ 4096 * Z.of_nat k = ALIGN_UP len PAGE_SIZE) \/ r = - ENOMEM))
}.

(** ** The kernel's programs *)

(** What user code of the current task reads, by the walk of the kernel's own copy
    routines. The user bits are not tested: on the processor a ring 3 access also needs
    them in every table above the page, where vmm.c does not set them. *)
Definition task_byte (y : sys) (v : Z) : option Z :=
  if (0 <=? v) && (v <? 2^47) then user_byte (ram (mem_now y)) (t_cr3_phys (task_now y)) v else None.
Definition task_mem (y : sys) (v : Z) : Z := default 0 (task_byte y v).
Definition task_store (p : Z) (bs : list Z) (y : sys) : sys :=
  match in_vm (vnl_copy_to_user_va (t_cr3_phys (task_now y)) p bs) y with Done (_, y') => y' | _ => y end.

Section kernel.
Context (fuel : nat) (boot_stack_top yield_frame : Z) (regs : Registers).

(** The arguments in RDI, RSI, RDX, R10, R8 and R9, the number in RAX. *)
Definition call_regs (num a1 a2 a3 a4 a5 a6 : Z) : Registers :=
  <[RAX := u64 num]> (<[RDI := u64 a1]> (<[RSI := u64 a2]> (<[RDX := u64 a3]>
    (<[R10 := u64 a4]> (<[R8 := u64 a5]> (<[R9 := u64 a6]> (<[CS := USER_CS]> regs))))))).
(** int 0x80; a call that gives the processor away blocks. *)
Definition int80 (num a1 a2 a3 a4 a5 a6 : Z) : M sys Z :=
  r ← syscall_handler fuel task_mem task_store boot_stack_top yield_frame (call_regs num a1 a2 a3 a4 a5 a6);
  match r with Resume r => mret (s64 (r RAX)) | Switch _ _ | Exit _ => block end.
#[export] Instance kernel_process : Process sys := {| byte_at := task_byte; store_at := task_store; syscall := int80 |}.

Definition task_pages (y : sys) (W : gset Z) : Prop := exists R, task_space R W y.

Lemma task_byte_page y W v : task_pages y W -> user_va v -> v / 4096 ∈ W -> exists b, task_byte y v = Some b /\ 0 <= b < 256.
Proof.
  intros (R & Hs & _) Hv Hp. unfold task_byte. unfold user_va in Hv. replace (_ && _) with true by blia.
  rewrite (space_byte R _ W _ v Hs); [|by rewrite user_vpn]. eexists. split; [done|]. apply (pt_mem _ _ _ (sp_inv _ _ _ _ Hs)).
Qed.
Lemma task_byte_user y v : user_va v -> task_byte y v = user_byte (ram (mem_now y)) (t_cr3_phys (task_now y)) v.
Proof. intros Hv. unfold task_byte, user_va in *. by replace (_ && _) with true by blia. Qed.
Lemma mem_over s y : mem_now (over s y) = s /\ task_now (over s y) = task_now y.
Proof. split; [unfold mem_now; apply view_over|by destruct y]. Qed.

Lemma task_store_pages y W p bs : task_pages y W -> 0 <= p -> p + Z.of_nat (length bs) <= 2^47 ->
  (forall k, (k < length bs)%nat -> (p + Z.of_nat k) / 4096 ∈ W) -> Forall (fun b => 0 <= b < 256) bs ->
  task_pages (task_store p bs y) W /\ task_now (task_store p bs y) = task_now y /\
  forall v, user_va v -> v / 4096 ∈ W -> task_byte (task_store p bs y) v = image_write p bs (task_byte y) v.
Proof.
  intros (R & Hs & Hn) Hp Hl Hin Hb. assert (forall k, (k < length bs)%nat -> vpn (p + Z.of_nat k) ∈ W) as Hin'.
  { intros k Hk. rewrite user_vpn; [by apply Hin|unfold user_va; lia]. }
  pose proof (write_user_ok Hs p bs (conj Hp Hl) Hin' Hb) as Hw. unfold task_store, in_vm, zoom. unfold wp in Hw. fold (mem_now y).
  destruct (vnl_copy_to_user_va _ p bs (mem_now y)) as [[[] s']| | | |]; try done. destruct Hw as (Hs' & Hst & _ & Hbyte).
  destruct (mem_over s' y) as [Hm Ht]. split; [|split; [exact Ht|]].
  - exists R. unfold task_space. rewrite Hm, Ht. split; [done|]. by apply (no_huge_space R _ W W _ _ _ Hst), Hn; apply Hs.
  - intros v Hv Hvw. rewrite task_byte_user, Hm, Ht by done. rewrite Hbyte by (done || by rewrite user_vpn). apply image_write_ext. by rewrite task_byte_user.
Qed.

Lemma s64_u64 z : - 2^63 <= z < 2^63 -> s64 (u64 z) = z.
Proof. intros. unfold s64, u64. zlia. Qed.
(** The dispatcher reaches do_mmap(). *)
Lemma int80_mmap len y : 0 < len <= MMAP_MAX ->
  int80 SYS_MMAP 0 len PROT_READ_WRITE MAP_PRIVATE_ANONYMOUS (-1) 0 y =
  (r ← do_mmap 0 len MAP_PRIVATE_ANONYMOUS (-1) 0; mret (s64 (u64 r))) y.
Proof.
  intros Hl. unfold MMAP_MAX in Hl. unfold int80. set (r := call_regs _ _ _ _ _ _ _).
  assert (syscall_handler fuel task_mem task_store boot_stack_top yield_frame r y =
    finish r (do_mmap (u64 0) (u64 len) (s32 (u64 MAP_PRIVATE_ANONYMOUS)) (s32 (u64 (-1))) (s64 (u64 0))) y) as Hh by reflexivity.
  rewrite (u64_small len) in Hh by lia. change (u64 0) with 0 in Hh. change (s32 (u64 _)) with MAP_PRIVATE_ANONYMOUS in Hh at 1.
  unfold mbind, M_bind at 1. rewrite Hh. unfold finish, mbind, M_bind. by destruct (do_mmap _ _ _ _ _ y) as [[r' y']| | | |].
Qed.

(** The kernel keeps the laws. *)
#[export] Instance kernel_process_laws : ProcessLaws sys.
Proof.
  refine {| pages := task_pages; next_region := fun y => t_mmap_next (task_now y) |}.
  - apply task_byte_page.
  - intros y W p bs HW Hp Hl Hin Hb. destruct (task_store_pages y W p bs HW Hp Hl Hin Hb) as (Hp' & Ht & Hv). cbn. rewrite Ht. done.
  - intros y W len (R & Hs) Hlen Ha H0 Hfit. cbn. eapply wp_same; [by apply int80_mmap|]. wp_step.
    eapply wp_mono; [by apply (mmap_anonymous R W)|]. cbn beta. intros r y' (k & s' & Hg & -> & Hr). apply wp_ret.
    set (y1 := set_cur_task _ y). destruct (mem_over s' y1) as [Hm Ht]. exists k.
    assert (t_cr3_phys (task_now (over s' y1)) = t_cr3_phys (task_now y)) as Hcr.
    { rewrite Ht. unfold y1, set_cur_task, task_now. cbn. by rewrite upd_same. }
    assert (t_mmap_next (task_now (over s' y1)) = t_mmap_next (task_now y) + ALIGN_UP len PAGE_SIZE) as Hnext.
    { rewrite Ht. unfold y1, set_cur_task, task_now. cbn. by rewrite upd_same. }
    destruct (ALIGN_UP_user len) as (Hal & Hlo & _); [unfold MMAP_MAX in Hlen; lia|].
    split_and!; [|exact Hnext|..].
    + exists R. unfold task_space. rewrite Hm, Hcr. split; [apply (gr_space _ _ _ _ _ _ _ Hg)|].
      eapply (no_huge_space R _ _ _ _ _ _ (gr_step _ _ _ _ _ _ _ Hg)); apply Hs.
    + intros v Hv Hin. rewrite task_byte_user, Hm, Hcr by done. by apply (gr_zero _ _ _ _ _ _ _ Hg).
    + intros v Hv Hin Hout. rewrite !task_byte_user, Hm, Hcr by done. apply (gr_keep _ _ _ _ _ _ _ Hg); [done| |done]. by rewrite user_vpn.
    + destruct Hr as [[-> Hk]|[-> _]]; [left|by right]. rewrite s64_u64 by lia. done.
Defined.
End kernel.
