(* ===== verification/Libc.v ===== *)
(** * The C library of user programs: memory and system calls (src/ports/libc/libc.c)

    The state of the library over any [Process], accesses to the program's memory
    (an access to a page that is not there is undefined: the program is stopped), and
    the functions that wrap one system call each: a negative result becomes errno
    and -1. *)

From S2P Require Import Prelude Pmm Mem Strings Vmm UserSpace Syscall SyscallMem Process.

(** The static variables of the library. *)
Record proc (S : Type) := Proc { p_os : S; errno : Z; free_list_head : Z; timerfds : Z -> Z; signalfds : Z -> Z }.
Arguments Proc {S} _ _ _ _ _.
Arguments p_os {S} _.
Arguments errno {S} _.
Arguments free_list_head {S} _.
Arguments timerfds {S} _ _.
Arguments signalfds {S} _ _.

Section libc.
Context {S : Type} `{Process S}.

#[export] Instance proc_os_lens : Lens (proc S) S :=
  {| view := p_os; over o s := Proc o (errno s) (free_list_head s) (timerfds s) (signalfds s) |}.
#[export] Instance proc_os_laws : LensLaws (proc S) S.
Proof. split; [done|by intros []|done]. Qed.

Definition set_errno (e : Z) (s : proc S) : proc S := Proc (p_os s) e (free_list_head s) (timerfds s) (signalfds s).
Definition set_head (p : Z) (s : proc S) : proc S := Proc (p_os s) (errno s) p (timerfds s) (signalfds s).
Definition set_timerfds (f : Z -> Z) (s : proc S) : proc S := Proc (p_os s) (errno s) (free_list_head s) f (signalfds s).
Definition set_signalfds (f : Z -> Z) (s : proc S) : proc S := Proc (p_os s) (errno s) (free_list_head s) (timerfds s) f.

(** ** Memory of the program *)

Definition umem (s : proc S) : mem := fun v => default 0 (byte_at (p_os s) v).
Definition accessible (s : proc S) (p : Z) (n : nat) : bool :=
  forallb (fun v => match byte_at (p_os s) v with Some _ => true | None => false end) (seqZ p (Z.of_nat n)).
Definition uload (n : nat) (p : Z) : M (proc S) Z :=
  s ← get; if accessible s p n then mret (load_le n (umem s) p) else ub.
Definition ustore_bytes (p : Z) (bs : list Z) : M (proc S) unit :=
  s ← get; if accessible s p (length bs) then modify (over (store_at p bs (p_os s))) else ub.
Definition ustore (n : nat) (p v : Z) : M (proc S) unit := ustore_bytes p (le_bytes n v).
Definition uload_bytes (p : Z) (n : nat) : M (proc S) (list Z) :=
  s ← get; if accessible s p n then mret (load_bytes (umem s) p n) else ub.
(** A routine that only writes the [n] bytes from [d] on. *)
Definition on_range (d : Z) (n : nat) (f : mem -> mem) : M (proc S) unit :=
  s ← get; ustore_bytes d (load_bytes (f (umem s)) d n).

(** ** System calls *)

Definition syscall_raw (num a1 a2 a3 a4 a5 a6 : Z) : M (proc S) Z := zoom (syscall num a1 a2 a3 a4 a5 a6).
(** The result, or [bad] with errno set. *)
Definition checked (bad : Z) (f : Z -> Z) (m : M (proc S) Z) : M (proc S) Z :=
  r ← m; if r <? 0 then modify (set_errno (s32 (- r)));; mret bad else mret (f r).

Definition open (pathname flags : Z) : M (proc S) Z := checked (-1) s32 (syscall_raw 2 pathname flags 0 0 0 0).
Definition pipe (pipefd : Z) : M (proc S) Z := checked (-1) (fun _ => 0) (syscall_raw 22 pipefd 0 0 0 0 0).
Definition read (fd buf count : Z) : M (proc S) Z := checked (-1) id (syscall_raw 0 fd buf count 0 0 0).
Definition write (fd buf count : Z) : M (proc S) Z := checked (-1) id (syscall_raw 1 fd buf count 0 0 0).
Definition lseek (fd offset whence : Z) : M (proc S) Z := checked (-1) id (syscall_raw 8 fd offset whence 0 0 0).
Definition dup (oldfd : Z) : M (proc S) Z := checked (-1) s32 (syscall_raw 32 oldfd 0 0 0 0 0).
Definition dup2 (oldfd newfd : Z) : M (proc S) Z := checked (-1) s32 (syscall_raw 33 oldfd newfd 0 0 0 0).
Definition getcwd (buf size : Z) : M (proc S) Z := checked 0 (fun _ => buf) (syscall_raw 79 buf size 0 0 0 0).
Definition unlink (pathname : Z) : M (proc S) Z := checked (-1) (fun _ => 0) (syscall_raw 87 pathname 0 0 0 0 0).
Definition mkdir (pathname mode : Z) : M (proc S) Z := checked (-1) (fun _ => 0) (syscall_raw 83 pathname mode 0 0 0 0).
Definition readlink (pathname buf bufsiz : Z) : M (proc S) Z := checked (-1) id (syscall_raw 89 pathname buf bufsiz 0 0 0).
Definition getpid : M (proc S) Z := r ← syscall_raw 39 0 0 0 0 0 0; mret (s32 r).
Definition getuid : M (proc S) Z := r ← syscall_raw 102 0 0 0 0 0 0; mret (u32 r).
Definition geteuid : M (proc S) Z := getuid.
Definition getgid : M (proc S) Z := r ← syscall_raw 104 0 0 0 0 0 0; mret (u32 r).
Definition getegid : M (proc S) Z := r ← syscall_raw 108 0 0 0 0 0 0; mret (u32 r).
(** The call does not return. *)
Definition exit (status : Z) : M (proc S) unit := syscall_raw 231 status 0 0 0 0 0;; ub.
Definition abort : M (proc S) unit := syscall_raw 231 127 0 0 0 0 0;; ub.

Definition translate_stat (m : M (proc S) Z) : M (proc S) Z := checked (-1) (fun _ => 0) m.
Definition stat (pathname statbuf : Z) : M (proc S) Z := translate_stat (syscall_raw 4 pathname statbuf 0 0 0 0).
Definition fstat (fd statbuf : Z) : M (proc S) Z := translate_stat (syscall_raw 5 fd statbuf 0 0 0 0).
Definition lstat (pathname statbuf : Z) : M (proc S) Z := translate_stat (syscall_raw 6 pathname statbuf 0 0 0 0).

Definition MAP_FAILED : Z := 2^64 - 1.
Definition mmap (addr length prot flags fd offset : Z) : M (proc S) Z :=
  checked MAP_FAILED id (syscall_raw 9 addr length prot flags fd offset).
Definition munmap (addr length : Z) : M (proc S) Z := checked (-1) (fun _ => 0) (syscall_raw 11 addr length 0 0 0 0).
Definition mprotect (addr len prot : Z) : M (proc S) Z := checked (-1) (fun _ => 0) (syscall_raw 10 addr len prot 0 0 0).
Definition ftruncate (fd length : Z) : M (proc S) Z := checked (-1) (fun _ => 0) (syscall_raw 77 fd length 0 0 0 0).

Definition socket (domain type protocol : Z) : M (proc S) Z := checked (-1) s32 (syscall_raw 41 domain type protocol 0 0 0).
Definition connect (sockfd addr addrlen : Z) : M (proc S) Z := checked (-1) (fun _ => 0) (syscall_raw 42 sockfd addr addrlen 0 0 0).
Definition accept (sockfd addr addrlen : Z) : M (proc S) Z := checked (-1) s32 (syscall_raw 43 sockfd addr addrlen 0 0 0).
Definition bind (sockfd addr addrlen : Z) : M (proc S) Z := checked (-1) (fun _ => 0) (syscall_raw 49 sockfd addr addrlen 0 0 0).
Definition listen (sockfd backlog : Z) : M (proc S) Z := checked (-1) (fun _ => 0) (syscall_raw 50 sockfd backlog 0 0 0 0).
Definition sendmsg (sockfd msg flags : Z) : M (proc S) Z := checked (-1) id (syscall_raw 46 sockfd msg flags 0 0 0).
Definition recvmsg (sockfd msg flags : Z) : M (proc S) Z := checked (-1) id (syscall_raw 47 sockfd msg flags 0 0 0).
Definition socketpair (domain type protocol sv : Z) : M (proc S) Z :=
  checked (-1) (fun _ => 0) (syscall_raw 53 domain type protocol sv 0 0).
(** The argument of ioctl() and fcntl() is the third of the call. *)
Definition ioctl (fd request arg : Z) : M (proc S) Z := checked (-1) (fun _ => 0) (syscall_raw 16 fd request arg 0 0 0).
Definition fcntl (fd cmd arg : Z) : M (proc S) Z := checked (-1) s32 (syscall_raw 72 fd cmd arg 0 0 0).
(** No descriptor is looked at. *)
Definition poll (fds nfds timeout : Z) : M (proc S) Z :=
  (if 0 <? timeout then syscall_raw 103 timeout 0 0 0 0 0;; mret tt else mret tt);; mret 0.
Definition sleep (seconds : Z) : M (proc S) Z := syscall_raw 103 (u32 (seconds * 1000)) 0 0 0 0 0;; mret 0.
Definition usleep (usec : Z) : M (proc S) Z := syscall_raw 103 (usec / 1000) 0 0 0 0 0;; mret 0.
Definition zero_time (tv : Z) : M (proc S) unit := ustore 8 tv 0;; ustore 8 (tv + 8) 0.
Definition gettimeofday (tv : Z) : M (proc S) Z := (if tv =? 0 then mret tt else zero_time tv);; mret 0.
End libc.
