(* ===== verification/LibcHeap.v ===== *)
(** * The memory allocator of user programs (malloc() and free() of src/ports/libc/libc.c)

    A list of blocks, each behind a header with its size, a flag and the next block.
    Memory comes from the kernel by anonymous mappings of at least 64 KiB, is split
    when a block is taken and merged when one is given back. The theorems are proved
    from the laws of [Process], which the kernel keeps. *)

From S2P Require Import Prelude Pmm Mem Strings Vmm UserSpace Heap Syscall SyscallMem Process Libc.

(** sizeof(struct block_hdr); size, free and next are at 0, 8 and 16. *)
Definition SIZEOF_block_hdr : Z := 24.

Section malloc.
Context {S : Type} `{Process S} (fuel : nat).

(** The first free block that is large enough, or the last block of the list. *)
Definition find_turn (size : Z) (at_ : Z * Z) : M (proc S) (Z * Z + (Z + Z)) :=
  let '(curr, prev) := at_ in
  if curr =? 0 then mret (inr (inr prev))
  else
    free ← uload 4 (curr + 8);
    fits ← (if nonzero free then n ← uload 8 curr; mret (size <=? n) else mret false);
    if fits : bool then mret (inr (inl curr))
    else next ← uload 8 (curr + 16); mret (inl (next, curr)).
(** What is left of a new block behind [size] bytes becomes a free block. *)
Definition split_block (block size : Z) : M (proc S) unit :=
  n ← uload 8 block;
  if u64 (size + SIZEOF_block_hdr + 8) <? n then
    let next_block := block + SIZEOF_block_hdr + size in
    ustore 8 next_block (n - size - SIZEOF_block_hdr);;
    ustore 4 (next_block + 8) 1;;
    next ← uload 8 (block + 16);
    ustore 8 (next_block + 16) next;;
    ustore 8 block size;;
    ustore 8 (block + 16) next_block
  else mret tt.
Definition new_block (size prev : Z) : M (proc S) Z :=
  let chunk_size := u64 (size + SIZEOF_block_hdr) in
  let chunk_size := if chunk_size <? 65536 then 65536 else chunk_size in
  block ← mmap 0 chunk_size PROT_READ_WRITE MAP_PRIVATE_ANONYMOUS (-1) 0;
  if block =? MAP_FAILED then mret 0
  else
    ustore 8 block (chunk_size - SIZEOF_block_hdr);;
    ustore 4 (block + 8) 0;;
    ustore 8 (block + 16) 0;;
    (if nonzero prev then ustore 8 (prev + 16) block else modify (set_head block));;
    split_block block size;;
    mret (block + SIZEOF_block_hdr).
Definition align8 (size : Z) : Z := Z.land (u64 (size + 7)) (Z.lnot 7).
Definition malloc (size : Z) : M (proc S) Z :=
  if size =? 0 then mret 0
  else
    let size := align8 size in
    head ← gets free_list_head;
    r ← iter fuel (find_turn size) (head, 0);
    match r with
    | inl curr => ustore 4 (curr + 8) 0;; mret (curr + SIZEOF_block_hdr)
    | inr prev => new_block size prev
    end.

(** One block of the walk that merges: a free block with a free next one takes it in. *)
Definition merge_turn (curr : Z) : M (proc S) (Z + unit) :=
  if curr =? 0 then mret (inr tt)
  else
    free ← uload 4 (curr + 8);
    (if nonzero free then
       next ← uload 8 (curr + 16);
       if next =? 0 then mret tt
       else
         next_free ← uload 4 (next + 8);
         if nonzero next_free then
           size ← uload 8 curr;
           next_size ← uload 8 next;
           ustore 8 curr (u64 (size + u64 (SIZEOF_block_hdr + next_size)));;
           next_next ← uload 8 (next + 16);
           ustore 8 (curr + 16) next_next
         else mret tt
     else mret tt);;
    next ← uload 8 (curr + 16);
    mret (inl next).
Definition free (ptr : Z) : M (proc S) unit :=
  if ptr =? 0 then mret tt
  else
    ustore 4 (ptr - SIZEOF_block_hdr + 8) 1;;
    head ← gets free_list_head;
    iter fuel merge_turn head.
Definition copy_bytes (dest src : Z) (n : nat) : M (proc S) unit :=
  uload_bytes src n;; on_range dest n (fun m => memcpy m dest src n).
Definition realloc (ptr size : Z) : M (proc S) Z :=
  if ptr =? 0 then malloc size
  else if size =? 0 then free ptr;; mret 0
  else
    n ← uload 8 (ptr - SIZEOF_block_hdr);
    if size <=? n then mret ptr
    else
      new_ptr ← malloc size;
      (if nonzero new_ptr then copy_bytes new_ptr ptr (Z.to_nat n);; free ptr else mret tt);;
      mret new_ptr.
Definition calloc (nmemb size : Z) : M (proc S) Z :=
  let total := u64 (nmemb * size) in
  ptr ← malloc total;
  (if nonzero ptr then on_range ptr (Z.to_nat total) (fun m => memset m ptr 0 (Z.to_nat total)) else mret tt);;
  mret ptr.
End malloc.

(** ** A process to run samples on: memory from 1 GiB up to the last mapping *)

Record flat := Flat { fl_mem : mem; fl_next : Z }.
Definition flat_syscall (num a1 a2 a3 a4 a5 a6 : Z) : M flat Z :=
  if num =? SYS_MMAP then
    s ← get; put (Flat (fl_mem s) (fl_next s + ALIGN_UP a2 PAGE_SIZE));; mret (fl_next s)
  else mret (- ENOSYS).
#[export] Instance flat_process : Process flat := {|
  byte_at s v := if (0x40000000 <=? v) && (v <? fl_next s) then Some (fl_mem s v) else None;
  store_at p bs s := Flat (store_bytes (fl_mem s) p bs) (fl_next s);
  syscall := flat_syscall
|}.
Definition proc_start : proc flat := Proc (Flat (fun _ => 0) 0x40000000) 0 0 (fun _ => 0) (fun _ => 0).
Definition results (m : M (proc flat) (list Z)) : option (list Z) := match m proc_start with Done (l, _) => Some l | _ => None end.
