(* ===== verification/LibcHeapSpec.v ===== *)
(** * What malloc() and free() of the C library promise

    The list of blocks is a chain of headers in order of their addresses, inside of
    one region of the program's memory that belongs to the allocator. The proofs use
    the laws of [Process] only. *)

From S2P Require Import Prelude Pmm Mem Strings Vmm UserSpace Heap Sched System Syscall SyscallMem Process Libc LibcHeap.

Record block := Block { b_at : Z; b_size : Z; b_free : bool }.
Definition b_end (b : block) : Z := b_at b + SIZEOF_block_hdr + b_size b.
Definition b_ptr (b : block) : Z := b_at b + SIZEOF_block_hdr.

(** ** Chains of headers in a memory *)

(** From the pointer [p] the blocks [bs], above [l] and below [l'], to the pointer [q]. *)
Fixpoint seg (m : mem) (l p : Z) (bs : list block) (l' q : Z) : Prop :=
  match bs with
  | [] => l <= l' /\ p = q
  | b :: bs' =>
      p = b_at b /\ l <= p /\ 0 < p /\ 0 <= b_size b /\
      load_le 8 m p = b_size b /\ load_le 4 m (p + 8) = b2z (b_free b) /\
      seg m (b_end b) (load_le 8 m (p + 16)) bs' l' q
  end.
Definition in_live (bs : list block) (v : Z) : Prop :=
  exists b, b ∈ bs /\ b_free b = false /\ b_ptr b <= v < b_end b.
Definition live (bs : list block) : list (Z * Z) := (fun b => (b_ptr b, b_size b)) <$> filter (fun b => b_free b = false) bs.

Lemma seg_le m bs : forall l p l' q, seg m l p bs l' q -> l <= l'.
Proof.
  induction bs as [|b bs IH]; intros l p l' q; cbn [seg]; [by intros []|]. intros (-> & ? & ? & ? & _ & _ & Hs%IH).
  unfold b_end, SIZEOF_block_hdr in *. lia.
Qed.
Lemma seg_app m bs1 bs2 : forall l p l' q,
  seg m l p (bs1 ++ bs2) l' q <-> exists l1 p1, seg m l p bs1 l1 p1 /\ seg m l1 p1 bs2 l' q.
Proof.
  induction bs1 as [|b bs1 IH]; intros l p l' q; cbn [seg app].
  - split; [intros Hs; by exists l, p|]. intros (l1 & p1 & [Hl ->] & Hs). destruct bs2 as [|c bs2]; cbn [seg] in *; [destruct Hs; split; lia|].
    destruct Hs as (? & ? & ?). split_and!; try tauto; lia.
  - split.
    + intros (? & ? & ? & ? & ? & ? & (l1 & p1 & ? & ?)%IH). exists l1, p1. by split_and!.
    + intros (l1 & p1 & (? & ? & ? & ? & ? & ? & ?) & ?). split_and!; try done. apply IH. by exists l1, p1.
Qed.
(** The blocks of a chain lie between its bounds. *)
Lemma chain_bounds m bs : forall l p l' q b, seg m l p bs l' q -> b ∈ bs -> l <= b_at b /\ 0 < b_at b /\ 0 <= b_size b /\ b_end b <= l'.
Proof.
  induction bs as [|c bs IH]; intros l p l' q b Hs Hb; [by apply elem_of_nil in Hb|]. cbn [seg] in Hs.
  destruct Hs as (-> & ? & ? & ? & _ & _ & Hs). pose proof (seg_le _ _ _ _ _ _ Hs). apply elem_of_cons in Hb as [->|Hb]; [done|].
  specialize (IH _ _ _ _ _ Hs Hb). unfold b_end, SIZEOF_block_hdr in *. lia.
Qed.
(** Two blocks of a chain are the same or apart. *)
Lemma seg_apart m bs : forall l p l' q b c, seg m l p bs l' q -> b ∈ bs -> c ∈ bs -> b = c \/ b_end b <= b_at c \/ b_end c <= b_at b.
Proof.
  induction bs as [|d bs IH]; intros l p l' q b c Hs Hb Hc; [by apply elem_of_nil in Hb|]. cbn [seg] in Hs. destruct Hs as (_ & _ & _ & _ & _ & _ & Hs).
  apply elem_of_cons in Hb as [->|Hb], Hc as [->|Hc]; [by left| | |by eapply IH].
  - right; left. by apply (chain_bounds _ _ _ _ _ _ _ Hs Hc).
  - right; right. by apply (chain_bounds _ _ _ _ _ _ _ Hs Hb).
Qed.
Lemma header_not_live m l p bs l' q b v : seg m l p bs l' q -> b ∈ bs -> b_at b <= v < b_ptr b -> ~ in_live bs v.
Proof.
  intros Hs Hb Hv (c & Hc & _ & Hin). destruct (seg_apart _ _ _ _ _ _ _ _ Hs Hb Hc) as [->|[?|?]]; [lia|..];
    pose proof (chain_bounds _ _ _ _ _ _ _ Hs Hb); pose proof (chain_bounds _ _ _ _ _ _ _ Hs Hc); unfold b_end, b_ptr, SIZEOF_block_hdr in *; lia.
Qed.
(** Only the headers count. *)
Lemma seg_same m m' bs : forall l p l' q, seg m l p bs l' q ->
  (forall b v, b ∈ bs -> b_at b <= v < b_ptr b -> m v = m' v) -> seg m' l p bs l' q.
Proof.
  induction bs as [|b bs IH]; intros l p l' q; cbn [seg]; [done|]. intros (-> & ? & ? & ? & Hn & Hf & Hs) Hsame.
  assert (forall v, b_at b <= v < b_ptr b -> m v = m' v) as Hb by (intros; eapply Hsame; [by left|done]). unfold b_ptr, SIZEOF_block_hdr in Hb.
  rewrite <- (load_le_ext 8 m m' (b_at b)), <- (load_le_ext 4 m m' (b_at b + 8)), <- (load_le_ext 8 m m' (b_at b + 16)) by (intros v ?; apply Hb; lia).
  split_and!; try done. apply IH; [done|]. intros c v Hc. apply Hsame. by right.
Qed.
Lemma seg_on m m' l p bs l' q : seg m l p bs l' q -> same_on l l' m m' -> seg m' l p bs l' q.
Proof.
  intros Hs Hm. apply (seg_same m); [done|]. intros b v Hb Hv. apply Hm. pose proof (chain_bounds _ _ _ _ _ _ _ Hs Hb).
  unfold b_end, b_ptr, SIZEOF_block_hdr in *. lia.
Qed.
(** A word outside of the chain. *)
Lemma seg_store k x v m l p bs l' q : seg m l p bs l' q -> x + Z.of_nat k <= l \/ l' <= x -> seg (store_le k m x v) l p bs l' q.
Proof. intros Hs Hx. apply (seg_on m); [done|]. intros a Ha. by rewrite store_le_other by lia. Qed.
Lemma seg_lower m l1 l p bs l' q : seg m l p bs l' q -> l1 <= l -> seg m l1 p bs l' q.
Proof. destruct bs; cbn [seg]; intros Hs ?; [destruct Hs; split; lia|]. destruct Hs as (? & ? & ?). split_and!; try tauto; lia. Qed.
Lemma seg_upper m bs : forall l p l' l2 q, seg m l p bs l' q -> l' <= l2 -> seg m l p bs l2 q.
Proof. induction bs as [|b bs IH]; intros l p l' l2 q; cbn [seg]; [intros [] ?; split; [lia|done]|]. intros (? & ? & ? & ? & ? & ? & ?) ?. split_and!; try done. by eapply IH. Qed.
(** The last block points elsewhere. *)
Lemma seg_link m l p bs b l' q r : seg m l p (bs ++ [b]) l' q -> 0 <= r < 2^64 ->
  seg (store_le 8 m (b_at b + 16) r) l p (bs ++ [b]) l' r.
Proof.
  intros (l1 & p1 & H1 & H2)%seg_app Hr. apply seg_app. exists l1, p1. cbn [seg] in H2. destruct H2 as (-> & ? & ? & ? & Hn & Hf & Hl & _).
  split; [apply seg_store; [done|lia]|]. cbn [seg]. rewrite !load_store_other by lia. rewrite (load_store_same 8), Z.mod_small by done. done.
Qed.

(** ** The program's memory *)

Lemma store_bytes_le n m p v x : store_bytes m p (le_bytes n v) x = store_le n m p v x.
Proof.
  revert m p v. induction n as [|n IH]; intros m p v; [done|]. cbn [le_bytes store_bytes store_le]. rewrite IH.
  rewrite !store_le_at, !store8_at. by rewrite (u8_small (u8 v)) by apply u8_range.
Qed.
Lemma le_bytes_length n v : length (le_bytes n v) = n.
Proof. revert v. induction n as [|n IH]; intros v; cbn; [done|]. by rewrite IH. Qed.
Lemma le_bytes_ok n v : Forall (fun b => 0 <= b < 256) (le_bytes n v).
Proof. revert v. induction n as [|n IH]; intros v; cbn [le_bytes]; constructor; [apply (u8_range v)|apply IH]. Qed.

Lemma last_in {A} (bs : list A) b : b ∈ bs ++ [b].
Proof. apply elem_of_app. right. by left. Qed.
Lemma last_indep (l : list Z) x y z : List.last (x :: l) y = List.last (x :: l) z.
Proof. revert x. induction l as [|w l IH]; intros x; [done|]. apply (IH w). Qed.

(** ** Merging *)

(** The walk of free(): each free block takes in the next one if that is free. *)
Fixpoint coalesce (bs : list block) : list block :=
  match bs with
  | b :: ((c :: rest) as tl) =>
      if b_free b && b_free c then Block (b_at b) (b_size b + 24 + b_size c) true :: coalesce rest else b :: coalesce tl
  | _ => bs
  end.
Lemma coalesce_eq b c rest : coalesce (b :: c :: rest) =
  if b_free b && b_free c then Block (b_at b) (b_size b + 24 + b_size c) true :: coalesce rest else b :: coalesce (c :: rest).
Proof. done. Qed.
Lemma coalesce_ind (P : list block -> Prop) : P [] -> (forall b, P [b]) ->
  (forall b c rest, P rest -> P (c :: rest) -> P (b :: c :: rest)) -> forall bs, P bs.
Proof.
  intros H0 H1 H2 bs. assert (P bs /\ forall b, P (b :: bs)) as [? _]; [|done].
  induction bs as [|c bs [IH1 IH2]]; [done|]. split; [apply IH2|]. intros b. by apply H2.
Qed.
Lemma live_cons b bs : live (b :: bs) = (if b_free b then [] else [(b_ptr b, b_size b)]) ++ live bs.
Proof. unfold live. rewrite filter_cons. by destruct (b_free b). Qed.
Lemma coalesce_live bs : live (coalesce bs) = live bs.
Proof.
  induction bs as [|b|b c rest IH1 IH2] using coalesce_ind; [done..|]. rewrite coalesce_eq, !live_cons.
  destruct (b_free b) eqn:Hb, (b_free c) eqn:Hc; cbn [andb]; rewrite live_cons, ?Hb, ?IH1, ?IH2, ?live_cons, ?Hc; done.
Qed.
Lemma in_live_iff bs v : in_live bs v <-> exists q n, (q, n) ∈ live bs /\ q <= v < q + n.
Proof.
  unfold in_live, live. split.
  - intros (b & Hb & Hf & Hv). exists (b_ptr b), (b_size b). split; [|unfold b_end, b_ptr in *; lia]. apply list_elem_of_fmap. exists b. split; [done|].
    by apply list_elem_of_filter.
  - intros (q & n & (b & [= -> ->] & [Hf Hb]%list_elem_of_filter)%list_elem_of_fmap & Hv). exists b. split_and!; try done; unfold b_end, b_ptr in *; lia.
Qed.

Section spec.
Context {S : Type} `{ProcessLaws S}.

(** The memory from [lo] to [hi] is backed. *)
Record region (lo hi : Z) (s : proc S) : Prop := {
  rg_pages : exists W, pages (p_os s) W /\ forall v, lo <= v < hi -> v / 4096 ∈ W;
  rg_lo : 0 < lo;
  rg_hi : hi <= 2^47
}.
(** [s'] differs from [s] in this memory, which is now [m]. *)
Record wrote (lo hi : Z) (s : proc S) (m : mem) (s' : proc S) : Prop := {
  wr_region : region lo hi s';
  wr_mem : same_on lo hi m (umem s');
  wr_next : next_region (p_os s') = next_region (p_os s);
  wr_head : free_list_head s' = free_list_head s
}.

Lemma region_byte lo hi s v : region lo hi s -> lo <= v < hi -> exists b, byte_at (p_os s) v = Some b /\ 0 <= b < 256.
Proof.
  intros [(W & HW & Hin) Hlo Hhi] Hv. apply (page_byte (p_os s) W); [done|unfold user_va; lia|by apply Hin].
Qed.
Lemma region_access lo hi s p n : region lo hi s -> lo <= p -> p + Z.of_nat n <= hi -> accessible s p n = true.
Proof.
  intros Hr Hp Hn. unfold accessible. apply Is_true_true, forallb_True, list.Forall_forall. intros v Hv%elem_of_seqZ.
  destruct (region_byte lo hi s v Hr ltac:(lia)) as (b & -> & _). done.
Qed.
Lemma uload_ok lo hi n p s : region lo hi s -> lo <= p -> p + Z.of_nat n <= hi -> uload n p s = Done (load_le n (umem s) p, s).
Proof. intros Hr Hp Hn. unfold uload, get, mbind, M_bind. by rewrite (region_access lo hi s p n Hr Hp Hn). Qed.
Lemma ustore_bytes_wp E lo hi p bs s (Q : unit -> proc S -> Prop) : region lo hi s -> lo <= p -> p + Z.of_nat (length bs) <= hi ->
  Forall (fun b => 0 <= b < 256) bs -> (forall s', wrote lo hi s (store_bytes (umem s) p bs) s' -> Q tt s') -> wp E (ustore_bytes p bs) s Q.
Proof.
  intros Hr Hp Hn Hb HQ. unfold ustore_bytes. do 2 wp_step. rewrite (region_access lo hi s p _ Hr Hp Hn). apply wp_modify, HQ.
  destruct Hr as [(W & HW & Hin) Hlo Hhi]. destruct (store_pages (p_os s) W p bs HW) as (Hpg & Hnx & Hv); [lia|lia| |done|].
  { intros k Hk. apply Hin. lia. }
  split; [split; [by exists W|done|done]| |done|done]. intros v Hvr. rewrite store_bytes_at. unfold umem. cbn [p_os over proc_os_lens].
  rewrite Hv by (unfold user_va; lia || by apply Hin). unfold image_write. destruct (bs !! Z.to_nat (v - p)) as [b|] eqn:Hbv; [|done].
  destruct (p <=? v); [|done]. cbn. apply u8_small. exact (Forall_lookup_1 _ _ _ _ Hb Hbv).
Qed.
Lemma ustore_wp E lo hi n p v s (Q : unit -> proc S -> Prop) : region lo hi s -> lo <= p -> p + Z.of_nat n <= hi ->
  (forall s', wrote lo hi s (store_le n (umem s) p v) s' -> Q tt s') -> wp E (ustore n p v) s Q.
Proof.
  intros Hr Hp Hn HQ. eapply ustore_bytes_wp; [exact Hr|done|by rewrite le_bytes_length|apply le_bytes_ok|]. intros s' [? Hm ? ?]. apply HQ.
  split; try done. intros a Ha. by rewrite <- Hm, store_bytes_le.
Qed.
Lemma uload_wp E lo hi n p s (Q : Z -> proc S -> Prop) : region lo hi s -> lo <= p -> p + Z.of_nat n <= hi ->
  Q (load_le n (umem s) p) s -> wp E (uload n p) s Q.
Proof. intros Hr Hp Hn HQ. by apply (wp_Done _ _ _ _ _ _ (uload_ok lo hi n p s Hr Hp Hn)). Qed.

(** *** Sequences of writes *)

Ltac loads := repeat match goal with
  | |- context [load_le ?n (store_le ?k ?m ?x ?v) ?p] =>
      first [rewrite (load_store_other n k m p x v) by lia
            | replace p with x by lia; rewrite (load_store_same n m x v), Z.mod_small by lia]
  end.

Lemma wrote_refl lo hi s : region lo hi s -> wrote lo hi s (umem s) s.
Proof. by split. Qed.
Lemma ustore_more E lo hi s0 m n p v s (Q : unit -> proc S -> Prop) : wrote lo hi s0 m s -> lo <= p -> p + Z.of_nat n <= hi ->
  (forall s', wrote lo hi s0 (store_le n m p v) s' -> Q tt s') -> wp E (ustore n p v) s Q.
Proof.
  intros [Hr Hm Hx Hh] Hp Hn HQ. eapply ustore_wp; [exact Hr|done|done|]. intros s' [Hr' Hm' Hx' Hh']. apply HQ. split; [done| |congruence|congruence].
  intros a Ha. rewrite <- Hm' by done. rewrite !store_le_at. destruct (_ && _); [done|by apply Hm].
Qed.
Lemma uload_more E lo hi s0 m n p s (Q : Z -> proc S -> Prop) : wrote lo hi s0 m s -> lo <= p -> p + Z.of_nat n <= hi ->
  Q (load_le n m p) s -> wp E (uload n p) s Q.
Proof.
  intros [Hr Hm _ _] Hp Hn HQ. eapply uload_wp; [exact Hr|done|done|]. rewrite <- (load_le_ext n m (umem s)); [done|].
  intros a Ha. apply Hm. lia.
Qed.

(** ** Taking a block *)

Lemma find_turn_block lo hi size prev b bs l l' s : region lo hi s -> lo <= l -> l' <= hi -> seg (umem s) l (b_at b) (b :: bs) l' 0 ->
  find_turn size (b_at b, prev) s =
  Done (if b_free b && (size <=? b_size b) then inr (inl (b_at b)) else inl (load_le 8 (umem s) (b_at b + 16), b_at b), s).
Proof.
  intros Hr Hl Hl' Hs. pose proof (chain_bounds _ _ _ _ _ _ b Hs ltac:(by left)) as Hb. unfold b_end, SIZEOF_block_hdr in Hb.
  cbn [seg] in Hs. destruct Hs as (_ & _ & _ & _ & Hn & Hf & _). unfold find_turn. replace (b_at b =? 0) with false by blia.
  rewrite (bind_Done _ _ _ _ _ (uload_ok lo hi 4 (b_at b + 8) s Hr ltac:(lia) ltac:(lia))), Hf.
  destruct (b_free b); cbn [b2z nonzero Z.eqb negb andb].
  - rewrite <- bind_assoc, (bind_Done _ _ _ _ _ (uload_ok lo hi 8 (b_at b) s Hr ltac:(lia) ltac:(lia))), Hn.
    destruct (size <=? b_size b); [done|]. unfold mbind at 1, M_bind at 1, mret at 1, M_ret at 1.
    by rewrite (bind_Done _ _ _ _ _ (uload_ok lo hi 8 (b_at b + 16) s Hr ltac:(lia) ltac:(lia))).
  - unfold mbind at 1, M_bind at 1, mret at 1, M_ret at 1.
    by rewrite (bind_Done _ _ _ _ _ (uload_ok lo hi 8 (b_at b + 16) s Hr ltac:(lia) ltac:(lia))).
Qed.
Lemma find_ok lo hi size l' s : region lo hi s -> l' <= hi -> forall bs n l r prev, lo <= l -> seg (umem s) l r bs l' 0 -> (length bs < n)%nat ->
  exists res, iter n (find_turn size) (r, prev) s = Done (res, s) /\
    match res with
    | inl c => exists b1 b b2, bs = b1 ++ b :: b2 /\ b_at b = c /\ b_free b = true /\ size <= b_size b
    | inr p => p = List.last (b_at <$> bs) prev
    end.
Proof.
  intros Hr Hl'. induction bs as [|b bs IH]; intros [|n] l r prev Hl Hs Hn; cbn [length] in *; try lia; cbn [iter].
  { destruct Hs as [_ ->]. exists (inr prev). done. }
  assert (r = b_at b) as -> by (by destruct Hs as [-> _]).
  rewrite (bind_Done _ _ _ _ _ (find_turn_block lo hi size prev b bs l l' s Hr Hl Hl' Hs)).
  destruct (b_free b && (size <=? b_size b)) eqn:Hfit.
  { exists (inl (b_at b)). split; [done|]. exists [], b, bs. to_prop. done. }
  pose proof (chain_bounds _ _ _ _ _ _ b Hs ltac:(by left)) as Hb. cbn [seg] in Hs. destruct Hs as (_ & _ & _ & _ & _ & _ & Hs).
  destruct (IH n (b_end b) _ (b_at b) ltac:(unfold b_end, SIZEOF_block_hdr in *; lia) Hs ltac:(lia)) as (res & Hrun & Hres). exists res. split; [exact Hrun|].
  destruct res as [c|p].
  - destruct Hres as (b1 & b' & b2 & -> & ?). by exists (b :: b1), b', b2.
  - rewrite Hres. clear. cbn. by destruct (b_at <$> bs) eqn:He; [|apply last_indep].
Qed.

(** The flag of a block changes. *)
Lemma seg_flag f m l p b1 b b2 l' q : seg m l p (b1 ++ b :: b2) l' q ->
  seg (store_le 4 m (b_at b + 8) (b2z f)) l p (b1 ++ Block (b_at b) (b_size b) f :: b2) l' q.
Proof.
  intros (l1 & p1 & H1 & H2)%seg_app. apply seg_app. exists l1, p1. cbn [seg] in H2. destruct H2 as (-> & ? & ? & ? & Hn & Hf & Hs).
  pose proof (seg_le _ _ _ _ _ _ Hs). unfold b_end, SIZEOF_block_hdr in *.
  split; [apply seg_store; [done|lia]|]. cbn [seg b_at b_size b_free]. rewrite (load_store_other 8 4 m (b_at b)), (load_store_other 8 4 m (b_at b + 16)) by lia. rewrite (load_store_same 4), Z.mod_small by by destruct f.
  split_and!; try done. apply seg_store; [exact Hs|]. unfold b_end, SIZEOF_block_hdr in *. cbn [b_at b_size]. lia.
Qed.

(** The blocks [bs] of the allocator in the memory from [lo] to [hi]. *)
Record heap_ok (lo hi : Z) (bs : list block) (s : proc S) : Prop := {
  ho_region : region lo hi s;
  ho_seg : seg (umem s) lo (free_list_head s) bs hi 0
}.
Definition kept (bs : list block) (s s' : proc S) : Prop := forall v, in_live bs v -> umem s' v = umem s v.

Lemma in_live_range m l p bs l' q v : seg m l p bs l' q -> in_live bs v -> l <= v < l'.
Proof. intros Hs (b & Hb & _ & Hv). pose proof (chain_bounds _ _ _ _ _ _ _ Hs Hb). unfold b_end, b_ptr, SIZEOF_block_hdr in *. lia. Qed.

Lemma split_ok lo hi s0 m s bs a n size : wrote lo hi s0 m s -> seg m lo (free_list_head s) (bs ++ [Block a n false]) hi 0 -> 0 <= size <= n ->
  returns (split_block a size) s (fun _ s' => exists m' (rest : bool), wrote lo hi s0 m' s' /\ free_list_head s' = free_list_head s /\
    seg m' lo (free_list_head s) (bs ++ Block a (if rest then size else n) false :: (if rest then [Block (a + 24 + size) (n - size - 24) true] else [])) hi 0 /\
    forall v, v < a -> m' v = m v).
Proof.
  intros Hw Hs Hsz. pose proof (rg_hi _ _ _ (wr_region _ _ _ _ _ Hw)) as Hhi. pose proof (rg_lo _ _ _ (wr_region _ _ _ _ _ Hw)) as Hlo.
  pose proof Hs as Hs'. apply seg_app in Hs' as (l1 & p1 & H1 & H2). cbn [seg b_at b_size b_free] in H2.
  destruct H2 as (-> & Hl1 & Ha & Hn & Hsize & Hf & Hend & Hnext). unfold b_end, SIZEOF_block_hdr in *. cbn [b_at b_size b_free] in *.
  pose proof (seg_le _ _ _ _ _ _ H1). unfold split_block, SIZEOF_block_hdr. wp_step. eapply uload_more; [exact Hw|lia|lia|]. rewrite Hsize, u64_small by lia.
  destruct (Z.ltb_spec (size + 24 + 8) n); [|apply wp_ret; exists m, false; by split_and!]. cbv zeta. set (nb := a + 24 + size).
  wp_step. eapply ustore_more; [exact Hw|unfold nb; lia|unfold nb; lia|]. intros s1 Hw1. wp_step. eapply ustore_more; [exact Hw1|unfold nb; lia|unfold nb; lia|].
  intros s2 Hw2. wp_step. eapply uload_more; [exact Hw2|lia|lia|]. rewrite !load_store_other by (unfold nb; lia). rewrite Hnext.
  wp_step. eapply ustore_more; [exact Hw2|unfold nb; lia|unfold nb; lia|]. intros s3 Hw3. wp_step. eapply ustore_more; [exact Hw3|lia|lia|]. intros s4 Hw4.
  eapply ustore_more; [exact Hw4|lia|lia|]. intros s5 Hw5. eexists _, true. split; [exact Hw5|].
  split; [by rewrite (wr_head _ _ _ _ _ Hw5), (wr_head _ _ _ _ _ Hw)|]. split.
  - apply seg_app. exists l1, a. split; [repeat (apply seg_store; [|unfold nb; lia]); done|]. cbn [seg b_at b_size b_free]. unfold b_end, SIZEOF_block_hdr. cbn [b_at b_size].
    fold nb. subst nb. loads. split_and!; try lia; try done.
  - intros v Hv. subst nb. by rewrite !store_le_other by lia.
Qed.

(** A mapping extends the region, or fails and leaves it. *)
Lemma mmap_grows lo hi len s : region lo hi s -> lo <= hi -> hi = next_region (p_os s) -> hi mod 4096 = 0 -> 0 < len <= MMAP_MAX ->
  hi + ALIGN_UP len PAGE_SIZE <= 2^47 ->
  safe (mmap 0 len PROT_READ_WRITE MAP_PRIVATE_ANONYMOUS (-1) 0) s (fun r s' =>
    free_list_head s' = free_list_head s /\ same_on lo hi (umem s) (umem s') /\ next_region (p_os s') = hi + ALIGN_UP len PAGE_SIZE /\
    ((r = hi /\ region lo (hi + ALIGN_UP len PAGE_SIZE) s') \/ (r = MAP_FAILED /\ region lo hi s' /\ errno s' = ENOMEM))).
Proof.
  intros Hr Hlh Hnx Hal Hlen Hfit. pose proof Hr as [(W & HW & Hin) Hlo Hhi]. unfold mmap, checked, syscall_raw. wp_step. apply wp_zoom.
  eapply wp_mono; [apply (map_pages (p_os s) W len HW Hlen); rewrite <- Hnx; [done|lia|done]|]. cbv zeta. rewrite <- Hnx.
  destruct (ALIGN_UP_user len) as (Ha & Hup & _); [unfold MMAP_MAX in Hlen; lia|]. intros r o (k & Hp & Hn & _ & Hk & Hres).
  assert (same_on lo hi (umem s) (umem (over o s))) as Hsame.
  { intros v Hv. unfold umem. cbn [p_os over proc_os_lens]. rewrite Hk; [done|unfold user_va; lia|by apply Hin|lia]. }
  destruct Hres as [[-> Hkl]| ->].
  - replace (hi <? 0) with false by blia. apply wp_ret. split_and!; try done. left. split; [done|]. split; cbn [p_os over proc_os_lens]; [|done|done].
    eexists. split; [exact Hp|]. intros v Hv. apply elem_of_union. destruct (decide (v < hi)); [right; apply Hin; lia|left]. apply elem_page_set. zlia.
  - change (- ENOMEM <? 0) with true. cbn iota. do 2 wp_step. apply wp_ret. split_and!; try done. right. split; [done|]. split; [|done].
    split; cbn [p_os over proc_os_lens set_errno]; [|done|done]. eexists. split; [exact Hp|]. intros v Hv. apply elem_of_union. right. by apply Hin.
Qed.
Lemma wrote_over lo hi s s1 m s' : wrote lo hi s1 m s' -> next_region (p_os s1) = next_region (p_os s) -> free_list_head s1 = free_list_head s -> wrote lo hi s m s'.
Proof. intros [? ? ? ?] ? ?. split; congruence || done. Qed.

(** What a request of [size] bytes asks of the kernel. *)
Definition chunk (size : Z) : Z := if size + 24 <? 65536 then 65536 else size + 24.
Lemma align8_spec size : 0 <= size < 2^63 -> size <= align8 size < size + 8.
Proof.
  intros. unfold align8. rewrite u64_small by lia. change (Z.lnot 7) with (Z.lnot (2^3 - 1)). rewrite land_lnot_ones by lia. zlia.
Qed.

(** The new block is the last one of the list. *)
Lemma link_ok lo hi top s m n bs prev : region lo top s -> same_on lo top m (umem s) -> prev = List.last (b_at <$> bs) 0 ->
  seg m lo (free_list_head s) bs hi 0 -> hi + 24 + n <= top -> 0 <= n ->
  load_le 8 m hi = n -> load_le 4 m (hi + 8) = 0 -> load_le 8 m (hi + 16) = 0 ->
  returns (if nonzero prev then ustore 8 (prev + 16) hi else modify (set_head hi)) s (fun _ s' =>
    region lo top s' /\ next_region (p_os s') = next_region (p_os s) /\
    seg (umem s') lo (free_list_head s') (bs ++ [Block hi n false]) top 0 /\ forall v, lo <= v < top -> in_live bs v -> umem s' v = umem s v).
Proof.
  intros Hr Hm -> Hs Ht Hn H1 H2 H3. pose proof (seg_le _ _ _ _ _ _ Hs) as Hlh. pose proof (rg_lo _ _ _ Hr) as Hlo. pose proof (rg_hi _ _ _ Hr) as Hhi.
  destruct bs as [|b bs _] using rev_ind.
  - change (nonzero (List.last (b_at <$> []) 0)) with false. cbn iota. apply wp_modify. split; [by destruct Hr|]. split; [done|]. split; [|done]. cbn [free_list_head set_head].
    apply (seg_on m); [|done]. cbn [seg b_at b_size b_free]. unfold b_end, SIZEOF_block_hdr. cbn [b_at b_size]. split_and!; try done; try lia.
  - rewrite fmap_app, (last_last (b_at <$> bs) (b_at b) 0). pose proof (chain_bounds _ _ _ _ _ _ b Hs (last_in bs b)) as Hb.
    unfold b_end, SIZEOF_block_hdr in Hb. unfold nonzero. replace (b_at b =? 0) with false by blia.
    eapply ustore_wp; [exact Hr|lia|lia|]. intros s' [Hr' Hm' Hx Hh]. split; [done|]. split; [done|]. rewrite Hh.
    assert (same_on lo top (store_le 8 m (b_at b + 16) hi) (umem s')) as Hmm.
    { intros a Ha. rewrite <- Hm' by done. rewrite !store_le_at. destruct (_ && _); [done|by apply Hm]. }
    split.
    + apply (seg_on (store_le 8 m (b_at b + 16) hi)); [|done]. apply seg_app. exists hi, hi. split; [apply (seg_link _ _ _ _ _ _ 0); [done|lia]|].
      cbn [seg b_at b_size b_free]. unfold b_end, SIZEOF_block_hdr. cbn [b_at b_size]. loads. split_and!; try done; lia.
    + intros v Hv Hl. rewrite <- Hm' by done. destruct (decide (b_at b + 16 <= v < b_at b + 24)) as [Hin|Hin]; [|by rewrite store_le_other by lia].
      destruct (header_not_live _ _ _ _ _ _ b v Hs (last_in bs b)); [unfold b_ptr, SIZEOF_block_hdr; lia|done].
Qed.

Record room_for (lo hi size : Z) (s : proc S) : Prop := {
  rf_next : hi = next_region (p_os s);
  rf_page : hi mod 4096 = 0;
  rf_size : chunk size <= MMAP_MAX;
  rf_fits : hi + ALIGN_UP (chunk size) PAGE_SIZE <= 2^47
}.
(** The outcome of a request: a block of its own, or nothing. *)
Definition allocated_block (lo hi size : Z) (bs : list block) (s : proc S) (p : Z) (s' : proc S) : Prop :=
  (p = 0 /\ errno s' = ENOMEM /\ heap_ok lo hi bs s' /\ kept bs s s') \/
  (exists hi' b1 b b2, heap_ok lo hi' (b1 ++ b :: b2) s' /\ kept bs s s' /\ p = b_ptr b /\ b_free b = false /\ size <= b_size b /\
     live bs = live (b1 ++ b2) /\ (hi' = hi \/ hi' = next_region (p_os s') /\ hi' mod 4096 = 0) /\
     (length (b1 ++ b :: b2) <= length bs + 2)%nat).

Lemma live_app b1 b2 : live (b1 ++ b2) = live b1 ++ live b2.
Proof. unfold live. by rewrite list.filter_app, fmap_app. Qed.
Lemma new_block_ok lo hi bs size s : heap_ok lo hi bs s -> room_for lo hi size s -> 0 < size ->
  safe (new_block size (List.last (b_at <$> bs) 0)) s (allocated_block lo hi size bs s).
Proof.
  intros [Hr Hs] [Hnx Hpg Hsz Hfit] Hpos. pose proof (seg_le _ _ _ _ _ _ Hs) as Hlh. pose proof (rg_lo _ _ _ Hr) as Hlo.
  assert (65536 <= chunk size /\ size + 24 <= chunk size) as Hck by (unfold chunk; case_test; lia). unfold MMAP_MAX in Hsz.
  unfold new_block, SIZEOF_block_hdr. rewrite u64_small by lia. fold (chunk size). set (n := chunk size) in *. cbv zeta.
  wp_step. eapply wp_mono; [by apply (mmap_grows lo hi n s Hr Hlh Hnx Hpg ltac:(unfold MMAP_MAX; lia))|]. cbn beta.
  destruct (ALIGN_UP_user n) as (Ha & Hup & _); [lia|]. set (top := hi + ALIGN_UP n PAGE_SIZE) in *. intros r s1 (Hh1 & Hm1 & Hx1 & [[-> Hr1]|(-> & Hr1 & He)]).
  2: { rewrite Z.eqb_refl. apply wp_ret. left. split_and!; try done.
       - split; [done|]. rewrite Hh1. by apply (seg_on (umem s)).
       - intros v Hv. symmetry. apply Hm1. by apply (in_live_range _ _ _ _ _ _ _ Hs). }
  pose proof (rg_hi _ _ _ Hr1). replace (hi =? MAP_FAILED) with false by (symmetry; apply Z.eqb_neq; unfold MAP_FAILED; lia).
  pose proof (wrote_refl _ _ _ Hr1) as Hw1.
  wp_step. eapply ustore_more; [exact Hw1|lia|lia|]. intros s2 Hw2. wp_step. eapply ustore_more; [exact Hw2|lia|lia|]. intros s3 Hw3.
  wp_step. eapply ustore_more; [exact Hw3|lia|lia|]. intros s4 [Hr4 Hm4 Hx4 Hh4].
  match type of Hm4 with same_on _ _ ?M _ => set (m4 := M) in * end.
  assert (forall v, lo <= v < hi -> m4 v = umem s v) as Hold by (intros v Hv; unfold m4; rewrite !store_le_other by lia; symmetry; by apply Hm1).
  wp_step. eapply wp_mono; [apply (wp_weaken (fun _ => False)); [done|]; apply (link_ok lo hi top s4 m4 (n - 24) bs _ Hr4 Hm4 eq_refl); try lia|].
  { rewrite Hh4, Hh1. apply (seg_on (umem s)); [done|]. intros v Hv. by rewrite Hold. }
  1-3: unfold m4; by loads.
  cbn beta. intros _ s5 (Hr5 & Hx5 & Hs5 & Hk5).
  wp_step. eapply wp_mono; [apply (wp_weaken (fun _ => False)); [done|]; apply (split_ok lo top s5 (umem s5) s5 bs hi (n - 24) size (wrote_refl _ _ _ Hr5) Hs5); lia|].
  cbn beta. intros _ s6 (m6 & rest & Hw6 & Hh6 & Hs6 & Hk6). apply wp_ret. right. eexists top, bs, _, _.
  split; [|split; [|split; [|split; [|split; [|split; [|split]]]]]].
  - split; [apply Hw6|]. rewrite Hh6. apply (seg_on m6); [exact Hs6|apply Hw6].
  - intros v Hv. pose proof (in_live_range _ _ _ _ _ _ _ Hs Hv). rewrite <- (wr_mem _ _ _ _ _ Hw6), Hk6, Hk5, <- Hm4, Hold; done || lia.
  - done.
  - done.
  - cbn [b_size]. destruct rest; lia.
  - rewrite live_app. destruct rest; cbn; by rewrite app_nil_r.
  - right. split; [|unfold top; zlia]. rewrite (wr_next _ _ _ _ _ Hw6). congruence.
  - rewrite length_app. destruct rest; cbn; lia.
Qed.

Lemma live_elem bs q k : (q, k) ∈ live bs -> exists c, c ∈ bs /\ b_ptr c = q /\ b_size c = k.
Proof. intros (c & [= -> ->] & [_ Hc]%list_elem_of_filter)%list_elem_of_fmap. by exists c. Qed.
Lemma seg_sorted m l p b1 b b2 l' q : seg m l p (b1 ++ b :: b2) l' q ->
  (forall c, c ∈ b1 -> b_end c <= b_at b) /\ (forall c, c ∈ b2 -> b_end b <= b_at c).
Proof.
  intros (l1 & p1 & H1 & H2)%seg_app. cbn [seg] in H2. destruct H2 as (-> & ? & _ & ? & _ & _ & H2). split; intros c Hc.
  - pose proof (chain_bounds _ _ _ _ _ _ _ H1 Hc). lia.
  - by apply (chain_bounds _ _ _ _ _ _ _ H2 Hc).
Qed.
Lemma take_found lo hi bs b1 b b2 size s : heap_ok lo hi bs s -> bs = b1 ++ b :: b2 -> b_free b = true -> size <= b_size b ->
  safe (ustore 4 (b_at b + 8) 0;; mret (b_at b + SIZEOF_block_hdr)) s (allocated_block lo hi size bs s).
Proof.
  intros [Hr Hs] -> Hf Hsz. pose proof (chain_bounds _ _ _ _ _ _ b Hs ltac:(apply elem_of_app; right; by left)) as Hb. unfold b_end, SIZEOF_block_hdr in Hb.
  wp_step. eapply ustore_wp; [exact Hr|lia|lia|]. intros s' [Hr' Hm Hx Hh]. apply wp_ret. right. exists hi, b1, (Block (b_at b) (b_size b) false), b2.
  split_and!; try done; [..|by left|rewrite !length_app; cbn; lia].
  - split; [done|]. rewrite Hh. apply (seg_on (store_le 4 (umem s) (b_at b + 8) (b2z false))); [by apply seg_flag|done].
  - intros v Hv. pose proof (in_live_range _ _ _ _ _ _ _ Hs Hv). rewrite <- Hm by lia. apply store_le_other.
    destruct (decide (v < b_at b + 8)); [lia|]. destruct (decide (b_at b + 12 <= v)); [lia|].
    destruct (header_not_live _ _ _ _ _ _ b v Hs); [apply elem_of_app; right; by left|unfold b_ptr, SIZEOF_block_hdr; lia|done].
  - rewrite !live_app. unfold live at 2. rewrite filter_cons. by rewrite decide_False by by rewrite Hf.
Qed.
Lemma outcome_apart lo hi size bs s p s' : allocated_block lo hi size bs s p s' ->
  (p = 0 /\ errno s' = ENOMEM /\ heap_ok lo hi bs s' /\ kept bs s s') \/
  (exists hi' bs' n, heap_ok lo hi' bs' s' /\ live bs' ≡ₚ (p, n) :: live bs /\ size <= n /\
     (forall q k, (q, k) ∈ live bs -> p + n <= q \/ q + k <= p) /\ kept bs s s' /\ (hi' = hi \/ hi' = next_region (p_os s') /\ hi' mod 4096 = 0) /\
     (length bs' <= length bs + 2)%nat).
Proof.
  intros [?|(hi' & b1 & b & b2 & Hok & Hk & -> & Hf & Hsz & Hl & Hhi & Hlen)]; [by left|right]. exists hi', (b1 ++ b :: b2), (b_size b). split_and!; try done.
  - rewrite Hl, !live_app. unfold live at 2. rewrite filter_cons, decide_True by done. cbn. by rewrite <- Permutation_middle.
  - intros q k Hin. rewrite Hl in Hin. apply live_elem in Hin as (c & Hc & <- & <-). destruct (seg_sorted _ _ _ _ _ _ _ _ (ho_seg _ _ _ _ Hok)) as [H1 H2].
    unfold b_end, b_ptr, SIZEOF_block_hdr in *. apply elem_of_app in Hc as [Hc%H1|Hc%H2]; lia.
Qed.

Lemma malloc_ok fuel lo hi bs size s :
  heap_ok lo hi bs s -> room_for lo hi (align8 size) s -> 0 < size < 2^63 -> (length bs < fuel)%nat ->
  safe (malloc fuel size) s (allocated_block lo hi (align8 size) bs s).
Proof.
  intros Hok Hroom Hpos Hfuel. pose proof (align8_spec size ltac:(lia)) as Hal. pose proof Hok as [Hr Hs].
  unfold malloc. replace (size =? 0) with false by blia. cbv zeta. do 2 wp_step.
  destruct (find_ok lo hi (align8 size) hi s Hr ltac:(lia) bs fuel lo (free_list_head s) 0 ltac:(lia) Hs Hfuel) as (res & Hrun & Hres).
  wp_step. apply (wp_Done _ _ _ _ _ _ Hrun). destruct res as [c|prev].
  - destruct Hres as (b1 & b & b2 & Hbs & <- & Hf & Hsz). by eapply take_found.
  - subst prev. apply new_block_ok; [done|done|lia].
Qed.
(** C18: malloc() gives a block of its own: at least as large as asked for, apart from
    every block in use, whose bytes it keeps, in a list of blocks that is in order; or
    it gives 0 with ENOMEM and everything is as it was. One turn of the search for every
    block is enough. *)
Theorem malloc_allocates fuel lo hi bs size s :
  heap_ok lo hi bs s -> room_for lo hi (align8 size) s -> 0 < size < 2^63 -> (length bs < fuel)%nat ->
  safe (malloc fuel size) s (fun p s' =>
    (p = 0 /\ errno s' = ENOMEM /\ heap_ok lo hi bs s' /\ kept bs s s') \/
    (exists hi' bs' n, heap_ok lo hi' bs' s' /\ live bs' ≡ₚ (p, n) :: live bs /\ size <= n /\
       (forall q k, (q, k) ∈ live bs -> p + n <= q \/ q + k <= p) /\ kept bs s s' /\ (hi' = hi \/ hi' = next_region (p_os s') /\ hi' mod 4096 = 0))).
Proof.
  intros Hok Hroom Hpos Hfuel. pose proof (align8_spec size ltac:(lia)) as Hal.
  eapply wp_mono; [by apply (malloc_ok fuel lo hi bs)|]. intros p s' Ho%outcome_apart. destruct Ho as [?|(hi' & bs' & n & ? & ? & ? & ?)]; [by left|right].
  exists hi', bs', n. split_and!; tauto || lia.
Qed.

(** ** Giving a block back *)

Lemma umem_range lo hi s n p : region lo hi s -> lo <= p -> p + Z.of_nat n <= hi -> 0 <= load_le n (umem s) p < 256 ^ Z.of_nat n.
Proof.
  intros Hr Hp Hn. rewrite (load_le_ext n _ (fun v => u8 (umem s v))); [apply load_le_range; intros v; apply u8_range|].
  intros v Hv. destruct (region_byte lo hi s v Hr ltac:(lia)) as (b & Hb & Hb8). unfold umem. rewrite Hb. symmetry. by apply u8_small.
Qed.

Lemma merge_turn_skips lo hi b bs l l' s : region lo hi s -> lo <= l -> l' <= hi -> seg (umem s) l (b_at b) (b :: bs) l' 0 ->
  match bs with c :: _ => b_free b && b_free c = false | [] => True end ->
  merge_turn (b_at b) s = Done (inl (load_le 8 (umem s) (b_at b + 16)), s).
Proof.
  intros Hr Hl Hl' Hs Hno. pose proof (chain_bounds _ _ _ _ _ _ b Hs ltac:(by left)) as Hb. unfold b_end, SIZEOF_block_hdr in Hb.
  cbn [seg] in Hs. destruct Hs as (_ & _ & _ & _ & Hn & Hf & Hs). unfold merge_turn. replace (b_at b =? 0) with false by blia.
  rewrite (bind_Done _ _ _ _ _ (uload_ok lo hi 4 (b_at b + 8) s Hr ltac:(lia) ltac:(lia))), Hf.
  pose proof (uload_ok lo hi 8 (b_at b + 16) s Hr ltac:(lia) ltac:(lia)) as Hnext.
  match goal with |- (?m ≫= _) s = _ => assert (m s = Done (tt, s)) as Hm end; [|by rewrite (bind_Done _ _ _ _ _ Hm), (bind_Done _ _ _ _ _ Hnext)].
  destruct (b_free b); cbn [b2z nonzero Z.eqb negb]; [|done]. rewrite (bind_Done _ _ _ _ _ Hnext).
  destruct bs as [|c bs]; [by destruct Hs as [_ ->]|]. pose proof (chain_bounds _ _ _ _ _ _ c Hs ltac:(by left)) as Hc. unfold b_end, SIZEOF_block_hdr in Hc.
  cbn [seg] in Hs. destruct Hs as (-> & _ & _ & _ & _ & Hfc & _). replace (b_at c =? 0) with false by blia.
  rewrite (bind_Done _ _ _ _ _ (uload_ok lo hi 4 (b_at c + 8) s Hr ltac:(lia) ltac:(lia))), Hfc. cbn [andb] in Hno. by rewrite Hno.
Qed.
Lemma merge_turn_joins lo hi b c bs l l' s : region lo hi s -> lo <= l -> l' <= hi -> seg (umem s) l (b_at b) (b :: c :: bs) l' 0 ->
  b_free b = true -> b_free c = true ->
  returns (merge_turn (b_at b)) s (fun r s' => exists m, wrote lo hi s m s' /\ r = inl (load_le 8 (umem s) (b_at c + 16)) /\
    seg m l (b_at b) [Block (b_at b) (b_size b + 24 + b_size c) true] (b_end c) (load_le 8 (umem s) (b_at c + 16)) /\
    forall v, v < b_at b \/ b_ptr b <= v -> m v = umem s v).
Proof.
  intros Hr Hl Hl' Hs Hfb Hfc. pose proof (rg_hi _ _ _ Hr) as Hhi. pose proof (rg_lo _ _ _ Hr) as Hlo.
  pose proof (chain_bounds _ _ _ _ _ _ b Hs ltac:(by left)) as Hb. pose proof (chain_bounds _ _ _ _ _ _ c Hs ltac:(right; by left)) as Hc.
  cbn [seg] in Hs. destruct Hs as (_ & Hlb & _ & Hbn & Hn & Hf & Hnx & Hlc & _ & Hcn & Hnc & Hf' & _). rewrite Hnx in *. rewrite Hfb, Hfc in *.
  unfold b_end, b_ptr, SIZEOF_block_hdr in *. unfold merge_turn, SIZEOF_block_hdr. replace (b_at b =? 0) with false by blia. pose proof (wrote_refl _ _ _ Hr) as Hw.
  wp_step. eapply uload_more; [exact Hw|lia|lia|]. rewrite Hf. cbn [b2z nonzero Z.eqb negb].
  wp_step. wp_step. eapply uload_more; [exact Hw|lia|lia|]. rewrite Hnx. replace (b_at c =? 0) with false by blia.
  wp_step. eapply uload_more; [exact Hw|lia|lia|]. rewrite Hf'. cbn [b2z nonzero Z.eqb negb].
  wp_step. eapply uload_more; [exact Hw|lia|lia|]. wp_step. eapply uload_more; [exact Hw|lia|lia|]. rewrite Hn, Hnc, !u64_small by (rewrite ?u64_small; lia).
  wp_step. eapply ustore_more; [exact Hw|lia|lia|]. intros s1 Hw1. wp_step. eapply uload_more; [exact Hw1|lia|lia|]. loads.
  set (q := load_le 8 (umem s) (b_at c + 16)). eapply ustore_more; [exact Hw1|lia|lia|]. intros s2 Hw2.
  wp_step. eapply uload_more; [exact Hw2|lia|lia|]. pose proof (umem_range lo hi s 8 (b_at c + 16) Hr ltac:(lia) ltac:(lia)) as Hq. fold q in Hq. change (256 ^ Z.of_nat 8) with (2^64) in Hq. loads. apply wp_ret. eexists. split; [exact Hw2|]. split; [done|]. split.
  - cbn [seg b_at b_size b_free]. unfold b_end, SIZEOF_block_hdr. cbn [b_at b_size]. loads. split_and!; done || lia.
  - intros v Hv. by rewrite !store_le_other by lia.
Qed.

Lemma in_live_cons b bs v : in_live (b :: bs) v <-> (b_free b = false /\ b_ptr b <= v < b_end b) \/ in_live bs v.
Proof.
  unfold in_live. split.
  - intros (c & [->|Hc]%elem_of_cons & ? & ?); [by left|]. right. by exists c.
  - intros [[? ?]|(c & Hc & ? & ?)]; [exists b; split; [by left|done]|exists c; split; [by right|done]].
Qed.
(** The walk from a block on, when the chain in front of it is done. *)
Record merged (lo hi l l' r : Z) (bs : list block) (s s' : proc S) : Prop := {
  mg_region : region lo hi s';
  mg_next : next_region (p_os s') = next_region (p_os s);
  mg_head : free_list_head s' = free_list_head s;
  mg_seg : seg (umem s') l r (coalesce bs) l' 0;
  mg_keep : forall v, lo <= v < hi -> v < l \/ l' <= v \/ in_live bs v -> umem s' v = umem s v
}.
Lemma merged_skip lo hi l l' b c rest s s' : lo <= l -> l' <= hi -> seg (umem s) l (b_at b) (b :: c :: rest) l' 0 -> b_free b && b_free c = false ->
  merged lo hi (b_end b) l' (load_le 8 (umem s) (b_at b + 16)) (c :: rest) s s' -> merged lo hi l l' (b_at b) (b :: c :: rest) s s'.
Proof.
  intros Hl Hl' Hs Hbc [Hr Hx Hh Hseg Hk]. pose proof (chain_bounds _ _ _ _ _ _ b Hs ltac:(by left)) as Hb. pose proof Hb as Hb'. unfold b_end, SIZEOF_block_hdr in Hb.
  split; try done.
  - rewrite coalesce_eq, Hbc. destruct Hs as (_ & ? & ? & ? & Hn & Hf & _).
    assert (forall v, b_at b <= v < b_end b -> umem s v = umem s' v) as Hsame by (intros v Hv; symmetry; apply Hk; lia). unfold b_end, SIZEOF_block_hdr in Hsame.
    change (b_at b = b_at b /\ l <= b_at b /\ 0 < b_at b /\ 0 <= b_size b /\ load_le 8 (umem s') (b_at b) = b_size b /\
      load_le 4 (umem s') (b_at b + 8) = b2z (b_free b) /\ seg (umem s') (b_end b) (load_le 8 (umem s') (b_at b + 16)) (coalesce (c :: rest)) l' 0).
    rewrite <- (load_le_ext 8 (umem s) (umem s') (b_at b)), <- (load_le_ext 4 (umem s) (umem s') (b_at b + 8)), <- (load_le_ext 8 (umem s) (umem s') (b_at b + 16))
      by (intros v ?; apply Hsame; lia). split_and!; done.
  - intros v Hv Hw. apply Hk; [done|]. destruct (decide (v < b_end b)); [by left|]. rewrite in_live_cons in Hw. right.
    destruct Hw as [?|[?|[[? ?]|?]]]; [unfold b_end, SIZEOF_block_hdr in *; lia|by left|lia|by right].
Qed.
Lemma merged_join lo hi l l' b c rest s m s1 s' q : lo <= l -> l' <= hi -> seg (umem s) l (b_at b) (b :: c :: rest) l' 0 -> b_free b = true -> b_free c = true ->
  wrote lo hi s m s1 -> seg m l (b_at b) [Block (b_at b) (b_size b + 24 + b_size c) true] (b_end c) q ->
  (forall v, v < b_at b \/ b_ptr b <= v -> m v = umem s v) -> merged lo hi (b_end c) l' q rest s1 s' -> merged lo hi l l' (b_at b) (b :: c :: rest) s s'.
Proof.
  intros Hl Hl' Hs Hb Hc [Hr1 Hm1 Hx1 Hh1] Hseg Hkeep [Hr Hx Hh Hseg' Hk].
  pose proof (chain_bounds _ _ _ _ _ _ b Hs ltac:(by left)) as Hbb. pose proof (chain_bounds _ _ _ _ _ _ c Hs ltac:(right; by left)) as Hcb.
  destruct (seg_sorted _ _ _ [] b (c :: rest) _ _ Hs) as [_ Hbc]. specialize (Hbc c ltac:(by left)).
  unfold b_end, b_ptr, SIZEOF_block_hdr in Hbb, Hcb, Hbc, Hkeep. split; [done|congruence|congruence|..].
  - rewrite coalesce_eq, Hb, Hc. cbn [andb]. apply (seg_app _ [_]). exists (b_end c), q. split; [|done]. apply (seg_on m); [done|].
    intros v Hv. unfold b_end, SIZEOF_block_hdr in Hv. rewrite Hm1 by lia. symmetry. apply Hk; [lia|]. left. unfold b_end, SIZEOF_block_hdr. lia.
  - intros v Hv Hw. rewrite !in_live_cons, Hb, Hc in Hw.
    assert (in_live rest v -> b_end c <= v) as Hrest by (intros Hw'; destruct Hs as (_ & _ & _ & _ & _ & _ & _ & _ & _ & _ & _ & _ & Hs); by apply (in_live_range _ _ _ _ _ _ _ Hs Hw')).
    unfold b_end, SIZEOF_block_hdr in Hrest. rewrite Hk; [|done|].
    + rewrite <- Hm1 by lia. apply Hkeep. destruct Hw as [?|[?|[[? ?]|[[? ?]|Hw%Hrest]]]]; lia || done.
    + unfold b_end, SIZEOF_block_hdr. destruct Hw as [?|[?|[[? ?]|[[? ?]|Hw]]]]; [left; lia|by right; left|done|done|by right; right].
Qed.
Lemma merge_loop lo hi l' bs : l' <= hi -> forall n l r s, (length bs < n)%nat -> lo <= l -> region lo hi s -> seg (umem s) l r bs l' 0 ->
  returns (iter n merge_turn r) s (fun _ s' => merged lo hi l l' r bs s s').
Proof.
  intros Hl'. induction bs as [|b|b c rest IH1 IH2] using coalesce_ind; intros [|n] l r s Hn Hl Hr Hs; cbn [length] in Hn; try lia; cbn [iter].
  - pose proof Hs as [? ->]. by apply wp_ret.
  - assert (r = b_at b) as -> by by destruct Hs. wp_step. apply (wp_Done _ _ _ _ _ _ (merge_turn_skips lo hi b [] l l' s Hr Hl Hl' Hs I)).
    cbn [seg] in Hs. destruct n as [|n]; [lia|]. cbn [iter]. wp_step.
    assert (load_le 8 (umem s) (b_at b + 16) = 0) as -> by apply Hs. by apply wp_ret.
  - assert (r = b_at b) as -> by by destruct Hs. destruct (b_free b && b_free c) eqn:Hbc.
    + apply andb_prop in Hbc as [Hb Hc]. pose proof (chain_bounds _ _ _ _ _ _ c Hs ltac:(right; by left)) as Hcb.
      wp_step. eapply wp_mono; [by apply (merge_turn_joins lo hi b c rest l l' s Hr Hl Hl' Hs)|]. cbn beta. intros r' s1 (m & [Hr1 Hm1 Hx1 Hh1] & -> & Hseg & Hkeep).
      eapply wp_mono; [apply (IH1 n (b_end c)); [lia|unfold b_end, SIZEOF_block_hdr in *; lia|done|]|].
      * apply (seg_on (umem s)); [by destruct Hs as (_ & _ & _ & _ & _ & _ & <- & _ & _ & _ & _ & _ & Hs)|]. intros v Hv. unfold b_end, SIZEOF_block_hdr in *. rewrite <- Hm1 by lia. symmetry. apply Hkeep. right.
        destruct (seg_sorted _ _ _ [] b (c :: rest) _ _ Hs) as [_ Hsort]. specialize (Hsort c ltac:(by left)).
        pose proof (chain_bounds _ _ _ _ _ _ b Hs ltac:(by left)). unfold b_ptr, b_end, SIZEOF_block_hdr in *. lia.
      * cbn beta. intros _ s' Hmg. by apply (merged_join lo hi l l' b c rest s m s1 s' (load_le 8 (umem s) (b_at c + 16))).
    + wp_step. apply (wp_Done _ _ _ _ _ _ (merge_turn_skips lo hi b (c :: rest) l l' s Hr Hl Hl' Hs Hbc)).
      pose proof (chain_bounds _ _ _ _ _ _ b Hs ltac:(by left)) as Hb.
      eapply wp_mono; [apply (IH2 n (b_end b)); [cbn; lia|unfold b_end, SIZEOF_block_hdr in *; lia|done|by destruct Hs as (_ & _ & _ & _ & _ & _ & Hs)]|].
      cbn beta. intros _ s' Hmg. by apply merged_skip.
Qed.


Lemma free_ok fuel lo hi bs p n s : heap_ok lo hi bs s -> (p, n) ∈ live bs -> (length bs < fuel)%nat ->
  returns (free fuel p) s (fun _ s' => exists bs',
    heap_ok lo hi bs' s' /\ live bs ≡ₚ (p, n) :: live bs' /\ kept bs' s s' /\ next_region (p_os s') = next_region (p_os s)).
Proof.
  intros [Hr Hs] Hin Hfuel. apply list_elem_of_fmap in Hin as (b & [= -> ->] & [Hf Hb]%list_elem_of_filter).
  apply list_elem_of_split in Hb as (b1 & b2 & ->). rewrite length_app in Hfuel.
  pose proof (chain_bounds _ _ _ _ _ _ b Hs ltac:(apply elem_of_app; right; by left)) as Hb. pose proof (rg_lo _ _ _ Hr).
  unfold free, b_ptr, SIZEOF_block_hdr. unfold b_end, SIZEOF_block_hdr in Hb.
  replace (b_at b + 24 =? 0) with false by blia. replace (b_at b + 24 - 24 + 8) with (b_at b + 8) by lia.
  wp_step. eapply ustore_wp; [exact Hr|lia|lia|]. intros s1 [Hr1 Hm1 Hx1 Hh1]. do 2 wp_step. set (bs1 := b1 ++ Block (b_at b) (b_size b) true :: b2).
  assert (seg (umem s1) lo (free_list_head s1) bs1 hi 0) as Hs1 by (rewrite Hh1; eapply seg_on; [by apply (seg_flag true)|done]).
  eapply wp_mono; [apply (merge_loop lo hi hi bs1 ltac:(lia) fuel lo); [by unfold bs1; rewrite length_app|lia|done|exact Hs1]|].
  cbn beta. intros _ s' [Hr' Hx' Hh' Hs' Hk']. exists (coalesce bs1). split_and!; [split; [done|by rewrite Hh'] | |..|congruence].
  - rewrite coalesce_live. unfold bs1. rewrite !live_app, !live_cons, Hf. cbn [b_free app]. by rewrite <- Permutation_middle.
  - intros v Hv. assert (in_live bs1 v) as Hv1 by (rewrite in_live_iff in *; by rewrite coalesce_live in Hv).
    pose proof (in_live_range _ _ _ _ _ _ _ Hs1 Hv1). rewrite Hk' by tauto || lia. rewrite <- Hm1 by lia. rewrite store_le_other; [done|].
    destruct (decide (v < b_at b + 8)); [lia|]. destruct (decide (b_at b + 12 <= v)); [lia|].
    destruct (header_not_live _ _ _ _ _ _ (Block (b_at b) (b_size b) true) v Hs1); [apply elem_of_app; right; by left|cbn; unfold b_ptr, SIZEOF_block_hdr; cbn; lia|done].
Qed.

(** ** Growing a block *)

Lemma copy_ok lo hi d src n s : region lo hi s -> lo <= d -> d + Z.of_nat n <= hi -> lo <= src -> src + Z.of_nat n <= hi ->
  src + Z.of_nat n <= d \/ d + Z.of_nat n <= src ->
  returns (copy_bytes d src n) s (fun _ s' => exists m, wrote lo hi s m s' /\
    forall v, m v = if (d <=? v) && (v <? d + Z.of_nat n) then umem s (src + (v - d)) else umem s v).
Proof.
  intros Hr Hd Hdn Hp Hpn Hap.
  assert (forall v, d <= v < d + Z.of_nat n -> memcpy (umem s) d src n v = umem s (src + (v - d)) /\ 0 <= umem s (src + (v - d)) < 256) as Hm.
  { intros v Hv. destruct (region_byte lo hi s (src + (v - d)) Hr ltac:(lia)) as (b & Hb & Hb8). rewrite memcpy_at by lia. replace (_ && _) with true by blia.
    unfold umem. rewrite Hb. split; [by apply u8_small|done]. }
  unfold copy_bytes, uload_bytes, on_range. do 3 wp_step. cbn beta. rewrite (region_access lo hi s src n Hr Hp Hpn).
  apply wp_ret. do 2 wp_step. cbn beta. eapply ustore_bytes_wp; [exact Hr|done|by rewrite length_load_bytes|..].
  - apply list.Forall_forall. intros x (k & -> & Hk%elem_of_seqZ)%list_elem_of_fmap. destruct (Hm (d + k) ltac:(lia)) as [-> ?]. done.
  - intros s' Hw. eexists. split; [exact Hw|]. intros v. rewrite store_bytes_at, lookup_load_bytes. case_decide as Hv.
    + destruct (Z.leb_spec d v); cbn [andb]; [|done]. replace (v <? d + Z.of_nat n) with true by blia.
      replace (d + Z.of_nat (Z.to_nat (v - d))) with v by lia. destruct (Hm v ltac:(lia)) as [-> ?]. by apply u8_small.
    + by replace (_ && _) with false by blia.
Qed.
(** Bytes behind the header of a block are not the allocator's. *)
Lemma payload_write lo hi bs b s m s' : heap_ok lo hi bs s -> b ∈ bs -> wrote lo hi s m s' ->
  (forall v, ~ (b_ptr b <= v < b_end b) -> m v = umem s v) -> heap_ok lo hi bs s'.
Proof.
  intros [Hr Hs] Hb [Hr' Hm _ Hh] Hv. split; [done|]. rewrite Hh. apply (seg_on m); [|done]. apply (seg_same (umem s)); [done|].
  intros c v Hc Hcv. symmetry. apply Hv. pose proof (chain_bounds _ _ _ _ _ _ _ Hs Hb). pose proof (chain_bounds _ _ _ _ _ _ _ Hs Hc).
  destruct (seg_apart _ _ _ _ _ _ _ _ Hs Hb Hc) as [->|[?|?]]; unfold b_end, b_ptr, SIZEOF_block_hdr in *; lia.
Qed.
Lemma live_block bs p n : (p, n) ∈ live bs -> exists b, b ∈ bs /\ b_free b = false /\ p = b_ptr b /\ n = b_size b.
Proof. intros (b & [= -> ->] & [Hf Hb]%list_elem_of_filter)%list_elem_of_fmap. by exists b. Qed.
Lemma live_bounds lo hi bs p n s : heap_ok lo hi bs s -> (p, n) ∈ live bs -> lo + 24 <= p /\ 0 <= n /\ p + n <= hi /\ 0 < lo.
Proof.
  intros [Hr Hs] (b & Hb & _ & -> & ->)%live_block. pose proof (chain_bounds _ _ _ _ _ _ _ Hs Hb). pose proof (rg_lo _ _ _ Hr).
  unfold b_end, b_ptr, SIZEOF_block_hdr in *. lia.
Qed.
Lemma live_size lo hi bs p n s : heap_ok lo hi bs s -> (p, n) ∈ live bs -> load_le 8 (umem s) (p - 24) = n.
Proof.
  intros [Hr Hs] (b & Hb & _ & -> & ->)%live_block. apply list_elem_of_split in Hb as (b1 & b2 & ->). apply seg_app in Hs as (l1 & p1 & _ & Hs).
  destruct Hs as (-> & _ & _ & _ & Hn & _). unfold b_ptr, SIZEOF_block_hdr. by replace (b_at b + 24 - 24) with (b_at b) by lia.
Qed.
(** The old block is copied to the new one and given back. *)
Lemma move_ok fuel lo hi bs rest p n q k s : heap_ok lo hi bs s -> live bs ≡ₚ (q, k) :: (p, n) :: rest -> n <= k -> (length bs < fuel)%nat ->
  (forall r j, (r, j) ∈ (p, n) :: rest -> q + k <= r \/ r + j <= q) ->
  returns (copy_bytes q p (Z.to_nat n);; free fuel p) s (fun _ s' => exists bs', heap_ok lo hi bs' s' /\ live bs' ≡ₚ (q, k) :: rest /\
    (forall i, 0 <= i < n -> umem s' (q + i) = umem s (p + i)) /\ forall r j v, (r, j) ∈ rest -> r <= v < r + j -> umem s' v = umem s v).
Proof.
  intros Hok Hl Hnk Hfuel Hap. assert ((p, n) ∈ live bs) as Hp by (rewrite Hl; right; by left). assert ((q, k) ∈ live bs) as Hq by (rewrite Hl; by left).
  pose proof (live_bounds _ _ _ _ _ _ Hok Hp). pose proof (live_bounds _ _ _ _ _ _ Hok Hq). pose proof (Hap p n ltac:(by left)).
  wp_step. eapply wp_mono; [apply (copy_ok lo hi q p (Z.to_nat n) s (ho_region _ _ _ _ Hok)); lia|]. cbn beta. intros _ s1 (m & Hw & Hm).
  rewrite Z2Nat.id in Hm by lia. pose proof Hq as (b & Hb & _ & Hqb & Hkb)%live_block.
  assert (heap_ok lo hi bs s1) as Hok1.
  { apply (payload_write lo hi bs b s m s1 Hok Hb Hw). intros v Hv. rewrite Hm. replace (_ && _) with false; [done|]. unfold b_end, b_ptr, SIZEOF_block_hdr in *. blia. }
  eapply wp_mono; [by apply (free_ok fuel lo hi bs p n s1)|]. cbn beta. intros _ s' (bs' & Hok' & Hl' & Hk & _).
  assert (live bs' ≡ₚ (q, k) :: rest) as Hlive by (apply (Permutation_cons_inv (a := (p, n))); rewrite <- Hl', Hl; constructor).
  exists bs'. split; [done|]. split; [done|]. split.
  - intros i Hi. rewrite Hk; [|apply in_live_iff; exists q, k; rewrite Hlive; split; [by left|lia]]. rewrite <- (wr_mem _ _ _ _ _ Hw) by lia.
    rewrite Hm. replace (_ && _) with true by blia. f_equal. lia.
  - intros r j v Hr Hv. rewrite Hk; [|apply in_live_iff; exists r, j; rewrite Hlive; split; [by right|lia]].
    pose proof (live_bounds _ _ _ _ _ _ Hok ltac:(rewrite Hl; do 2 right; exact Hr)). rewrite <- (wr_mem _ _ _ _ _ Hw) by lia.
    rewrite Hm. pose proof (Hap r j ltac:(by right)). by replace (_ && _) with false by blia.
Qed.
(** C20: realloc() gives a block that is large enough and begins with the bytes of the
    old one, which is out of use if it is not the same; every other block in use and
    its bytes stay. Or it gives 0 with ENOMEM and everything is as it was. *)
Theorem realloc_keeps fuel lo hi bs p n size s :
  heap_ok lo hi bs s -> (p, n) ∈ live bs -> room_for lo hi (align8 size) s -> 0 < size < 2^63 -> (length bs + 2 < fuel)%nat ->
  safe (realloc fuel p size) s (fun q s' =>
    (q = 0 /\ errno s' = ENOMEM /\ heap_ok lo hi bs s' /\ kept bs s s') \/
    (exists hi' bs' k rest, heap_ok lo hi' bs' s' /\ size <= k /\ live bs ≡ₚ (p, n) :: rest /\ live bs' ≡ₚ (q, k) :: rest /\
       (forall i, 0 <= i < n -> umem s' (q + i) = umem s (p + i)) /\ forall r j v, (r, j) ∈ rest -> r <= v < r + j -> umem s' v = umem s v)).
Proof.
  intros Hok Hp Hroom Hsz Hfuel. pose proof (live_bounds _ _ _ _ _ _ Hok Hp) as Hb. apply elem_of_Permutation in Hp as Hrest. destruct Hrest as [rest Hrest].
  unfold realloc. replace (p =? 0) with false by blia. replace (size =? 0) with false by blia. wp_step. unfold SIZEOF_block_hdr.
  eapply uload_wp; [exact (ho_region _ _ _ _ Hok)|lia|lia|]. rewrite (live_size _ _ _ _ _ _ Hok Hp). destruct (Z.leb_spec size n).
  { apply wp_ret. right. exists hi, bs, n, rest. by split_and!. }
  wp_step. eapply wp_mono; [apply (malloc_ok fuel lo hi bs size s Hok Hroom Hsz); lia|]. cbn beta. pose proof (align8_spec size ltac:(lia)).
  intros q s1 [(-> & He & Hok1 & Hk)|(hi' & bs1 & k & Hok1 & Hl1 & Hk & Hap & Hkeep & _ & Hlen)]%outcome_apart.
  { change (nonzero 0) with false. cbn iota. do 2 wp_step. apply wp_ret. by left. }
  rewrite Hrest in Hl1. pose proof (live_bounds _ _ _ q k _ Hok1 ltac:(rewrite Hl1; by left)). unfold nonzero. replace (q =? 0) with false by blia. cbn [negb].
  wp_step. eapply wp_mono; [apply (wp_weaken (fun _ => False)); [done|]; apply (move_ok fuel lo hi' bs1 rest p n q k s1 Hok1 Hl1); [lia|lia|]|].
  { intros r j Hr. rewrite <- Hrest in Hr. by apply Hap. }
  cbn beta. intros _ s2 (bs2 & Hok2 & Hl2 & Hc & Ho). apply wp_ret. right. exists hi', bs2, k, rest. split_and!; try done; [lia|..].
  - intros i Hi. rewrite Hc by done. apply Hkeep, in_live_iff. exists p, n. split; [done|lia].
  - intros r j v Hr Hv. rewrite (Ho r j v Hr Hv). apply Hkeep, in_live_iff. exists r, j. rewrite Hrest. split; [by right|lia].
Qed.
(** C19: free() takes the block out of use, and nothing else: the list stays in order,
    the other blocks in use are the same, and so are their bytes. *)
Theorem free_releases fuel lo hi bs p n s : heap_ok lo hi bs s -> (p, n) ∈ live bs -> (length bs < fuel)%nat ->
  returns (free fuel p) s (fun _ s' => exists bs',
    heap_ok lo hi bs' s' /\ live bs ≡ₚ (p, n) :: live bs' /\ kept bs' s s' /\ next_region (p_os s') = next_region (p_os s)).
Proof. apply free_ok. Qed.
End spec.

(** ** A process that keeps the laws *)

Definition flat_pages (s : flat) (W : gset Z) : Prop :=
  (forall p, p ∈ W -> 0x40000000 <= 4096 * p /\ 4096 * (p + 1) <= fl_next s) /\
  (forall v, 0 <= fl_mem s v < 256) /\ forall v, fl_next s <= v -> fl_mem s v = 0.
Lemma flat_in s W v : flat_pages s W -> v / 4096 ∈ W -> byte_at s v = Some (fl_mem s v) /\ v < fl_next s.
Proof. intros (HW & _) Hv. specialize (HW _ Hv). cbn. replace (_ && _) with true; [split; [done|zlia]|]. symmetry. apply andb_true_iff. split; zlia. Qed.
Lemma flat_store s W p bs : flat_pages s W -> (forall k, (k < length bs)%nat -> (p + Z.of_nat k) / 4096 ∈ W) -> Forall (fun b => 0 <= b < 256) bs ->
  flat_pages (store_at p bs s) W /\ forall v, v / 4096 ∈ W -> byte_at (store_at p bs s) v = image_write p bs (byte_at s) v.
Proof.
  intros HW Hin Hb. assert (forall v, Some (fl_mem (store_at p bs s) v) = image_write p bs (fun v => Some (fl_mem s v)) v) as Hm.
  { intros v. cbn. rewrite store_bytes_at. unfold image_write. destruct (bs !! Z.to_nat (v - p)) as [b|] eqn:Hv; [|done]. case_test; [|done].
    f_equal. apply u8_small. exact (Forall_lookup_1 _ _ _ _ Hb Hv). }
  assert (flat_pages (store_at p bs s) W) as HW'.
  { destruct HW as (H1 & H2 & H3). split; [done|]. cbn. split; intros v; [|intros Hv]; rewrite store_bytes_at; destruct (bs !! Z.to_nat (v - p)) as [b|] eqn:Hbv; auto.
    - case_test; [apply u8_range|auto].
    - apply lookup_lt_Some in Hbv. case_test; [|auto]. to_prop. specialize (H1 _ (Hin _ Hbv)). zlia. }
  split; [done|]. intros v Hv. destruct (flat_in _ W v HW' Hv) as [-> _]. rewrite Hm. apply image_write_ext. symmetry. by apply (flat_in s W).
Qed.
Lemma flat_map s W len : flat_pages s W -> 0 < len <= MMAP_MAX -> fl_next s mod 4096 = 0 -> 0x40000000 <= fl_next s -> fl_next s + ALIGN_UP len PAGE_SIZE <= 2^47 ->
  let s' := Flat (fl_mem s) (fl_next s + ALIGN_UP len PAGE_SIZE) in let k := Z.to_nat (ALIGN_UP len PAGE_SIZE / 4096) in
  flat_pages s' (page_set (fl_next s / 4096) k ∪ W) /\ 4096 * Z.of_nat k = ALIGN_UP len PAGE_SIZE /\
  (forall v, fl_next s <= v < fl_next s + ALIGN_UP len PAGE_SIZE -> byte_at s' v = Some 0) /\ forall v, v / 4096 ∈ W -> byte_at s' v = byte_at s v.
Proof.
  intros HW Hlen Hal Hlo Hfit s' k. destruct (ALIGN_UP_user len) as (Ha & Hup & _); [unfold MMAP_MAX in *; lia|].
  assert (4096 * Z.of_nat k = ALIGN_UP len PAGE_SIZE) as Hk by (unfold k; zlia).
  assert (flat_pages s' (page_set (fl_next s / 4096) k ∪ W)) as HW'.
  { destruct HW as (H1 & H2 & H3). split; [|split; [done|]]; cbn; [|intros v Hv; apply H3; lia].
    intros p [Hp%elem_page_set|Hp%H1]%elem_of_union; zlia. }
  split; [done|]. split; [done|]. split.
  - intros v Hv. destruct (flat_in s' _ v HW') as [-> _]; [apply elem_of_union; left; apply elem_page_set; zlia|]. cbn. f_equal. apply HW. lia.
  - intros v Hv. destruct (flat_in s' _ v HW') as [-> _]; [by apply elem_of_union; right|]. symmetry. by apply (flat_in s W).
Qed.
#[export] Instance flat_process_laws : ProcessLaws flat.
Proof.
  refine {| pages := fun s W => flat_pages s W /\ 0x40000000 <= fl_next s; next_region := fl_next |}.
  - intros s W v [HW _] _ Hv. destruct (flat_in s W v HW Hv) as [-> _]. eexists. split; [done|]. apply HW.
  - intros s W p bs [HW Hlo] Hp Hl Hin Hb. destruct (flat_store s W p bs HW Hin Hb) as [HW' Hv]. split_and!; try done. intros v _. apply Hv.
  - intros s W len [HW Hlo] Hlen Ha _ Hfit. destruct (flat_map s W len HW Hlen Ha Hlo Hfit) as (HW' & Hk & H0 & Hv).
    cbn [syscall flat_process]. unfold flat_syscall. rewrite Z.eqb_refl. do 4 wp_step. apply wp_ret. eexists. cbv zeta.
    split; [split; [exact HW'|]|split; [done|split; [|split; [|by left]]]].
    + cbn. destruct (ALIGN_UP_user len) as (_ & Hup & _); [unfold MMAP_MAX in *; lia|]. lia.
    + intros v _ Hin. apply H0. lia.
    + intros v _ Hin _. by apply Hv.
Defined.

(** ** Witnesses *)

Definition user_regs : Registers := fun _ => 0.
(** A program of the kernel that has not asked for memory yet. *)
Definition proc_user : proc sys := Proc sys_user 0 0 (fun _ => 0) (fun _ => 0).
Lemma malloc_allocates_witness :
  safe (@malloc sys (kernel_process 10 0 0 user_regs) 1 100) proc_user (fun p s' =>
    p <> 0 -> exists bs' n, live bs' ≡ₚ [(p, n)] /\ 100 <= n /\
      exists hi, @heap_ok sys (kernel_process 10 0 0 user_regs) (kernel_process_laws 10 0 0 user_regs) 0x40000000 hi bs' s').
Proof.
  eapply wp_mono.
  - apply (@malloc_allocates sys (kernel_process 10 0 0 user_regs) (kernel_process_laws 10 0 0 user_regs) 1 0x40000000 0x40000000 [] 100).
    + split; [|by vm_compute]. split; [|lia..]. exists ∅. split; [exists {[0x1000]}; apply sys_user_space|lia].
    + split; [reflexivity|by vm_compute..].
    + lia.
    + cbn. lia.
  - cbn beta. intros p s' [[-> _]|(hi & bs' & n & Hok & Hl & Hn & _)] Hp; [done|]. exists bs', n. split; [done|]. split; [done|]. by exists hi.
Defined.

(** One block of 104 bytes in use, which holds a text, and the rest of the first chunk. *)
Definition taken_mem : mem :=
  store_le 8 (store_le 8 (store_le 4 (store_le 8 (store_bytes (fun _ => 0) 0x40000018 [104; 105]) 0x40000000 104) 0x40000088 1) 0x40000080 65384) 0x40000010 0x40000080.
Definition proc_taken : proc flat := Proc (Flat taken_mem 0x40010000) 0 0x40000000 (fun _ => 0) (fun _ => 0).
Definition taken_blocks : list block := [Block 0x40000000 104 false; Block 0x40000080 65384 true].
Lemma proc_taken_ok : heap_ok 0x40000000 0x40010000 taken_blocks proc_taken.
Proof.
  split.
  - split; [|lia..]. exists (page_set 0x40000 16). split; [|intros v Hv; apply elem_page_set; zlia]. split; [|by vm_compute]. split_and!.
    + intros p Hp%elem_page_set. cbn. lia.
    + apply mem_ok_store_le, mem_ok_store_le, mem_ok_store_le, mem_ok_store_le, mem_ok_store_bytes. intros a. lia.
    + intros v Hv. cbn [fl_next p_os proc_taken] in Hv. unfold proc_taken, taken_mem. cbn [fl_mem p_os]. rewrite !store_le_other, store_bytes_at by lia. rewrite lookup_ge_None_2 by (cbn; lia). done.
  - assert (forall v, 0x40000000 <= v < 0x40000098 -> taken_mem v = umem proc_taken v) as Hv.
    { intros v Hv. unfold umem, byte_at. cbn. replace (_ && _) with true by blia. done. }
    apply (seg_same taken_mem); [cbn [seg taken_blocks]; split_and!; done || by vm_compute|].
    intros b v Hb Hv'. apply Hv. unfold taken_blocks in Hb. rewrite !elem_of_cons, elem_of_nil in Hb. destruct Hb as [->|[->|[]]]; unfold b_ptr, SIZEOF_block_hdr in Hv'; cbn in Hv'; lia.
Qed.
Lemma free_releases_witness : returns (free 10 0x40000018) proc_taken (fun _ s' => exists bs', heap_ok 0x40000000 0x40010000 bs' s' /\ live bs' = []).
Proof.
  eapply wp_mono; [apply (free_releases 10 0x40000000 0x40010000 taken_blocks 0x40000018 104 proc_taken proc_taken_ok); [by left|cbn; lia]|].
  cbn beta. intros _ s' (bs' & Hok & Hl & _). exists bs'. split; [done|]. apply Permutation_nil. by apply (Permutation_cons_inv (a := (0x40000018, 104))).
Defined.
Lemma realloc_keeps_witness : safe (realloc 10 0x40000018 200) proc_taken (fun q s' => q <> 0 -> forall i, 0 <= i < 104 -> umem s' (q + i) = umem proc_taken (0x40000018 + i)).
Proof.
  eapply wp_mono; [apply (realloc_keeps 10 0x40000000 0x40010000 taken_blocks 0x40000018 104 200 proc_taken proc_taken_ok); [by left| |lia|cbn; lia]|].
  - split; by vm_compute.
  - cbn beta. intros q s' [[-> _]|(hi & bs' & k & rest & _ & _ & _ & _ & Hc & _)] Hq; done.
Defined.

(** free() merges neighbours of the list: a mapping of the program between two of its
    chunks is later given out as a part of a block. *)
Example free_takes_mapping :
  results (a ← malloc 10 65512; f ← mmap 0 4096 3 0x22 (-1) 0; c ← malloc 10 65000; free 10 a;; free 10 c;; e ← malloc 10 70000; mret [a; f; c; e]) =
    Some [0x40000018; 0x40010000; 0x40011018; 0x40000018].
Proof. vm_compute. reflexivity. Qed.
