(* ===== verification/LibcString.v ===== *)
(** * Strings and numbers in user programs (string and strto*() functions of src/ports/libc/libc.c)

    The loops of the library over the program's memory; [fuel] bounds the characters of
    a string. The theorems are about the texts at the addresses. *)

From S2P Require Import Prelude Pmm Mem Strings Vmm UserSpace Heap Sched System Syscall SyscallMem Printf Process Libc LibcHeap LibcHeapSpec.

Section strings.
Context {S : Type} `{Process S} (fuel : nat).

(** ** Loops over one string *)

Definition strlen (s : Z) : M (proc S) Z :=
  iter fuel (fun '(s, n) => c ← uload 1 s; mret (if nonzero c then inl (s + 1, n + 1) else inr n)) (s, 0).
Definition strchr (s c : Z) : M (proc S) Z :=
  iter fuel (fun s => a ← uload 1 s; mret (if nonzero a then (if a =? u8 c then inr s else inl (s + 1)) else inr 0)) s.
Definition strrchr (s c : Z) : M (proc S) Z :=
  iter fuel (fun '(s, last) => a ← uload 1 s;
    mret (if nonzero a then inl (s + 1, if a =? u8 c then s else last) else inr last)) (s, 0).
Definition strpbrk (s accept : Z) : M (proc S) Z :=
  iter fuel (fun s => a ← uload 1 s;
    if nonzero a then p ← strchr accept a; mret (if nonzero p then inr s else inl (s + 1)) else mret (inr 0)) s.

(** ** Copying *)

Definition copy_turn (at_ : Z * Z) : M (proc S) (Z * Z + unit) :=
  let '(dest, src) := at_ in
  c ← uload 1 src; ustore 1 dest c;; mret (if nonzero c then inl (dest + 1, src + 1) else inr tt).
Definition strcpy (dest src : Z) : M (proc S) Z := iter fuel copy_turn (dest, src);; mret dest.
Definition to_end (dest : Z) : M (proc S) Z :=
  iter fuel (fun d => c ← uload 1 d; mret (if nonzero c then inl (d + 1) else inr d)) dest.
Definition strcat (dest src : Z) : M (proc S) Z := d ← to_end dest; iter fuel copy_turn (d, src);; mret dest.
(** A terminator that is copied is not counted in [n]. *)
Definition ncopy_turn (at_ : Z * Z * Z) : M (proc S) (Z * Z * Z + Z * Z) :=
  let '(dest, src, n) := at_ in
  if n =? 0 then mret (inr (dest, n))
  else c ← uload 1 src; ustore 1 dest c;; mret (if nonzero c then inl (dest + 1, src + 1, n - 1) else inr (dest + 1, n)).
Definition strncpy (dest src n : Z) : M (proc S) Z :=
  '(d, n) ← iter fuel ncopy_turn (dest, src, n);
  iter fuel (fun '(d, n) => if n =? 0 then mret (inr tt) else ustore 1 d 0;; mret (inl (d + 1, n - 1))) (d, n);;
  mret dest.
Definition strncat (dest src n : Z) : M (proc S) Z :=
  d ← to_end dest;
  e ← iter fuel (fun '(d, s, n) =>
        if n =? 0 then mret (inr d)
        else c ← uload 1 s; if nonzero c then ustore 1 d c;; mret (inl (d + 1, s + 1, n - 1)) else mret (inr d)) (d, src, n);
  ustore 1 e 0;; mret dest.

(** ** Comparing and searching *)

Definition strcmp (s1 s2 : Z) : M (proc S) Z :=
  iter fuel (fun '(s1, s2) => a ← uload 1 s1; b ← uload 1 s2;
    mret (if nonzero a && (a =? b) then inl (s1 + 1, s2 + 1) else inr (a - b))) (s1, s2).
Definition strncmp (s1 s2 n : Z) : M (proc S) Z :=
  iter fuel (fun '(s1, s2, n) =>
    if n =? 0 then mret (inr 0)
    else a ← uload 1 s1; b ← uload 1 s2;
      mret (if nonzero a && (a =? b) then inl (s1 + 1, s2 + 1, n - 1) else inr (a - b))) (s1, s2, n).
Definition strstr (haystack needle : Z) : M (proc S) Z :=
  c ← uload 1 needle;
  if negb (nonzero c) then mret haystack
  else
    nl ← strlen needle;
    iter fuel (fun h => c ← uload 1 h;
      if nonzero c then r ← strncmp h needle nl; mret (if r =? 0 then inr h else inl (h + 1)) else mret (inr 0)) haystack.

(** ** Memory *)

Definition memset (s c n : Z) : M (proc S) Z := on_range s (Z.to_nat n) (fun m => Strings.memset m s c (Z.to_nat n));; mret s.
Definition memcpy (dest src n : Z) : M (proc S) Z := copy_bytes dest src (Z.to_nat n);; mret dest.
Definition memmove (dest src n : Z) : M (proc S) Z :=
  uload_bytes src (Z.to_nat n);; on_range dest (Z.to_nat n) (fun m => Strings.memmove m dest src (Z.to_nat n));; mret dest.
Definition memcmp (s1 s2 n : Z) : M (proc S) Z :=
  iter fuel (fun '(p, q, n) =>
    if n =? 0 then mret (inr 0)
    else a ← uload 1 p; b ← uload 1 q; mret (if a =? b then inl (p + 1, q + 1, n - 1) else inr (a - b))) (s1, s2, n).
Definition memchr (s c n : Z) : M (proc S) Z :=
  iter fuel (fun '(p, n) =>
    if n =? 0 then mret (inr 0) else a ← uload 1 p; mret (if a =? u8 c then inr p else inl (p + 1, n - 1))) (s, n).
Definition strdup (s : Z) : M (proc S) Z :=
  len ← strlen s; let n := len + 1 in
  p ← malloc fuel n; (if nonzero p then memcpy p s n;; mret tt else mret tt);; mret p.
Definition strndup (s n : Z) : M (proc S) Z :=
  len ← strlen s; let len := if n <? len then n else len in
  p ← malloc fuel (len + 1);
  (if nonzero p then memcpy p s len;; ustore 1 (p + len) 0 else mret tt);; mret p.

(** ** Numbers *)

Definition is_space (c : Z) : bool := (c =? 32) || ((9 <=? c) && (c <=? 13)).
Definition skip_spaces (s : Z) : M (proc S) Z :=
  iter fuel (fun s => c ← uload 1 s; mret (if is_space c then inl (s + 1) else inr s)) s.
Definition digit_of (c : Z) : option Z :=
  if (48 <=? c) && (c <=? 57) then Some (c - 48)
  else if (97 <=? c) && (c <=? 122) then Some (c - 97 + 10)
  else if (65 <=? c) && (c <=? 90) then Some (c - 65 + 10)
  else None.
Definition sign_of (s : Z) : M (proc S) (bool * Z) :=
  c ← uload 1 s; mret (if c =? 45 then (true, s + 1) else if c =? 43 then (false, s + 1) else (false, s)).
(** The base, and where the digits are. *)
Definition base_of (s base : Z) : M (proc S) (Z * Z) :=
  if base =? 0 then
    c ← uload 1 s;
    if c =? 48 then x ← uload 1 (s + 1); mret (if is_x x then (16, s + 2) else (8, s + 1)) else mret (10, s)
  else if base =? 16 then
    c ← uload 1 s;
    if c =? 48 then x ← uload 1 (s + 1); mret (if is_x x then (16, s + 2) else (16, s)) else mret (16, s)
  else mret (base, s).
Definition digit_turn (base : Z) (at_ : Z * Z) : M (proc S) (Z * Z + Z * Z) :=
  let '(val, s) := at_ in
  c ← uload 1 s;
  mret (match digit_of c with
        | Some d => if base <=? d then inr (val, s) else inl (u64 (val * base + d), s + 1)
        | None => inr (val, s)
        end).
(** The text both functions read: a sign, a value of 64 bits, and its end. *)
Definition scan_number (nptr base : Z) : M (proc S) (bool * Z * Z) :=
  s ← skip_spaces nptr;
  '(neg, s) ← sign_of s;
  '(base, s) ← base_of s base;
  '(val, s) ← iter fuel (digit_turn base) (0, s);
  mret (neg, val, s).
Definition set_end (endptr s : Z) : M (proc S) unit := if nonzero endptr then ustore 8 endptr s else mret tt.
Definition strtol (nptr endptr base : Z) : M (proc S) Z :=
  '(neg, val, s) ← scan_number nptr base; set_end endptr s;; mret (if neg : bool then s64 (- s64 val) else s64 val).
Definition strtoul (nptr endptr base : Z) : M (proc S) Z :=
  '(neg, val, s) ← scan_number nptr base; set_end endptr s;; mret (if neg : bool then u64 (- val) else val).
Definition atoi (nptr : Z) : M (proc S) Z := r ← strtol nptr 0 10; mret (s32 r).
End strings.

(** ** What the loops read *)

Section spec.
Context {S : Type} `{ProcessLaws S}.

(** The text [l] at [p] in the memory from [lo] to [hi]. *)
Definition text_at (lo hi p : Z) (l : list Z) (s : proc S) : Prop :=
  region lo hi s /\ cstr (umem s) p l /\ lo <= p /\ p + Z.of_nat (length l) + 1 <= hi.

Lemma load_1 m p : load_le 1 m p = m p.
Proof. cbn. lia. Qed.
Lemma uload_char E lo hi p s (Q : Z -> proc S -> Prop) : region lo hi s -> lo <= p -> p + 1 <= hi -> Q (umem s p) s -> wp E (uload 1 p) s Q.
Proof. intros Hr Hp Hn HQ. eapply uload_wp; [exact Hr|done|lia|]. by rewrite load_1. Qed.
Lemma text_cons lo hi p c l s : text_at lo hi p (c :: l) s -> 0 < c < 256 /\ umem s p = c /\ region lo hi s /\ lo <= p /\ p + 1 <= hi /\ text_at lo hi (p + 1) l s.
Proof. intros (Hr & (Hc & Hm & Hl)%cstr_cons & Hp & Hn). cbn [length] in Hn. split_and!; try done; try lia. split_and!; try done; lia. Qed.
Lemma text_nil lo hi p s : text_at lo hi p [] s -> umem s p = 0 /\ region lo hi s /\ lo <= p /\ p + 1 <= hi.
Proof. intros (Hr & Hc%cstr_nil & Hp & Hn). cbn [length] in Hn. split_and!; done || lia. Qed.

Lemma strlen_ok lo hi l fuel p s : text_at lo hi p l s -> (length l < fuel)%nat ->
  returns (strlen fuel p) s (fun n s' => n = Z.of_nat (length l) /\ s' = s).
Proof.
  intros Ht Hf. unfold strlen.
  apply (wp_iter _ (fun x s' => s' = s /\ exists pre rest, l = pre ++ rest /\ x.2 = Z.of_nat (length pre) /\ text_at lo hi x.1 rest s)
    (fun x _ => Z.to_nat (Z.of_nat (length l) - x.2))).
  - intros [q n] s' (-> & pre & rest & -> & Hn & Hq). cbn [fst snd] in *. wp_step. rewrite length_app. destruct rest as [|c rest].
    + apply text_nil in Hq as (Hz & Hr & ? & ?). eapply uload_char; [done..|]. rewrite Hz. apply wp_ret. split; [cbn; lia|done].
    + apply text_cons in Hq as (Hc & Hz & Hr & ? & ? & Ht'). eapply uload_char; [done..|]. rewrite Hz, nonzero_pos by lia. apply wp_ret. split; [|cbn; lia].
      split; [done|]. exists (pre ++ [c]), rest. rewrite <- app_assoc, length_app. cbn. split_and!; try done. lia.
  - split; [done|]. exists [], l. by split_and!.
  - cbn. lia.
Qed.

(** strcmp() is the order of the texts. *)
Lemma strcmp_ok lo hi l k fuel p q s : text_at lo hi p l s -> text_at lo hi q k s -> (length l < fuel)%nat ->
  returns (strcmp fuel p q) s (fun r s' => r = bytes_diff l k /\ s' = s).
Proof.
  unfold strcmp. revert p q k fuel. induction l as [|c l IH]; intros p q k [|fuel] Hp Hq Hf; cbn [length] in Hf; try lia; cbn [iter].
  - apply text_nil in Hp as (Hz & Hr & ? & ?). do 2 wp_step. eapply uload_char; [done..|]. wp_step. rewrite Hz. cbn [nonzero Z.eqb negb andb].
    destruct k as [|d k].
    + apply text_nil in Hq as (Hz' & _ & ? & ?). eapply uload_char; [done..|]. do 2 apply wp_ret. by rewrite Hz'.
    + apply text_cons in Hq as (Hd & Hz' & _ & ? & ? & _). eapply uload_char; [done..|]. do 2 apply wp_ret. rewrite Hz'. split; [|done]. cbn. lia.
  - apply text_cons in Hp as (Hc & Hz & Hr & ? & ? & Ht'). do 2 wp_step. eapply uload_char; [done..|]. wp_step. rewrite Hz, nonzero_pos by lia. cbn [andb].
    destruct k as [|d k].
    + apply text_nil in Hq as (Hz' & _ & ? & ?). eapply uload_char; [done..|]. rewrite Hz'. replace (c =? 0) with false by blia. do 2 apply wp_ret. split; [cbn; lia|done].
    + apply text_cons in Hq as (Hd & Hz' & _ & ? & ? & Hk). eapply uload_char; [done..|]. rewrite Hz'. cbn [bytes_diff].
      destruct (c =? d); apply wp_ret; [apply IH; done || lia|by apply wp_ret].
Qed.

(** A text that was stored. *)
Lemma stored_text lo hi p l m s : region lo hi s -> lo <= p -> p + Z.of_nat (length l) + 1 <= hi -> Forall (fun c => 0 < c < 256) l ->
  (forall v, p <= v < p + Z.of_nat (length l) + 1 -> umem s v = store_bytes m p (l ++ [0]) v) -> text_at lo hi p l s.
Proof.
  intros Hr Hlo Hhi Hl Hm. split_and!; try done. split_and!; [done| |].
  - intros i c Hc. apply lookup_lt_Some in Hc as Hi. rewrite Hm, store_bytes_at by lia. replace (Z.to_nat _) with i by lia.
    rewrite lookup_app_l, Hc by done. replace (_ <=? _) with true by blia. apply u8_small. pose proof (Forall_lookup_1 _ _ _ _ Hl Hc). cbn beta in *. lia.
  - rewrite Hm, store_bytes_at by lia. replace (Z.to_nat _) with (length l) by lia. rewrite list_lookup_middle by done. by replace (_ <=? _) with true by blia.
Qed.

(** ** Numbers *)

Definition is_sign (c : Z) : bool := (c =? 45) || (c =? 43).
(** A sign in front of the text [l]. *)
Inductive sign_text : bool -> list Z -> list Z -> Prop :=
| sign_minus l : sign_text true [45] l
| sign_plus l : sign_text false [43] l
| sign_none l : is_sign (hd 0 l) = false -> sign_text false [] l.
(** The base asked for, the base in use, and the prefix in front of the digits. *)
Inductive base_prefix : Z -> Z -> list Z -> list Z -> Prop :=
| base_given b l : 2 <= b <= 36 -> b <> 16 -> base_prefix b b [] l
| base_hex base x l : base = 0 \/ base = 16 -> is_x x = true -> base_prefix base 16 [48; x] l
| base_hex_plain l : hd 0 l <> 48 -> base_prefix 16 16 [] l
| base_octal l : is_x (hd 0 l) = false -> base_prefix 0 8 [48] l
| base_decimal l : hd 0 l <> 48 -> base_prefix 0 10 [] l.
Definition stops (b : Z) (rest : list Z) : Prop := match digit_of (hd 0 rest) with Some d => b <= d | None => True end.

Lemma uload_hd E lo hi p l s (Q : Z -> proc S -> Prop) : text_at lo hi p l s -> Q (hd 0 l) s -> wp E (uload 1 p) s Q.
Proof.
  intros Ht HQ. destruct l as [|c l].
  - apply text_nil in Ht as (Hz & Hr & ? & ?). eapply uload_char; [done..|]. by rewrite Hz.
  - apply text_cons in Ht as (_ & Hz & Hr & ? & ? & _). eapply uload_char; [done..|]. by rewrite Hz.
Qed.
Lemma text_app lo hi p l k s : text_at lo hi p (l ++ k) s -> text_at lo hi (p + Z.of_nat (length l)) k s.
Proof.
  revert p. induction l as [|c l IH]; intros p Ht; cbn [app length] in *; [by rewrite Z.add_0_r|].
  apply text_cons in Ht as (_ & _ & _ & _ & _ & Ht%IH). by replace (p + Z.of_nat (Datatypes.S (length l))) with (p + 1 + Z.of_nat (length l)) by lia.
Qed.
Lemma skip_spaces_ok lo hi sp l fuel p s : text_at lo hi p (sp ++ l) s -> Forall (fun c => is_space c = true) sp -> is_space (hd 0 l) = false ->
  (length sp < fuel)%nat -> returns (skip_spaces fuel p) s (fun q s' => q = p + Z.of_nat (length sp) /\ s' = s).
Proof.
  unfold skip_spaces. revert p fuel. induction sp as [|c sp IH]; intros p [|fuel] Ht Hsp Hl Hf; cbn [length app] in *; try lia; cbn [iter].
  - do 2 wp_step. eapply uload_hd; [done|]. apply wp_ret. rewrite Hl. apply wp_ret. split; [lia|done].
  - apply Forall_cons_iff in Hsp as [Hc Hsp]. do 2 wp_step. eapply uload_hd; [done|]. cbn [hd]. apply wp_ret. rewrite Hc.
    apply text_cons in Ht as (_ & _ & _ & _ & _ & Ht). eapply wp_mono; [by apply IH; [..|lia]|]. cbn beta. intros q s' [-> ->]. split; [lia|done].
Qed.
Lemma sign_of_ok lo hi neg sg l p s : text_at lo hi p (sg ++ l) s -> sign_text neg sg l ->
  returns (sign_of p) s (fun r s' => r = (neg, p + Z.of_nat (length sg)) /\ s' = s).
Proof.
  intros Ht Hsg. unfold sign_of. wp_step. eapply uload_hd; [done|]. apply wp_ret. destruct Hsg as [l|l|l Hl]; [done..|]. cbn [app length] in *.
  unfold is_sign in Hl. apply orb_false_elim in Hl as [-> ->]. by rewrite Z.add_0_r.
Qed.
Lemma base_of_ok lo hi base b pre l p s : text_at lo hi p (pre ++ l) s -> base_prefix base b pre l ->
  returns (base_of p base) s (fun r s' => r = (b, p + Z.of_nat (length pre)) /\ s' = s).
Proof.
  intros Ht Hb. unfold base_of. destruct Hb as [b l H2 H16|base x l Hbase Hx|l Hl|l Hl|l Hl]; cbn [app length] in *.
  - replace (b =? 0) with false by blia. replace (b =? 16) with false by blia. apply wp_ret. by rewrite Z.add_0_r.
  - pose proof Ht as (_ & _ & _ & _ & _ & Ht')%text_cons. destruct Hbase as [-> | ->]; cbn [Z.eqb Pos.eqb]; wp_step; (eapply uload_hd; [exact Ht|]); cbn [hd Z.eqb Pos.eqb];
      wp_step; (eapply uload_hd; [exact Ht'|]); cbn [hd]; rewrite Hx; by apply wp_ret.
  - cbn [Z.eqb Pos.eqb]. wp_step. eapply uload_hd; [exact Ht|]. apply Z.eqb_neq in Hl as ->. apply wp_ret. by rewrite Z.add_0_r.
  - pose proof Ht as (_ & _ & _ & _ & _ & Ht')%text_cons. cbn [Z.eqb]. wp_step. eapply uload_hd; [exact Ht|]. cbn [hd Z.eqb Pos.eqb].
    wp_step. eapply uload_hd; [exact Ht'|]. rewrite Hl. by apply wp_ret.
  - cbn [Z.eqb]. wp_step. eapply uload_hd; [exact Ht|]. apply Z.eqb_neq in Hl as ->. apply wp_ret. by rewrite Z.add_0_r.
Qed.
Lemma digit_of_dig up d : 0 <= d < 36 -> digit_of (dig up d) = Some d.
Proof. intros Hd. unfold digit_of, dig. destruct (Z.ltb_spec d 10); [|destruct up]; repeat case_test; to_prop; f_equal; lia. Qed.
Lemma digits_ok lo hi b up ds rest fuel p v s : text_at lo hi p ((dig up <$> ds) ++ rest) s -> 2 <= b <= 36 -> Forall (fun d => 0 <= d < b) ds -> stops b rest ->
  (length ds < fuel)%nat -> 0 <= v ->
  returns (iter fuel (digit_turn b) (u64 v, p)) s (fun r s' => r = (u64 (digits_val b ds v), p + Z.of_nat (length ds)) /\ s' = s).
Proof.
  intros Ht Hb Hds Hrest Hf. revert fuel p v Ht Hf. induction Hds as [|d ds Hd Hds IH]; intros [|fuel] p v Ht Hf Hv; cbn [length fmap list_fmap app] in *; try lia; cbn [iter].
  - wp_step. unfold digit_turn. wp_step. eapply uload_hd; [exact Ht|]. apply wp_ret. unfold stops in Hrest. rewrite Z.add_0_r.
    destruct (digit_of (hd 0 rest)) as [d|]; [replace (b <=? d) with true by blia|]; by apply wp_ret.
  - wp_step. unfold digit_turn at 1. wp_step. eapply uload_hd; [exact Ht|]. cbn [hd]. rewrite digit_of_dig by lia. replace (b <=? d) with false by blia. apply wp_ret.
    apply text_cons in Ht as (_ & _ & _ & _ & _ & Ht). replace (u64 (u64 v * b + d)) with (u64 (v * b + d)) by (unfold u64; zlia).
    eapply wp_mono; [by apply IH; [..|lia|lia]|]. cbn beta. intros r s' [-> ->]. split; [|done]. f_equal. lia.
Qed.

(** The text of a number: blanks, sign, prefix, digits, and what follows. *)
Definition number_at (lo hi p base : Z) (neg : bool) (v len : Z) (fuel : nat) (s : proc S) : Prop :=
  exists sp sg pre b up ds rest, text_at lo hi p (sp ++ sg ++ pre ++ (dig up <$> ds) ++ rest) s /\
    Forall (fun c => is_space c = true) sp /\ is_space (hd 0 (sg ++ pre ++ (dig up <$> ds) ++ rest)) = false /\
    sign_text neg sg (pre ++ (dig up <$> ds) ++ rest) /\ base_prefix base b pre ((dig up <$> ds) ++ rest) /\
    Forall (fun d => 0 <= d < b) ds /\ stops b rest /\
    v = digits_val b ds 0 /\ len = Z.of_nat (length (sp ++ sg ++ pre ++ ds)) /\ (length (sp ++ sg ++ pre ++ ds) < fuel)%nat.
Lemma base_prefix_range base b pre l : base_prefix base b pre l -> 2 <= b <= 36.
Proof. intros []; lia. Qed.
Lemma scan_number_ok lo hi p base neg v len fuel s : number_at lo hi p base neg v len fuel s ->
  returns (scan_number fuel p base) s (fun r s' => r = (neg, u64 v, p + len) /\ s' = s).
Proof.
  intros (sp & sg & pre & b & up & ds & rest & Ht & Hsp & Hns & Hsg & Hpre & Hds & Hst & -> & -> & Hf). rewrite !length_app in *.
  unfold scan_number. wp_step. eapply wp_mono; [apply (skip_spaces_ok lo hi sp _ _ _ _ Ht); done || lia|]. cbn beta. intros q s' [-> ->].
  apply text_app in Ht. wp_step. eapply wp_mono; [by apply (sign_of_ok lo hi neg sg _ _ _ Ht)|]. cbn beta. intros r s' [-> ->]. cbn iota beta.
  apply text_app in Ht. wp_step. eapply wp_mono; [by apply (base_of_ok lo hi base b pre _ _ _ Ht)|]. cbn beta. intros r s' [-> ->]. cbn iota beta.
  apply text_app in Ht. wp_step. pose proof (base_prefix_range _ _ _ _ Hpre).
  eapply wp_mono; [apply (digits_ok lo hi b up ds rest fuel _ 0 s Ht); try done; lia|]. cbn beta. intros r s' [-> ->]. cbn iota beta. apply wp_ret.
  split; [|done]. f_equal. lia.
Qed.
Definition ends (lo hi endptr e : Z) (s s' : proc S) : Prop := wrote lo hi s (if nonzero endptr then store_le 8 (umem s) endptr e else umem s) s'.
Lemma set_end_ok lo hi endptr e s : region lo hi s -> endptr = 0 \/ (lo <= endptr /\ endptr + 8 <= hi) ->
  returns (set_end endptr e) s (fun _ s' => ends lo hi endptr e s s').
Proof.
  intros Hr He. unfold set_end, ends. pose proof (rg_lo _ _ _ Hr). destruct He as [->|[? ?]]; [by apply wp_ret, wrote_refl|]. unfold nonzero. destruct (negb _) eqn:Hz.
  - eapply ustore_wp; [exact Hr|lia|lia|done].
  - by apply wp_ret, wrote_refl.
Qed.

(** Strtol() and strtoul() read the number a text gives: blanks, a sign, the prefix
    that goes with the base and its digits, modulo the width of the result; the end
    pointer is stored behind the last digit. *)
Theorem strto_reads fuel lo hi p base neg v len endptr s : number_at lo hi p base neg v len fuel s ->
  endptr = 0 \/ (lo <= endptr /\ endptr + 8 <= hi) ->
  returns (strtol fuel p endptr base) s (fun r s' => r = s64 (if neg : bool then - v else v) /\ ends lo hi endptr (p + len) s s') /\
  returns (strtoul fuel p endptr base) s (fun r s' => r = u64 (if neg : bool then - v else v) /\ ends lo hi endptr (p + len) s s').
Proof.
  intros Hn He. assert (region lo hi s) as Hr by (destruct Hn as (? & ? & ? & ? & ? & ? & ? & [? _] & _); done).
  split; [unfold strtol|unfold strtoul]; wp_step; (eapply wp_mono; [by apply (scan_number_ok lo hi p base neg v len)|]); cbn beta; intros r s' [-> ->]; cbn iota beta; wp_step;
    (eapply wp_mono; [by apply (set_end_ok lo hi)|]); cbn beta; intros [] s' Hs'; apply wp_ret; (split; [|done]); destruct neg; unfold s64, u64; zlia.
Qed.

(** ** A copy of a text *)

Lemma text_same lo hi p l s lo' hi' s' : text_at lo hi p l s -> region lo' hi' s' -> lo' <= p -> p + Z.of_nat (length l) + 1 <= hi' ->
  (forall v, p <= v < p + Z.of_nat (length l) + 1 -> umem s' v = umem s v) -> text_at lo' hi' p l s'.
Proof. intros (_ & Hc & _) Hr Hp Hn Hv. split_and!; try done. apply (cstr_same_on (umem s)); [|done]. intros v Hv'. symmetry. by apply Hv. Qed.
Lemma text_moved lo hi p q l s lo' hi' s' : text_at lo hi p l s -> region lo' hi' s' -> lo' <= q -> q + Z.of_nat (length l) + 1 <= hi' ->
  (forall i, 0 <= i < Z.of_nat (length l) + 1 -> umem s' (q + i) = umem s (p + i)) -> text_at lo' hi' q l s'.
Proof.
  intros (_ & (Hl & Hi & Hz) & _) Hr Hq Hn Hv. split_and!; try done. split_and!; [done| |].
  - intros i c Hc. apply lookup_lt_Some in Hc as Hlt. rewrite Hv by lia. by apply Hi.
  - rewrite Hv by lia. done.
Qed.
(** Strdup() of a text in a block in use gives a block of its own with the same
    text, and keeps the bytes of every block in use; or 0 with ENOMEM. *)
Theorem strdup_copies fuel lo hi bs p n l s :
  heap_ok lo hi bs s -> (p, n) ∈ live bs -> text_at lo hi p l s -> Z.of_nat (length l) < n ->
  room_for lo hi (align8 (Z.of_nat (length l) + 1)) s -> (length bs < fuel)%nat -> (length l < fuel)%nat ->
  safe (strdup fuel p) s (fun q s' =>
    (q = 0 /\ errno s' = ENOMEM /\ heap_ok lo hi bs s' /\ kept bs s s') \/
    (exists hi' bs' k, heap_ok lo hi' bs' s' /\ live bs' ≡ₚ (q, k) :: live bs /\ text_at lo hi' q l s' /\ kept bs s s')).
Proof.
  intros Hok Hp Ht Hln Hroom Hfb Hfl. unfold strdup. wp_step. eapply wp_mono; [apply (wp_weaken (fun _ => False)); [done|]; by apply (strlen_ok lo hi l)|].
  cbn beta. intros len s' [-> ->]. cbv zeta. pose proof (live_bounds _ _ _ _ _ _ Hok Hp) as Hb. pose proof (rg_hi _ _ _ (ho_region _ _ _ _ Hok)).
  set (m := Z.of_nat (length l) + 1) in *. wp_step. eapply wp_mono; [apply (malloc_ok fuel lo hi bs m s Hok Hroom); lia|]. cbn beta.
  pose proof (align8_spec m ltac:(lia)). intros q s1 [(-> & He & Hok1 & Hk)|(hi' & bs1 & k & Hok1 & Hl1 & Hk & Hap & Hkeep & _ & _)]%outcome_apart.
  { change (nonzero 0) with false. cbn iota. do 2 wp_step. apply wp_ret. by left. }
  assert ((q, k) ∈ live bs1) as Hq by (rewrite Hl1; by left). assert ((p, n) ∈ live bs1) as Hp1 by (rewrite Hl1; by right).
  pose proof (live_bounds _ _ _ _ _ _ Hok1 Hq). pose proof (live_bounds _ _ _ _ _ _ Hok1 Hp1). pose proof (Hap p n Hp).
  unfold nonzero. replace (q =? 0) with false by blia. cbn [negb]. unfold memcpy. do 3 wp_step.
  eapply wp_mono; [apply (wp_weaken (fun _ => False)); [done|]; apply (copy_ok lo hi' q p (Z.to_nat m) s1 (ho_region _ _ _ _ Hok1)); lia|].
  cbn beta. intros _ s2 (mm & Hw & Hm). rewrite Z2Nat.id in Hm by lia. do 3 apply wp_ret. right. pose proof Hq as (b & Hb' & _ & Hqb & Hkb)%live_block.
  exists hi', bs1, k. split; [|split; [done|split]].
  - apply (payload_write lo hi' bs1 b s1 mm s2 Hok1 Hb' Hw). intros v Hv. rewrite Hm. replace (_ && _) with false; [done|]. unfold b_end, b_ptr, SIZEOF_block_hdr in *. blia.
  - apply (text_moved lo hi p q l s); [done|apply Hw|lia|lia|]. intros i Hi. rewrite <- (wr_mem _ _ _ _ _ Hw), Hm by lia.
    replace (_ && _) with true by blia. replace (p + (q + i - q)) with (p + i) by lia. apply Hkeep, in_live_iff. exists p, n. split; [done|lia].
  - intros v Hv. rewrite <- Hkeep by done. apply in_live_iff in Hv as (r & j & Hr & Hv).
    pose proof (live_bounds _ _ _ _ _ _ Hok1 ltac:(rewrite Hl1; right; exact Hr)). rewrite <- (wr_mem _ _ _ _ _ Hw), Hm by lia.
    pose proof (Hap r j Hr). by replace (_ && _) with false by blia.
Qed.
End spec.

(** ** Witnesses *)

Definition text_proc (l : list Z) : proc flat := Proc (Flat (store_bytes (fun _ => 0) 0x40000000 (l ++ [0])) 0x40001000) 0 0 (fun _ => 0) (fun _ => 0).
Lemma page_region m : mem_ok m -> (forall v, 0x40001000 <= v -> m v = 0) ->
  region 0x40000000 0x40001000 (Proc (Flat m 0x40001000) 0 0 (fun _ => 0) (fun _ => 0)).
Proof.
  intros Hm H0. split; [|lia..]. exists (page_set 0x40000 1). split; [|intros v Hv; apply elem_page_set; zlia]. split; [|by vm_compute]. split_and!; try done.
  intros p Hp%elem_page_set. cbn. lia.
Qed.
Lemma text_proc_text l : Forall (fun c => 0 < c < 256) l -> (length l < 4096)%nat -> text_at 0x40000000 0x40001000 0x40000000 l (text_proc l).
Proof.
  intros Hl Hn. apply (stored_text _ _ _ _ (fun _ => 0)); [|lia|lia|done|].
  - apply page_region; [apply mem_ok_store_bytes; intros a; lia|]. intros v Hv. rewrite store_bytes_at, lookup_ge_None_2; [done|]. rewrite length_app. cbn. lia.
  - intros v Hv. unfold umem, byte_at. cbn. by replace (_ && _) with true by blia.
Qed.
(** " -0x1Fz" is the number -31 in base 16. *)
Definition number_sample : list Z := [32; 45; 48; 120; 49; 70; 122].
Lemma number_sample_at : number_at 0x40000000 0x40001000 0x40000000 0 true 31 6 10 (text_proc number_sample).
Proof.
  exists [32], [45], [48; 120], 16, true, [1; 15], [122]. split_and!; [apply text_proc_text; [repeat constructor; lia|cbn; lia]| | | | | | | | |].
  - repeat constructor.
  - done.
  - constructor.
  - apply base_hex; [by left|done].
  - repeat constructor; lia.
  - unfold stops. cbn. lia.
  - done.
  - done.
  - cbn. lia.
Qed.
Lemma strto_reads_witness :
  returns (strtol 10 0x40000000 0x40000800 0) (text_proc number_sample) (fun r _ => r = -31) /\
  returns (strtoul 10 0x40000000 0x40000800 0) (text_proc number_sample) (fun r _ => r = 2^64 - 31).
Proof.
  destruct (strto_reads 10 0x40000000 0x40001000 0x40000000 0 true 31 6 0x40000800 (text_proc number_sample) number_sample_at ltac:(right; lia)) as [H1 H2].
  split; [eapply wp_mono; [exact H1|]|eapply wp_mono; [exact H2|]]; cbn beta; by intros r s' [-> _].
Defined.
Lemma strdup_copies_witness : safe (strdup 10 0x40000018) proc_taken (fun q s' => q <> 0 -> exists hi, text_at 0x40000000 hi q [104; 105] s').
Proof.
  eapply wp_mono; [apply (strdup_copies 10 0x40000000 0x40010000 taken_blocks 0x40000018 104 [104; 105] proc_taken proc_taken_ok); [by left| | |split; by vm_compute|cbn; lia..]|].
  - split; [apply proc_taken_ok|]. split; [|cbn; lia]. split_and!; [repeat constructor; lia| |by vm_compute]. intros [|[|i]] c Hc; cbn in Hc; simplify_eq; by vm_compute.
  - cbn. lia.
  - cbn beta. intros q s' [[-> _]|(hi & bs & k & _ & _ & Ht & _)] Hq; [done|]. by exists hi.
Defined.
