(* ===== verification/LibcPrintf.v ===== *)
(** * Formatted output in user programs (vsnprintf() and its callers in src/ports/libc/libc.c)

    The format and the strings are read from the program's memory; the buffer of 1024
    bytes is the function's own. A variable argument is a 64-bit word. *)

From S2P Require Import Prelude Pmm Mem Strings Vmm UserSpace Heap Sched System Syscall SyscallMem Printf Process Libc LibcHeap LibcHeapSpec LibcString.

Section printf.
Context {S : Type} `{Process S} (fuel : nat).

(** char buf[1024] up to pos; the last byte is kept for the terminator. *)
Definition room (buf : list Z) : bool := Z.of_nat (length buf) <? 1023.
Definition put_char (c : Z) (buf : list Z) : M (proc S) (list Z) :=
  if Z.of_nat (length buf) <? 1024 then mret (buf ++ [c]) else ub.
Definition put_text (cs buf : list Z) : list Z := buf ++ take (1023 - length buf) cs.
Definition put_string (p : Z) (buf : list Z) : M (proc S) (list Z) :=
  iter fuel (fun '(p, buf) => c ← uload 1 p; mret (if nonzero c && room buf then inl (p + 1, buf ++ [c]) else inr buf)) (p, buf).
Definition next_arg (args : list Z) : M (proc S) (Z * list Z) := match args with a :: args' => mret (a, args') | [] => ub end.
Definition null_string : list Z := [40; 110; 117; 108; 108; 41].
(** char tmp[16]: the digits, last first. *)
Definition tmp_digits (base val : Z) : list Z := if val =? 0 then [48] else digits_rev 64 false base val.

(** The character behind a percent sign at [fmt]. *)
Definition convert (d fmt : Z) (buf args : list Z) : M (proc S) (Z * list Z * list Z) :=
  if d =? 115 then
    '(p, args) ← next_arg args;
    buf ← (if p =? 0 then mret (put_text null_string buf) else put_string p buf);
    mret (fmt + 2, buf, args)
  else if d =? 100 then
    '(a, args) ← next_arg args;
    let val := s32 a in
    if val =? - 2^31 then ub
    else mret (fmt + 2, put_text (rev (tmp_digits 10 (Z.abs val))) (if val <? 0 then buf ++ [45] else buf), args)
  else if d =? 117 then
    '(a, args) ← next_arg args; mret (fmt + 2, put_text (rev (tmp_digits 10 (u32 a))) buf, args)
  else if d =? 120 then
    '(a, args) ← next_arg args; mret (fmt + 2, put_text (rev (tmp_digits 16 (u32 a))) buf, args)
  else
    buf ← put_char 37 buf;
    if nonzero d then buf ← put_char d buf; mret (fmt + 2, buf, args) else mret (fmt + 1, buf, args).
Definition format_turn (at_ : Z * list Z * list Z) : M (proc S) (Z * list Z * list Z + list Z) :=
  let '(fmt, buf, args) := at_ in
  c ← uload 1 fmt;
  if nonzero c && room buf then
    if negb (c =? 37) then mret (inl (fmt + 1, buf ++ [c], args))
    else d ← uload 1 (fmt + 1); r ← convert d fmt buf args; mret (inl r)
  else mret (inr buf).
Definition vsnprintf (str size format : Z) (ap : list Z) : M (proc S) Z :=
  buf ← iter fuel format_turn (format, [], ap);
  let pos := Z.of_nat (length buf) in
  if 1024 <=? pos then ub
  else
    let copy_len := if pos <? s32 size then pos else u64 (size - 1) in
    if 1024 <? copy_len then ub
    else ustore_bytes str (take (Z.to_nat copy_len) buf ++ [0]);; mret pos.
Definition snprintf (str size format : Z) (ap : list Z) : M (proc S) Z := vsnprintf str size format ap.
Definition sprintf (str format : Z) (ap : list Z) : M (proc S) Z := vsnprintf str 65536 format ap.
(** [buf] is the caller's local buffer of 1024 bytes. *)
Definition printf (buf format : Z) (ap : list Z) : M (proc S) Z := n ← vsnprintf buf 1024 format ap; write 1 buf (u64 n);; mret n.
(** The length is asked for with a buffer of no bytes. *)
Definition vasprintf (strp fmt : Z) (ap : list Z) : M (proc S) Z :=
  len ← vsnprintf 0 0 fmt ap;
  if len <? 0 then mret (-1)
  else
    str ← malloc fuel (len + 1);
    if str =? 0 then mret (-1)
    else
      len2 ← vsnprintf str (len + 1) fmt ap;
      if len2 <? 0 then free fuel str;; mret (-1) else ustore 8 strp str;; mret len2.
Definition asprintf (strp fmt : Z) (ap : list Z) : M (proc S) Z := vasprintf strp fmt ap.
Definition putchar (ch c : Z) : M (proc S) Z := ustore 1 ch c;; write 1 ch 1;; mret c.
Definition puts (nl s : Z) : M (proc S) Z := n ← strlen fuel s; write 1 s n;; ustore 1 nl 10;; write 1 nl 1;; mret 0.
End printf.

(** ** What a format stands for *)

Section spec.
Context {S : Type} `{ProcessLaws S}.

Definition conversion_of (c : Z) : bool := (c =? 115) || (c =? 100) || (c =? 117) || (c =? 120).
Definition dec_text (v : Z) : list Z := (if v <? 0 then [45] else []) ++ number_text false 10 (Z.abs v).
(** A piece of a format, the arguments it takes, and its text; a directive that is not
    known is printed as it is. *)
Inductive directive (lo hi : Z) (s : proc S) : list Z -> list Z -> list Z -> Prop :=
| dir_plain c : c <> 37 -> directive lo hi s [c] [] [c]
| dir_string p x : text_at lo hi p x s -> p <> 0 -> directive lo hi s [37; 115] [p] x
| dir_null : directive lo hi s [37; 115] [0] null_string
| dir_dec v : s32 v <> - 2^31 -> directive lo hi s [37; 100] [v] (dec_text (s32 v))
| dir_unsigned v : directive lo hi s [37; 117] [v] (number_text false 10 (u32 v))
| dir_hex v : directive lo hi s [37; 120] [v] (number_text false 16 (u32 v))
| dir_other c : conversion_of c = false -> directive lo hi s [37; c] [] [37; c].
Inductive formats (lo hi : Z) (s : proc S) : list Z -> list Z -> list Z -> Prop :=
| fmt_end args : formats lo hi s [] args []
| fmt_step d a x f args t : directive lo hi s d a x -> formats lo hi s f args t -> formats lo hi s (d ++ f) (a ++ args) (x ++ t).

Lemma put_text_fits cs buf : (length (buf ++ cs) <= 1023)%nat -> put_text cs buf = buf ++ cs.
Proof. intros Hl. unfold put_text. rewrite length_app in Hl. by rewrite take_ge by lia. Qed.
Lemma room_fits buf cs : (length (buf ++ cs) <= 1022)%nat -> room buf = true.
Proof. rewrite length_app. unfold room. intros. apply Z.ltb_lt. lia. Qed.
Lemma put_string_ok lo hi fuel x p buf s : text_at lo hi p x s -> (length x < fuel)%nat -> (length (buf ++ x) <= 1022)%nat ->
  returns (put_string fuel p buf) s (fun b s' => b = buf ++ x /\ s' = s).
Proof.
  unfold put_string. revert p buf fuel. induction x as [|c x IH]; intros p buf [|fuel] Ht Hf Hl; cbn [length] in Hf; try lia; cbn [iter].
  - do 2 wp_step. eapply uload_hd; [exact Ht|]. do 2 apply wp_ret. by rewrite app_nil_r.
  - do 2 wp_step. eapply uload_hd; [exact Ht|]. cbn [hd]. apply text_cons in Ht as (Hc & _ & _ & _ & _ & Ht).
    rewrite nonzero_pos, (room_fits _ _ Hl) by lia. apply wp_ret. eapply wp_mono; [apply IH; [done|lia|by rewrite <- app_assoc]|].
    cbn beta. intros b s' [-> ->]. by rewrite <- app_assoc.
Qed.
Lemma tmp_digits_text base v : 2 <= base -> 0 <= v < 2^64 -> rev (tmp_digits base v) = number_text false base v.
Proof. apply number_rev. Qed.
Lemma put_dec_fits v buf : - 2^31 < v < 2^31 -> (length (buf ++ dec_text v) <= 1023)%nat ->
  put_text (rev (tmp_digits 10 (Z.abs v))) (if v <? 0 then buf ++ [45] else buf) = buf ++ dec_text v.
Proof.
  intros Hv Hl. rewrite tmp_digits_text by lia. unfold dec_text in *. destruct (v <? 0).
  - rewrite app_assoc in *. by rewrite put_text_fits.
  - by rewrite put_text_fits.
Qed.
Lemma s32_range z : - 2^31 <= s32 z < 2^31.
Proof. unfold s32. zlia. Qed.

Lemma convert_ok lo hi fuel d a x args p buf s : directive lo hi s [37; d] a x -> d <> 0 -> (length x < fuel)%nat -> (length (buf ++ x) <= 1022)%nat ->
  returns (convert fuel d p buf (a ++ args)) s (fun r s' => r = (p + 2, buf ++ x, args) /\ s' = s).
Proof.
  intros Hd Hd0 Hf Hl. unfold convert. inversion Hd as [|p' x' Hx Hp| |v Hv|v|v|c Hc]; subst; cbn [app Z.eqb Pos.eqb]; unfold next_arg.
  - do 2 wp_step. cbn iota beta. replace (p' =? 0) with false by blia. wp_step. eapply wp_mono; [by apply (put_string_ok lo hi fuel x)|].
    cbn beta. intros b s' [-> ->]. by apply wp_ret.
  - do 2 wp_step. cbn iota beta. cbn [Z.eqb]. wp_step. do 2 apply wp_ret. by rewrite put_text_fits by lia.
  - do 2 wp_step. cbn iota beta. cbv zeta. apply Z.eqb_neq in Hv as Hv'. rewrite Hv'. apply wp_ret. rewrite put_dec_fits; [done|pose proof (s32_range v); lia|lia].
  - do 2 wp_step. apply wp_ret. pose proof (u32_range v). rewrite tmp_digits_text, put_text_fits by lia. done.
  - do 2 wp_step. apply wp_ret. pose proof (u32_range v). rewrite tmp_digits_text, put_text_fits by lia. done.
  - unfold conversion_of in Hc. repeat (apply orb_false_elim in Hc as [Hc ?Hd]). rewrite length_app in Hl. cbn in Hl. rewrite Hc, Hd1, Hd2, Hd3.
    unfold put_char. wp_step. replace (_ <? 1024) with true by blia. apply wp_ret. unfold nonzero. replace (d =? 0) with false by blia. cbn [negb].
    wp_step. replace (_ <? 1024) with true by (symmetry; apply Z.ltb_lt; rewrite length_app; cbn; lia). do 2 apply wp_ret. by rewrite <- app_assoc.
Qed.
Lemma format_turn_ok lo hi fuel d a x f args p buf s : directive lo hi s d a x -> text_at lo hi p (d ++ f) s -> (length x < fuel)%nat ->
  (length (buf ++ x) <= 1022)%nat ->
  returns (format_turn fuel (p, buf, a ++ args)) s (fun r s' => r = inl (p + Z.of_nat (length d), buf ++ x, args) /\ s' = s).
Proof.
  intros Hd Ht Hf Hl. pose proof (room_fits _ _ Hl) as Hroom. unfold format_turn. wp_step. eapply uload_hd; [exact Ht|].
  assert ((exists c, d = [c] /\ a = [] /\ x = [c] /\ c <> 37) \/ exists c, d = [37; c]) as [(c & -> & -> & -> & Hc)|[c ->]].
  { destruct Hd; [left; by eexists|right; by eexists..]. }
  - apply text_cons in Ht as (Hc0 & _). cbn [hd app]. rewrite nonzero_pos, Hroom by lia. apply Z.eqb_neq in Hc as ->. by apply wp_ret.
  - pose proof Ht as (_ & _ & _ & _ & _ & Ht')%text_cons. pose proof Ht' as (Hc0 & _)%text_cons. cbn [hd app]. rewrite Hroom. cbn [nonzero Z.eqb Pos.eqb negb andb].
    wp_step. eapply uload_hd; [exact Ht'|]. cbn [hd app]. wp_step. eapply wp_mono; [apply (convert_ok lo hi fuel c a x args p buf s Hd); lia|].
    cbn beta. intros r s' [-> ->]. by apply wp_ret.
Qed.
Lemma format_loop lo hi fuel f args t s : formats lo hi s f args t -> forall n p buf, text_at lo hi p f s -> (length f < n)%nat -> (length t < fuel)%nat ->
  (length (buf ++ t) <= 1022)%nat -> returns (iter n (format_turn fuel) (p, buf, args)) s (fun b s' => b = buf ++ t /\ s' = s).
Proof.
  intros Hf. induction Hf as [args|d a x f args t Hd Hf IH]; intros [|n] p buf Ht Hn Hfl Hl; cbn [length] in Hn; try lia; cbn [iter]; wp_step.
  - unfold format_turn. wp_step. eapply uload_hd; [exact Ht|]. do 2 apply wp_ret. by rewrite app_nil_r.
  - rewrite !length_app in *. eapply wp_mono; [apply (format_turn_ok lo hi fuel d a x f args p buf s Hd Ht); [lia|rewrite length_app; lia]|].
    cbn beta. intros r s' [-> ->]. apply text_app in Ht. assert (1 <= length d)%nat by (destruct Hd; cbn; lia).
    eapply wp_mono; [apply (IH n _ (buf ++ x) Ht); [lia|lia|rewrite !length_app; lia]|]. cbn beta. intros b s' [-> ->]. by rewrite <- app_assoc.
Qed.
Lemma vsnprintf_ok lo hi fuel str size format f args t s : formats lo hi s f args t -> text_at lo hi format f s ->
  (length f < fuel)%nat -> (length t < fuel)%nat -> (length t <= 1022)%nat -> 0 < size < 2^31 ->
  lo <= str -> str + Z.of_nat (length (take (Z.to_nat (size - 1)) t)) + 1 <= hi -> Forall (fun c => 0 <= c < 256) t ->
  returns (vsnprintf fuel str size format args) s (fun r s' => r = Z.of_nat (length t) /\
    wrote lo hi s (store_bytes (umem s) str (take (Z.to_nat (size - 1)) t ++ [0])) s').
Proof.
  intros Hf Ht Hfl Htl Hlen Hsize Hlo Hhi Hb. unfold vsnprintf. wp_step. eapply wp_mono; [by apply (format_loop lo hi fuel f args t s Hf)|].
  cbn beta. intros b s' [-> ->]. cbn [app]. cbv zeta. replace (1024 <=? _) with false by blia. rewrite s32_small by lia.
  set (n := if _ <? size then _ else _). assert (take (Z.to_nat n) t = take (Z.to_nat (size - 1)) t /\ n <= 1022) as [Hn Hn'].
  { unfold n. case_test; to_prop; [rewrite !take_ge by lia; split; [done|lia]|rewrite u64_small by lia; split; [done|lia]]. }
  replace (1024 <? n) with false by blia. rewrite Hn. wp_step. eapply ustore_bytes_wp; [apply Ht|done|rewrite length_app; cbn; lia| |].
  - apply Forall_app. split; [by apply Forall_take|repeat constructor; lia].
  - intros s' Hw. by apply wp_ret.
Qed.

(** *** Digits *)

Lemma digits_range k base v : 2 <= base -> 0 <= v < base ^ (Z.of_nat k + 1) -> Forall (fun d => 0 <= d < base) (digits k base v).
Proof.
  intros Hb. revert v. induction k as [|k IH]; intros v Hv; cbn [digits].
  - constructor; [|done]. cbn in Hv. lia.
  - destruct (Z.ltb_spec v base); [constructor; [lia|done]|]. apply Forall_app. split.
    + apply IH. rewrite Nat2Z.inj_succ, <- Z.add_1_r, Z.pow_add_r in Hv by lia. split; [apply Z.div_pos; lia|apply Z.div_lt_upper_bound; lia].
    + constructor; [apply Z.mod_pos_bound; lia|done].
Qed.
Lemma digits_short n k base v : 2 <= base -> 0 <= v < base ^ Z.of_nat (Datatypes.S n) -> (length (digits k base v) <= Datatypes.S n)%nat.
Proof.
  intros Hb. revert k v. induction n as [|n IH]; intros [|k] v Hv; cbn [digits]; try (cbn; lia).
  - cbn in Hv. replace (v <? base) with true by blia. cbn. lia.
  - destruct (v <? base); [cbn; lia|]. rewrite length_app. cbn [length]. specialize (IH k (v / base)).
    rewrite Nat2Z.inj_succ, <- Z.add_1_r, Z.pow_add_r in Hv by lia.
    enough (length (digits k base (v / base)) <= Datatypes.S n)%nat by lia. apply IH. split; [apply Z.div_pos; lia|apply Z.div_lt_upper_bound; lia].
Qed.
Lemma number_digits base v : 2 <= base -> 0 <= v < 2^64 -> Forall (fun d => 0 <= d < base) (digits 64 base v).
Proof. intros Hb Hv. apply digits_range; [done|]. split; [lia|]. apply Z.lt_le_trans with (2^(64 + 1)); [lia|]. change (Z.of_nat 64) with 64. by apply Z.pow_le_mono_l. Qed.
Lemma number_bytes base v : 2 <= base <= 16 -> 0 <= v < 2^64 -> Forall (fun c => 0 < c < 256) (number_text false base v).
Proof.
  intros Hb Hv. unfold number_text. apply Forall_fmap. eapply Forall_impl; [|apply number_digits; [|exact Hv]; lia].
  intros d Hd. cbn beta in Hd. cbn. unfold dig. case_test; to_prop; lia.
Qed.
Lemma dec_bytes_ok v : - 2^31 <= v < 2^31 -> Forall (fun c => 0 < c < 256) (dec_text v).
Proof. intros Hv. unfold dec_text. apply Forall_app. split; [destruct (v <? 0); repeat constructor; lia|apply number_bytes; lia]. Qed.
Lemma formats_bytes lo hi s f args t : formats lo hi s f args t -> Forall (fun c => 0 < c < 256) f -> Forall (fun c => 0 < c < 256) t.
Proof.
  induction 1 as [args|d a x f args t Hd Hf IH]; [done|]. intros [Hb Hbf]%Forall_app. apply Forall_app. split; [|by apply IH].
  destruct Hd as [c Hc|p x Hx Hp| |v Hv|v|v|c Hc]; [done|apply Hx|repeat constructor; lia|apply dec_bytes_ok, s32_range| | |done];
    pose proof (u32_range v); apply number_bytes; lia.
Qed.

Lemma written_text lo hi p l s s' : wrote lo hi s (store_bytes (umem s) p (l ++ [0])) s' -> lo <= p -> p + Z.of_nat (length l) + 1 <= hi ->
  Forall (fun c => 0 < c < 256) l -> text_at lo hi p l s'.
Proof. intros [Hr Hm _ _] Hlo Hhi Hl. apply (stored_text lo hi p l (umem s)); try done. intros v Hv. symmetry. apply Hm. lia. Qed.
(** C26: vsnprintf() writes the text its format stands for, cut off to the buffer and
    terminated, and returns the length of the whole text; nothing else changes. The text
    has at most 1022 characters, the room of the function's own buffer. *)
Theorem vsnprintf_formats lo hi fuel str size format f args t s : formats lo hi s f args t -> text_at lo hi format f s ->
  (length f < fuel)%nat -> (length t < fuel)%nat -> (length t <= 1022)%nat -> 0 < size < 2^31 ->
  lo <= str -> str + Z.of_nat (length (take (Z.to_nat (size - 1)) t)) + 1 <= hi ->
  returns (vsnprintf fuel str size format args) s (fun r s' => r = Z.of_nat (length t) /\
    text_at lo hi str (take (Z.to_nat (size - 1)) t) s' /\
    wrote lo hi s (store_bytes (umem s) str (take (Z.to_nat (size - 1)) t ++ [0])) s').
Proof.
  intros Hf Ht Hfl Htl Hlen Hsize Hlo Hhi. assert (Forall (fun c => 0 < c < 256) t) as Hb by (eapply formats_bytes; [exact Hf|apply Ht]).
  eapply wp_mono; [eapply (vsnprintf_ok lo hi fuel str size format f args t s); try done; eapply Forall_impl; [|exact Hb]; cbn beta; lia|].
  cbn beta. intros r s' [-> Hw]. split; [done|]. split; [|done]. by apply (written_text lo hi str _ s); [..|apply Forall_take].
Qed.

Lemma digits_cons k base v : exists d ds, digits k base v = d :: ds.
Proof. pose proof (length_digits k base v). destruct (digits k base v) as [|d ds]; [cbn in *; lia|by exists d, ds]. Qed.
Lemma dec_text_length v : - 2^31 < v < 2^31 -> (length (dec_text v) <= 11)%nat.
Proof.
  intros Hv. unfold dec_text, number_text. rewrite length_app, length_fmap. pose proof (digits_short 9 64 10 (Z.abs v) ltac:(lia)) as Hd.
  change (10 ^ Z.of_nat 10) with 10000000000 in Hd. specialize (Hd ltac:(lia)). destruct (v <? 0); cbn [length]; lia.
Qed.
Lemma dec_number lo hi p v fuel s : text_at lo hi p (dec_text v) s -> - 2^31 < v < 2^31 -> (11 < fuel)%nat ->
  number_at lo hi p 10 (v <? 0) (Z.abs v) (Z.of_nat (length (dec_text v))) fuel s.
Proof.
  intros Ht Hv Hf. pose proof (dec_text_length v Hv) as Hl. set (ds := digits 64 10 (Z.abs v)).
  assert (exists c ds', number_text false 10 (Z.abs v) = c :: ds' /\ 48 <= c < 58) as (c & ds' & Hn & Hc).
  { destruct (digits_cons 64 10 (Z.abs v)) as (d & ds' & Hds). unfold number_text. rewrite Hds. eexists _, _. split; [done|].
    assert (Forall (fun d => 0 <= d < 10) (d :: ds')) as [Hd _]%Forall_cons_iff by (rewrite <- Hds; apply number_digits; lia).
    unfold dig. replace (d <? 10) with true by blia. lia. }
  assert (Z.of_nat (length (dec_text v)) = Z.of_nat (length ((if v <? 0 then [45] else []) ++ ds))) as Hlen.
  { unfold dec_text, number_text. by rewrite !length_app, length_fmap. }
  exists [], (if v <? 0 then [45] else []), [], 10, false, ds, []. rewrite app_nil_r. change (dig false <$> ds) with (number_text false 10 (Z.abs v)). cbn [app].
  split; [exact Ht|]. split; [done|]. rewrite Hn. split_and!.
  - destruct (v <? 0); [done|]. cbn. unfold is_space. replace (c =? 32) with false by blia. cbn. blia.
  - destruct (v <? 0); constructor. cbn. unfold is_sign. blia.
  - by apply base_given.
  - apply number_digits; lia.
  - done.
  - unfold ds. rewrite digits_value; lia.
  - done.
  - lia.
Qed.
(** C28: a number printed with %d and read with atoi() is the number. *)
Theorem printed_number_read lo hi fuel str size format v s : text_at lo hi format [37; 100] s -> - 2^31 < v < 2^31 -> 12 <= size < 2^31 ->
  lo <= str -> str + 12 <= hi -> (11 < fuel)%nat ->
  returns (snprintf fuel str size format [v];; atoi fuel str) s (fun r _ => r = v).
Proof.
  intros Ht Hv Hsize Hlo Hhi Hf. pose proof (dec_text_length v Hv) as Hl. pose proof (dec_bytes_ok v ltac:(lia)) as Hb.
  assert (formats lo hi s [37; 100] [v] (dec_text v)) as Hfm.
  { rewrite <- (app_nil_r (dec_text v)). pose proof (dir_dec lo hi s v) as Hd. rewrite s32_small in Hd by lia. by apply (fmt_step _ _ _ [37; 100] [v] (dec_text v) [] []); [apply Hd; lia|constructor]. }
  wp_step. eapply wp_mono; [eapply (vsnprintf_ok lo hi fuel str size format [37; 100] [v] _ s Hfm Ht)|]; [cbn; lia|lia..| | |].
  { rewrite take_ge by lia. lia. }
  { eapply Forall_impl; [|exact Hb]. cbn beta. lia. }
  cbn beta. intros r s' [_ Hw]. rewrite take_ge in Hw by lia. assert (text_at lo hi str (dec_text v) s') as Ht' by by (apply (written_text lo hi str _ s); [..|lia|]).
  unfold atoi, strtol. do 2 wp_step. eapply wp_mono; [by apply (scan_number_ok lo hi str 10 (v <? 0) (Z.abs v) _ fuel s' (dec_number _ _ _ _ _ _ Ht' Hv Hf))|].
  cbn beta. intros r' s1 [-> ->]. cbn iota beta. unfold set_end. change (nonzero 0) with false. cbn iota. do 3 wp_step. apply wp_ret.
  rewrite (u64_small (Z.abs v)), (s64_small (Z.abs v)) by lia. destruct (Z.ltb_spec v 0); rewrite ?(s64_small (- Z.abs v)), s32_small by lia; lia.
Qed.
End spec.

(** ** Witnesses *)

(** "x=%d %s%z", whose string argument is "hi" behind it in memory. *)
Definition format_sample : list Z := [120; 61; 37; 100; 32; 37; 115; 37; 122].
Definition sample_mem : mem := store_bytes (store_bytes (fun _ => 0) 0x40000000 (format_sample ++ [0])) 0x40000100 ([104; 105] ++ [0]).
Definition printf_proc : proc flat := Proc (Flat sample_mem 0x40001000) 0 0 (fun _ => 0) (fun _ => 0).
Lemma printf_proc_region : region 0x40000000 0x40001000 printf_proc.
Proof.
  apply page_region; [apply mem_ok_store_bytes, mem_ok_store_bytes; intros a; lia|].
  intros v Hv. unfold sample_mem. rewrite !store_bytes_at, !lookup_ge_None_2 by (cbn; lia). done.
Qed.
Lemma printf_proc_mem v : 0x40000000 <= v < 0x40001000 -> umem printf_proc v = sample_mem v.
Proof. intros Hv. unfold umem, byte_at. cbn -[sample_mem]. by replace (_ && _) with true by blia. Qed.
Lemma printf_proc_format : text_at 0x40000000 0x40001000 0x40000000 format_sample printf_proc.
Proof.
  apply (stored_text _ _ _ _ (fun _ => 0)); [apply printf_proc_region|lia|cbn; lia|repeat constructor; lia|]. intros v Hv. cbn [length format_sample] in Hv.
  rewrite printf_proc_mem by lia. unfold sample_mem. rewrite store_bytes_at. destruct (_ !! _); [|done]. by replace (_ <=? v) with false by blia.
Qed.
Lemma printf_proc_string : text_at 0x40000000 0x40001000 0x40000100 [104; 105] printf_proc.
Proof.
  apply (stored_text _ _ _ _ (store_bytes (fun _ => 0) 0x40000000 (format_sample ++ [0]))); [apply printf_proc_region|lia|cbn; lia|repeat constructor; lia|].
  intros v Hv. cbn [length] in Hv. by rewrite printf_proc_mem by lia.
Qed.
(** The text is "x=-7 hi%z"; a buffer of 6 bytes holds "x=-7 ". *)
Lemma vsnprintf_formats_witness : returns (vsnprintf 100 0x40000800 6 0x40000000 [2^32 - 7; 0x40000100]) printf_proc
  (fun r s' => r = 9 /\ text_at 0x40000000 0x40001000 0x40000800 [120; 61; 45; 55; 32] s').
Proof.
  eapply wp_mono; [apply (vsnprintf_formats 0x40000000 0x40001000 100 0x40000800 6 0x40000000 format_sample _ ([120] ++ [61] ++ dec_text (s32 (2^32 - 7)) ++ [32] ++ [104; 105] ++ [37; 122] ++ [])); [|apply printf_proc_format|cbn; lia|by vm_compute; lia|by vm_compute; lia|lia|lia|by vm_compute]|].
  - unfold format_sample. apply (fmt_step _ _ _ [120] [] [120]); [by apply dir_plain|]. apply (fmt_step _ _ _ [61] [] [61]); [by apply dir_plain|].
    apply (fmt_step _ _ _ [37; 100] [2^32 - 7]); [by apply dir_dec|]. apply (fmt_step _ _ _ [32] [] [32]); [by apply dir_plain|].
    apply (fmt_step _ _ _ [37; 115] [0x40000100] [104; 105]); [apply dir_string; [apply printf_proc_string|done]|].
    apply (fmt_step _ _ _ [37; 122] [] [37; 122]); [by apply dir_other|constructor].
  - cbn beta. intros r s' (-> & Ht & _). split; [by vm_compute|exact Ht].
Defined.
Lemma printed_number_read_witness : returns (snprintf 12 0x40000800 12 0x40000000 [2^31 - 1];; atoi 12 0x40000800) (text_proc [37; 100]) (fun r _ => r = 2^31 - 1).
Proof.
  apply (printed_number_read 0x40000000 0x40001000); [apply text_proc_text; [repeat constructor; lia|cbn; lia]|lia..].
Defined.
(** What the library prints for a format, with its result in front. *)
Definition printed (format : list Z) (args : list Z) : option (list Z) :=
  match vsnprintf 2000 0x40000800 1024 0x40000000 args (text_proc format) with
  | Done (n, s) => Some (n :: load_bytes (umem s) 0x40000800 (Z.to_nat n))
  | _ => None
  end.
(** "%%" gives two percent signs. *)
Example percent_twice : printed [37; 37] [] = Some [2; 37; 37].
Proof. vm_compute. reflexivity. Qed.
(** 1022 characters and a directive that is not known end outside of the buffer. *)
Example percent_at_end : printed (replicate 1022 97 ++ [37; 122]) [] = None.
Proof. vm_compute. reflexivity. Qed.
