(* ===== verification/LibcStdio.v ===== *)
(** * Streams, directories and descriptors of user programs (src/ports/libc/libc.c)

    FILE and DIR objects lie in the program's memory. Threads and signals are stubs;
    the emulated timer and signal descriptors are pairs of pipe ends. An argument
    [frame] is where the local variables of a function lie. *)

From S2P Require Import Prelude Pmm Mem Strings Vmm UserSpace Heap Cpu Sched Vfs Devfs UnixSocket System Syscall SyscallMem Process Libc LibcHeap LibcString LibcPrintf.

(** ** Threads and signals that are not there *)

Section stubs.
Context {S : Type} `{Process S}.

Definition pthread_create (thread : Z) : M (proc S) Z := ustore 8 thread 1;; mret 0.
Definition pthread_join (retval : Z) : M (proc S) Z := (if nonzero retval then ustore 8 retval 0 else mret tt);; mret 0.
Definition pthread_self : Z := 1.
Definition pthread_equal (t1 t2 : Z) : Z := b2z (t1 =? t2).
Definition pthread_mutex_init (mutex : Z) : M (proc S) Z := ustore 4 mutex 0;; mret 0.
Definition pthread_mutex_lock (mutex : Z) : M (proc S) Z := ustore 4 mutex 1;; mret 0.
Definition pthread_mutex_unlock (mutex : Z) : M (proc S) Z := ustore 4 mutex 0;; mret 0.
Definition pthread_cond_signal (cond : Z) : M (proc S) Z := mret 0.
Definition pthread_cond_wait (cond mutex : Z) : M (proc S) Z := mret 0.
Definition pthread_key_create (key : Z) : M (proc S) Z := ustore 4 key 1;; mret 0.
Definition pthread_getspecific (key : Z) : Z := 0.
Definition sigemptyset (set : Z) : M (proc S) Z := memset set 0 16;; mret 0.
Definition sigfillset (set : Z) : M (proc S) Z := memset set 0xFF 16;; mret 0.
Definition sigismember (set signum : Z) : Z := 0.
Definition sigaction (signum act oldact : Z) : M (proc S) Z := mret 0.
Definition kill (pid sig : Z) : M (proc S) Z := mret 0.
(** clock_gettime() of time.h *)
Definition clock_gettime (tp : Z) : M (proc S) Z := zero_time tp;; mret 0.
End stubs.

Section stdio.
Context {S : Type} `{Process S} (fuel : nat).

(** ** Descriptors *)

Definition load_int (p : Z) : M (proc S) Z := v ← uload 4 p; mret (s32 v).
Definition sys_close (fd : Z) : M (proc S) Z := syscall_raw 3 fd 0 0 0 0 0.
(** The first slot whose object has [fd] at one of the offsets. *)
Definition find_fd (slots : proc S -> Z -> Z) (offsets : list Z) (fd : Z) : M (proc S) (option (Z * Z)) :=
  for_n 32 0 1 (fun i =>
    t ← gets (fun s => slots s i);
    if nonzero t then
      hit ← foldr (fun o (m : M (proc S) bool) => v ← load_int (t + o); if v =? fd then mret true else m) (mret false) offsets;
      mret (if hit : bool then Some (i, t) else None)
    else mret None).
Definition close (fd : Z) : M (proc S) Z :=
  timer ← find_fd timerfds [0; 4] fd;
  match timer with
  | Some (i, t) =>
      modify (fun s => set_timerfds (<[i := 0]> (timerfds s)) s);;
      pthread_mutex_lock (t + 16);; ustore 4 (t + 44) 1;; pthread_cond_signal (t + 20);; pthread_mutex_unlock (t + 16);;
      pthread_join 0;;
      r ← load_int t; sys_close r;; w ← load_int (t + 4); sys_close w;;
      free fuel t;; mret 0
  | None =>
      signal ← find_fd signalfds [0; 4] fd;
      match signal with
      | Some (i, t) =>
          modify (fun s => set_signalfds (<[i := 0]> (signalfds s)) s);;
          r ← load_int t; sys_close r;; w ← load_int (t + 4); sys_close w;;
          free fuel t;; mret 0
      | None => checked (-1) (fun _ => 0) (sys_close fd)
      end
  end.

Definition free_slot (slots : proc S -> Z -> Z) : M (proc S) (option Z) :=
  for_n 32 0 1 (fun i => t ← gets (fun s => slots s i); mret (if nonzero t then None else Some i)).
(** Two pipe ends in a new object of [size] bytes; the object, or 0 with the ends closed. *)
Definition pipe_object (frame size : Z) : M (proc S) Z :=
  t ← calloc fuel 1 size;
  if t =? 0 then
    a ← load_int frame; close a;; b ← load_int (frame + 4); close b;; mret 0
  else
    a ← uload 4 frame; ustore 4 t a;; b ← uload 4 (frame + 4); ustore 4 (t + 4) b;; mret t.
Definition drop_object (frame t : Z) : M (proc S) Z :=
  free fuel t;; a ← load_int frame; close a;; b ← load_int (frame + 4); close b;; mret (-1).
Definition timerfd_create (frame : Z) : M (proc S) Z :=
  r ← pipe frame;
  if r <? 0 then mret (-1)
  else
    t ← pipe_object frame 48;
    if t =? 0 then mret (-1)
    else
      pthread_mutex_init (t + 16);;
      slot ← free_slot timerfds;
      match slot with
      | None => drop_object frame t
      | Some i => modify (fun s => set_timerfds (<[i := t]> (timerfds s)) s);; pthread_create (t + 8);; load_int frame
      end.
(** it_value is at 16, deadline at 24, active at 40. *)
Definition timerfd_settime (frame fd flags new_value : Z) : M (proc S) Z :=
  timer ← find_fd timerfds [0] fd;
  match timer with
  | None => mret (-1)
  | Some (_, t) =>
      pthread_mutex_lock (t + 16);;
      sec ← uload 8 (new_value + 16); nsec ← uload 8 (new_value + 24);
      (if (sec =? 0) && (nsec =? 0) then ustore 4 (t + 40) 0
       else
         (if nonzero (Z.land flags 1) then ustore 8 (t + 24) sec;; ustore 8 (t + 32) nsec
          else
            clock_gettime frame;;
            now_sec ← uload 8 frame; now_nsec ← uload 8 (frame + 8);
            let dsec := s64 (now_sec + sec) in let dnsec := s64 (now_nsec + nsec) in
            if 1000000000 <=? dnsec then ustore 8 (t + 24) (s64 (dsec + 1));; ustore 8 (t + 32) (dnsec - 1000000000)
            else ustore 8 (t + 24) dsec;; ustore 8 (t + 32) dnsec);;
         ustore 4 (t + 40) 1;; pthread_cond_signal (t + 20);; mret tt);;
      pthread_mutex_unlock (t + 16);; mret 0
  end.
(** No signal is a member of a set: no handler is registered. *)
Definition signalfd (frame fd mask : Z) : M (proc S) Z :=
  t ← (if negb (fd =? -1) then
         found ← find_fd signalfds [0] fd; mret (match found with Some (_, t) => t | None => 0 end)
       else
         r ← pipe frame;
         if r <? 0 then mret 0
         else
           t ← pipe_object frame 24;
           if t =? 0 then mret 0
           else
             slot ← free_slot signalfds;
             match slot with
             | None => drop_object frame t;; mret 0
             | Some i => modify (fun s => set_signalfds (<[i := t]> (signalfds s)) s);; mret t
             end);
  if t =? 0 then mret (-1)
  else bs ← uload_bytes mask 16; ustore_bytes (t + 8) bs;; load_int t.

(** ** Directories: the descriptor, 1024 bytes of entries from 4 on, and the range of them that is left *)

Definition opendir (name : Z) : M (proc S) Z :=
  fd ← open name 1;
  if fd <? 0 then mret 0
  else
    dir ← malloc fuel 1036;
    if dir =? 0 then close fd;; mret 0
    else ustore 4 dir fd;; ustore 4 (dir + 1028) 0;; ustore 4 (dir + 1032) 0;; mret dir.
Definition next_entry (dirp : Z) : M (proc S) Z :=
  pos ← load_int (dirp + 1028);
  let de := dirp + 4 + pos in
  reclen ← uload 2 (de + 16);
  ustore 4 (dirp + 1028) (pos + reclen);; mret de.
Definition readdir (dirp : Z) : M (proc S) Z :=
  pos ← load_int (dirp + 1028); end_ ← load_int (dirp + 1032);
  if end_ <=? pos then
    fd ← load_int dirp;
    r ← syscall_raw 217 fd (dirp + 4) 1024 0 0 0;
    let r := s32 r in
    if r <=? 0 then mret 0
    else ustore 4 (dirp + 1032) r;; ustore 4 (dirp + 1028) 0;; next_entry dirp
  else next_entry dirp.
Definition closedir (dirp : Z) : M (proc S) Z := fd ← load_int dirp; close fd;; free fuel dirp;; mret 0.

(** ** Streams: fd at 0, buf_ptr 8, size_ptr 16, buf 24, cap 32, len 40, is_memstream 48 *)

(** Room for [total] more bytes and a terminator. *)
Definition grow_memstream (stream total : Z) : M (proc S) bool :=
  len ← uload 8 (stream + 40); cap ← uload 8 (stream + 32);
  if cap <=? u64 (len + total) then
    buf ← uload 8 (stream + 24);
    let new_cap := u64 (cap * 2 + total) in
    new_buf ← realloc fuel buf new_cap;
    if new_buf =? 0 then mret false
    else
      ustore 8 (stream + 24) new_buf;; ustore 8 (stream + 32) new_cap;;
      buf_ptr ← uload 8 (stream + 8); ustore 8 buf_ptr new_buf;; mret true
  else mret true.
Definition append_memstream (ptr total stream : Z) : M (proc S) unit :=
  buf ← uload 8 (stream + 24); len ← uload 8 (stream + 40);
  memcpy (buf + len) ptr total;;
  ustore 8 (stream + 40) (u64 (len + total));;
  buf ← uload 8 (stream + 24); len ← uload 8 (stream + 40); ustore 1 (buf + len) 0;;
  size_ptr ← uload 8 (stream + 16); len ← uload 8 (stream + 40); ustore 8 size_ptr len.
(** Items of no bytes are divided by their size. *)
Definition items (r size : Z) : M (proc S) Z := if r <? 0 then mret 0 else if size =? 0 then ub else mret (r / size).
Definition fwrite (ptr size nmemb stream : Z) : M (proc S) Z :=
  let total := u64 (size * nmemb) in
  m ← uload 4 (stream + 48);
  if nonzero m then
    ok ← grow_memstream stream total;
    if ok : bool then append_memstream ptr total stream;; mret nmemb else mret 0
  else fd ← load_int stream; r ← write fd ptr total; items r size.
Definition fread (ptr size nmemb stream : Z) : M (proc S) Z :=
  m ← uload 4 (stream + 48);
  if nonzero m then mret 0 else fd ← load_int stream; r ← read fd ptr (u64 (size * nmemb)); items r size.
Definition fflush (stream : Z) : M (proc S) Z :=
  m ← uload 4 (stream + 48);
  (if nonzero m then
     buf ← uload 8 (stream + 24);
     if nonzero buf then
       len ← uload 8 (stream + 40); ustore 1 (buf + len) 0;;
       buf_ptr ← uload 8 (stream + 8); buf ← uload 8 (stream + 24); ustore 8 buf_ptr buf;;
       size_ptr ← uload 8 (stream + 16); len ← uload 8 (stream + 40); ustore 8 size_ptr len
     else mret tt
   else mret tt);;
  mret 0.
Definition open_memstream (ptr sizeloc : Z) : M (proc S) Z :=
  f ← calloc fuel 1 56;
  if f =? 0 then mret 0
  else
    ustore 4 f (-1);; ustore 8 (f + 8) ptr;; ustore 8 (f + 16) sizeloc;; ustore 8 (f + 32) 128;;
    buf ← malloc fuel 128; ustore 8 (f + 24) buf;;
    if buf =? 0 then free fuel f;; mret 0
    else
      ustore 1 buf 0;; ustore 8 (f + 40) 0;; ustore 4 (f + 48) 1;; ustore 8 ptr buf;; ustore 8 sizeloc 0;; mret f.
Definition fileno (stream : Z) : M (proc S) Z := load_int stream.
Definition fdopen (fd : Z) : M (proc S) Z :=
  f ← calloc fuel 1 56; (if nonzero f then ustore 4 f fd else mret tt);; mret f.
Definition fopen (pathname mode : Z) : M (proc S) Z :=
  w ← strchr fuel mode 119;
  flags ← (if nonzero w then mret 14 else a ← strchr fuel mode 97; mret (if nonzero a then 22 else 1));
  fd ← open pathname flags;
  if fd <? 0 then mret 0
  else f ← calloc fuel 1 56; (if nonzero f then ustore 4 f fd else close fd;; mret tt);; mret f.
Definition fclose (stream : Z) : M (proc S) Z :=
  fd ← load_int stream;
  m ← uload 4 (stream + 48);
  if nonzero m then fflush stream;; free fuel stream;; mret 0
  else free fuel stream;; r ← close fd; mret (if r =? 0 then 0 else -1).
Definition fputs (s stream : Z) : M (proc S) Z := n ← strlen fuel s; fwrite s 1 n stream;; mret 0.
(** [buf] is the local buffer of 1024 bytes. *)
Definition vfprintf (buf stream format : Z) (ap : list Z) : M (proc S) Z :=
  n ← vsnprintf fuel buf 1024 format ap;
  if n <? 0 then mret n else fwrite buf 1 n stream;; mret n.
Definition fprintf (buf stream format : Z) (ap : list Z) : M (proc S) Z := vfprintf buf stream format ap.
End stdio.

(** ** On the kernel *)

Section kernel.
Context (fuel : nat) (boot_stack_top yield_frame : Z) (regs : Registers).
#[local] Existing Instance kernel_process.

(** The kernel has no call for the number of pipe(). *)
Lemma int80_pipe a y : int80 fuel boot_stack_top yield_frame regs 22 a 0 0 0 0 0 y = Done (- ENOSYS, y).
Proof. reflexivity. Qed.

(** On this kernel pipe() always fails with ENOSYS, whatever its argument, and so
    do timerfd_create() and signalfd() for a new descriptor; nothing but errno changes. *)
Theorem pipe_users_fail fds mask (s : proc sys) :
  let failed := Done (-1, set_errno ENOSYS s) in
  let K := kernel_process fuel boot_stack_top yield_frame regs in
  @pipe sys K fds s = failed /\ @timerfd_create sys K fuel fds s = failed /\ @signalfd sys K fuel fds (-1) mask s = failed.
Proof.
  intros failed K. assert (@pipe sys K fds s = failed) as Hp.
  { unfold pipe, checked, syscall_raw, zoom, mbind, M_bind. cbn [syscall kernel_process K view proc_os_lens]. rewrite int80_pipe. by destruct s. }
  split; [done|]. split; [unfold timerfd_create; by rewrite (bind_Done _ _ _ _ _ Hp)|]. unfold signalfd. cbn [Z.eqb Pos.eqb negb].
  assert (forall (f : Z -> M (proc sys) Z), (r ← @pipe sys K fds; if r <? 0 then mret 0 else f r) s = Done (0, set_errno ENOSYS s)) as H0 by (intros f; by rewrite (bind_Done _ _ _ _ _ Hp)).
  by rewrite (bind_Done _ _ _ _ _ (H0 _)).
Qed.
End kernel.
