(* ===== verification/GuiSession.v ===== *)
(** * The demo session and the panic screen (src/src/kernel/gui.c, panic.c)

    gui_session_run() draws a window with two buttons and then turns the queued keys
    and mouse packets into the position of the pointer, clicks and the end of the
    session. With nothing queued and nothing to draw the processor halts. *)

From S2P Require Import Prelude Pmm Mem Strings Cpu Input Console Shm Vfs Devfs Printf System Machine.

(** ** The window *)

Record layout := Layout { win_x : Z; win_y : Z; bar_h : Z }.
Definition win_w : Z := 420.
Definition win_h : Z := 240.
Definition btn_w : Z := 140.
Definition btn_h : Z := 32.
Definition layout_of (fb : FBInfo) : layout :=
  let bar := 40 in
  let bar := if fi_height fb / 4 <? bar then fi_height fb / 8 else bar in
  Layout (if win_w <? fi_width fb then (fi_width fb - win_w) / 2 else 10)
         (if win_h <? fi_height fb then (fi_height fb - win_h) / 2 else 80)
         (if bar <? 24 then 24 else bar).
Definition btn1_x (l : layout) : Z := u32 (win_x l + 40).
Definition btn2_x (l : layout) : Z := u32 (win_x l + win_w - btn_w - 40).
Definition btn_y (l : layout) : Z := u32 (win_y l + win_h - 50).
Definition in_button (bx : Z) (l : layout) (x y : Z) : bool :=
  (s32 bx <=? x) && (x <? s32 (u32 (bx + btn_w))) && (s32 (btn_y l) <=? y) && (y <? s32 (u32 (btn_y l + btn_h))).

(** ** One packet of the mouse *)

(** The locals of the loop; [moved] and [redraw] are of one turn. *)
Record session := Session {
  ss_mx : Z; ss_my : Z;
  prev_buttons : Z;
  click_count : Z;
  btn1_hover : bool; btn1_press : bool; btn2_hover : bool; btn2_press : bool;
  exit_session : bool;
  mouse_moved : bool; redraw_ui : bool
}.
Definition inside (v n : Z) : Z := let v := if v <? 0 then 0 else v in if s32 n <=? v then s32 n - 1 else v.
Definition left_down (buttons : Z) : bool := nonzero (Z.land buttons 1).
Definition mouse_packet (fb : FBInfo) (s : session) (p : packet) : session :=
  let l := layout_of fb in
  let x := inside (ss_mx s + p_dx p) (fi_width fb) in
  let y := inside (ss_my s - p_dy p) (fi_height fb) in
  let moved := mouse_moved s || negb (p_dx p =? 0) || negb (p_dy p =? 0) in
  let in1 := in_button (btn1_x l) l x y in
  let in2 := in_button (btn2_x l) l x y in
  let down := left_down (p_buttons p) in
  let released := left_down (prev_buttons s) && negb down in
  let count := if in1 && released then s32 (click_count s + 1) else click_count s in
  let changed :=
    negb (Bool.eqb in1 (btn1_hover s)) || negb (Bool.eqb (in1 && down) (btn1_press s)) ||
    negb (Bool.eqb in2 (btn2_hover s)) || negb (Bool.eqb (in2 && down) (btn2_press s)) in
  Session x y (p_buttons p) count in1 (in1 && down) in2 (in2 && down)
    (exit_session s || (in2 && released)) moved (redraw_ui s || (in1 && released) || changed).
Definition new_turn (s : session) : session :=
  Session (ss_mx s) (ss_my s) (prev_buttons s) (click_count s) (btn1_hover s) (btn1_press s) (btn2_hover s) (btn2_press s)
    (exit_session s) false false.

(** ** The session *)

Section session.
Context (fuel : nat).

Definition on_screen {A} (m : M screen A) : M machine A := zoom m.
Definition on_input {A} (m : M input A) : M machine A := zoom m.
(** click_buf, a local buffer of 64 bytes. *)
Definition click_text (n : Z) : list Z :=
  match formatted (bytes_of "Total Clicks Registered: %d") [Num n] with Done t => take 63 t | _ => [] end.
Definition draw_clicks (l : layout) (n : Z) : M screen unit :=
  fb_draw_string (u32 (win_x l + 20)) (u32 (win_y l + 45 + 20)) (click_text n) 0xFFFFFF00 0xFF282838.
Definition draw_buttons (l : layout) (s : session) : M screen unit :=
  draw_ui_button (btn1_x l) (btn_y l) btn_w btn_h (Some (bytes_of "Click Me")) (btn1_hover s) (btn1_press s);;
  draw_ui_button (btn2_x l) (btn_y l) btn_w btn_h (Some (bytes_of "Exit GUI")) (btn2_hover s) (btn2_press s).
Definition draw_desktop (fb : FBInfo) (l : layout) : M screen unit :=
  fb_fill_rect 0 0 (fi_width fb) (fi_height fb) 0xFF2D2D3D;;
  fb_fill_rect 0 0 (fi_width fb) (bar_h l) 0xFF3A3A5C;;
  fb_draw_string 12 11 (bytes_of "VNL :0   Interactive GUI Environment (Double-Buffered Cursor)") 0xFFE8E8F5 0xFF3A3A5C;;
  let y := bar_h l + 20 in
  fb_draw_string 12 (u32 y) (bytes_of "Welcome to the real-time VNL GUI framework.") 0xFFE8E8F5 0xFF2D2D3D;;
  fb_draw_string 12 (u32 (y + 16)) (bytes_of "Move your mouse to control the cursor pointer smoothly.") 0xFF9A9AB8 0xFF2D2D3D;;
  fb_draw_string 12 (u32 (y + 32)) (bytes_of "Press Esc or q, or click the Exit button below to return to the shell.") 0xFF9A9AB8 0xFF2D2D3D;;
  fb_fill_rect (u32 (win_x l + 6)) (u32 (win_y l + 6)) win_w win_h 0xFF151520;;
  fb_fill_rect (win_x l) (win_y l) win_w win_h 0xFF3D3D4D;;
  fb_fill_rect (u32 (win_x l + 2)) (u32 (win_y l + 2)) (win_w - 4) (win_h - 4) 0xFF282838;;
  fb_fill_rect (u32 (win_x l + 2)) (u32 (win_y l + 2)) (win_w - 4) 28 0xFF4A4A6C;;
  fb_draw_string (u32 (win_x l + 12)) (u32 (win_y l + 10)) (bytes_of "Control Panel") 0xFFE8E8F5 0xFF4A4A6C;;
  fb_draw_string (u32 (win_x l + 20)) (u32 (win_y l + 45)) (bytes_of "Mouse input processing is fully live.") 0xFFE8E8F5 0xFF282838.

Definition exit_key (k : Z) : bool := (k =? 27) || (k =? 113) || (k =? 81).
(** while (mouse_poll(...)): the queue bounds the packets. *)
Definition drain (fb : FBInfo) (s : session) : M input session :=
  iter (Z.to_nat MOUSE_QUEUE) (fun s =>
    p ← mouse_poll;
    mret (match p with Some p => inl (mouse_packet fb s p) | None => inr s end)) s.
Definition session_turn (fb : FBInfo) (s : session) : M machine (session + unit) :=
  k ← on_input keyboard_poll;
  if (0 <=? k) && exit_key k then mret (inr tt)
  else
    s ← on_input (drain fb (new_turn s));
    (if mouse_moved s || redraw_ui s then
       on_screen hide_cursor;;
       (if redraw_ui s then on_screen (draw_clicks (layout_of fb) (click_count s));; on_screen (draw_buttons (layout_of fb) s) else mret tt);;
       on_screen (show_cursor (ss_mx s) (ss_my s))
     else block);;
    mret (if exit_session s then inr tt else inl s).
Definition session_start (fb : FBInfo) : session :=
  Session (fi_width fb / 2) (fi_height fb / 2) 0 0 false false false false false false false.
Definition gui_session_run : M machine unit :=
  ok ← on_screen fb_is_available;
  if negb ok then mret tt
  else
    fb ← on_screen fb_get_info;
    let l := layout_of fb in
    let s := session_start fb in
    on_screen (draw_desktop fb l);;
    on_screen (draw_clicks l 0);;
    on_screen (draw_buttons l s);;
    on_screen (modify (set_cursor (fun k => Cursor (s_saved_bg k) false (s_cur_x k) (s_cur_y k))));;
    on_screen (show_cursor (ss_mx s) (ss_my s));;
    on_input mouse_flush;;
    iter fuel (session_turn fb) s;;
    on_screen hide_cursor;;
    on_screen fb_console_reset.

(** ** panic.c *)

Definition VGA_WHITE : Z := 15.
Definition VGA_RED : Z := 4.
Definition panic_puts (s : list Z) : M machine unit :=
  on_screen (vga_puts (s8 <$> s));; zoom (T := ports) (serial_puts fuel s).
(** char buf[512]; the processor halts for ever. *)
Definition kpanic (fmt : list Z) (args : list arg) : M machine unit :=
  on_screen (vga_set_color VGA_WHITE VGA_RED);;
  panic_puts (nl ++ nl ++ bytes_of "*************************************" ++ nl);;
  panic_puts (bytes_of "*        VNL  KERNEL  PANIC         *" ++ nl);;
  panic_puts (bytes_of "*************************************" ++ nl);;
  match formatted fmt args with
  | Done t => panic_puts (take 511 t)
  | _ => ub
  end;;
  panic_puts (nl ++ nl ++ bytes_of "System halted. Please reboot." ++ nl);;
  block.
End session.

(** ** What the packets of the mouse do *)

(** The pointer and the buttons before and after each packet. *)
Fixpoint track (fb : FBInfo) (x y b : Z) (ps : list packet) : list (Z * Z * Z * Z) :=
  match ps with
  | [] => []
  | p :: ps =>
      let x' := inside (x + p_dx p) (fi_width fb) in
      let y' := inside (y - p_dy p) (fi_height fb) in
      (x', y', b, p_buttons p) :: track fb x' y' (p_buttons p) ps
  end.
(** The left button goes up over the button at [bx]. *)
Definition released_on (bx : Z) (l : layout) (e : Z * Z * Z * Z) : bool :=
  let '(x, y, before, after) := e in in_button bx l x y && left_down before && negb (left_down after).
Definition pointer_in (fb : FBInfo) (s : session) : Prop := 0 <= ss_mx s < fi_width fb /\ 0 <= ss_my s < fi_height fb.

Lemma inside_range v n : 0 < n < 2^31 -> 0 <= inside v n < n.
Proof. intros Hn. unfold inside. rewrite s32_small by lia. repeat case_test; to_prop; lia. Qed.
Lemma drain_folds fb ps i s : ring_rel MOUSE_QUEUE ps (s_q i) ->
  returns (drain fb s) i (fun s' i' => s' = fold_left (mouse_packet fb) ps s /\ ring_rel MOUSE_QUEUE [] (s_q i') /\ kbd_buf i' = kbd_buf i).
Proof.
  intros Hq. assert (length ps < Z.to_nat MOUSE_QUEUE)%nat as Hn by (pose proof (ring_length _ _ _ Hq); lia). unfold drain.
  generalize dependent (Z.to_nat MOUSE_QUEUE). intros n Hn. revert n s i Hq Hn. induction ps as [|p ps IH]; intros [|n] s i Hq Hn; cbn [length] in Hn; try lia;
    cbn [iter fold_left]; apply ring_pop_rel in Hq as Hp.
  - do 2 wp_step. unfold mouse_poll. do 2 wp_step. cbn beta. rewrite Hp. do 2 wp_step. by apply wp_ret.
  - destruct Hp as (r & Hp & Hr). do 2 wp_step. unfold mouse_poll. do 2 wp_step. cbn beta. rewrite Hp. do 4 wp_step.
    eapply wp_mono; [apply IH; [exact Hr|lia]|]. cbn beta. intros s' i' (? & ? & ?). by split_and!.
Qed.
(** After the packets of a turn the pointer is on the screen, the clicks are the
    releases over the first button and the session ends with one over the second. *)
Theorem packets_counted fb ps s : 0 < fi_width fb < 2^31 -> 0 < fi_height fb < 2^31 -> pointer_in fb s -> 0 <= click_count s ->
  click_count s + Z.of_nat (length ps) < 2^31 ->
  let s' := fold_left (mouse_packet fb) ps s in
  let es := track fb (ss_mx s) (ss_my s) (prev_buttons s) ps in
  pointer_in fb s' /\
  click_count s' = click_count s + Z.of_nat (length (filter (fun e => released_on (btn1_x (layout_of fb)) (layout_of fb) e = true) es)) /\
  exit_session s' = exit_session s || existsb (released_on (btn2_x (layout_of fb)) (layout_of fb)) es.
Proof.
  intros Hw Hh. revert s. induction ps as [|p ps IH]; intros s Hp H0 Hc; cbn [fold_left track].
  { split_and!; [done|cbn; lia|by rewrite orb_false_r]. }
  cbn [length] in Hc. set (s1 := mouse_packet fb s p).
  assert (pointer_in fb s1) as Hp1 by (split; by apply inside_range).
  set (hit := fun bx => in_button bx (layout_of fb) (ss_mx s1) (ss_my s1) && (left_down (prev_buttons s) && negb (left_down (p_buttons p)))).
  assert (click_count s1 = click_count s + b2z (hit (btn1_x (layout_of fb)))) as Hc1.
  { unfold hit, s1, mouse_packet. cbn [click_count ss_mx ss_my]. case_test; cbn [b2z]; [apply s32_small; lia|lia]. }
  assert (click_count s1 <= click_count s + 1 /\ 0 <= click_count s1) as [? ?] by (rewrite Hc1; destruct (hit _); cbn; lia).
  destruct (IH s1 Hp1 ltac:(lia) ltac:(lia)) as (? & Hcount & Hexit). split; [done|].
  assert (forall bx, released_on bx (layout_of fb) (inside (ss_mx s + p_dx p) (fi_width fb), inside (ss_my s - p_dy p) (fi_height fb), prev_buttons s, p_buttons p) = hit bx) as Hhit
    by (intros bx; unfold released_on, hit, s1, mouse_packet; cbn [ss_mx ss_my]; by rewrite andb_assoc).
  split.
  - rewrite Hcount, Hc1. rewrite filter_cons. case_decide as Hd; rewrite Hhit in Hd; cbn [ss_mx ss_my prev_buttons s1 mouse_packet] in *.
    + rewrite Hd. cbn [b2z length]. lia.
    + apply not_true_is_false in Hd. rewrite Hd. cbn [b2z]. lia.
  - rewrite Hexit. cbn [existsb]. rewrite Hhit, orb_assoc. done.
Qed.
Lemma packets_counted_witness :
  let fb := {| fi_addr := 0; fi_pitch := 4096; fi_width := 1024; fi_height := 768; fi_bpp := 32; fi_type := 1 |} in
  let s' := fold_left (mouse_packet fb) [Build_packet (-100) (-80) 0; Build_packet 0 0 1; Build_packet 1 0 0] (session_start fb) in
  pointer_in fb s' /\ click_count s' = 1 /\ exit_session s' = false.
Proof.
  intros fb s'. destruct (packets_counted fb [Build_packet (-100) (-80) 0; Build_packet 0 0 1; Build_packet 1 0 0] (session_start fb)) as (Hp & Hc & He);
    [cbn; lia|cbn; lia|by vm_compute|by vm_compute|by vm_compute|].
  split; [exact Hp|]. split; [unfold s'; rewrite Hc; by vm_compute|unfold s'; rewrite He; by vm_compute].
Defined.
